(** * SCD versioning helpers: a shallow embedding and its properties

    The repository keeps an append-only history of versioned rows in a
    relational table and offers helpers that create the next version of an
    entity and resolve the latest version of every entity.  This development
    embeds

    - [python/comparative_benchmark.py]: [SCDHelper], [DirectSQLHelper],
      [TimestampVersioningHelper] and [FlagVersioningHelper], written against
      a psycopg2 connection, and [seed_data];
    - [python/django_example/scd/scd_helpers.py],
      [python/django_example/repos.py] and [python/django_example/models.py],
      written against the Django ORM;
    - [python/django_example/benchmark_scd.py]: [seed_data];
    - [generate_scd_helper.py], which writes the helpers from a template;

    and proves what these helpers do to the table they are given.

    The relational store is the environment of the code.  It is modelled
    explicitly: a table is the list of its rows in insertion order, a
    connection carries the committed rows, the rows of the open transaction
    and the list of statements issued so far. *)

From Stdlib Require Import List String ZArith Bool Lia Arith.
From Stdlib Require Import DecimalString DecimalNat.
Import ListNotations.
Open Scope string_scope.
Open Scope Z_scope.

(** ** Python values and exceptions *)

(** The values psycopg2 hands over for the columns of the benchmark tables:
    [None] for SQL NULL, [int], [str], [bool] and [datetime] (counted in
    microseconds). *)
Inductive value : Type :=
| VNone
| VInt (n : Z)
| VStr (s : string)
| VBool (b : bool)
| VTime (t : Z).

Definition value_eqb (a b : value) : bool :=
  match a, b with
  | VNone, VNone => true
  | VInt x, VInt y => Z.eqb x y
  | VStr x, VStr y => String.eqb x y
  | VBool x, VBool y => Bool.eqb x y
  | VTime x, VTime y => Z.eqb x y
  | _, _ => false
  end.

(** SQL [a = b]: a comparison with NULL is unknown, and a row is kept only
    when the comparison is true. *)
Definition sql_eq (a b : value) : bool :=
  match a, b with
  | VNone, _ | _, VNone => false
  | _, _ => value_eqb a b
  end.

(** A row as [cursor.fetchone()] returns it: a tuple, read by position. *)
Definition row : Type := list value.

(** [updates: Dict[str, Any]]: a dict in insertion order. *)
Definition dict : Type := list (string * value).

(** [updates.get(key, default)] *)
Fixpoint dict_get (d : dict) (key : string) (default : value) : value :=
  match d with
  | [] => default
  | (k, v) :: d' => if String.eqb k key then v else dict_get d' key default
  end.

Definition dict_keys (d : dict) : list string := map fst d.

(** The exception classes that can leave the helpers.  [Exception] is the
    base class that the helpers raise themselves; the others are the classes
    Python and the database driver raise. *)
Inductive exc_class : Type :=
| Exception
| TypeError
| ValueError
| IndexError
| IntegrityError
| ProgrammingError
| InFailedSqlTransaction
| DoesNotExist
| MultipleObjectsReturned.

Record exn : Type := mk_exn { exn_class : exc_class; exn_msg : string }.

(** An exception is of a specific kind when its class is a proper subclass
    of [Exception]: a handler can then tell it from any other failure by its
    class. *)
Definition specific_kind (e : exn) : bool :=
  match exn_class e with
  | Exception => false
  | _ => true
  end.

Inductive outcome (A : Type) : Type :=
| Returned (a : A)
| Raised (e : exn).
Arguments Returned {A} a.
Arguments Raised {A} e.

(** ** Python lists and tuples *)

(** [l.index(x)]: the first position of [x]; [ValueError] when absent. *)
Fixpoint list_index (x : string) (l : list string) : option nat :=
  match l with
  | [] => None
  | y :: l' => if String.eqb y x then Some O
               else option_map S (list_index x l')
  end.

(** [x in l] *)
Definition list_mem (x : string) (l : list string) : bool :=
  existsb (String.eqb x) l.

(** [l[i] = v]: [IndexError] when [i] is out of range. *)
Fixpoint list_set (i : nat) (v : value) (l : list value) : option (list value) :=
  match l, i with
  | [], _ => None
  | _ :: l', O => Some (v :: l')
  | x :: l', S i' => option_map (cons x) (list_set i' v l')
  end.

(** [t[i]] on a tuple *)
Definition tuple_get (t : row) (i : nat) : option value := nth_error t i.

(** [x + 1] *)
Definition py_add_one (x : value) : option value :=
  match x with
  | VInt n => Some (VInt (n + 1))
  | VBool b => Some (VInt (Z.b2z b + 1))
  | VNone | VStr _ | VTime _ => None
  end.

(** ** The store *)

(** The catalog entry of a table: its column names in ordinal position and
    the column sets that are declared unique and not null. *)
Record schema : Type := mk_schema {
  columns : list string;
  unique_keys : list (list string)
}.

(** [CREATE TABLE jobs], [jobs_ts] and [jobs_flag] of [setup_database]. *)
Definition jobs_schema : schema :=
  mk_schema ["id"; "version"; "uid"; "status"; "rate"; "title";
             "company_id"; "contractor_id"]
            [["uid"]; ["id"; "version"]].

Definition jobs_ts_schema : schema :=
  mk_schema ["id"; "created_at"; "uid"; "status"; "rate"; "title";
             "company_id"; "contractor_id"]
            [["uid"]; ["id"; "created_at"]].

Definition jobs_flag_schema : schema :=
  mk_schema ["id"; "version"; "uid"; "is_current"; "status"; "rate"; "title";
             "company_id"; "contractor_id"]
            [["uid"]; ["id"; "version"]].

(** The value of column [c] in row [r] of a table with columns [cols]. *)
Definition field (cols : list string) (r : row) (c : string) : value :=
  match list_index c cols with
  | Some i => nth i r VNone
  | None => VNone
  end.

Definition key_of (cols : list string) (key : list string) (r : row) : list value :=
  map (field cols r) key.

Fixpoint values_eqb (a b : list value) : bool :=
  match a, b with
  | [], [] => true
  | x :: a', y :: b' => value_eqb x y && values_eqb a' b'
  | _, _ => false
  end.

Definition not_null (v : value) : bool :=
  match v with VNone => false | _ => true end.

(** The check the store makes on INSERT for one declared key. *)
Definition key_ok (cols : list string) (rows : list row) (r : row)
  (key : list string) : bool :=
  forallb not_null (key_of cols key r)
  && negb (existsb (fun r' => values_eqb (key_of cols key r') (key_of cols key r)) rows).

(** The check on INSERT: one value per column, and every declared key not
    null and not taken.  Values are stored as they are given; the types and
    lengths of the columns are not checked. *)
Definition insert_ok (s : schema) (rows : list row) (r : row) : bool :=
  Nat.eqb (List.length r) (List.length (columns s))
  && forallb (key_ok (columns s) rows r) (unique_keys s).

(** The statements the helpers issue, as they appear in the source. *)
Inductive statement : Type :=
| SqlBegin
| SqlCommit
| SelectLatestByVersion (table id : string)
| SelectLatestByCreatedAt (table id : string)
| SelectColumnNames (table : string)
| SelectMaxVersion (table id : string)
| SelectByIdVersion (table id : string) (version : value)
| UpdateClearCurrent (table id : string)
| InsertRow (table : string) (r : row)
| SelectLatestJoin (table : string)
| SelectCurrentFlag (table : string).

(** The state of the transaction of a psycopg2 connection: none open, one
    open with its own view of the rows, or one that a failed statement has
    aborted. *)
Inductive txn_status : Type :=
| Idle
| InTxn (work : list row)
| Failed.

(** A connection, seen from the one table the helper works on. *)
Record conn : Type := mk_conn {
  catalog : schema;
  committed : list row;
  txn : txn_status;
  log : list statement
}.

(** The rows a statement of this connection sees. *)
Definition visible (c : conn) : list row :=
  match txn c with
  | InTxn w => w
  | _ => committed c
  end.

(** ** Computations on a connection that may raise *)

Definition M (A : Type) : Type := conn -> outcome A * conn.

Definition ret {A} (a : A) : M A := fun c => (Returned a, c).

Definition raise {A} (e : exn) : M A := fun c => (Raised e, c).

Definition bind {A B} (m : M A) (k : A -> M B) : M B :=
  fun c => match m c with
           | (Returned a, c') => k a c'
           | (Raised e, c') => (Raised e, c')
           end.

Declare Scope py_scope.
Delimit Scope py_scope with py.
Notation "x <- m ;; k" := (bind m (fun x => k))
  (at level 61, m at next level, right associativity) : py_scope.
Notation "m ;;; k" := (bind m (fun _ => k))
  (at level 61, right associativity) : py_scope.
Open Scope py_scope.

Definition in_failed_transaction : exn :=
  mk_exn InFailedSqlTransaction
    "current transaction is aborted, commands ignored until end of transaction block".

Definition with_log (c : conn) (s : statement) (t : txn_status) : conn :=
  mk_conn (catalog c) (committed c) t (log c ++ [s]).

(** [cursor.execute] of a SELECT followed by the fetch: the first statement
    on an idle connection opens a transaction; an aborted transaction
    refuses every statement. *)
Definition execute_query {A} (s : statement) (q : schema -> list row -> A) : M A :=
  fun c => match txn c with
           | Failed => (Raised in_failed_transaction, with_log c s Failed)
           | _ => (Returned (q (catalog c) (visible c)),
                   with_log c s (InTxn (visible c)))
           end.

(** [cursor.execute] of an UPDATE (and of [BEGIN], which changes no row). *)
Definition execute_update (s : statement) (f : schema -> list row -> list row) : M unit :=
  fun c => match txn c with
           | Failed => (Raised in_failed_transaction, with_log c s Failed)
           | _ => (Returned tt, with_log c s (InTxn (f (catalog c) (visible c))))
           end.

Definition unique_violation : exn :=
  mk_exn IntegrityError "duplicate key value violates unique constraint".

(** [cursor.execute] of an INSERT: the store checks the declared keys and
    aborts the transaction when one is violated. *)
Definition execute_insert (table : string) (r : row) : M unit :=
  fun c => match txn c with
           | Failed => (Raised in_failed_transaction, with_log c (InsertRow table r) Failed)
           | _ => if insert_ok (catalog c) (visible c) r
                  then (Returned tt, with_log c (InsertRow table r) (InTxn (visible c ++ [r])))
                  else (Raised unique_violation, with_log c (InsertRow table r) Failed)
           end.

(** [cursor.execute("COMMIT")]: the rows of the open transaction become the
    committed rows; an aborted transaction is rolled back. *)
Definition execute_commit : M unit :=
  fun c => match txn c with
           | InTxn w => (Returned tt, mk_conn (catalog c) w Idle (log c ++ [SqlCommit]))
           | _ => (Returned tt, mk_conn (catalog c) (committed c) Idle (log c ++ [SqlCommit]))
           end.

(** [conn.commit()]: nothing is sent when no transaction is open. *)
Definition conn_commit : M unit :=
  fun c => match txn c with
           | Idle => (Returned tt, c)
           | _ => execute_commit c
           end.

(** ** Queries *)

(** [a] sorts strictly before [b] under [ORDER BY ... DESC]: NULL first,
    then the larger value. *)
Definition desc_before (a b : value) : bool :=
  match a, b with
  | VNone, VNone => false
  | VNone, _ => true
  | VInt x, VInt y => Z.ltb y x
  | VTime x, VTime y => Z.ltb y x
  | _, _ => false
  end.

(** [ORDER BY col DESC LIMIT 1] over [rows]: among rows that compare equal
    the store is free to pick; the earliest stored one stands for its
    choice. *)
Fixpoint first_desc (key : row -> value) (best : option row) (rows : list row) : option row :=
  match rows with
  | [] => best
  | r :: rows' =>
      match best with
      | None => first_desc key (Some r) rows'
      | Some b => first_desc key (if desc_before (key r) (key b) then Some r else Some b) rows'
      end
  end.

Definition where_id (cols : list string) (id : string) (rows : list row) : list row :=
  filter (fun r => sql_eq (field cols r "id") (VStr id)) rows.

(** [SELECT * FROM t WHERE id = %s ORDER BY col DESC LIMIT 1], [fetchone()] *)
Definition select_latest (col id : string) (s : schema) (rows : list row) : option row :=
  first_desc (fun r => field (columns s) r col) None (where_id (columns s) id rows).

(** Truth value of what [fetchone()] returned: [None] and the empty tuple
    are false. *)
Definition fetched (o : option row) : option row :=
  match o with
  | Some [] => None
  | Some r => Some r
  | None => None
  end.

(** ** Python operations that may raise, outside the store *)

Definition lift {A} (o : outcome A) : M A :=
  fun c => (o, c).

Definition py_index (x : string) (l : list string) : outcome nat :=
  match list_index x l with
  | Some i => Returned i
  | None => Raised (mk_exn ValueError ("'" ++ x ++ "' is not in list"))
  end.

Definition py_list_set (i : nat) (v : value) (l : list value) : outcome (list value) :=
  match list_set i v l with
  | Some l' => Returned l'
  | None => Raised (mk_exn IndexError "list assignment index out of range")
  end.

Definition py_tuple_get (t : row) (i : nat) : outcome value :=
  match tuple_get t i with
  | Some v => Returned v
  | None => Raised (mk_exn IndexError "tuple index out of range")
  end.

(** [o[i]] where [o] is what [fetchone()] returned: subscripting [None]
    raises [TypeError]. *)
Definition py_subscript (o : option row) (i : nat) : outcome value :=
  match o with
  | None => Raised (mk_exn TypeError "'NoneType' object is not subscriptable")
  | Some t => py_tuple_get t i
  end.

Definition py_plus_one (x : value) : outcome value :=
  match py_add_one x with
  | Some v => Returned v
  | None => Raised (mk_exn TypeError "unsupported operand type(s) for +")
  end.

(** ** More of the store: aggregates, joins, named inserts *)

Definition value_eq_dec (a b : value) : {a = b} + {a <> b}.
Proof.
  decide equality; try apply Z.eq_dec; try apply string_dec; apply bool_dec.
Defined.

(** [MAX(col)]: NULL is skipped, and the result is NULL when nothing is
    left. *)
Definition sql_max2 (acc v : value) : value :=
  match acc, v with
  | VNone, _ => v
  | _, VNone => acc
  | VInt a, VInt b => VInt (Z.max a b)
  | VTime a, VTime b => VTime (Z.max a b)
  | _, _ => acc
  end.

Definition sql_max (vs : list value) : value := fold_left sql_max2 vs VNone.

(** [COALESCE(v, d)] *)
Definition coalesce (v d : value) : value :=
  match v with VNone => d | _ => v end.

(** [SELECT id, MAX(col) FROM t GROUP BY id]: one line per distinct id (the
    rows with a NULL id form one group). *)
Definition group_max (col : string) (cols : list string) (rows : list row)
  : list (value * value) :=
  map (fun g =>
         (g, sql_max (map (fun r => field cols r col)
                          (filter (fun r => if value_eq_dec (field cols r "id") g
                                            then true else false) rows))))
      (nodup value_eq_dec (map (fun r => field cols r "id") rows)).

(** [SELECT t1.* FROM t t1 INNER JOIN (SELECT id, MAX(col) ... GROUP BY id) t2
     ON t1.id = t2.id AND t1.col = t2.max] *)
Definition latest_join (col : string) (s : schema) (rows : list row) : list row :=
  flat_map (fun t1 =>
              map (fun _ => t1)
                  (filter (fun t2 => sql_eq (field (columns s) t1 "id") (fst t2)
                                     && sql_eq (field (columns s) t1 col) (snd t2))
                          (group_max col (columns s) rows)))
           rows.

(** [INSERT INTO t (cols) VALUES (vals)]: the row in the order of the
    catalog; a column that is not named is NULL. *)
Definition named_row (s : schema) (cols : list string) (vals : list value) : row :=
  map (field cols vals) (columns s).

Definition bad_insert : exn :=
  mk_exn ProgrammingError "INSERT does not fit the table".

Definition execute_insert_into (table : string) (cols : list string) (vals : list value)
  : M unit :=
  fun c =>
    if Nat.eqb (List.length cols) (List.length vals)
       && forallb (fun k => list_mem k (columns (catalog c))) cols
    then execute_insert table (named_row (catalog c) cols vals) c
    else match txn c with
         | Failed => (Raised in_failed_transaction,
                      with_log c (InsertRow table vals) Failed)
         | _ => (Raised bad_insert, with_log c (InsertRow table vals) Failed)
         end.

(** Writing one column of a stored row. *)
Fixpoint replace_nth (i : nat) (v : value) (l : list value) : list value :=
  match l, i with
  | [], _ => []
  | _ :: l', O => v :: l'
  | x :: l', S i' => x :: replace_nth i' v l'
  end.

Definition set_field (cols : list string) (c : string) (v : value) (r : row) : row :=
  match list_index c cols with
  | Some i => replace_nth i v r
  | None => r
  end.

(** ** [class SCDHelper] *)
Module SCDHelper.

(** Lines 51-55: [for col, value in updates.items(): ...] *)
Fixpoint apply_updates (columns : list string) (updates : dict)
  (new_data : list value) : outcome (list value) :=
  match updates with
  | [] => Returned new_data
  | (col, value) :: rest =>
      if list_mem col columns then
        match py_index col columns with
        | Returned col_idx =>
            match py_list_set col_idx value new_data with
            | Returned new_data' => apply_updates columns rest new_data'
            | Raised e => Raised e
            end
        | Raised e => Raised e
        end
      else apply_updates columns rest new_data
  end.

(** Lines 33-59 of [create_new_version]: read the latest row and derive
    the data of the new version.  [new_uid] is [str(uuid.uuid4())]. *)
Definition derive_new_version (table id_value : string) (updates : dict)
  (new_uid : string) : M (list string * list value) :=
  latest <- execute_query (SelectLatestByVersion table id_value)
                          (select_latest "version" id_value) ;;
  match fetched latest with
  | None => raise (mk_exn Exception ("No record found with id " ++ id_value))
  | Some latest =>
      columns <- execute_query (SelectColumnNames table) (fun s _ => columns s) ;;
      let new_data := latest in
      version_idx <- lift (py_index "version" columns) ;;
      old_version <- lift (py_tuple_get latest version_idx) ;;
      next_version <- lift (py_plus_one old_version) ;;
      new_data <- lift (py_list_set version_idx next_version new_data) ;;
      new_data <- lift (apply_updates columns updates new_data) ;;
      uid_idx <- lift (py_index "uid" columns) ;;
      new_data <- lift (py_list_set uid_idx (VStr new_uid) new_data) ;;
      ret (columns, new_data)
  end.

(** Lines 61-65: insert the new version and commit.  The method ends
    without a [return] statement: it returns [None]. *)
Definition insert_new_version (table : string) (columns : list string)
  (new_data : list value) : M (option row) :=
  execute_insert_into table columns new_data ;;;
  conn_commit ;;;
  ret None.

(** [SCDHelper.create_new_version(table, id_value, updates)] *)
Definition create_new_version (table id_value : string) (updates : dict)
  (new_uid : string) : M (option row) :=
  derived <- derive_new_version table id_value updates new_uid ;;
  insert_new_version table (fst derived) (snd derived).

(** [SCDHelper.get_latest_versions(table)] *)
Definition get_latest_versions (table : string) : M (list row) :=
  execute_query (SelectLatestJoin table) (latest_join "version").

End SCDHelper.

(** ** [class TimestampVersioningHelper] *)
Module TimestampVersioningHelper.

Definition ts_columns : list string :=
  ["id"; "created_at"; "uid"; "status"; "rate"; "title"; "company_id";
   "contractor_id"].

(** [create_new_version(table, id_value, updates)]; [now] is the reading
    of [datetime.now()] and [new_uid] is [str(uuid.uuid4())]. *)
Definition create_new_version (table id_value : string) (updates : dict)
  (now : Z) (new_uid : string) : M (option row) :=
  latest <- execute_query (SelectLatestByCreatedAt (table ++ "_ts") id_value)
                          (select_latest "created_at" id_value) ;;
  match fetched latest with
  | None => raise (mk_exn Exception ("No record found with id " ++ id_value))
  | Some latest =>
      latest3 <- lift (py_tuple_get latest 3) ;;
      latest4 <- lift (py_tuple_get latest 4) ;;
      latest5 <- lift (py_tuple_get latest 5) ;;
      latest6 <- lift (py_tuple_get latest 6) ;;
      latest7 <- lift (py_tuple_get latest 7) ;;
      execute_insert_into (table ++ "_ts") ts_columns
        [VStr id_value; VTime now; VStr new_uid;
         dict_get updates "status" latest3;
         dict_get updates "rate" latest4;
         latest5; latest6; latest7] ;;;
      conn_commit ;;;
      ret None
  end.

(** [get_latest_versions(table)] *)
Definition get_latest_versions (table : string) : M (list row) :=
  execute_query (SelectLatestJoin (table ++ "_ts")) (latest_join "created_at").

End TimestampVersioningHelper.

(** ** [class FlagVersioningHelper] *)
Module FlagVersioningHelper.

Definition flag_columns : list string :=
  ["id"; "version"; "uid"; "is_current"; "status"; "rate"; "title";
   "company_id"; "contractor_id"].

(** [UPDATE t SET is_current = false WHERE id = %s AND is_current = true] *)
Definition clear_current_row (id : string) (s : schema) (r : row) : row :=
  if sql_eq (field (columns s) r "id") (VStr id)
     && sql_eq (field (columns s) r "is_current") (VBool true)
  then set_field (columns s) "is_current" (VBool false) r
  else r.

Definition clear_current (id : string) (s : schema) (rows : list row) : list row :=
  map (clear_current_row id s) rows.

(** [SELECT COALESCE(MAX(version), 0) FROM t WHERE id = %s],
    [fetchone()[0]] *)
Definition select_max_version (id : string) (s : schema) (rows : list row) : value :=
  coalesce (sql_max (map (fun r => field (columns s) r "version")
                         (where_id (columns s) id rows)))
           (VInt 0).

(** [SELECT * FROM t WHERE id = %s AND version = %s], [fetchone()] *)
Definition select_by_id_version (id : string) (version : value) (s : schema)
  (rows : list row) : option row :=
  hd_error (filter (fun r => sql_eq (field (columns s) r "version") version)
                   (where_id (columns s) id rows)).

(** [create_new_version(table, id_value, updates)] *)
Definition create_new_version (table id_value : string) (updates : dict)
  (new_uid : string) : M (option row) :=
  execute_update SqlBegin (fun _ rows => rows) ;;;
  execute_update (UpdateClearCurrent (table ++ "_flag") id_value)
                 (clear_current id_value) ;;;
  max_version <- execute_query (SelectMaxVersion (table ++ "_flag") id_value)
                               (select_max_version id_value) ;;
  original <- execute_query (SelectByIdVersion (table ++ "_flag") id_value max_version)
                            (select_by_id_version id_value max_version) ;;
  next_version <- lift (py_plus_one max_version) ;;
  original4 <- lift (py_subscript original 4) ;;
  original5 <- lift (py_subscript original 5) ;;
  original6 <- lift (py_subscript original 6) ;;
  original7 <- lift (py_subscript original 7) ;;
  original8 <- lift (py_subscript original 8) ;;
  execute_insert_into (table ++ "_flag") flag_columns
    [VStr id_value; next_version; VStr new_uid; VBool true;
     dict_get updates "status" original4;
     dict_get updates "rate" original5;
     original6; original7; original8] ;;;
  execute_commit ;;;
  conn_commit ;;;
  ret None.

(** [get_latest_versions(table)]:
    [SELECT * FROM t WHERE is_current = true] *)
Definition select_current (s : schema) (rows : list row) : list row :=
  filter (fun r => sql_eq (field (columns s) r "is_current") (VBool true)) rows.

Definition get_latest_versions (table : string) : M (list row) :=
  execute_query (SelectCurrentFlag (table ++ "_flag")) select_current.

End FlagVersioningHelper.

(** ** Seeded data: one iteration of the loop of [seed_data] *)

Definition seed_job (job_id uid : string) : row :=
  [VStr job_id; VInt 1; VStr uid; VStr "active"; VInt 100; VStr "Engineer";
   VStr "comp1"; VStr "cont1"].

Definition seed_job_ts (job_id : string) (now : Z) (uid : string) : row :=
  [VStr job_id; VTime now; VStr uid; VStr "active"; VInt 100; VStr "Engineer";
   VStr "comp1"; VStr "cont1"].

Definition seed_job_flag (job_id uid : string) : row :=
  [VStr job_id; VInt 1; VStr uid; VBool true; VStr "active"; VInt 100;
   VStr "Engineer"; VStr "comp1"; VStr "cont1"].

(** An idle connection on a table with the given committed rows. *)
Definition connect (s : schema) (rows : list row) : conn :=
  mk_conn s rows Idle [].

(** ** The Django example: [models.Job], [scd_helpers.py], [repos.py] *)
Module Django.

Section Orm.
(** The Python type of a [FloatField]: the helpers only copy such a
    value, so the type is left open. *)
Variable float : Type.

(** A [Job] instance.  [uid] is the primary key and can be [None] on an
    instance that is not saved yet. *)
Record Job : Type := mk_Job {
  uid : option string;
  id : string;
  version : Z;
  status : string;
  rate : float;
  title : string;
  company_id : string;
  contractor_id : string
}.

(** The table [jobs] in insertion order.  The connection is in
    autocommit mode: every statement is committed as it runs. *)
Definition table : Type := list Job.

Definition DM (A : Type) : Type := table -> outcome A * table.

Definition dret {A} (a : A) : DM A := fun t => (Returned a, t).
Definition draise {A} (e : exn) : DM A := fun t => (Raised e, t).
Definition dbind {A B} (m : DM A) (k : A -> DM B) : DM B :=
  fun t => match m t with
           | (Returned a, t') => k a t'
           | (Raised e, t') => (Raised e, t')
           end.

(** A queryset is lazy: it is a query, run against the table when it is
    evaluated. *)
Definition queryset : Type := table -> list Job.

(** [model.objects.all()] *)
Definition objects_all : queryset := fun t => t.

(** [qs.filter(...)] with a condition on the row itself *)
Definition qs_filter (p : Job -> bool) (qs : queryset) : queryset :=
  fun t => filter p (qs t).

Definition pk_eqb (a b : option string) : bool :=
  match a, b with
  | Some x, Some y => String.eqb x y
  | None, None => true
  | _, _ => false
  end.

(** [.order_by('-version').first()]: the row with the largest version;
    among equal versions the store is free to pick, and the earliest
    stored one stands for its choice. *)
Fixpoint first_by_version_desc (best : option Job) (rows : list Job) : option Job :=
  match rows with
  | [] => best
  | r :: rows' =>
      match best with
      | None => first_by_version_desc (Some r) rows'
      | Some b => first_by_version_desc
                    (if Z.ltb (version b) (version r) then Some r else Some b) rows'
      end
  end.

(** [model.objects.filter(id=id).order_by('-version').first()] *)
Definition latest_of (id_ : string) (t : table) : option Job :=
  first_by_version_desc None (filter (fun r => String.eqb (id r) id_) t).

(** [Max('version')] over the rows of one id: the subquery
    [model.objects.filter(id=OuterRef('id')).values('id')
       .annotate(max_version=Max('version')).values('max_version')]
    for the outer row [outer]; it has no line when no row has that id. *)
Definition subq (t : table) (outer : Job) : option Z :=
  match filter (fun r => String.eqb (id r) (id outer)) t with
  | [] => None
  | r :: rows => Some (fold_left Z.max (map version rows) (version r))
  end.

(** [latest_scd_queryset(model, base_queryset=None)].  [t0] is the table
    at the time of the call: [base_queryset or model.objects.all()]
    evaluates the base queryset, and an empty one counts as false. *)
Definition latest_scd_queryset (t0 : table) (base_queryset : option queryset)
  : queryset :=
  let base_queryset :=
    match base_queryset with
    | Some qs => match qs t0 with
                 | [] => objects_all
                 | _ :: _ => qs
                 end
    | None => objects_all
    end in
  fun t => filter (fun r => match subq t r with
                            | Some max_version => Z.eqb (version r) max_version
                            | None => false
                            end)
                  (base_queryset t).

(** [repos.find_active_jobs_by_company(company_id)] *)
Definition find_active_jobs_by_company (t0 : table) (company : string) : queryset :=
  qs_filter (fun r => String.eqb (status r) "active"
                      && String.eqb (company_id r) company)
            (latest_scd_queryset t0 None).

(** [model.objects.get(pk=...)] *)
Definition objects_get (pk : option string) : DM Job :=
  fun t => match filter (fun r => pk_eqb (uid r) pk) t with
           | [r] => (Returned r, t)
           | [] => (Raised (mk_exn DoesNotExist
                              "Job matching query does not exist."), t)
           | _ :: _ :: _ => (Raised (mk_exn MultipleObjectsReturned
                                       "get() returned more than one Job"), t)
           end.

Definition set_uid (u : option string) (j : Job) : Job :=
  mk_Job u (id j) (version j) (status j) (rate j) (title j)
         (company_id j) (contractor_id j).

Definition set_version (v : Z) (j : Job) : Job :=
  mk_Job (uid j) (id j) v (status j) (rate j) (title j)
         (company_id j) (contractor_id j).

(** [instance.save()] of an instance that was loaded from the table.
    When the instance has no primary key, the field is asked for one
    ([Field.get_pk_value_on_save], here [pk_on_save]).  With a primary
    key, [UPDATE ... WHERE uid = pk] is tried first and rewrites the row
    that has it; when it matches no row, or without a primary key, the
    instance is inserted, and the store refuses a NULL primary key. *)
Definition save (pk_on_save : option string) (obj : Job) : DM Job :=
  let pk_val := match uid obj with
                | Some u => Some u
                | None => pk_on_save
                end in
  let obj := set_uid pk_val obj in
  fun t =>
    match pk_val with
    | Some _ =>
        if existsb (fun r => pk_eqb (uid r) pk_val) t
        then (Returned obj,
              map (fun r => if pk_eqb (uid r) pk_val then obj else r) t)
        else (Returned obj, (t ++ [obj])%list)
    | None =>
        (Raised (mk_exn IntegrityError
                   "null value in column uid violates not-null constraint"), t)
    end.

(** Lines 20-26 of [create_new_scd_version]: read the latest version and
    prepare the new instance.  [update_fn] receives the instance and
    sets attributes on it. *)
Definition prepare_new_version (id_ : string) (update_fn : Job -> Job) : DM Job :=
  fun t =>
    match latest_of id_ t with
    | None => (Raised (mk_exn Exception "Not found"), t)
    | Some latest =>
        dbind (objects_get (uid latest))
              (fun new_version =>
                 let new_version := set_uid None new_version in
                 let new_version := set_version (version new_version + 1) new_version in
                 let new_version := update_fn new_version in
                 dret new_version) t
    end.

(** [create_new_scd_version(model, id, update_fn)] *)
Definition create_new_scd_version (pk_on_save : option string) (id_ : string)
  (update_fn : Job -> Job) : DM Job :=
  dbind (prepare_new_version id_ update_fn)
        (fun new_version =>
           dbind (save pk_on_save new_version)
                 (fun new_version => dret new_version)).

End Orm.

Arguments mk_Job {float}.
Arguments uid {float}.
Arguments id {float}.
Arguments version {float}.
Arguments status {float}.
Arguments rate {float}.
Arguments title {float}.
Arguments company_id {float}.
Arguments contractor_id {float}.
Arguments dret {float A}.
Arguments draise {float A}.
Arguments dbind {float A B}.
Arguments latest_of {float}.
Arguments subq {float}.
Arguments latest_scd_queryset {float}.
Arguments find_active_jobs_by_company {float}.
Arguments objects_get {float}.
Arguments objects_all {float}.
Arguments qs_filter {float}.
Arguments save {float}.
Arguments set_uid {float}.
Arguments set_version {float}.
Arguments prepare_new_version {float}.
Arguments create_new_scd_version {float}.
Arguments first_by_version_desc {float}.

End Django.
(** ** Well-formed tables and partial updates *)

Definition is_str (v : value) : bool :=
  match v with VStr _ => true | _ => false end.

Definition is_int (v : value) : bool :=
  match v with VInt _ => true | _ => false end.

Definition is_time (v : value) : bool :=
  match v with VTime _ => true | _ => false end.

(** A table versioned by a counter: it has the columns [id], [version] and
    [uid], and declares [uid] and [(id, version)] unique, as [jobs] does. *)
Definition counter_schema (s : schema) : Prop :=
  In "id" (columns s) /\ In "version" (columns s) /\ In "uid" (columns s)
  /\ unique_keys s = [["uid"]; ["id"; "version"]].

(** A row of such a table: one value per column, a string id and an integer
    version (the declared types and NOT NULL of the key columns). *)
Definition counter_row (s : schema) (r : row) : bool :=
  Nat.eqb (List.length r) (List.length (columns s))
  && is_str (field (columns s) r "id")
  && is_int (field (columns s) r "version").

(** The entity [id] exists: some row carries this id. *)
Definition exists_id (cols : list string) (id : string) (rows : list row) : Prop :=
  exists r, In r rows /\ field cols r "id" = VStr id.

(** No stored row has the uid [u]. *)
Definition fresh_uid (cols : list string) (u : string) (rows : list row) : Prop :=
  forall r, In r rows -> field cols r "uid" <> VStr u.

(** The value a partial update gives to column [c]: the one written last by
    the loop over the items.  (The keys of a dict are distinct, so this is
    the only value for [c].) *)
Fixpoint dict_last (d : dict) (c : string) : option value :=
  match d with
  | [] => None
  | (k, v) :: d' =>
      match dict_last d' c with
      | Some w => Some w
      | None => if String.eqb k c then Some v else None
      end
  end.

(** The value of column [c] in the next version of [latest]: the new uid in
    [uid]; the value of the partial update in a column it names; the
    incremented counter in [version]; the value of [latest] elsewhere. *)
Definition next_value (cols : list string) (latest : row) (updates : dict)
  (new_uid : string) (c : string) : value :=
  if String.eqb c "uid" then VStr new_uid
  else match dict_last updates c with
       | Some v => v
       | None =>
           if String.eqb c "version"
           then match field cols latest "version" with
                | VInt n => VInt (n + 1)
                | v => v
                end
           else field cols latest c
       end.

(** ** Calls on which the helpers are specified *)

(** [SCDHelper.create_new_version] is called on a connection that can run
    statements, for an entity that exists in a well-formed table versioned
    by a counter, with a uid that no stored row has. *)
Definition scd_call_ready (c : conn) (id new_uid : string) : Prop :=
  txn c <> Failed
  /\ counter_schema (catalog c)
  /\ forallb (counter_row (catalog c)) (visible c) = true
  /\ exists_id (columns (catalog c)) id (visible c)
  /\ fresh_uid (columns (catalog c)) new_uid (visible c).

(** The partial update leaves the identity and the counter to the helper. *)
Definition keeps_identity (updates : dict) : Prop :=
  ~ In "id" (dict_keys updates) /\ ~ In "version" (dict_keys updates).

(** The instance [create_new_scd_version] prepares from the latest one
    before it calls [update_fn]. *)
Definition next_instance {float : Type} (latest : Django.Job float) : Django.Job float :=
  Django.set_version (Django.version latest + 1) (Django.set_uid None latest).

(** [create_new_scd_version] is called for an entity that exists in a table
    whose primary keys are distinct, and [update_fn] gives the new instance
    the primary key [u], which no stored row has. *)
Definition django_call_ready {float : Type} (t : Django.table float) (i : string)
  (update_fn : Django.Job float -> Django.Job float) (u : string) : Prop :=
  NoDup (map Django.uid t)
  /\ (exists r, In r t /\ Django.id r = i)
  /\ (forall latest, Django.latest_of i t = Some latest ->
                     Django.uid (update_fn (next_instance latest)) = Some u)
  /\ (forall x, In x t -> Django.uid x <> Some u).

(** ** The statements of the specification, for one call *)

(** "It returns that newly inserted row." *)
Definition returns_inserted_row (result : outcome (option row) * conn) : Prop :=
  exists new_row,
    fst result = Returned (Some new_row) /\ In new_row (committed (snd result)).

(** "The version counter [is] incremented by one": the call appends a row
    whose version is that of the latest row of [id] in [before], plus one. *)
Definition appends_incremented_version (s : schema) (before : list row) (id : string)
  (result : outcome (option row) * conn) : Prop :=
  exists latest v new_row,
    select_latest "version" id s before = Some latest
    /\ field (columns s) latest "version" = VInt v
    /\ committed (snd result) = (before ++ [new_row])%list
    /\ field (columns s) new_row "version" = VInt (v + 1).

(** ** The scenarios of the specification *)

Definition job1_v1 : row := seed_job "job1" "uid-1".

Definition jobs_with_job1 : conn := connect jobs_schema [job1_v1].

(** [{status: "updated", rate: 150}] *)
Definition scenario_update : dict := [("status", VStr "updated"); ("rate", VInt 150)].

Definition django_job1_v1 : Django.Job Z :=
  Django.mk_Job (Some "job1_v1") "job1" 1 "active" 100 "Engineer" "comp1" "cont1".

(** An [update_fn] that sets [status], [rate] and the primary key. *)
Definition django_scenario_update (new_uid : string) (j : Django.Job Z) : Django.Job Z :=
  Django.mk_Job (Some new_uid) (Django.id j) (Django.version j) "updated" 150
                (Django.title j) (Django.company_id j) (Django.contractor_id j).

(** The entity [id] has no row. *)
Definition absent_id (cols : list string) (id : string) (rows : list row) : Prop :=
  forall r, In r rows -> field cols r "id" <> VStr id.

(** "This failure is surfaced to the caller as that specific error kind":
    the call raises an exception of a specific kind. *)
Definition raises_specific_kind {A S : Type} (result : outcome A * S) : Prop :=
  exists e, fst result = Raised e /\ specific_kind e = true.

(** ** The Flag strategy *)

(** [FlagVersioningHelper.create_new_version] is called on the table
    [jobs_flag], under the conditions of [scd_call_ready]. *)
Definition flag_call_ready (c : conn) (id new_uid : string) : Prop :=
  catalog c = jobs_flag_schema /\ scd_call_ready c id new_uid.

(** The rows of [id] that are marked current. *)
Definition current_rows (cols : list string) (id : string) (rows : list row) : list row :=
  filter (fun r => sql_eq (field cols r "is_current") (VBool true))
         (where_id cols id rows).

(** Every entity of the table has exactly one row marked current. *)
Definition one_current_per_id (cols : list string) (rows : list row) : Prop :=
  forall id, exists_id cols id rows -> List.length (current_rows cols id rows) = 1%nat.

(** The row [FlagVersioningHelper.create_new_version] inserts when
    [original] is the row it fetched. *)
Definition flag_next_row (id : string) (v : Z) (new_uid : string) (updates : dict)
  (original : row) : row :=
  [VStr id; VInt (v + 1); VStr new_uid; VBool true;
   dict_get updates "status" (nth 4 original VNone);
   dict_get updates "rate" (nth 5 original VNone);
   nth 6 original VNone; nth 7 original VNone; nth 8 original VNone].

(** ** Sequences of calls *)

(** [for x in xs: f(x)], as the benchmark drives the helpers. *)
Fixpoint for_each {A B : Type} (f : A -> M B) (xs : list A) : M unit :=
  match xs with
  | [] => ret tt
  | x :: xs' => f x ;;; for_each f xs'
  end.

(** The arguments of one call of [create_new_version]: the id, the partial
    update and the uid that [uuid.uuid4()] produces in that call. *)
Definition call : Type := string * dict * string.

Definition call_id (k : call) : string := fst (fst k).
Definition call_updates (k : call) : dict := snd (fst k).
Definition call_uid (k : call) : string := snd k.

(** Every call is for an entity of the table, and the uids are new: distinct
    from one another and from the stored ones. *)
Definition calls_ready (cols : list string) (rows : list row) (calls : list call) : Prop :=
  (forall k, In k calls -> exists_id cols (call_id k) rows)
  /\ NoDup (map call_uid calls)
  /\ (forall k, In k calls -> fresh_uid cols (call_uid k) rows).

Definition flag_create (table : string) (k : call) : M (option row) :=
  FlagVersioningHelper.create_new_version table (call_id k) (call_updates k) (call_uid k).

(** An idle connection on a well-formed table [jobs_flag]. *)
Definition flag_table_ok (c : conn) : Prop :=
  catalog c = jobs_flag_schema
  /\ txn c = Idle
  /\ forallb (counter_row jobs_flag_schema) (committed c) = true.

(** Two seeded entities under the Flag strategy, and three calls. *)
Definition jobs_flag_seeded : conn :=
  connect jobs_flag_schema [seed_job_flag "job1" "uid-1"; seed_job_flag "job2" "uid-2"].

Definition three_calls : list call :=
  [("job1", scenario_update, "uid-3");
   ("job2", [("rate", VInt 120)], "uid-4");
   ("job1", [("status", VStr "closed")], "uid-5")].

(** ** Rows that stay as they are *)






(** ** The Timestamp strategy *)

(** A row of [jobs_ts]: one value per column, a string id and a timestamp
    in [created_at]. *)
Definition ts_row (s : schema) (r : row) : bool :=
  Nat.eqb (List.length r) (List.length (columns s))
  && is_str (field (columns s) r "id")
  && is_time (field (columns s) r "created_at").

(** An idle connection on a well-formed table [jobs_ts]. *)
Definition ts_table_ok (c : conn) : Prop :=
  catalog c = jobs_ts_schema
  /\ txn c = Idle
  /\ forallb (ts_row jobs_ts_schema) (committed c) = true.

(** The row [TimestampVersioningHelper.create_new_version] inserts when
    [latest] is the row it fetched. *)
Definition ts_next_row (id : string) (now : Z) (new_uid : string) (updates : dict)
  (latest : row) : row :=
  [VStr id; VTime now; VStr new_uid;
   dict_get updates "status" (nth 3 latest VNone);
   dict_get updates "rate" (nth 4 latest VNone);
   nth 5 latest VNone; nth 6 latest VNone; nth 7 latest VNone].

(** The arguments of one call of the Timestamp helper, with the reading of
    the clock in that call. *)
Definition ts_call : Type := string * dict * Z * string.

Definition ts_call_id (k : ts_call) : string := fst (fst (fst k)).
Definition ts_call_updates (k : ts_call) : dict := snd (fst (fst k)).
Definition ts_call_now (k : ts_call) : Z := snd (fst k).
Definition ts_call_uid (k : ts_call) : string := snd k.

Definition ts_create (table : string) (k : ts_call) : M (option row) :=
  TimestampVersioningHelper.create_new_version table (ts_call_id k) (ts_call_updates k)
    (ts_call_now k) (ts_call_uid k).

(** ** Discriminators in insertion order *)



(** The discriminators (column [col]) of the rows of [id], in insertion
    order. *)
Definition discriminators (cols : list string) (col id : string) (rows : list row)
  : list value :=
  map (fun r => field cols r col) (where_id cols id rows).


(** The clock readings of the calls increase strictly and are later than
    every stored timestamp. *)
Fixpoint clock_advances (stored : list Z) (readings : list Z) : Prop :=
  match readings with
  | [] => True
  | now :: rest => (forall t, In t stored -> t < now) /\ clock_advances (now :: stored) rest
  end.

Definition stored_times (cols : list string) (rows : list row) : list Z :=
  flat_map (fun r => match field cols r "created_at" with
                     | VTime t => [t]
                     | _ => []
                     end) rows.

(** ** Sequences of calls of the Django helper *)


(** The arguments of one call of [create_new_scd_version], with the primary
    key that its [update_fn] gives to the new instance. *)
Definition django_call (float : Type) : Type :=
  string * (Django.Job float -> Django.Job float) * string.


(** [update_fn] leaves [id] and [version] as the helper prepared them and
    sets the primary key. *)
Definition django_call_keeps {float : Type} (k : django_call float) : Prop :=
  forall j,
    Django.id (snd (fst k) j) = Django.id j
    /\ Django.version (snd (fst k) j) = Django.version j
    /\ Django.uid (snd (fst k) j) = Some (snd k).







(** ** Tables with one row per discriminator *)

(** No two rows share [(id, col)]: the declared key of the benchmark
    tables. *)
Definition unique_discriminator (cols : list string) (col : string) (rows : list row)
  : Prop :=
  NoDup (map (fun r => (field cols r "id", field cols r col)) rows).

(** No two rows of the Django table share [(id, version)]. *)
Definition unique_id_version {float : Type} (t : Django.table float) : Prop :=
  NoDup (map (fun r => (Django.id r, Django.version r)) t).

(** The jobs of [setup_test_data] in [test_scd.py]: two versions of [job1]
    and one of [job2]. *)
Definition test_jobs : Django.table Z :=
  [Django.mk_Job (Some "job1_v1") "job1" 1 "extended" 100 EmptyString "comp1" "cont1";
   Django.mk_Job (Some "job1_v2") "job1" 2 "active" 100 EmptyString "comp1" "cont1";
   Django.mk_Job (Some "job2_v1") "job2" 1 "active" 100 EmptyString "comp1" "cont2"].


(** ** A concurrent writer *)

(** Another connection commits the row [r] while this one is between two
    statements: the row is in the store, and the next statement of this
    connection sees it. *)
Definition concurrent_insert (r : row) : M unit :=
  fun c => (Returned tt,
            mk_conn (catalog c) (committed c ++ [r])%list
                    match txn c with
                    | InTxn w => InTxn (w ++ [r])%list
                    | Idle => Idle
                    | Failed => Failed
                    end
                    (log c)).

(** [SCDHelper.create_new_version] when another writer commits [other]
    between the read of the latest row and the INSERT. *)
Definition create_new_version_racing (table id_value : string) (updates : dict)
  (new_uid : string) (other : row) : M (option row) :=
  derived <- SCDHelper.derive_new_version table id_value updates new_uid ;;
  concurrent_insert other ;;;
  SCDHelper.insert_new_version table (fst derived) (snd derived).

(** [create_new_scd_version] when another writer saves [other] between the
    read of the latest row and [save()]. *)
Definition create_new_scd_version_racing {float : Type} (pk_on_save : option string)
  (id_ : string) (update_fn : Django.Job float -> Django.Job float)
  (other : Django.Job float) : Django.DM float (Django.Job float) :=
  Django.dbind (Django.prepare_new_version id_ update_fn)
    (fun new_version =>
       Django.dbind (fun t => (Returned tt, (t ++ [other])%list))
         (fun _ => Django.dbind (Django.save pk_on_save new_version)
                     (fun new_version => Django.dret new_version))).

(** The number of read-derive-write attempts a log shows: each attempt
    starts by reading the latest row. *)
Definition is_read (s : statement) : bool :=
  match s with
  | SelectLatestByVersion _ _ | SelectLatestByCreatedAt _ _ => true
  | _ => false
  end.

Definition attempts (lg : list statement) : nat := List.length (filter is_read lg).

(** "The engine retries the whole read-derive-write sequence": the call
    made a second attempt. *)
Definition retried (before : conn) (result : outcome (option row) * conn) : Prop :=
  (attempts (log before) + 2 <= attempts (log (snd result)))%nat.

(** The other writer created the next version of [id] first. *)
Definition advances_entity (c : conn) (id : string) (other : row) : Prop :=
  exists latest v,
    select_latest "version" id (catalog c) (visible c) = Some latest
    /\ field (columns (catalog c)) latest "version" = VInt v
    /\ field (columns (catalog c)) other "id" = VStr id
    /\ field (columns (catalog c)) other "version" = VInt (v + 1).

Definition django_advances_entity {float : Type} (t : Django.table float) (i : string)
  (other : Django.Job float) (u : string) : Prop :=
  exists latest u',
    Django.latest_of i t = Some latest
    /\ Django.id other = i
    /\ Django.version other = Django.version latest + 1
    /\ Django.uid other = Some u' /\ u' <> u.

(** Version 2 of [job1], written by another connection. *)
Definition job1_v2_other : row :=
  [VStr "job1"; VInt 2; VStr "uid-9"; VStr "paused"; VInt 100; VStr "Engineer";
   VStr "comp1"; VStr "cont1"].

Definition django_job1_v2_other : Django.Job Z :=
  Django.mk_Job (Some "job1_v2_other") "job1" 2 "paused" 100 "Engineer" "comp1" "cont1".

(** ** Comparing the strategies *)

(** The columns the three tables have in common, the noise of the
    strategies ([uid], [version], [created_at], [is_current]) left out. *)
Definition content_columns : list string :=
  ["id"; "status"; "rate"; "title"; "company_id"; "contractor_id"].

(** The content of a row. *)
Definition content (cols : list string) (r : row) : list value :=
  map (field cols r) content_columns.

(** The content of the next version of an entity whose current content is
    [old], under the partial update [updates]. *)
Definition updated_content (id : string) (updates : dict) (old : list value)
  : list value :=
  [VStr id;
   dict_get updates "status" (nth 1 old VNone);
   dict_get updates "rate" (nth 2 old VNone);
   nth 3 old VNone; nth 4 old VNone; nth 5 old VNone].

(** The partial update is a dict (its keys are distinct) and names no
    column of [jobs] other than [status] and [rate]. *)
Definition status_rate_only (updates : dict) : Prop :=
  NoDup (dict_keys updates)
  /\ forall k, In k (dict_keys updates) -> In k (columns jobs_schema) ->
               k = "status" \/ k = "rate".

(** An idle connection on a well-formed table [jobs]. *)
Definition jobs_table_ok (c : conn) : Prop :=
  catalog c = jobs_schema
  /\ txn c = Idle
  /\ forallb (counter_row jobs_schema) (committed c) = true.

(** Under the Flag strategy, the rows marked current are the rows with the
    largest version: for every entity, exactly one row is marked current,
    and it is the row of the largest version. *)
Definition flag_current_is_latest (rows : list row) : Prop :=
  forall id r,
    In r (current_rows (columns jobs_flag_schema) id rows)
    <-> select_latest "version" id jobs_flag_schema rows = Some r.

(** The three tables agree on the content of the current row of every
    entity. *)
Definition same_current_content (jobs jobs_ts jobs_flag : list row) : Prop :=
  forall id,
    option_map (content (columns jobs_schema))
               (select_latest "version" id jobs_schema jobs)
    = option_map (content (columns jobs_ts_schema))
                 (select_latest "created_at" id jobs_ts_schema jobs_ts)
    /\ option_map (content (columns jobs_schema))
                  (select_latest "version" id jobs_schema jobs)
       = option_map (content (columns jobs_flag_schema))
                    (select_latest "version" id jobs_flag_schema jobs_flag).

(** The three tables hold corresponding histories: each is well formed,
    with one row per discriminator, and they agree on the current content of
    every entity. *)
Definition corresponding (cj ct cf : conn) : Prop :=
  jobs_table_ok cj
  /\ unique_discriminator (columns jobs_schema) "version" (committed cj)
  /\ ts_table_ok ct
  /\ unique_discriminator (columns jobs_ts_schema) "created_at" (committed ct)
  /\ flag_table_ok cf
  /\ unique_discriminator (columns jobs_flag_schema) "version" (committed cf)
  /\ flag_current_is_latest (committed cf)
  /\ same_current_content (committed cj) (committed ct) (committed cf).

(** One logical call, issued to the helper of each strategy. *)
Definition scd_create (table : string) (k : ts_call) : M (option row) :=
  SCDHelper.create_new_version table (ts_call_id k) (ts_call_updates k) (ts_call_uid k).

Definition flag_create_k (table : string) (k : ts_call) : M (option row) :=
  FlagVersioningHelper.create_new_version table (ts_call_id k) (ts_call_updates k)
    (ts_call_uid k).

(** The contents of the rows a bulk query returned that satisfy [p]. *)
Definition contents_where (p : list value -> bool) (cols : list string)
  (result : list row) : list (list value) :=
  filter p (map (content cols) result).

(** What a bulk query returned. *)
Definition bulk_result (r : outcome (list row) * conn) : list row :=
  match fst r with
  | Returned rows => rows
  | Raised _ => []
  end.

(** One seeded entity in the table of each strategy. *)
Definition jobs_ts_with_job1 : conn :=
  connect jobs_ts_schema [seed_job_ts "job1" 1000 "uid-1"].

Definition jobs_flag_with_job1 : conn :=
  connect jobs_flag_schema [seed_job_flag "job1" "uid-1"].

(** A partial update that names [title], and one that names [status] and
    [rate], each with the reading of the clock and the uid of the call. *)
Definition title_call : ts_call := ("job1", [("title", VStr "Manager")], 2000, "uid-2").

Definition scenario_call : ts_call := ("job1", scenario_update, 2000, "uid-2").

(** ** [INSERT ... SELECT] *)

(** The rows of one INSERT statement are checked and stored one after the
    other; the statement fails as a whole when one of them is refused. *)
Fixpoint insert_rows (s : schema) (rows : list row) (new_rows : list row)
  : option (list row) :=
  match new_rows with
  | [] => Some rows
  | r :: rest => if insert_ok s rows r
                 then insert_rows s (rows ++ [r])%list rest
                 else None
  end.

(** [cursor.execute] of [INSERT INTO t (cols) SELECT ...] with the
    parameters [params]: the SELECT reads the rows the connection sees, and
    the lines it yields are inserted.  The log shows the statement with its
    parameters. *)
Definition execute_insert_select (table : string) (params : list value)
  (cols : list string) (q : schema -> list row -> list (list value)) : M unit :=
  fun c =>
    let lines := q (catalog c) (visible c) in
    match txn c with
    | Failed => (Raised in_failed_transaction,
                 with_log c (InsertRow table params) Failed)
    | _ =>
        if forallb (fun k => list_mem k (columns (catalog c))) cols
           && forallb (fun vals => Nat.eqb (List.length cols) (List.length vals)) lines
        then match insert_rows (catalog c) (visible c)
                               (map (named_row (catalog c) cols) lines) with
             | Some rows' => (Returned tt,
                              with_log c (InsertRow table params) (InTxn rows'))
             | None => (Raised unique_violation,
                        with_log c (InsertRow table params) Failed)
             end
        else (Raised bad_insert, with_log c (InsertRow table params) Failed)
    end.

(** ** [class DirectSQLHelper] *)
Module DirectSQLHelper.

Definition direct_columns : list string :=
  ["id"; "version"; "uid"; "status"; "rate"; "title"; "company_id";
   "contractor_id"].

(** [SELECT COALESCE(MAX(version), 0) FROM t WHERE id = %s],
    [fetchone()[0]] *)
Definition select_max_version (id : string) (s : schema) (rows : list row) : value :=
  coalesce (sql_max (map (fun r => field (columns s) r "version")
                         (where_id (columns s) id rows)))
           (VInt 0).

(** [CASE WHEN %s IS NOT NULL THEN %s ELSE col END], the same parameter
    in both places *)
Definition case_not_null (param col : value) : value :=
  match param with
  | VNone => col
  | _ => param
  end.

(** Lines 103-108: [SELECT id, %s, %s, CASE ..., CASE ..., title,
    company_id, contractor_id FROM t WHERE id = %s AND version = %s] *)
Definition select_next_version (new_version : value) (new_uid : string)
  (status rate : value) (id_value : string) (max_version : value)
  (s : schema) (rows : list row) : list (list value) :=
  map (fun r => [field (columns s) r "id"; new_version; VStr new_uid;
                 case_not_null status (field (columns s) r "status");
                 case_not_null rate (field (columns s) r "rate");
                 field (columns s) r "title";
                 field (columns s) r "company_id";
                 field (columns s) r "contractor_id"])
      (filter (fun r => sql_eq (field (columns s) r "version") max_version)
              (where_id (columns s) id_value rows)).

(** [', '.join([f"{k} = %s" for k in updates.keys()])] *)
Definition update_clause (updates : dict) : string :=
  String.concat ", " (map (fun k => k ++ " = %s") (dict_keys updates)).

(** [DirectSQLHelper.create_new_version(table, id_value, updates)];
    [new_uid] is [str(uuid.uuid4())].  [update_clause] and [update_values]
    are computed and not used. *)
Definition create_new_version (table id_value : string) (updates : dict)
  (new_uid : string) : M (option row) :=
  max_version <- execute_query (SelectMaxVersion table id_value)
                               (select_max_version id_value) ;;
  new_version <- lift (py_plus_one max_version) ;;
  let update_clause := update_clause updates in
  let update_values := map snd updates in
  let status := dict_get updates "status" VNone in
  let rate := dict_get updates "rate" VNone in
  execute_insert_select table
    [new_version; VStr new_uid; status; status; rate; rate;
     VStr id_value; max_version]
    direct_columns
    (select_next_version new_version new_uid status rate id_value max_version) ;;;
  conn_commit ;;;
  ret None.

(** [DirectSQLHelper.get_latest_versions(table)] *)
Definition get_latest_versions (table : string) : M (list row) :=
  execute_query (SelectLatestJoin table) (latest_join "version").

End DirectSQLHelper.

(** ** What a call leaves behind *)

(** [m], started in a state that satisfies [P], ends with an outcome and a
    state that satisfy [Q]. *)
Definition triple {A} (P : conn -> Prop) (m : M A) (Q : outcome A -> conn -> Prop)
  : Prop :=
  forall c, P c -> Q (fst (m c)) (snd (m c)).

(** The connection is inside a transaction of its own, has committed
    nothing since [c0], and the rows it works on satisfy [K]. *)
Definition working (c0 : conn) (K : list row -> Prop) (c : conn) : Prop :=
  catalog c = catalog c0 /\ committed c = committed c0
  /\ exists w, txn c = InTxn w /\ K w.

(** The call was abandoned: nothing is committed, and the transaction is
    left open, or aborted when the store refused a statement. *)
Definition abandoned (c0 : conn) (e : exn) (c : conn) : Prop :=
  catalog c = catalog c0 /\ committed c = committed c0 /\ txn c <> Idle
  /\ (exn_class e = IntegrityError -> txn c = Failed).

(** A step of a helper: it goes on working, or the call is abandoned. *)
Definition step_post {A} (c0 : conn) (K : A -> list row -> Prop) (o : outcome A)
  (c : conn) : Prop :=
  match o with
  | Returned a => working c0 (K a) c
  | Raised e => abandoned c0 e c
  end.

(** The call is over: it has committed rows that satisfy [K] and the
    connection is idle, or it was abandoned. *)
Definition call_post {A} (c0 : conn) (K : A -> list row -> Prop) (o : outcome A)
  (c : conn) : Prop :=
  match o with
  | Returned a => catalog c = catalog c0 /\ txn c = Idle /\ K a (committed c)
  | Raised e => abandoned c0 e c
  end.
(** A Python operation between two statements: it raises no error of the
    store. *)
Definition python_error {A} (o : outcome A) : Prop :=
  forall e, o = Raised e -> exn_class e <> IntegrityError.

(** ** The Direct SQL strategy *)

(** The row [DirectSQLHelper.create_new_version] inserts when [latest] is
    the row of version [v] that its SELECT reads. *)
Definition direct_next_row (v : Z) (new_uid : string) (updates : dict) (latest : row)
  : row :=
  [nth 0 latest VNone; VInt (v + 1); VStr new_uid;
   DirectSQLHelper.case_not_null (dict_get updates "status" VNone) (nth 3 latest VNone);
   DirectSQLHelper.case_not_null (dict_get updates "rate" VNone) (nth 4 latest VNone);
   nth 5 latest VNone; nth 6 latest VNone; nth 7 latest VNone].

(** The statements one call of [DirectSQLHelper.create_new_version]
    issues when the largest version of the entity is [v]. *)
Definition direct_issued (table id : string) (v : Z) (new_uid : string) (updates : dict)
  : list statement :=
  [SelectMaxVersion table id;
   InsertRow table [VInt (v + 1); VStr new_uid;
                    dict_get updates "status" VNone; dict_get updates "status" VNone;
                    dict_get updates "rate" VNone; dict_get updates "rate" VNone;
                    VStr id; VInt v];
   SqlCommit].

(** A connection that can run statements on a well-formed table [jobs]
    with one row per [(id, version)]. *)
Definition jobs_ready (c : conn) : Prop :=
  catalog c = jobs_schema
  /\ txn c <> Failed
  /\ forallb (counter_row jobs_schema) (visible c) = true
  /\ unique_discriminator (columns jobs_schema) "version" (visible c).

(** No value of the partial update is [None]. *)
Definition no_none (updates : dict) : Prop :=
  forall k, In (k, VNone) updates -> False.

(** ** An aborted transaction *)

(** The call was refused because the transaction of the connection is
    aborted: it raised the error of the driver and changed nothing. *)
Definition refused {A} (c : conn) (result : outcome A * conn) : Prop :=
  fst result = Raised in_failed_transaction
  /\ committed (snd result) = committed c
  /\ txn (snd result) = Failed.

(** The connection after [SCDHelper.create_new_version] was given a uid
    that a stored row has. *)
Definition jobs_after_duplicate_uid : conn :=
  snd (SCDHelper.create_new_version "jobs" "job1" scenario_update "uid-1" jobs_with_job1).

(** A connection that can run statements on a well-formed table [jobs_ts]
    with one row per [(id, created_at)]. *)
Definition ts_ready (c : conn) : Prop :=
  catalog c = jobs_ts_schema
  /\ txn c <> Failed
  /\ forallb (ts_row jobs_ts_schema) (visible c) = true
  /\ unique_discriminator (columns jobs_ts_schema) "created_at" (visible c).

(** ** More of the Django example *)

(** [repos.find_active_jobs_by_contractor(contractor_id)] *)
Definition find_active_jobs_by_contractor {float : Type} (t0 : Django.table float)
  (contractor : string) : Django.queryset float :=
  Django.qs_filter (fun r => String.eqb (Django.status r) "active"
                             && String.eqb (Django.contractor_id r) contractor)
                   (Django.latest_scd_queryset t0 None).

(** A queryset of the model: every row it yields is a row of the table. *)
Definition queryset_of_model {float : Type} (qs : Django.queryset float) : Prop :=
  forall t r, In r (qs t) -> In r t.

(** [Job.objects.filter(company_id=company)] *)
Definition jobs_of_company {float : Type} (company : string) : Django.queryset float :=
  Django.qs_filter (fun r => String.eqb (Django.company_id r) company) Django.objects_all.


(** ** [models.Timelog], [models.PaymentLineItem] and their queries *)

Module Repos.

Section Models.
Variable float : Type.

(** A [Timelog] instance.  [time_start] and [time_end] are counted in
    microseconds; [job_uid] is the column of the foreign key [job], which
    refers to [Job.uid]: to one version of the job. *)
Record Timelog : Type := mk_Timelog {
  tl_uid : option string;
  tl_id : string;
  tl_version : Z;
  tl_duration : float;
  tl_time_start : Z;
  tl_time_end : Z;
  tl_type : string;
  tl_job_uid : string
}.

(** A [PaymentLineItem] instance; [job_uid] and [timelog_uid] are the
    columns of its foreign keys. *)
Record PaymentLineItem : Type := mk_PaymentLineItem {
  pli_uid : option string;
  pli_id : string;
  pli_version : Z;
  pli_job_uid : string;
  pli_timelog_uid : string;
  pli_amount : float;
  pli_status : string
}.

(** The three tables of the example. *)
Record database : Type := mk_database {
  jobs : Django.table float;
  timelogs : list Timelog;
  payment_line_items : list PaymentLineItem
}.

Section Latest.
(** [latest_scd_queryset(model)] for any model with the fields [id] and
    [version]. *)
Variable model : Type.
Variable id_of : model -> string.
Variable version_of : model -> Z.

(** The subquery: [Max('version')] over the rows with the id of the outer
    row. *)
Definition subq (t : list model) (outer : model) : option Z :=
  match filter (fun r => String.eqb (id_of r) (id_of outer)) t with
  | [] => None
  | r :: rows => Some (fold_left Z.max (map version_of rows) (version_of r))
  end.

(** [model.objects.all().filter(version=Subquery(subq))] *)
Definition latest_scd_queryset (t : list model) : list model :=
  filter (fun r => match subq t r with
                   | Some max_version => Z.eqb (version_of r) max_version
                   | None => false
                   end) t.

End Latest.

(** The join a lookup through a foreign key makes: the rows of [target]
    whose primary key is [key]. *)
Definition joined {A : Type} (pk : A -> option string) (key : string) (target : list A)
  : list A :=
  filter (fun x => Django.pk_eqb (pk x) (Some key)) target.

(** [repos.find_timelogs_by_contractor_and_period(contractor_id, from_dt,
    to_dt)]: one line per latest timelog and job it is joined with. *)
Definition find_timelogs_by_contractor_and_period (contractor_id : string)
  (from_dt to_dt : Z) (db : database) : list Timelog :=
  flat_map
    (fun tl =>
       flat_map
         (fun job =>
            if String.eqb (Django.contractor_id job) contractor_id
               && Z.leb from_dt (tl_time_start tl)
               && Z.leb (tl_time_end tl) to_dt
            then [tl] else [])
         (joined (@Django.uid float) (tl_job_uid tl) (jobs db)))
    (latest_scd_queryset Timelog tl_id tl_version (timelogs db)).

(** [repos.find_line_items_by_contractor_and_period(contractor_id,
    from_dt, to_dt)] *)
Definition find_line_items_by_contractor_and_period (contractor_id : string)
  (from_dt to_dt : Z) (db : database) : list PaymentLineItem :=
  flat_map
    (fun pli =>
       flat_map
         (fun job =>
            flat_map
              (fun tl =>
                 if String.eqb (Django.contractor_id job) contractor_id
                    && Z.leb from_dt (tl_time_start tl)
                    && Z.leb (tl_time_end tl) to_dt
                 then [pli] else [])
              (joined tl_uid (pli_timelog_uid pli) (timelogs db)))
         (joined (@Django.uid float) (pli_job_uid pli) (jobs db)))
    (latest_scd_queryset PaymentLineItem pli_id pli_version (payment_line_items db)).

(** The database after the table [jobs] was replaced. *)
Definition with_jobs (db : database) (t : Django.table float) : database :=
  mk_database t (timelogs db) (payment_line_items db).

End Models.

Arguments mk_Timelog {float}.
Arguments tl_uid {float}.
Arguments tl_id {float}.
Arguments tl_version {float}.
Arguments tl_duration {float}.
Arguments tl_time_start {float}.
Arguments tl_time_end {float}.
Arguments tl_type {float}.
Arguments tl_job_uid {float}.
Arguments mk_PaymentLineItem {float}.
Arguments pli_uid {float}.
Arguments pli_id {float}.
Arguments pli_version {float}.
Arguments pli_job_uid {float}.
Arguments pli_timelog_uid {float}.
Arguments pli_amount {float}.
Arguments pli_status {float}.
Arguments mk_database {float}.
Arguments jobs {float}.
Arguments timelogs {float}.
Arguments payment_line_items {float}.
Arguments subq {model}.
Arguments latest_scd_queryset {model}.
Arguments find_timelogs_by_contractor_and_period {float}.
Arguments find_line_items_by_contractor_and_period {float}.
Arguments with_jobs {float}.

End Repos.

(** The row is the latest version of its entity: no row of the table with
    its id has a larger version. *)
Definition is_latest {model : Type} (id_of : model -> string) (version_of : model -> Z)
  (t : list model) (r : model) : Prop :=
  In r t /\ forall r', In r' t -> id_of r' = id_of r -> version_of r' <= version_of r.

(** The data of [setup_test_data] in [test_scd.py], the clock reading
    [now] being 10 hours, in microseconds. *)
Definition hour : Z := 3600000000.

Definition test_database : Repos.database Z :=
  Repos.mk_database test_jobs
    [Repos.mk_Timelog (Some "tl1_v1") "tl1" 1 1 (8 * hour) (9 * hour) "work" "job1_v2";
     Repos.mk_Timelog (Some "tl1_v2") "tl1" 2 1 (8 * hour) (9 * hour) "work" "job1_v2";
     Repos.mk_Timelog (Some "tl2_v1") "tl2" 1 1 (7 * hour) (8 * hour) "meeting" "job2_v1"]
    [Repos.mk_PaymentLineItem (Some "pli1_v1") "pli1" 1 "job1_v2" "tl1_v2" 100 "pending";
     Repos.mk_PaymentLineItem (Some "pli1_v2") "pli1" 2 "job1_v2" "tl1_v2" 120 "paid"].

(** An [update_fn] that hands the job over to another contractor, under a
    new primary key. *)
Definition django_move_contractor (new_uid contractor : string) (j : Django.Job Z)
  : Django.Job Z :=
  Django.mk_Job (Some new_uid) (Django.id j) (Django.version j) (Django.status j)
                (Django.rate j) (Django.title j) (Django.company_id j) contractor.

(** A new version of the timelog [tl1], moved out of the period of the
    tests. *)
Definition tl1_v3_moved : Repos.Timelog Z :=
  Repos.mk_Timelog (Some "tl1_v3") "tl1" 3 1 (100 * hour) (101 * hour) "work" "job1_v2".

(** ** [seed_data] of the comparative benchmark *)

(** The rows of the three tables of the benchmark. *)
Record benchmark_tables : Type := mk_tables {
  t_jobs : list row;
  t_jobs_ts : list row;
  t_jobs_flag : list row
}.

(** [f"job{i}"] *)
Definition job_id (i : nat) : string :=
  "job" ++ NilEmpty.string_of_uint (Nat.to_uint i).

(** One iteration of the loop of [seed_data], on the rows of the open
    transaction.  [uuid k] is the result of the [k]-th call of
    [uuid.uuid4()] and [now i] the reading of [datetime.now()] in iteration
    [i]. *)
Definition seed_iteration (uuid : nat -> string) (now : nat -> Z) (i : nat)
  (w : benchmark_tables) : outcome benchmark_tables :=
  let job_id := job_id i in
  let uid := uuid (3 * i)%nat in
  let job := seed_job job_id uid in
  if insert_ok jobs_schema (t_jobs w) job then
    let job_ts := seed_job_ts job_id (now i) (uuid (3 * i + 1)%nat) in
    if insert_ok jobs_ts_schema (t_jobs_ts w) job_ts then
      let job_flag := seed_job_flag job_id (uuid (3 * i + 2)%nat) in
      if insert_ok jobs_flag_schema (t_jobs_flag w) job_flag then
        Returned (mk_tables (t_jobs w ++ [job])%list
                            (t_jobs_ts w ++ [job_ts])%list
                            (t_jobs_flag w ++ [job_flag])%list)
      else Raised unique_violation
    else Raised unique_violation
  else Raised unique_violation.

(** [for i in range(count): ...] *)
Fixpoint seed_loop (uuid : nat -> string) (now : nat -> Z) (indices : list nat)
  (w : benchmark_tables) : outcome benchmark_tables :=
  match indices with
  | [] => Returned w
  | i :: rest =>
      match seed_iteration uuid now i w with
      | Returned w' => seed_loop uuid now rest w'
      | Raised e => Raised e
      end
  end.

(** [seed_data(count)], from the stored tables to the stored tables: the
    function works on a connection of its own, empties the three tables,
    inserts the rows and commits at the end; when a statement raises,
    nothing was committed. *)
Definition seed_data (count : nat) (uuid : nat -> string) (now : nat -> Z)
  (stored : benchmark_tables) : outcome unit * benchmark_tables :=
  let truncated := mk_tables [] [] [] in
  match seed_loop uuid now (seq 0 count) truncated with
  | Returned w => (Returned tt, w)
  | Raised e => (Raised e, stored)
  end.

(** The tables [seed_data(count)] leaves. *)
Definition seeded (count : nat) (uuid : nat -> string) (now : nat -> Z)
  : benchmark_tables :=
  mk_tables
    (map (fun i => seed_job (job_id i) (uuid (3 * i)%nat)) (seq 0 count))
    (map (fun i => seed_job_ts (job_id i) (now i) (uuid (3 * i + 1)%nat)) (seq 0 count))
    (map (fun i => seed_job_flag (job_id i) (uuid (3 * i + 2)%nat)) (seq 0 count)).

(** [uuid.uuid4()] does not repeat itself during the [n] first calls. *)
Definition uuids_distinct (n : nat) (uuid : nat -> string) : Prop :=
  forall a b, (a < n)%nat -> (b < n)%nat -> uuid a = uuid b -> a = b.

(** A sequence of uuids for the examples. *)
Definition uuid_of_nat (k : nat) : string :=
  "uuid-" ++ NilEmpty.string_of_uint (Nat.to_uint k).

(** ** [generate_scd_helper.py] *)

Module Generator.

(** A relative path, as the list of its components: what [os.path.join]
    builds from them. *)
Definition path : Type := list string.

Definition path_eqb (p q : path) : bool :=
  if list_eq_dec string_dec p q then true else false.

(** [os.path.dirname] *)
Definition dirname (p : path) : path := removelast p.

(** The exceptions that can leave the script. *)
Inductive error : Type :=
| TemplateNotFound (name : string)
| TemplateFailure (message : string)
| FileExistsError (p : path)
| FileNotFoundError (p : path)
| IsADirectoryError (p : path)
| SystemExit (code : Z).

(** The working directory and the standard output: the directories and
    the files below the working directory, and the lines printed so far. *)
Record world : Type := mk_world {
  dirs : list path;
  files : list (path * string);
  stdout : list string
}.

Definition result (A : Type) : Type := (A + error)%type.

Definition G (A : Type) : Type := world -> result A * world.

Definition gret {A} (a : A) : G A := fun w => (inl a, w).

Definition graise {A} (e : error) : G A := fun w => (inr e, w).

Definition gbind {A B} (m : G A) (k : A -> G B) : G B :=
  fun w => match m w with
           | (inl a, w') => k a w'
           | (inr e, w') => (inr e, w')
           end.

Fixpoint lookup (p : path) (fs : list (path * string)) : option string :=
  match fs with
  | [] => None
  | (q, content) :: fs' => if path_eqb q p then Some content else lookup p fs'
  end.

Definition is_dir (p : path) (w : world) : bool :=
  match p with
  | [] => true
  | _ => existsb (path_eqb p) (dirs w)
  end.

Definition is_file (p : path) (w : world) : bool :=
  match lookup p (files w) with
  | Some _ => true
  | None => false
  end.

(** [env.get_template(name)] with [FileSystemLoader('.')]: the source of
    the template is read from the working directory. *)
Definition get_template (name : string) : G string :=
  fun w => match lookup [name] (files w) with
           | Some source => (inl source, w)
           | None => (inr (TemplateNotFound name), w)
           end.

(** [os.makedirs(name, exist_ok=True)] for a directory directly below
    the working directory. *)
Definition makedirs (name : string) : G unit :=
  fun w => if is_file [name] w then (inr (FileExistsError [name]), w)
           else if is_dir [name] w then (inl tt, w)
           else (inl tt, mk_world (dirs w ++ [[name]])%list (files w) (stdout w)).

(** [with open(p, 'w') as f: f.write(content)] *)
Definition write_file (p : path) (content : string) : G unit :=
  fun w => if is_dir p w then (inr (IsADirectoryError p), w)
           else if is_dir (dirname p) w
                then (inl tt,
                      mk_world (dirs w)
                               ((p, content)
                                  :: filter (fun f => negb (path_eqb (fst f) p)) (files w))
                               (stdout w))
                else (inr (FileNotFoundError p), w).

(** [print(line)] *)
Definition print (line : string) : G unit :=
  fun w => (inl tt, mk_world (dirs w) (files w) (stdout w ++ [line])%list).

(** [sys.exit(code)] *)
Definition sys_exit {A} (code : Z) : G A := graise (SystemExit code).

(** The path as [print] shows it. *)
Definition show_path (p : path) : string := String.concat "/" p.

Section Generate.
(** [template.render(target=target)] for a template with the given
    source: what jinja2 makes of it is left open. *)
Variable render : string -> string -> result string.

(** [generate(target)] *)
Definition generate (target : string) : G unit :=
  gbind (get_template "scd_helper_template.jinja") (fun template =>
  gbind (fun w => (render template target, w)) (fun rendered =>
  gbind (makedirs "scd") (fun _ =>
  gbind (if String.eqb target "django"
         then gret ["python"; "django_example"; "scd"; "scd_helpers.py"]
         else if String.eqb target "gorm"
              then gret ["Go"; "scd"; "scd_helpers.go"]
              else gbind (print "Unknown target. Supported: django, gorm")
                         (fun _ => sys_exit 1))
        (fun output_file =>
  gbind (write_file output_file rendered) (fun _ =>
  print ("Generated " ++ show_path output_file ++ " for " ++ target)))))).

(** The body of [if __name__ == "__main__"]; [argv] is [sys.argv]. *)
Definition main (argv : list string) : G unit :=
  if negb (Nat.eqb (List.length argv) 2)
  then gbind (print "Usage: python generate_scd_helper.py <target>") (fun _ =>
       gbind (print "Targets: django, gorm") (fun _ =>
       sys_exit 1))
  else generate (nth 1 argv EmptyString).

End Generate.

(** The file the script writes for a target it supports. *)
Definition output_file_of (target : string) : option path :=
  if String.eqb target "django"
  then Some ["python"; "django_example"; "scd"; "scd_helpers.py"]
  else if String.eqb target "gorm"
       then Some ["Go"; "scd"; "scd_helpers.go"]
       else None.

End Generator.

(** A working directory that holds the template and the package of the
    Django example, and a renderer for the examples. *)
Definition repo_world : Generator.world :=
  Generator.mk_world
    [["python"]; ["python"; "django_example"]; ["python"; "django_example"; "scd"]]
    [(["scd_helper_template.jinja"], "{{ target }} helpers")]
    [].

Definition render_example (source target : string) : Generator.result string :=
  inl (target ++ " helpers").

(** ** The two helpers that write to [jobs] *)

(** A call of [create_new_version] on the table [jobs], made through
    [SCDHelper] or through [DirectSQLHelper], as [run_benchmarks] makes them
    on the same connection. *)
Inductive jobs_call : Type :=
| ViaSCDHelper (k : call)
| ViaDirectSQLHelper (k : call).

Definition run_jobs_call (table : string) (k : jobs_call) : M (option row) :=
  match k with
  | ViaSCDHelper k =>
      SCDHelper.create_new_version table (call_id k) (call_updates k) (call_uid k)
  | ViaDirectSQLHelper k =>
      DirectSQLHelper.create_new_version table (call_id k) (call_updates k) (call_uid k)
  end.

(** The partial updates given to [SCDHelper] leave [id] and [version] to
    the helper. *)
Definition scd_calls_keep_identity (calls : list jobs_call) : Prop :=
  forall k, In (ViaSCDHelper k) calls -> keeps_identity (call_updates k).

(** The versions of every entity count up by one from 1: its rows have
    the versions 1, 2, ... in insertion order. *)
Definition counts_from_one (cols : list string) (rows : list row) : Prop :=
  forall id,
    discriminators cols "version" id rows
    = map (fun n => VInt (Z.of_nat n)) (seq 1 (List.length (where_id cols id rows))).

(** Calls of the benchmark: the update of its closures, through both
    helpers, and an update that names [version] through [DirectSQLHelper]. *)
Definition mixed_calls : list jobs_call :=
  [ViaSCDHelper ("job1", scenario_update, "uid-2");
   ViaDirectSQLHelper ("job1", [("version", VInt 7); ("rate", VInt 90)], "uid-3");
   ViaDirectSQLHelper ("job9", scenario_update, "uid-4");
   ViaSCDHelper ("job1", [("title", VStr "Manager")], "uid-5")].

(** ** [benchmark_scd.py]: [seed_data] *)

Module BenchmarkScd.

(** The exceptions that can leave [seed_data]. *)
Inductive error : Type :=
| KeyError (key : string)
| DatabaseIntegrityError.

Definition database : Type := Repos.database Z.

Definition DB (A : Type) : Type := database -> (A + error) * database.

Definition sret {A} (a : A) : DB A := fun db => (inl a, db).

Definition sraise {A} (e : error) : DB A := fun db => (inr e, db).

Definition sbind {A B} (m : DB A) (k : A -> DB B) : DB B :=
  fun db => match m db with
            | (inl a, db') => k a db'
            | (inr e, db') => (inr e, db')
            end.

(** [f"{prefix}{i}"] *)
Definition numbered (prefix : string) (i : nat) : string :=
  prefix ++ NilEmpty.string_of_uint (Nat.to_uint i).

Definition has_pk {A : Type} (pk : A -> option string) (key : string) (t : list A) : bool :=
  existsb (fun x => Django.pk_eqb (pk x) (Some key)) t.

(** [Job.objects.all().delete()]: the foreign keys of [Timelog] and
    [PaymentLineItem] are declared [on_delete=CASCADE], so the timelogs and
    line items that refer to a deleted job, and the line items that refer to
    a deleted timelog, are deleted with it. *)
Definition delete_all_jobs : DB unit :=
  fun db =>
    let gone_tl tl := has_pk (@Django.uid Z) (Repos.tl_job_uid tl) (Repos.jobs db) in
    let gone_timelogs := filter gone_tl (Repos.timelogs db) in
    (inl tt,
     Repos.mk_database []
       (filter (fun tl => negb (gone_tl tl)) (Repos.timelogs db))
       (filter (fun pli =>
                  negb (has_pk (@Django.uid Z) (Repos.pli_job_uid pli) (Repos.jobs db))
                  && negb (has_pk Repos.tl_uid (Repos.pli_timelog_uid pli) gone_timelogs))
               (Repos.payment_line_items db))).

(** [Timelog.objects.all().delete()] *)
Definition delete_all_timelogs : DB unit :=
  fun db =>
    (inl tt,
     Repos.mk_database (Repos.jobs db) []
       (filter (fun pli =>
                  negb (has_pk Repos.tl_uid (Repos.pli_timelog_uid pli) (Repos.timelogs db)))
               (Repos.payment_line_items db))).

(** [PaymentLineItem.objects.all().delete()] *)
Definition delete_all_payment_line_items : DB unit :=
  fun db => (inl tt, Repos.mk_database (Repos.jobs db) (Repos.timelogs db) []).

(** The primary keys of the objects of a [bulk_create] are set, distinct
    from one another and from the stored ones. *)
Fixpoint pks_ok {A : Type} (pk : A -> option string) (stored objs : list A) : bool :=
  match objs with
  | [] => true
  | x :: rest =>
      match pk x with
      | Some key => negb (has_pk pk key stored) && pks_ok pk (stored ++ [x])%list rest
      | None => false
      end
  end.

(** [Job.objects.bulk_create(jobs, batch_size=1000)]: the batches are
    written in one transaction. *)
Definition bulk_create_jobs (objs : list (Django.Job Z)) : DB unit :=
  fun db =>
    if pks_ok (@Django.uid Z) (Repos.jobs db) objs
    then (inl tt, Repos.mk_database (Repos.jobs db ++ objs)%list (Repos.timelogs db)
                                    (Repos.payment_line_items db))
    else (inr DatabaseIntegrityError, db).

(** [Timelog.objects.bulk_create(timelogs, batch_size=1000)]: the store
    also checks that every [job_uid] is the uid of a job. *)
Definition bulk_create_timelogs (objs : list (Repos.Timelog Z)) : DB unit :=
  fun db =>
    if pks_ok Repos.tl_uid (Repos.timelogs db) objs
       && forallb (fun tl => has_pk (@Django.uid Z) (Repos.tl_job_uid tl) (Repos.jobs db)) objs
    then (inl tt, Repos.mk_database (Repos.jobs db) (Repos.timelogs db ++ objs)%list
                                    (Repos.payment_line_items db))
    else (inr DatabaseIntegrityError, db).

(** [PaymentLineItem.objects.bulk_create(plis, batch_size=1000)] *)
Definition bulk_create_payment_line_items (objs : list (Repos.PaymentLineItem Z)) : DB unit :=
  fun db =>
    if pks_ok Repos.pli_uid (Repos.payment_line_items db) objs
       && forallb (fun pli =>
                     has_pk (@Django.uid Z) (Repos.pli_job_uid pli) (Repos.jobs db)
                     && has_pk Repos.tl_uid (Repos.pli_timelog_uid pli) (Repos.timelogs db))
                  objs
    then (inl tt, Repos.mk_database (Repos.jobs db) (Repos.timelogs db)
                                    (Repos.payment_line_items db ++ objs)%list)
    else (inr DatabaseIntegrityError, db).

(** [{x.uid: x for x in rows}] and [d[key]] *)
Fixpoint by_uid {A : Type} (pk : A -> option string) (rows : list A) (key : string)
  : option A :=
  match rows with
  | [] => None
  | x :: rest =>
      match by_uid pk rest key with
      | Some y => Some y
      | None => if Django.pk_eqb (pk x) (Some key) then Some x else None
      end
  end.

Definition subscript {A : Type} (d : string -> option A) (key : string) : DB A :=
  match d key with
  | Some x => sret x
  | None => sraise (KeyError key)
  end.

(** The value of the column of a foreign key to [obj]: its uid. *)
Definition fk_to {A : Type} (pk : A -> option string) (obj : A) : DB string :=
  match pk obj with
  | Some uid => sret uid
  | None => sraise DatabaseIntegrityError
  end.

(** [for x in xs: acc.append(f(x))] *)
Fixpoint collect {A B : Type} (f : A -> DB B) (xs : list A) : DB (list B) :=
  match xs with
  | [] => sret []
  | x :: rest => sbind (f x) (fun y => sbind (collect f rest) (fun ys => sret (y :: ys)))
  end.

Definition hours (n : Z) : Z := n * 3600000000.

(** [seed_data(n)]; [now] is the reading of [datetime.datetime.now()].
    The two calls of [print] are left out. *)
Definition seed_data (n : nat) (now : Z) : DB unit :=
  sbind delete_all_jobs (fun _ =>
  sbind delete_all_timelogs (fun _ =>
  sbind delete_all_payment_line_items (fun _ =>
  let jobs :=
    map (fun i => Django.mk_Job (Some (numbered "job-uid-" i)) (numbered "job" i) 1
                                "active" 100 "Engineer" "comp1" "cont1")
        (seq 0 n) in
  sbind (bulk_create_jobs jobs) (fun _ =>
  sbind (fun db => (inl (by_uid (@Django.uid Z)
                           (jobs_of_company "comp1" (Repos.jobs db))), db)) (fun jobs =>
  sbind (collect (fun i =>
           let job_uid := numbered "job-uid-" i in
           let timelog_uid := numbered "tl-uid-" i in
           sbind (subscript jobs job_uid) (fun job =>
           sbind (fk_to (@Django.uid Z) job) (fun job_fk =>
           sret (Repos.mk_Timelog (Some timelog_uid) (numbered "tl" i) 1 8
                                  (now - hours 2) (now - hours 1) "work" job_fk))))
           (seq 0 n)) (fun timelogs =>
  sbind (bulk_create_timelogs timelogs) (fun _ =>
  sbind (fun db => (inl (by_uid Repos.tl_uid
                           (flat_map (fun tl =>
                                        flat_map (fun job =>
                                                    if String.eqb (Django.company_id job)
                                                                  "comp1"
                                                    then [tl] else [])
                                                 (Repos.joined (@Django.uid Z)
                                                    (Repos.tl_job_uid tl) (Repos.jobs db)))
                                     (Repos.timelogs db))), db)) (fun timelogs =>
  sbind (collect (fun i =>
           let job_uid := numbered "job-uid-" i in
           let timelog_uid := numbered "tl-uid-" i in
           sbind (subscript jobs job_uid) (fun job =>
           sbind (fk_to (@Django.uid Z) job) (fun job_fk =>
           sbind (subscript timelogs timelog_uid) (fun timelog =>
           sbind (fk_to Repos.tl_uid timelog) (fun timelog_fk =>
           sret (Repos.mk_PaymentLineItem (Some (numbered "pli-uid-" i)) (numbered "pli" i)
                                          1 job_fk timelog_fk 800 "pending"))))))
           (seq 0 n)) (fun plis =>
  bulk_create_payment_line_items plis))))))))).

(** The rows [seed_data(n)] stores. *)
Definition seeded_job (i : nat) : Django.Job Z :=
  Django.mk_Job (Some (numbered "job-uid-" i)) (numbered "job" i) 1
                "active" 100 "Engineer" "comp1" "cont1".

Definition seeded_timelog (now : Z) (i : nat) : Repos.Timelog Z :=
  Repos.mk_Timelog (Some (numbered "tl-uid-" i)) (numbered "tl" i) 1 8
                   (now - hours 2) (now - hours 1) "work" (numbered "job-uid-" i).

Definition seeded_payment_line_item (i : nat) : Repos.PaymentLineItem Z :=
  Repos.mk_PaymentLineItem (Some (numbered "pli-uid-" i)) (numbered "pli" i) 1
                           (numbered "job-uid-" i) (numbered "tl-uid-" i) 800 "pending".

Definition seeded (n : nat) (now : Z) : database :=
  Repos.mk_database (map seeded_job (seq 0 n))
                    (map (seeded_timelog now) (seq 0 n))
                    (map seeded_payment_line_item (seq 0 n)).

End BenchmarkScd.

(** * Properties *)

Open Scope list_scope.

(** ** Values, names and positions *)

Lemma value_eqb_eq (a b : value) : value_eqb a b = true <-> a = b.
Proof.
  destruct a, b; simpl; split; intro H; try discriminate; try reflexivity;
    try (apply Z.eqb_eq in H; congruence);
    try (apply String.eqb_eq in H; congruence);
    try (apply Bool.eqb_prop in H; congruence);
    inversion H; subst;
    first [apply Z.eqb_refl | apply String.eqb_refl | apply Bool.eqb_reflx].
Qed.

Lemma sql_eq_str (v : value) (s : string) : sql_eq v (VStr s) = true <-> v = VStr s.
Proof.
  destruct v; simpl; split; intro H; try discriminate.
  - apply String.eqb_eq in H. congruence.
  - inversion H. apply String.eqb_refl.
Qed.

Lemma sql_eq_true (v w : value) : sql_eq v w = true <-> v = w /\ v <> VNone.
Proof.
  unfold sql_eq. destruct v, w; try rewrite value_eqb_eq;
    split; intros H; try discriminate; try (destruct H; congruence);
    try (split; [assumption | discriminate]).
Qed.

Lemma list_mem_In (x : string) (l : list string) : list_mem x l = true <-> In x l.
Proof.
  unfold list_mem. rewrite existsb_exists. split.
  - intros [y [Hy E]]. apply String.eqb_eq in E. subst. assumption.
  - intro H. exists x. split; [assumption | apply String.eqb_refl].
Qed.

Lemma list_index_nth_error (x : string) (l : list string) (i : nat) :
  list_index x l = Some i -> nth_error l i = Some x.
Proof.
  revert i. induction l as [|y l IH]; simpl; intros i H; [discriminate|].
  destruct (String.eqb y x) eqn:E.
  - inversion H. subst. apply String.eqb_eq in E. subst. reflexivity.
  - destruct (list_index x l) as [j|]; [|discriminate].
    inversion H. subst. simpl. apply IH. reflexivity.
Qed.

Lemma list_index_In (x : string) (l : list string) :
  In x l -> exists i, list_index x l = Some i.
Proof.
  induction l as [|y l IH]; simpl; intro H; [contradiction|].
  destruct (String.eqb y x) eqn:E; [eexists; reflexivity|].
  destruct H as [H|H]; [subst; rewrite String.eqb_refl in E; discriminate|].
  destruct (IH H) as [i Hi]. rewrite Hi. eexists. reflexivity.
Qed.

Lemma list_index_lt (x : string) (l : list string) (i : nat) :
  list_index x l = Some i -> (i < List.length l)%nat.
Proof.
  intro H. apply list_index_nth_error in H.
  apply nth_error_Some. congruence.
Qed.

Lemma list_index_inj (x y : string) (l : list string) (i : nat) :
  list_index x l = Some i -> list_index y l = Some i -> x = y.
Proof.
  intros Hx Hy. apply list_index_nth_error in Hx, Hy. congruence.
Qed.

Lemma replace_nth_length (i : nat) (v : value) (l : list value) :
  List.length (replace_nth i v l) = List.length l.
Proof.
  revert i. induction l as [|x l IH]; intros [|i]; simpl; auto.
Qed.

Lemma list_set_replace (i : nat) (v : value) (l : list value) :
  (i < List.length l)%nat -> list_set i v l = Some (replace_nth i v l).
Proof.
  revert i. induction l as [|x l IH]; intros [|i] H; simpl in *; try lia.
  - reflexivity.
  - rewrite IH by lia. reflexivity.
Qed.

Lemma nth_replace_nth_same (i : nat) (v d : value) (l : list value) :
  (i < List.length l)%nat -> nth i (replace_nth i v l) d = v.
Proof.
  revert i. induction l as [|x l IH]; intros [|i] H; simpl in *; try lia.
  - reflexivity.
  - apply IH. lia.
Qed.

Lemma nth_replace_nth_other (i j : nat) (v d : value) (l : list value) :
  i <> j -> nth j (replace_nth i v l) d = nth j l d.
Proof.
  revert i j. induction l as [|x l IH]; intros [|i] [|j] H; simpl; auto.
  - contradiction.
Qed.

(** Reading a row after one of its columns was written. *)
Lemma field_replace_nth (cols : list string) (r : row) (c c' : string)
  (i : nat) (v : value) :
  list_index c' cols = Some i -> (i < List.length r)%nat ->
  field cols (replace_nth i v r) c = if String.eqb c' c then v else field cols r c.
Proof.
  intros Hi Hlen. unfold field.
  destruct (String.eqb c' c) eqn:E.
  - apply String.eqb_eq in E. subst. rewrite Hi.
    apply nth_replace_nth_same. assumption.
  - destruct (list_index c cols) as [j|] eqn:Hj; [|reflexivity].
    apply nth_replace_nth_other. intro. subst.
    rewrite (list_index_inj _ _ _ _ Hi Hj) in E.
    rewrite String.eqb_refl in E. discriminate.
Qed.

(** Reading the row an INSERT with named columns builds. *)
Lemma field_named_row (s : schema) (cols : list string) (vals : list value) (c : string) :
  In c (columns s) -> field (columns s) (named_row s cols vals) c = field cols vals c.
Proof.
  intro Hin. unfold named_row, field at 1.
  destruct (list_index_In _ _ Hin) as [i Hi]. rewrite Hi.
  pose proof (list_index_nth_error _ _ _ Hi) as Hn.
  rewrite (nth_indep _ VNone (field cols vals EmptyString)).
  - rewrite map_nth. f_equal. apply nth_error_nth. assumption.
  - rewrite length_map. eapply list_index_lt. eassumption.
Qed.

Lemma named_row_length (s : schema) (cols : list string) (vals : list value) :
  List.length (named_row s cols vals) = List.length (columns s).
Proof. apply length_map. Qed.

(** ** [ORDER BY ... DESC LIMIT 1] returns a row with the largest key *)

Section FirstDesc.
Variable C : Z -> value.
Hypothesis C_desc : forall x y, desc_before (C x) (C y) = Z.ltb y x.
Hypothesis C_inj : forall x y, C x = C y -> x = y.
Variable key : row -> value.

Lemma first_desc_spec (l : list row) :
  forall best,
    (forall r, In r l -> exists n, key r = C n) ->
    (forall b, best = Some b -> exists n, key b = C n) ->
    (l <> [] \/ best <> None) ->
    exists b n,
      first_desc key best l = Some b
      /\ (best = Some b \/ In b l)
      /\ key b = C n
      /\ (forall r m, best = Some r \/ In r l -> key r = C m -> m <= n).
Proof.
  induction l as [|r l IH]; intros best Hl Hb Hne.
  - destruct best as [b|]; [|destruct Hne; congruence].
    destruct (Hb b eq_refl) as [n Hn].
    exists b, n. simpl. repeat split; auto.
    intros r m [E|[]] Hr. inversion E; subst.
    rewrite Hn in Hr. apply C_inj in Hr. lia.
  - destruct (Hl r (or_introl eq_refl)) as [nr Hnr].
    assert (Hl' : forall r0, In r0 l -> exists n, key r0 = C n)
      by (intros; apply Hl; right; assumption).
    destruct best as [b|]; simpl.
    + destruct (Hb b eq_refl) as [nb Hnb].
      rewrite Hnr, Hnb, C_desc.
      destruct (Z.ltb nb nr) eqn:E.
      * apply Z.ltb_lt in E.
        destruct (IH (Some r) Hl') as [b' [n' [H1 [H2 [H3 H4]]]]].
        { intros b0 E0. inversion E0; subst. eauto. }
        { right. discriminate. }
        exists b', n'. repeat split; auto.
        { destruct H2 as [H2|H2]; [inversion H2; subst; right; left; reflexivity
                                  | right; right; assumption]. }
        intros r0 m [E0|[E0|E0]] Hr0.
        { inversion E0; subst. rewrite Hnb in Hr0. apply C_inj in Hr0.
          specialize (H4 r nr (or_introl eq_refl) Hnr). lia. }
        { subst. apply (H4 r0 m); auto. }
        { apply (H4 r0 m); auto. }
      * apply Z.ltb_ge in E.
        destruct (IH (Some b) Hl') as [b' [n' [H1 [H2 [H3 H4]]]]].
        { intros b0 E0. inversion E0; subst. eauto. }
        { right. discriminate. }
        exists b', n'. repeat split; auto.
        { destruct H2 as [H2|H2]; [left; assumption | right; right; assumption]. }
        intros r0 m [E0|[E0|E0]] Hr0.
        { apply (H4 r0 m); auto. }
        { subst. rewrite Hnr in Hr0. apply C_inj in Hr0.
          specialize (H4 b nb (or_introl eq_refl) Hnb). lia. }
        { apply (H4 r0 m); auto. }
    + destruct (IH (Some r) Hl') as [b' [n' [H1 [H2 [H3 H4]]]]].
      { intros b0 E0. inversion E0; subst. eauto. }
      { right. discriminate. }
      exists b', n'. repeat split; auto.
      { destruct H2 as [H2|H2]; [inversion H2; subst; right; left; reflexivity
                                | right; right; assumption]. }
      intros r0 m [E0|[E0|E0]] Hr0; try discriminate.
      { subst. apply (H4 r0 m); auto. }
      { apply (H4 r0 m); auto. }
Qed.
End FirstDesc.

Lemma where_id_In (cols : list string) (id : string) (rows : list row) (r : row) :
  In r (where_id cols id rows) <-> In r rows /\ field cols r "id" = VStr id.
Proof.
  unfold where_id. rewrite filter_In, sql_eq_str. reflexivity.
Qed.

Lemma is_int_inv (v : value) : is_int v = true -> exists n, v = VInt n.
Proof. destruct v; try discriminate. eauto. Qed.

Lemma is_str_inv (v : value) : is_str v = true -> exists s, v = VStr s.
Proof. destruct v; try discriminate. eauto. Qed.

Lemma counter_row_inv (s : schema) (r : row) :
  counter_row s r = true ->
  List.length r = List.length (columns s)
  /\ (exists i, field (columns s) r "id" = VStr i)
  /\ (exists n, field (columns s) r "version" = VInt n).
Proof.
  unfold counter_row. rewrite !andb_true_iff, Nat.eqb_eq.
  intros [[H1 H2] H3]. auto using is_int_inv, is_str_inv.
Qed.

(** [SELECT ... WHERE id = %s ORDER BY version DESC LIMIT 1] on a table
    versioned by a counter: a row of the entity with the largest version. *)
Lemma select_latest_version (s : schema) (rows : list row) (id : string) :
  forallb (counter_row s) rows = true ->
  exists_id (columns s) id rows ->
  exists latest v,
    select_latest "version" id s rows = Some latest
    /\ In latest rows
    /\ field (columns s) latest "id" = VStr id
    /\ field (columns s) latest "version" = VInt v
    /\ (forall r m, In r rows -> field (columns s) r "id" = VStr id ->
                    field (columns s) r "version" = VInt m -> m <= v).
Proof.
  intros Hwf [r0 [Hr0 Hid0]]. rewrite forallb_forall in Hwf.
  unfold select_latest.
  destruct (first_desc_spec VInt (fun x y => eq_refl)
              (fun x y E => f_equal (fun v => match v with VInt n => n | _ => 0 end) E)
              (fun r => field (columns s) r "version")
              (where_id (columns s) id rows) None)
    as [b [n [H1 [H2 [H3 H4]]]]].
  - intros r Hr. apply where_id_In in Hr. destruct Hr as [Hr _].
    apply Hwf, counter_row_inv in Hr. tauto.
  - discriminate.
  - left. intro E. assert (In r0 (where_id (columns s) id rows))
      by (apply where_id_In; auto). rewrite E in H. contradiction.
  - destruct H2 as [H2|H2]; [discriminate|].
    apply where_id_In in H2. destruct H2 as [H2 H2'].
    exists b, n. repeat split; auto.
    intros r m Hr Hid Hv. apply (H4 r m); auto.
    right. apply where_id_In. auto.
Qed.

(** ** Running the statements *)

Lemma bind_returned {A B} (m : M A) (k : A -> M B) (c c' : conn) (a : A) :
  m c = (Returned a, c') -> bind m k c = k a c'.
Proof. intro H. unfold bind. rewrite H. reflexivity. Qed.

Lemma execute_query_ready {A} (s : statement) (q : schema -> list row -> A) (c : conn) :
  txn c <> Failed ->
  execute_query s q c
  = (Returned (q (catalog c) (visible c)), with_log c s (InTxn (visible c))).
Proof. unfold execute_query. destruct (txn c); congruence. Qed.

Lemma execute_update_ready (s : statement) (f : schema -> list row -> list row) (c : conn) :
  txn c <> Failed ->
  execute_update s f c
  = (Returned tt, with_log c s (InTxn (f (catalog c) (visible c)))).
Proof. unfold execute_update. destruct (txn c); congruence. Qed.

Lemma execute_insert_ready (table : string) (r : row) (c : conn) :
  txn c <> Failed ->
  execute_insert table r c
  = if insert_ok (catalog c) (visible c) r
    then (Returned tt, with_log c (InsertRow table r) (InTxn (visible c ++ [r])))
    else (Raised unique_violation, with_log c (InsertRow table r) Failed).
Proof. unfold execute_insert. destruct (txn c); congruence. Qed.

(** ** The loop over the items of the partial update *)

Lemma apply_updates_spec (cols : list string) (updates : dict) :
  forall data,
    List.length data = List.length cols ->
    exists data',
      SCDHelper.apply_updates cols updates data = Returned data'
      /\ List.length data' = List.length cols
      /\ forall c, In c cols ->
                   field cols data' c
                   = match dict_last updates c with
                     | Some v => v
                     | None => field cols data c
                     end.
Proof.
  induction updates as [|[k v] rest IH]; intros data Hlen; simpl.
  - exists data. auto.
  - destruct (list_mem k cols) eqn:Hk.
    + apply list_mem_In in Hk. destruct (list_index_In _ _ Hk) as [i Hi].
      unfold py_index, py_list_set. rewrite Hi.
      pose proof (list_index_lt _ _ _ Hi) as Hlt.
      rewrite list_set_replace by lia.
      destruct (IH (replace_nth i v data)) as [data' [H1 [H2 H3]]].
      { rewrite replace_nth_length. assumption. }
      exists data'. repeat split; auto.
      intros c Hc. rewrite (H3 c Hc).
      destruct (dict_last rest c); [reflexivity|].
      rewrite (field_replace_nth cols data c k i v Hi) by lia.
      destruct (String.eqb k c); reflexivity.
    + destruct (IH data Hlen) as [data' [H1 [H2 H3]]].
      exists data'. repeat split; auto.
      intros c Hc. rewrite (H3 c Hc).
      destruct (dict_last rest c); [reflexivity|].
      destruct (String.eqb k c) eqn:E; [|reflexivity].
      apply String.eqb_eq in E. subst.
      apply list_mem_In in Hc. congruence.
Qed.

(** Keys that are not column names leave the loop without effect. *)
Lemma apply_updates_known (cols : list string) (updates : dict) :
  forall data,
    SCDHelper.apply_updates cols updates data
    = SCDHelper.apply_updates cols
        (filter (fun kv => list_mem (fst kv) cols) updates) data.
Proof.
  induction updates as [|[k v] rest IH]; intro data; simpl; [reflexivity|].
  destruct (list_mem k cols) eqn:Hk; simpl.
  - rewrite Hk. destruct (py_index k cols); [|reflexivity].
    destruct (py_list_set a v data); [apply IH | reflexivity].
  - apply IH.
Qed.

Lemma dict_last_None (d : dict) (c : string) :
  dict_last d c = None <-> ~ In c (dict_keys d).
Proof.
  induction d as [|[k v] d IH]; simpl.
  - tauto.
  - destruct (dict_last d c) eqn:E.
    + split; [discriminate|]. intro H. exfalso. apply H. right.
      destruct (in_dec string_dec c (dict_keys d)) as [i|n]; [assumption|].
      apply IH in n. discriminate.
    + destruct (String.eqb k c) eqn:Ek.
      * apply String.eqb_eq in Ek. split; [discriminate|]. intro H. exfalso. auto.
      * apply String.eqb_neq in Ek. split; [|reflexivity].
        intros _ [H|H]; [congruence|]. apply IH in H; auto.
Qed.

(** ** [SCDHelper.create_new_version] *)

Lemma visible_with_log (c : conn) (s : statement) (w : list row) :
  visible (with_log c s (InTxn w)) = w.
Proof. reflexivity. Qed.

Lemma catalog_with_log (c : conn) (s : statement) (t : txn_status) :
  catalog (with_log c s t) = catalog c.
Proof. reflexivity. Qed.

Lemma txn_with_log (c : conn) (s : statement) (t : txn_status) :
  txn (with_log c s t) = t.
Proof. reflexivity. Qed.

Ltac norm_conn :=
  repeat (rewrite visible_with_log || rewrite catalog_with_log || rewrite txn_with_log).

Lemma fetched_full (r : row) :
  r <> [] -> fetched (Some r) = Some r.
Proof. destruct r; [congruence | reflexivity]. Qed.

Lemma derive_new_version_spec (c : conn) (table id : string) (updates : dict)
  (new_uid : string) (latest : row) (v : Z) :
  let cols := columns (catalog c) in
  txn c <> Failed ->
  In "version" cols -> In "uid" cols ->
  select_latest "version" id (catalog c) (visible c) = Some latest ->
  List.length latest = List.length cols ->
  field cols latest "version" = VInt v ->
  exists new_data,
    SCDHelper.derive_new_version table id updates new_uid c
    = (Returned (cols, new_data),
       mk_conn (catalog c) (committed c) (InTxn (visible c))
               (log c ++ [SelectLatestByVersion table id; SelectColumnNames table]))
    /\ List.length new_data = List.length cols
    /\ forall col, In col cols ->
                   field cols new_data col = next_value cols latest updates new_uid col.
Proof.
  intros cols Hready Hv Hu Hsel Hlen Hver.
  destruct (list_index_In _ _ Hv) as [vi Hvi].
  destruct (list_index_In _ _ Hu) as [ui Hui].
  pose proof (list_index_lt _ _ _ Hvi) as Hvlt.
  pose proof (list_index_lt _ _ _ Hui) as Hult.
  assert (Hne : latest <> []).
  { intro E. subst latest. simpl in Hlen. fold cols in Hvlt. lia. }
  assert (Hget : tuple_get latest vi = Some (VInt v)).
  { unfold tuple_get. unfold field in Hver. fold cols in Hvi. rewrite Hvi in Hver.
    rewrite <- Hver. apply nth_error_nth'. fold cols in Hvlt. lia. }
  destruct (apply_updates_spec cols updates (replace_nth vi (VInt (v + 1)) latest))
    as [data1 [Ha [Hl1 Hf1]]].
  { rewrite replace_nth_length. assumption. }
  exists (replace_nth ui (VStr new_uid) data1).
  split; [|split].
  - unfold SCDHelper.derive_new_version.
    erewrite bind_returned by (apply execute_query_ready; assumption).
    rewrite Hsel, (fetched_full _ Hne).
    erewrite bind_returned by (apply execute_query_ready; discriminate).
    simpl catalog. fold cols.
    unfold bind, lift, ret, py_index, py_tuple_get, py_plus_one, py_list_set.
    rewrite Hvi, Hget. simpl py_add_one. cbv iota beta.
    rewrite list_set_replace by (fold cols in Hvlt; lia).
    rewrite Ha. fold cols in Hui. rewrite Hui.
    rewrite list_set_replace by (fold cols in Hult; lia).
    unfold with_log. simpl. rewrite <- app_assoc. reflexivity.
  - rewrite replace_nth_length. assumption.
  - intros col Hcol. unfold next_value.
    rewrite (field_replace_nth cols data1 col "uid" ui) by (fold cols in Hui, Hult; auto; lia).
    rewrite String.eqb_sym.
    destruct (String.eqb col "uid") eqn:Eu; [reflexivity|].
    rewrite (Hf1 col Hcol).
    destruct (dict_last updates col); [reflexivity|].
    rewrite (field_replace_nth cols latest col "version" vi)
      by (fold cols in Hvi, Hvlt; auto; lia).
    rewrite String.eqb_sym, Hver. reflexivity.
Qed.

Lemma forallb_list_mem_self (cols : list string) :
  forallb (fun k => list_mem k cols) cols = true.
Proof.
  apply forallb_forall. intros x Hx. apply list_mem_In. assumption.
Qed.

Lemma insert_new_version_spec (c : conn) (table : string) (new_data : list value) :
  let s := catalog c in
  let new_row := named_row s (columns s) new_data in
  txn c <> Failed ->
  List.length new_data = List.length (columns s) ->
  SCDHelper.insert_new_version table (columns s) new_data c
  = if insert_ok s (visible c) new_row
    then (Returned None,
          mk_conn s (visible c ++ [new_row]) Idle
                  (log c ++ [InsertRow table new_row; SqlCommit]))
    else (Raised unique_violation,
          mk_conn s (committed c) Failed (log c ++ [InsertRow table new_row])).
Proof.
  intros s new_row Hready Hlen.
  unfold SCDHelper.insert_new_version, bind, execute_insert_into.
  fold s. rewrite Hlen, Nat.eqb_refl, forallb_list_mem_self. simpl andb. cbv iota.
  rewrite execute_insert_ready by assumption. fold s. fold new_row.
  destruct (insert_ok s (visible c) new_row); [|reflexivity].
  unfold conn_commit, execute_commit, with_log, ret. simpl.
  rewrite <- app_assoc. reflexivity.
Qed.

(** What the store checks when a row enters a table versioned by a
    counter. *)
Lemma insert_ok_counter (s : schema) (rows : list row) (r : row) (i u : string) (v : Z) :
  counter_schema s ->
  List.length r = List.length (columns s) ->
  field (columns s) r "uid" = VStr u ->
  field (columns s) r "id" = VStr i ->
  field (columns s) r "version" = VInt v ->
  fresh_uid (columns s) u rows ->
  (forall r', In r' rows -> field (columns s) r' "id" = VStr i ->
              field (columns s) r' "version" <> VInt v) ->
  insert_ok s rows r = true.
Proof.
  intros [_ [_ [_ Hk]]] Hlen Hu Hi Hv Hfresh Hnew.
  unfold insert_ok. rewrite Hlen, Nat.eqb_refl, Hk. simpl.
  unfold key_ok, key_of. simpl. rewrite Hu, Hi, Hv. simpl.
  assert (E1 : existsb (fun r' => value_eqb (field (columns s) r' "uid") (VStr u) && true)
                       rows = false).
  { apply not_true_is_false. intro H. apply existsb_exists in H.
    destruct H as [r' [Hr' E]]. rewrite andb_true_r in E.
    apply value_eqb_eq in E. exact (Hfresh r' Hr' E). }
  assert (E2 : existsb (fun r' => value_eqb (field (columns s) r' "id") (VStr i)
                                  && (value_eqb (field (columns s) r' "version") (VInt v)
                                      && true)) rows = false).
  { apply not_true_is_false. intro H. apply existsb_exists in H.
    destruct H as [r' [Hr' E]]. rewrite andb_true_r in E.
    apply andb_true_iff in E. destruct E as [Ea Eb].
    apply value_eqb_eq in Ea, Eb. exact (Hnew r' Hr' Ea Eb). }
  rewrite E1, E2. reflexivity.
Qed.

(** One call of [SCDHelper.create_new_version] on an existing entity: the
    row that is derived, and the two ways the call can end. *)
Lemma create_new_version_run (c : conn) (table id : string) (updates : dict)
  (new_uid : string) :
  let s := catalog c in
  txn c <> Failed ->
  counter_schema s ->
  forallb (counter_row s) (visible c) = true ->
  exists_id (columns s) id (visible c) ->
  exists latest v new_row,
    select_latest "version" id s (visible c) = Some latest
    /\ In latest (visible c)
    /\ field (columns s) latest "id" = VStr id
    /\ field (columns s) latest "version" = VInt v
    /\ (forall r m, In r (visible c) -> field (columns s) r "id" = VStr id ->
                    field (columns s) r "version" = VInt m -> m <= v)
    /\ List.length new_row = List.length (columns s)
    /\ (forall col, In col (columns s) ->
                    field (columns s) new_row col
                    = next_value (columns s) latest updates new_uid col)
    /\ SCDHelper.create_new_version table id updates new_uid c
       = if insert_ok s (visible c) new_row
         then (Returned None,
               mk_conn s (visible c ++ [new_row]) Idle
                       (log c ++ [SelectLatestByVersion table id;
                                  SelectColumnNames table;
                                  InsertRow table new_row; SqlCommit]))
         else (Raised unique_violation,
               mk_conn s (committed c) Failed
                       (log c ++ [SelectLatestByVersion table id;
                                  SelectColumnNames table;
                                  InsertRow table new_row])).
Proof.
  intros s Hready Hs Hwf Hex.
  destruct (select_latest_version s (visible c) id Hwf Hex)
    as [latest [v [Hsel [Hin [Hid [Hver Hmax]]]]]].
  pose proof Hs as [_ [Hcv [Hcu _]]].
  assert (Hlen : List.length latest = List.length (columns s)).
  { rewrite forallb_forall in Hwf. apply Hwf, counter_row_inv in Hin. tauto. }
  destruct (derive_new_version_spec c table id updates new_uid latest v
              Hready Hcv Hcu Hsel Hlen Hver) as [new_data [Hd [Hl Hf]]].
  exists latest, v, (named_row s (columns s) new_data).
  repeat split; auto.
  - apply named_row_length.
  - intros col Hcol. rewrite field_named_row by assumption. apply Hf. assumption.
  - unfold SCDHelper.create_new_version.
    erewrite bind_returned by exact Hd. simpl fst. simpl snd.
    pose proof (insert_new_version_spec
                  (mk_conn (catalog c) (committed c) (InTxn (visible c))
                           (log c ++ [SelectLatestByVersion table id;
                                      SelectColumnNames table]))
                  table new_data) as Hi.
    simpl in Hi. fold s in Hi. unfold s in *.
    etransitivity; [apply Hi; [discriminate | exact Hl]|].
    rewrite <- !app_assoc. reflexivity.
Qed.

(** ** The Django helpers *)

Section DjangoFacts.
Import Django.
Variable float : Type.
Implicit Types (t : table float) (r : Job float).

Lemma pk_eqb_eq (a b : option string) : pk_eqb a b = true <-> a = b.
Proof.
  destruct a, b; simpl; split; intro H; try discriminate; try reflexivity.
  - apply String.eqb_eq in H. congruence.
  - inversion H. apply String.eqb_refl.
Qed.

Lemma first_by_version_desc_spec (l : list (Job float)) :
  forall best,
    (l <> [] \/ best <> None) ->
    exists b,
      first_by_version_desc best l = Some b
      /\ (best = Some b \/ In b l)
      /\ (forall r, best = Some r \/ In r l -> version r <= version b).
Proof.
  induction l as [|r l IH]; intros best Hne.
  - destruct best as [b|]; [|destruct Hne; congruence].
    exists b. simpl. repeat split; auto.
    intros r [E|[]]. inversion E. lia.
  - destruct best as [b|]; simpl.
    + destruct (Z.ltb (version b) (version r)) eqn:E.
      * apply Z.ltb_lt in E.
        destruct (IH (Some r)) as [b' [H1 [H2 H3]]]; [right; discriminate|].
        exists b'. repeat split; auto.
        { destruct H2 as [H2|H2]; [inversion H2; subst; auto | auto]. }
        intros r0 [E0|[E0|E0]].
        { inversion E0; subst. specialize (H3 r (or_introl eq_refl)). lia. }
        { subst. apply H3. auto. }
        { apply H3. auto. }
      * apply Z.ltb_ge in E.
        destruct (IH (Some b)) as [b' [H1 [H2 H3]]]; [right; discriminate|].
        exists b'. repeat split; auto.
        { destruct H2 as [H2|H2]; auto. }
        intros r0 [E0|[E0|E0]].
        { apply H3. auto. }
        { subst. specialize (H3 b (or_introl eq_refl)). lia. }
        { apply H3. auto. }
    + destruct (IH (Some r)) as [b' [H1 [H2 H3]]]; [right; discriminate|].
      exists b'. repeat split; auto.
      { destruct H2 as [H2|H2]; [inversion H2; subst; auto | auto]. }
      intros r0 [E0|[E0|E0]]; try discriminate.
      { subst. apply H3. auto. }
      { apply H3. auto. }
Qed.

(** [filter(id=id).order_by('-version').first()]: a row of the entity
    with the largest version. *)
Lemma latest_of_spec t (i : string) :
  (exists r, In r t /\ id r = i) ->
  exists latest,
    latest_of i t = Some latest
    /\ In latest t /\ id latest = i
    /\ (forall r, In r t -> id r = i -> version r <= version latest).
Proof.
  intros [r0 [Hr0 Hi0]]. unfold latest_of.
  destruct (first_by_version_desc_spec
              (filter (fun r => String.eqb (id r) i) t) None)
    as [b [H1 [H2 H3]]].
  - left. intro E.
    assert (H : In r0 (filter (fun r => String.eqb (id r) i) t))
      by (apply filter_In; split; [assumption | apply String.eqb_eq; assumption]).
    rewrite E in H. contradiction.
  - destruct H2 as [H2|H2]; [discriminate|].
    apply filter_In in H2. destruct H2 as [H2 H2'].
    apply String.eqb_eq in H2'.
    exists b. repeat split; auto.
    intros r Hr Hid. apply H3. right. apply filter_In.
    split; [assumption | apply String.eqb_eq; assumption].
Qed.

Lemma latest_of_None t (i : string) :
  (forall r, In r t -> id r <> i) -> latest_of i t = None.
Proof.
  intro H. unfold latest_of.
  replace (filter (fun r => String.eqb (id r) i) t) with (@nil (Job float)); [reflexivity|].
  symmetry. induction t as [|r t IH]; [reflexivity|]. simpl.
  destruct (String.eqb (id r) i) eqn:E.
  - apply String.eqb_eq in E. exfalso. apply (H r); simpl; auto.
  - apply IH. intros r' Hr'. apply H. simpl. auto.
Qed.

Lemma filter_pk_unique t r :
  NoDup (map uid t) -> In r t ->
  filter (fun x => pk_eqb (uid x) (uid r)) t = [r].
Proof.
  induction t as [|x t IH]; intros Hnd Hin; [contradiction|].
  simpl in Hnd. inversion Hnd as [|? ? Hx Hnd']; subst. simpl.
  destruct Hin as [E|Hin].
  - subst x. replace (pk_eqb (uid r) (uid r)) with true
      by (symmetry; apply pk_eqb_eq; reflexivity).
    f_equal. clear IH Hnd Hnd'. induction t as [|y t IH]; [reflexivity|]. simpl.
    destruct (pk_eqb (uid y) (uid r)) eqn:E.
    + apply pk_eqb_eq in E. exfalso. apply Hx. simpl. auto.
    + apply IH. intro H. apply Hx. simpl. auto.
  - destruct (pk_eqb (uid x) (uid r)) eqn:E.
    + apply pk_eqb_eq in E. exfalso. apply Hx. rewrite E. apply in_map. assumption.
    + apply IH; assumption.
Qed.

Lemma objects_get_unique t r :
  NoDup (map uid t) -> In r t -> objects_get (uid r) t = (Returned r, t).
Proof.
  intros Hnd Hin. unfold objects_get. rewrite (filter_pk_unique t r Hnd Hin).
  reflexivity.
Qed.

(** The instance [create_new_scd_version] hands to [save]. *)
Lemma prepare_new_version_spec t (i : string) (update_fn : Job float -> Job float) :
  NoDup (map uid t) ->
  (exists r, In r t /\ id r = i) ->
  exists latest,
    latest_of i t = Some latest
    /\ In latest t /\ id latest = i
    /\ (forall r, In r t -> id r = i -> version r <= version latest)
    /\ prepare_new_version i update_fn t
       = (Returned (update_fn (set_version (version latest + 1) (set_uid None latest))), t).
Proof.
  intros Hnd Hex. destruct (latest_of_spec t i Hex) as [latest [H1 [H2 [H3 H4]]]].
  exists latest. repeat split; auto.
  unfold prepare_new_version. rewrite H1. unfold dbind.
  rewrite (objects_get_unique t latest Hnd H2). reflexivity.
Qed.

Lemma set_uid_same r (u : option string) : uid r = u -> set_uid u r = r.
Proof. intro H. subst. destruct r. reflexivity. Qed.

(** [save()] of an instance whose primary key is new to the table is an
    INSERT. *)
Lemma save_fresh (pk_on_save : option string) t r (u : string) :
  uid r = Some u -> (forall x, In x t -> uid x <> Some u) ->
  save pk_on_save r t = (Returned r, t ++ [r]).
Proof.
  intros Hu Hfresh. unfold save. rewrite Hu.
  replace (existsb (fun x => pk_eqb (uid x) (Some u)) t) with false.
  - rewrite (set_uid_same r (Some u) Hu). reflexivity.
  - symmetry. apply not_true_is_false. intro H. apply existsb_exists in H.
    destruct H as [x [Hx E]]. apply pk_eqb_eq in E. exact (Hfresh x Hx E).
Qed.

End DjangoFacts.

(** ** C1: what [create_version] inserts and returns *)

(** C1 (as amended).  For an entity that has at least one row and a partial
    update that names neither [id] nor [version],
    [SCDHelper.create_new_version] appends exactly one row to the table:
    its [uid] is the new uid, every other column that the update names holds
    the value of the update, [version] is the version of the current row
    plus one, and every remaining column is copied from the current row; the
    call returns [None].  [create_new_scd_version] returns the instance it
    saved, which is the current row with its primary key cleared, its
    version incremented and [update_fn] applied; when [update_fn] gives it a
    primary key that no row has, that instance is appended to the table. *)
Theorem C1_create_version_next_row
  (c : conn) (table id : string) (updates : dict) (new_uid : string)
  (float : Type) (pk_on_save : option string) (t : Django.table float) (i : string)
  (update_fn : Django.Job float -> Django.Job float) (u : string) :
  scd_call_ready c id new_uid ->
  keeps_identity updates ->
  django_call_ready t i update_fn u ->
  (exists latest v new_row,
      select_latest "version" id (catalog c) (visible c) = Some latest
      /\ field (columns (catalog c)) latest "version" = VInt v
      /\ SCDHelper.create_new_version table id updates new_uid c
         = (Returned None,
            mk_conn (catalog c) (visible c ++ [new_row]) Idle
                    (log c ++ [SelectLatestByVersion table id; SelectColumnNames table;
                               InsertRow table new_row; SqlCommit]))
      /\ List.length new_row = List.length (columns (catalog c))
      /\ field (columns (catalog c)) new_row "uid" = VStr new_uid
      /\ field (columns (catalog c)) new_row "version" = VInt (v + 1)
      /\ field (columns (catalog c)) new_row "id" = VStr id
      /\ (forall col, In col (columns (catalog c)) -> col <> "uid" -> col <> "version" ->
                      field (columns (catalog c)) new_row col
                      = match dict_last updates col with
                        | Some x => x
                        | None => field (columns (catalog c)) latest col
                        end))
  /\ (exists latest,
         Django.latest_of i t = Some latest
         /\ Django.create_new_scd_version pk_on_save i update_fn t
            = (Returned (update_fn (next_instance latest)),
               t ++ [update_fn (next_instance latest)])).
Proof.
  intros [Hready [Hs [Hwf [Hex Hfresh]]]] [Hkid Hkv] [Hnd [Hex' [Hu Hfresh']]].
  split.
  - destruct (create_new_version_run c table id updates new_uid Hready Hs Hwf Hex)
      as [latest [v [new_row [Hsel [Hin [Hid [Hver [Hmax [Hlen [Hf Hrun]]]]]]]]]].
    pose proof Hs as [Hci [Hcv [Hcu _]]].
    assert (Fu : field (columns (catalog c)) new_row "uid" = VStr new_uid)
      by (rewrite (Hf _ Hcu); reflexivity).
    assert (Fv : field (columns (catalog c)) new_row "version" = VInt (v + 1)).
    { rewrite (Hf _ Hcv). unfold next_value. simpl String.eqb.
      apply dict_last_None in Hkv. rewrite Hkv, Hver. reflexivity. }
    assert (Fi : field (columns (catalog c)) new_row "id" = VStr id).
    { rewrite (Hf _ Hci). unfold next_value. simpl String.eqb.
      apply dict_last_None in Hkid. rewrite Hkid. assumption. }
    exists latest, v, new_row. repeat split; auto.
    + rewrite Hrun.
      rewrite (insert_ok_counter (catalog c) (visible c) new_row id new_uid (v + 1));
        auto.
      intros r' Hr' Hid' E. specialize (Hmax r' (v + 1) Hr' Hid' E). lia.
    + intros col Hcol Hnu Hnv. rewrite (Hf col Hcol). unfold next_value.
      apply String.eqb_neq in Hnu, Hnv. rewrite Hnu, Hnv. reflexivity.
  - destruct (prepare_new_version_spec float t i update_fn Hnd Hex')
      as [latest [H1 [H2 [H3 [H4 H5]]]]].
    exists latest. split; [assumption|].
    unfold Django.create_new_scd_version, Django.dbind. rewrite H5.
    fold (next_instance latest).
    rewrite (save_fresh float pk_on_save t _ u (Hu latest H1) Hfresh').
    reflexivity.
Qed.

Lemma C1_create_version_next_row_witness :
  scd_call_ready jobs_with_job1 "job1" "uid-2"
  /\ keeps_identity scenario_update
  /\ django_call_ready [django_job1_v1] "job1" (django_scenario_update "job1_v2") "job1_v2"
  /\ fst (SCDHelper.create_new_version "jobs" "job1" scenario_update "uid-2" jobs_with_job1)
     = Returned None.
Proof.
  assert (H1 : scd_call_ready jobs_with_job1 "job1" "uid-2").
  { split; [discriminate|]. split.
    - repeat split; simpl; auto 10.
    - split; [reflexivity|]. split.
      + exists job1_v1. split; [left|]; reflexivity.
      + intros r [E|[]]. subst r. discriminate. }
  assert (H2 : keeps_identity scenario_update).
  { split; simpl; intros [E|[E|[]]]; discriminate. }
  assert (H3 : django_call_ready [django_job1_v1] "job1"
                 (django_scenario_update "job1_v2") "job1_v2").
  { split; [repeat constructor; simpl; tauto|]. split.
    - exists django_job1_v1. split; [left|]; reflexivity.
    - split.
      + intros latest _. reflexivity.
      + intros x [E|[]]. subst x. discriminate. }
  split; [exact H1|]. split; [exact H2|]. split; [exact H3|].
  destruct (C1_create_version_next_row jobs_with_job1 "jobs" "job1" scenario_update
              "uid-2" Z None [django_job1_v1] "job1"
              (django_scenario_update "job1_v2") "job1_v2" H1 H2 H3)
    as [[latest [v [new_row [_ [_ [E _]]]]]] _].
  rewrite E. reflexivity.
Defined.

(** C1 as stated fails on two counts.  On the scenario of the
    specification [SCDHelper.create_new_version] returns [None], not the
    inserted row; and a partial update that names [version] overwrites the
    counter, so that the new version of [job1] is 7 and not 2. *)
Lemma C1_counterexample :
  ~ returns_inserted_row
      (SCDHelper.create_new_version "jobs" "job1" scenario_update "uid-2" jobs_with_job1)
  /\ ~ appends_incremented_version jobs_schema [job1_v1] "job1"
         (SCDHelper.create_new_version "jobs" "job1" [("version", VInt 7)] "uid-2"
                                       jobs_with_job1).
Proof.
  split.
  - intros [new_row [H _]]. vm_compute in H. discriminate.
  - intros [latest [v [new_row [H1 [H2 [H3 H4]]]]]].
    vm_compute in H1. inversion H1; subst latest.
    vm_compute in H2. inversion H2; subst v.
    vm_compute in H3. inversion H3; subst new_row.
    vm_compute in H4. discriminate.
Qed.

(** ** C9: keys of the update that name no column *)

(** Keys that are not column names have no effect on the call at all. *)
Lemma create_new_version_known (c : conn) (table id : string) (updates : dict)
  (new_uid : string) :
  SCDHelper.create_new_version table id updates new_uid c
  = SCDHelper.create_new_version table id
      (filter (fun kv => list_mem (fst kv) (columns (catalog c))) updates) new_uid c.
Proof.
  assert (Hcase : txn c = Failed \/ txn c <> Failed)
    by (destruct (txn c); auto; right; discriminate).
  unfold SCDHelper.create_new_version, SCDHelper.derive_new_version.
  destruct Hcase as [Hf|Hr].
  - unfold bind, execute_query. rewrite Hf. reflexivity.
  - unfold bind. rewrite execute_query_ready by assumption.
    destruct (fetched (select_latest "version" id (catalog c) (visible c)));
      [|reflexivity].
    rewrite execute_query_ready by discriminate.
    unfold lift. simpl catalog.
    destruct (py_index "version" (columns (catalog c))); [|reflexivity].
    destruct (py_tuple_get r a); [|reflexivity].
    destruct (py_plus_one a0); [|reflexivity].
    destruct (py_list_set a a1 r); [|reflexivity].
    rewrite <- apply_updates_known. reflexivity.
Qed.

Lemma dict_last_unknown (cols : list string) (updates : dict) (col : string) :
  (forall k, In k (dict_keys updates) -> ~ In k cols) ->
  In col cols -> dict_last updates col = None.
Proof.
  intros H Hcol. apply dict_last_None. intro Hk. exact (H col Hk Hcol).
Qed.

Lemma dict_last_known (cols : list string) (updates : dict) (col : string) :
  In col cols ->
  dict_last (filter (fun kv => list_mem (fst kv) cols) updates) col
  = dict_last updates col.
Proof.
  intro Hcol. induction updates as [|[k v] rest IH]; [reflexivity|]. simpl.
  destruct (list_mem k cols) eqn:Hk; simpl; rewrite IH; [reflexivity|].
  destruct (dict_last rest col); [reflexivity|].
  destruct (String.eqb k col) eqn:E; [|reflexivity].
  apply String.eqb_eq in E. subst k. apply list_mem_In in Hcol. congruence.
Qed.

(** C9.  In [SCDHelper.create_new_version] the keys of [updates] that are
    not column names of the table are ignored: the call behaves as if the
    mapping held only its keys that are column names, so when no key is a
    column name it behaves as with an empty mapping.  The new row is still
    inserted, with the new uid, the incremented version, the values of the
    keys that are column names, and every other column copied from the
    latest row. *)
Theorem C9_unknown_keys_ignored
  (c : conn) (table id : string) (updates : dict) (new_uid : string) :
  scd_call_ready c id new_uid ->
  keeps_identity updates ->
  let known := filter (fun kv => list_mem (fst kv) (columns (catalog c))) updates in
  SCDHelper.create_new_version table id updates new_uid c
  = SCDHelper.create_new_version table id known new_uid c
  /\ ((forall k, In k (dict_keys updates) -> ~ In k (columns (catalog c))) ->
      SCDHelper.create_new_version table id updates new_uid c
      = SCDHelper.create_new_version table id [] new_uid c)
  /\ exists latest v new_row,
      select_latest "version" id (catalog c) (visible c) = Some latest
      /\ field (columns (catalog c)) latest "version" = VInt v
      /\ SCDHelper.create_new_version table id updates new_uid c
         = (Returned None,
            mk_conn (catalog c) (visible c ++ [new_row]) Idle
                    (log c ++ [SelectLatestByVersion table id; SelectColumnNames table;
                               InsertRow table new_row; SqlCommit]))
      /\ field (columns (catalog c)) new_row "uid" = VStr new_uid
      /\ field (columns (catalog c)) new_row "version" = VInt (v + 1)
      /\ (forall col, In col (columns (catalog c)) -> col <> "uid" -> col <> "version" ->
                      field (columns (catalog c)) new_row col
                      = match dict_last known col with
                        | Some x => x
                        | None => field (columns (catalog c)) latest col
                        end).
Proof.
  intros Hcall [Hkid Hkv] known.
  split; [apply create_new_version_known|]. split.
  - intro Hunknown.
    assert (Hfilter : known = []).
    { unfold known. clear Hcall Hkid Hkv known.
      induction updates as [|[k v] rest IH]; [reflexivity|]. simpl.
      destruct (list_mem k (columns (catalog c))) eqn:E.
      - apply list_mem_In in E. exfalso. apply (Hunknown k); simpl; auto.
      - apply IH. intros k' Hk'. apply Hunknown. simpl. auto. }
    rewrite create_new_version_known. fold known. rewrite Hfilter. reflexivity.
  - pose proof Hcall as [Hready [Hs [Hwf [Hex Hfresh]]]].
    pose proof Hs as [Hci [Hcv [Hcu _]]].
    destruct (create_new_version_run c table id updates new_uid Hready Hs Hwf Hex)
      as [latest [v [new_row [Hsel [Hin [Hid [Hver [Hmax [Hlen [Hf Hrun]]]]]]]]]].
    assert (Fu : field (columns (catalog c)) new_row "uid" = VStr new_uid)
      by (rewrite (Hf _ Hcu); reflexivity).
    assert (Fv : field (columns (catalog c)) new_row "version" = VInt (v + 1)).
    { rewrite (Hf _ Hcv). unfold next_value. simpl String.eqb.
      apply dict_last_None in Hkv. rewrite Hkv, Hver. reflexivity. }
    assert (Fi : field (columns (catalog c)) new_row "id" = VStr id).
    { rewrite (Hf _ Hci). unfold next_value. simpl String.eqb.
      apply dict_last_None in Hkid. rewrite Hkid. assumption. }
    exists latest, v, new_row.
    split; [assumption|]. split; [assumption|]. split; [|split; [|split]]; auto.
    + rewrite Hrun.
      rewrite (insert_ok_counter (catalog c) (visible c) new_row id new_uid (v + 1));
        auto.
      intros r' Hr' Hid' E. specialize (Hmax r' (v + 1) Hr' Hid' E). lia.
    + intros col Hcol Hnu Hnv. rewrite (Hf col Hcol). unfold next_value, known.
      apply String.eqb_neq in Hnu, Hnv.
      rewrite Hnu, Hnv, dict_last_known by assumption. reflexivity.
Qed.

Lemma C9_unknown_keys_ignored_witness :
  scd_call_ready jobs_with_job1 "job1" "uid-2"
  /\ SCDHelper.create_new_version "jobs" "job1"
       [("salary", VInt 9000); ("Status", VStr "updated")] "uid-2" jobs_with_job1
     = SCDHelper.create_new_version "jobs" "job1" [] "uid-2" jobs_with_job1.
Proof.
  assert (H1 : scd_call_ready jobs_with_job1 "job1" "uid-2").
  { split; [discriminate|]. split.
    - repeat split; simpl; auto 10.
    - split; [reflexivity|]. split.
      + exists job1_v1. split; [left|]; reflexivity.
      + intros r [E|[]]. subst r. discriminate. }
  split; [exact H1|].
  apply (C9_unknown_keys_ignored jobs_with_job1 "jobs" "job1"
           [("salary", VInt 9000); ("Status", VStr "updated")] "uid-2" H1).
  - split; simpl; intros [E|[E|[]]]; discriminate.
  - intros k [E|[E|[]]]; subst k; simpl; intuition discriminate.
Defined.

(** ** C4: an entity without rows *)

Lemma where_id_absent (cols : list string) (id : string) (rows : list row) :
  absent_id cols id rows -> where_id cols id rows = [].
Proof.
  intro H. unfold where_id. induction rows as [|r rows IH]; [reflexivity|]. simpl.
  destruct (sql_eq (field cols r "id") (VStr id)) eqn:E.
  - apply sql_eq_str in E. exfalso. apply (H r); simpl; auto.
  - apply IH. intros r' Hr'. apply H. simpl. auto.
Qed.

Lemma select_latest_absent (col id : string) (s : schema) (rows : list row) :
  absent_id (columns s) id rows -> select_latest col id s rows = None.
Proof.
  intro H. unfold select_latest. rewrite where_id_absent by assumption. reflexivity.
Qed.

Lemma scd_create_absent (c : conn) (table id : string) (updates : dict)
  (new_uid : string) :
  txn c <> Failed ->
  absent_id (columns (catalog c)) id (visible c) ->
  SCDHelper.create_new_version table id updates new_uid c
  = (Raised (mk_exn Exception ("No record found with id " ++ id)%string),
     mk_conn (catalog c) (committed c) (InTxn (visible c))
             (log c ++ [SelectLatestByVersion table id])).
Proof.
  intros Hready Habs.
  unfold SCDHelper.create_new_version, SCDHelper.derive_new_version, bind.
  rewrite execute_query_ready by assumption.
  rewrite select_latest_absent by assumption. reflexivity.
Qed.

Lemma ts_create_absent (c : conn) (table id : string) (updates : dict) (now : Z)
  (new_uid : string) :
  txn c <> Failed ->
  absent_id (columns (catalog c)) id (visible c) ->
  TimestampVersioningHelper.create_new_version table id updates now new_uid c
  = (Raised (mk_exn Exception ("No record found with id " ++ id)%string),
     mk_conn (catalog c) (committed c) (InTxn (visible c))
             (log c ++ [SelectLatestByCreatedAt (table ++ "_ts")%string id])).
Proof.
  intros Hready Habs.
  unfold TimestampVersioningHelper.create_new_version, bind.
  rewrite execute_query_ready by assumption.
  rewrite select_latest_absent by assumption. reflexivity.
Qed.

Lemma django_create_absent (float : Type) (pk_on_save : option string)
  (t : Django.table float) (i : string)
  (update_fn : Django.Job float -> Django.Job float) :
  (forall r, In r t -> Django.id r <> i) ->
  Django.create_new_scd_version pk_on_save i update_fn t
  = (Raised (mk_exn Exception "Not found"), t).
Proof.
  intro Habs.
  unfold Django.create_new_scd_version, Django.dbind, Django.prepare_new_version.
  rewrite (latest_of_None float t i Habs). reflexivity.
Qed.

(** C4 (as amended).  Called for an id that has no row,
    [SCDHelper.create_new_version], [TimestampVersioningHelper.create_new_version]
    and [create_new_scd_version] fail before they write anything, by raising
    the base class [Exception] with a message that says the record was not
    found.  No dedicated error class exists: the exception is not of a
    specific kind. *)
Theorem C4_missing_entity_raises_generic_exception
  (c : conn) (table id : string) (updates : dict) (now : Z) (new_uid : string)
  (float : Type) (pk_on_save : option string) (t : Django.table float)
  (update_fn : Django.Job float -> Django.Job float) :
  txn c <> Failed ->
  absent_id (columns (catalog c)) id (visible c) ->
  (forall r, In r t -> Django.id r <> id) ->
  let not_found := mk_exn Exception ("No record found with id " ++ id)%string in
  SCDHelper.create_new_version table id updates new_uid c
  = (Raised not_found,
     mk_conn (catalog c) (committed c) (InTxn (visible c))
             (log c ++ [SelectLatestByVersion table id]))
  /\ TimestampVersioningHelper.create_new_version table id updates now new_uid c
     = (Raised not_found,
        mk_conn (catalog c) (committed c) (InTxn (visible c))
                (log c ++ [SelectLatestByCreatedAt (table ++ "_ts")%string id]))
  /\ Django.create_new_scd_version pk_on_save id update_fn t
     = (Raised (mk_exn Exception "Not found"), t)
  /\ specific_kind not_found = false
  /\ specific_kind (mk_exn Exception "Not found") = false.
Proof.
  intros Hready Habs Habs' not_found.
  split; [apply scd_create_absent; assumption|].
  split; [apply ts_create_absent; assumption|].
  split; [apply django_create_absent; assumption|].
  split; reflexivity.
Qed.

Lemma C4_missing_entity_raises_generic_exception_witness :
  fst (SCDHelper.create_new_version "jobs" "job9" scenario_update "uid-2" jobs_with_job1)
  = Raised (mk_exn Exception "No record found with id job9").
Proof.
  assert (H1 : txn jobs_with_job1 <> Failed) by discriminate.
  assert (H2 : absent_id (columns (catalog jobs_with_job1)) "job9" (visible jobs_with_job1)).
  { intros r [E|[]]. subst r. discriminate. }
  assert (H3 : forall r, In r [django_job1_v1] -> Django.id r <> "job9").
  { intros r [E|[]]. subst r. discriminate. }
  destruct (C4_missing_entity_raises_generic_exception jobs_with_job1 "jobs" "job9"
              scenario_update 0 "uid-2" Z None [django_job1_v1] (fun j => j) H1 H2 H3)
    as [E _].
  rewrite E. reflexivity.
Defined.

(** C4 as stated fails: for the id [job9], which has no row, neither helper
    raises an exception of a specific kind. *)
Lemma C4_counterexample :
  ~ raises_specific_kind
      (SCDHelper.create_new_version "jobs" "job9" scenario_update "uid-2" jobs_with_job1)
  /\ ~ raises_specific_kind
         (Django.create_new_scd_version None "job9"
            (django_scenario_update "job9_v1") [django_job1_v1]).
Proof.
  split; intros [e [H1 H2]]; vm_compute in H1; inversion H1; subst e;
    vm_compute in H2; discriminate.
Qed.

(** ** Aggregates *)

Section SqlMax.
Variable C : Z -> value.
Hypothesis C_max : forall a b, sql_max2 (C a) (C b) = C (Z.max a b).
Hypothesis C_inj : forall x y, C x = C y -> x = y.

Lemma fold_sql_max (vs : list value) :
  (forall v, In v vs -> exists n, v = C n) ->
  forall a, exists m,
    fold_left sql_max2 vs (C a) = C m
    /\ (m = a \/ In (C m) vs)
    /\ a <= m
    /\ (forall n, In (C n) vs -> n <= m).
Proof.
  induction vs as [|v vs IH]; intros Hall a.
  - exists a. simpl. repeat split; auto; try lia; intros n [].
  - destruct (Hall v (or_introl eq_refl)) as [n Hn]. subst v.
    simpl. rewrite C_max.
    destruct (IH (fun v H => Hall v (or_intror H)) (Z.max a n))
      as [m [H1 [H2 [H3 H4]]]].
    exists m. repeat split; auto; try lia.
    + destruct H2 as [H2|H2]; [|auto].
      destruct (Z.max_spec a n) as [[_ E]|[_ E]]; rewrite E in H2; subst; auto.
    + intros k [E|Hk]; [apply C_inj in E; lia | auto].
Qed.

(** [MAX] over a non-empty column of values of one type is the largest
    of them. *)
Lemma sql_max_spec (vs : list value) :
  (forall v, In v vs -> exists n, v = C n) ->
  vs <> [] ->
  exists m, sql_max vs = C m /\ In (C m) vs /\ (forall n, In (C n) vs -> n <= m).
Proof.
  intros Hall Hne. destruct vs as [|v vs]; [congruence|].
  destruct (Hall v (or_introl eq_refl)) as [a Ha]. subst v.
  unfold sql_max. simpl.
  destruct (fold_sql_max vs (fun v H => Hall v (or_intror H)) a)
    as [m [H1 [H2 [H3 H4]]]].
  exists m. repeat split; auto.
  - destruct H2 as [H2|H2]; [subst; auto | auto].
  - intros n [E|Hn]; [apply C_inj in E; lia | auto].
Qed.
End SqlMax.

Lemma VInt_inj (x y : Z) : VInt x = VInt y -> x = y.
Proof. congruence. Qed.

Lemma VTime_inj (x y : Z) : VTime x = VTime y -> x = y.
Proof. congruence. Qed.

Lemma hd_error_filter {A} (p : A -> bool) (l : list A) :
  (exists x, In x l /\ p x = true) ->
  exists y, hd_error (filter p l) = Some y /\ In y l /\ p y = true.
Proof.
  intros [x [Hx Hp]].
  assert (H : In x (filter p l)) by (apply filter_In; auto).
  destruct (filter p l) as [|y l'] eqn:E; [contradiction|].
  exists y. split; [reflexivity|].
  apply filter_In. rewrite E. left. reflexivity.
Qed.

(** [SELECT COALESCE(MAX(version), 0)] and the row fetched for it, for an
    entity that exists. *)
Lemma select_max_version_spec (s : schema) (rows : list row) (id : string) :
  forallb (counter_row s) rows = true ->
  exists_id (columns s) id rows ->
  exists original v,
    FlagVersioningHelper.select_max_version id s rows = VInt v
    /\ FlagVersioningHelper.select_by_id_version id (VInt v) s rows = Some original
    /\ In original rows
    /\ field (columns s) original "id" = VStr id
    /\ field (columns s) original "version" = VInt v
    /\ (forall r m, In r rows -> field (columns s) r "id" = VStr id ->
                    field (columns s) r "version" = VInt m -> m <= v).
Proof.
  intros Hwf [r0 [Hr0 Hid0]]. rewrite forallb_forall in Hwf.
  destruct (sql_max_spec VInt (fun a b => eq_refl) VInt_inj
              (map (fun r => field (columns s) r "version") (where_id (columns s) id rows)))
    as [m [H1 [H2 H3]]].
  - intros v Hv. apply in_map_iff in Hv. destruct Hv as [r [E Hr]].
    apply where_id_In in Hr. destruct Hr as [Hr _].
    apply Hwf, counter_row_inv in Hr. destruct Hr as [_ [_ [n Hn]]].
    exists n. congruence.
  - intro E. apply map_eq_nil in E.
    assert (H : In r0 (where_id (columns s) id rows)) by (apply where_id_In; auto).
    rewrite E in H. contradiction.
  - apply in_map_iff in H2. destruct H2 as [r [Hv Hr]].
    destruct (hd_error_filter
                (fun r => sql_eq (field (columns s) r "version") (VInt m))
                (where_id (columns s) id rows)) as [y [Hy1 [Hy2 Hy3]]].
    { exists r. split; [assumption|]. rewrite Hv. simpl. apply Z.eqb_refl. }
    apply where_id_In in Hy2. destruct Hy2 as [Hy2 Hy2'].
    apply sql_eq_true in Hy3. destruct Hy3 as [Hy3 _].
    exists y, m. unfold FlagVersioningHelper.select_max_version,
                   FlagVersioningHelper.select_by_id_version.
    rewrite H1. simpl coalesce. repeat split; auto.
    intros r' m' Hr' Hid' Hv'. apply H3. rewrite <- Hv'.
    apply in_map_iff. exists r'. split; [reflexivity|]. apply where_id_In. auto.
Qed.

(** ** [FlagVersioningHelper.create_new_version] *)

Lemma flag_row_shape (r : row) :
  counter_row jobs_flag_schema r = true ->
  exists i v u f st ra ti co ct,
    r = [VStr i; VInt v; u; f; st; ra; ti; co; ct].
Proof.
  intro H. apply counter_row_inv in H. destruct H as [Hlen [[i Hi] [v Hv]]].
  do 10 (destruct r as [|? r]; try discriminate).
  unfold field in Hi, Hv. simpl in Hi, Hv. subst. eauto 10.
Qed.

Lemma clear_current_row_shape (id i : string) (v : Z) (u f st ra ti co ct : value) :
  FlagVersioningHelper.clear_current_row id jobs_flag_schema
    [VStr i; VInt v; u; f; st; ra; ti; co; ct]
  = [VStr i; VInt v; u;
     if String.eqb i id && sql_eq f (VBool true) then VBool false else f;
     st; ra; ti; co; ct].
Proof.
  unfold FlagVersioningHelper.clear_current_row, field. simpl.
  destruct (String.eqb i id && sql_eq f (VBool true)); reflexivity.
Qed.

(** The UPDATE of the flag leaves every other column of every row as it
    was. *)
Lemma clear_current_row_frame (id : string) (r : row) :
  counter_row jobs_flag_schema r = true ->
  let r' := FlagVersioningHelper.clear_current_row id jobs_flag_schema r in
  counter_row jobs_flag_schema r' = true
  /\ (forall c, c <> "is_current" ->
                field (columns jobs_flag_schema) r' c = field (columns jobs_flag_schema) r c)
  /\ (forall k, k <> 3%nat -> nth k r' VNone = nth k r VNone).
Proof.
  intro H. destruct (flag_row_shape r H) as [i [v [u [f [st [ra [ti [co [ct E]]]]]]]]].
  subst r. rewrite clear_current_row_shape. simpl. repeat split.
  - intros c Hc. unfold field.
    match goal with
    | |- context [list_index c ?l] => destruct (list_index c l) as [k|] eqn:Ek
    end; [|reflexivity].
    do 4 (destruct k as [|k]; try reflexivity).
    exfalso. apply Hc.
    apply (list_index_inj _ _ _ _ Ek). reflexivity.
  - intros k Hk. do 4 (destruct k as [|k]; try reflexivity). congruence.
Qed.

Lemma clear_current_In (id : string) (rows : list row) (r' : row) :
  In r' (FlagVersioningHelper.clear_current id jobs_flag_schema rows) ->
  exists r, In r rows /\ r' = FlagVersioningHelper.clear_current_row id jobs_flag_schema r.
Proof.
  unfold FlagVersioningHelper.clear_current. intro H. apply in_map_iff in H.
  destruct H as [r [E Hr]]. eauto.
Qed.

Lemma clear_current_wf (id : string) (rows : list row) :
  forallb (counter_row jobs_flag_schema) rows = true ->
  forallb (counter_row jobs_flag_schema)
          (FlagVersioningHelper.clear_current id jobs_flag_schema rows) = true.
Proof.
  rewrite !forallb_forall. intros H r' Hr'.
  apply clear_current_In in Hr'. destruct Hr' as [r [Hr E]]. subst r'.
  apply clear_current_row_frame. auto.
Qed.

Lemma clear_current_exists_id (id id' : string) (rows : list row) :
  forallb (counter_row jobs_flag_schema) rows = true ->
  exists_id (columns jobs_flag_schema) id' rows ->
  exists_id (columns jobs_flag_schema) id'
            (FlagVersioningHelper.clear_current id jobs_flag_schema rows).
Proof.
  rewrite forallb_forall. intros Hwf [r [Hr Hid]].
  exists (FlagVersioningHelper.clear_current_row id jobs_flag_schema r). split.
  - unfold FlagVersioningHelper.clear_current. apply in_map. assumption.
  - destruct (clear_current_row_frame id r (Hwf r Hr)) as [_ [Hf _]].
    rewrite Hf by discriminate. assumption.
Qed.

Lemma clear_current_fresh (id u : string) (rows : list row) :
  forallb (counter_row jobs_flag_schema) rows = true ->
  fresh_uid (columns jobs_flag_schema) u rows ->
  fresh_uid (columns jobs_flag_schema) u
            (FlagVersioningHelper.clear_current id jobs_flag_schema rows).
Proof.
  rewrite forallb_forall. intros Hwf Hfresh r' Hr'.
  apply clear_current_In in Hr'. destruct Hr' as [r [Hr E]]. subst r'.
  destruct (clear_current_row_frame id r (Hwf r Hr)) as [_ [Hf _]].
  rewrite Hf by discriminate. auto.
Qed.

Lemma counter_schema_flag : counter_schema jobs_flag_schema.
Proof. repeat split; simpl; auto 10. Qed.

Lemma counter_schema_jobs : counter_schema jobs_schema.
Proof. repeat split; simpl; auto 10. Qed.

(** One call of [FlagVersioningHelper.create_new_version] on an existing
    entity: the row that is derived, and the two ways the call can end. *)
Lemma flag_create_run_gen (c : conn) (table id : string) (updates : dict)
  (new_uid : string) :
  catalog c = jobs_flag_schema ->
  txn c <> Failed ->
  forallb (counter_row jobs_flag_schema) (visible c) = true ->
  exists_id (columns jobs_flag_schema) id (visible c) ->
  exists original v,
    let cleared := FlagVersioningHelper.clear_current id jobs_flag_schema (visible c) in
    let new_row := flag_next_row id v new_uid updates original in
    let issued := [SqlBegin;
                   UpdateClearCurrent (table ++ "_flag")%string id;
                   SelectMaxVersion (table ++ "_flag")%string id;
                   SelectByIdVersion (table ++ "_flag")%string id (VInt v);
                   InsertRow (table ++ "_flag")%string new_row] in
    In original (visible c)
    /\ field (columns jobs_flag_schema) original "id" = VStr id
    /\ field (columns jobs_flag_schema) original "version" = VInt v
    /\ (forall r m, In r (visible c) ->
                    field (columns jobs_flag_schema) r "id" = VStr id ->
                    field (columns jobs_flag_schema) r "version" = VInt m -> m <= v)
    /\ FlagVersioningHelper.create_new_version table id updates new_uid c
       = if insert_ok jobs_flag_schema cleared new_row
         then (Returned None,
               mk_conn jobs_flag_schema (cleared ++ [new_row]) Idle
                       (log c ++ issued ++ [SqlCommit]))
         else (Raised unique_violation,
               mk_conn jobs_flag_schema (committed c) Failed (log c ++ issued)).
Proof.
  intros Hcat Hready Hwf Hex.
  set (rows1 := FlagVersioningHelper.clear_current id jobs_flag_schema (visible c)).
  pose proof (clear_current_wf id _ Hwf) as Hwf1.
  pose proof (clear_current_exists_id id id _ Hwf Hex) as Hex1.
  fold rows1 in Hwf1, Hex1.
  destruct (select_max_version_spec jobs_flag_schema rows1 id Hwf1 Hex1)
    as [orig1 [v [Hmax [Hsel [Hin1 [Hid1 [Hv1 Hle1]]]]]]].
  destruct (clear_current_In id _ _ Hin1) as [original [Hin E1]].
  pose proof Hwf as Hwf'. rewrite forallb_forall in Hwf'.
  destruct (clear_current_row_frame id original (Hwf' _ Hin)) as [Hw1 [Hf Hn]].
  rewrite <- E1 in Hw1, Hf, Hn.
  exists original, v. cbv zeta. fold rows1. split; [assumption|].
  split; [rewrite <- Hf by discriminate; assumption|].
  split; [rewrite <- Hf by discriminate; assumption|].
  split.
  { intros r m Hr Hid Hv.
    apply (Hle1 (FlagVersioningHelper.clear_current_row id jobs_flag_schema r) m).
    - unfold rows1, FlagVersioningHelper.clear_current. apply in_map. assumption.
    - destruct (clear_current_row_frame id r (Hwf' _ Hr)) as [_ [Hf' _]].
      rewrite Hf' by discriminate. assumption.
    - destruct (clear_current_row_frame id r (Hwf' _ Hr)) as [_ [Hf' _]].
      rewrite Hf' by discriminate. assumption. }
  destruct (flag_row_shape orig1 Hw1) as [i' [v' [u' [f' [st [ra [ti [co [ct E]]]]]]]]].
  assert (Hnew : flag_next_row id v new_uid updates original
                 = [VStr id; VInt (v + 1); VStr new_uid; VBool true;
                    dict_get updates "status" st; dict_get updates "rate" ra;
                    ti; co; ct]).
  { unfold flag_next_row. rewrite <- !Hn by discriminate. rewrite E. reflexivity. }
  rewrite Hnew.
  unfold FlagVersioningHelper.create_new_version.
  erewrite bind_returned by (apply execute_update_ready; assumption).
  erewrite bind_returned by (apply execute_update_ready; discriminate).
  erewrite bind_returned by (apply execute_query_ready; discriminate).
  norm_conn. rewrite Hcat. fold rows1. rewrite Hmax.
  erewrite bind_returned by (apply execute_query_ready; discriminate).
  norm_conn. rewrite Hcat, Hsel, E.
  unfold bind, lift.
  cbn [py_plus_one py_add_one py_subscript py_tuple_get tuple_get nth_error].
  unfold execute_insert_into. norm_conn. rewrite Hcat. simpl andb. cbv iota.
  rewrite execute_insert_ready by discriminate.
  norm_conn. rewrite Hcat.
  change (named_row jobs_flag_schema FlagVersioningHelper.flag_columns
            [VStr id; VInt (v + 1); VStr new_uid; VBool true;
             dict_get updates "status" st; dict_get updates "rate" ra; ti; co; ct])
    with [VStr id; VInt (v + 1); VStr new_uid; VBool true;
          dict_get updates "status" st; dict_get updates "rate" ra; ti; co; ct].
  destruct (insert_ok jobs_flag_schema rows1
              [VStr id; VInt (v + 1); VStr new_uid; VBool true;
               dict_get updates "status" st; dict_get updates "rate" ra; ti; co; ct]).
  - unfold execute_commit, conn_commit, ret, with_log. simpl.
    rewrite <- !app_assoc, Hcat. reflexivity.
  - unfold with_log. simpl. rewrite <- !app_assoc, Hcat. reflexivity.
Qed.

(** The same call when the uid is new: it returns. *)
Lemma flag_create_run (c : conn) (table id : string) (updates : dict)
  (new_uid : string) :
  flag_call_ready c id new_uid ->
  exists original v,
    In original (visible c)
    /\ field (columns jobs_flag_schema) original "id" = VStr id
    /\ field (columns jobs_flag_schema) original "version" = VInt v
    /\ (forall r m, In r (visible c) ->
                    field (columns jobs_flag_schema) r "id" = VStr id ->
                    field (columns jobs_flag_schema) r "version" = VInt m -> m <= v)
    /\ FlagVersioningHelper.create_new_version table id updates new_uid c
       = (Returned None,
          mk_conn jobs_flag_schema
                  (FlagVersioningHelper.clear_current id jobs_flag_schema (visible c)
                   ++ [flag_next_row id v new_uid updates original])
                  Idle
                  (log c ++ [SqlBegin;
                             UpdateClearCurrent (table ++ "_flag")%string id;
                             SelectMaxVersion (table ++ "_flag")%string id;
                             SelectByIdVersion (table ++ "_flag")%string id (VInt v);
                             InsertRow (table ++ "_flag")%string
                                       (flag_next_row id v new_uid updates original);
                             SqlCommit])).
Proof.
  intros [Hcat [Hready [Hs [Hwf [Hex Hfresh]]]]].
  rewrite Hcat in Hwf, Hex, Hfresh.
  destruct (flag_create_run_gen c table id updates new_uid Hcat Hready Hwf Hex)
    as [original [v [Hin [Hid [Hv [Hmax Hrun]]]]]].
  exists original, v. repeat split; auto.
  rewrite Hrun.
  rewrite (insert_ok_counter jobs_flag_schema
             (FlagVersioningHelper.clear_current id jobs_flag_schema (visible c))
             (flag_next_row id v new_uid updates original) id new_uid (v + 1)
             counter_schema_flag eq_refl eq_refl eq_refl eq_refl
             (clear_current_fresh id new_uid _ Hwf Hfresh)).
  - reflexivity.
  - intros r' Hr' Hid' Ev.
    apply clear_current_In in Hr'. destruct Hr' as [r [Hr E]]. subst r'.
    rewrite forallb_forall in Hwf.
    destruct (clear_current_row_frame id r (Hwf r Hr)) as [_ [Hf _]].
    rewrite Hf in Hid', Ev by discriminate.
    specialize (Hmax r (v + 1) Hr Hid' Ev). lia.
Qed.

(** ** C10: the Flag helper and an entity without rows *)

Lemma clear_current_absent (id : string) (s : schema) (rows : list row) :
  absent_id (columns s) id rows ->
  FlagVersioningHelper.clear_current id s rows = rows.
Proof.
  intro H. unfold FlagVersioningHelper.clear_current.
  induction rows as [|r rows IH]; [reflexivity|]. simpl.
  rewrite IH by (intros r' Hr'; apply H; simpl; auto). f_equal.
  unfold FlagVersioningHelper.clear_current_row.
  destruct (sql_eq (field (columns s) r "id") (VStr id)) eqn:E; [|reflexivity].
  apply sql_eq_str in E. exfalso. apply (H r); simpl; auto.
Qed.

Lemma flag_select_absent (c : conn) (id : string) :
  absent_id (columns (catalog c)) id (visible c) ->
  FlagVersioningHelper.select_by_id_version id (VInt 0) (catalog c) (visible c) = None.
Proof.
  intro Habs. unfold FlagVersioningHelper.select_by_id_version.
  rewrite where_id_absent by assumption. reflexivity.
Qed.

Lemma flag_create_absent (c : conn) (table id : string) (updates : dict)
  (new_uid : string) :
  txn c <> Failed ->
  absent_id (columns (catalog c)) id (visible c) ->
  FlagVersioningHelper.create_new_version table id updates new_uid c
  = (Raised (mk_exn TypeError "'NoneType' object is not subscriptable"),
     mk_conn (catalog c) (committed c) (InTxn (visible c))
             (log c ++ [SqlBegin;
                        UpdateClearCurrent (table ++ "_flag")%string id;
                        SelectMaxVersion (table ++ "_flag")%string id;
                        SelectByIdVersion (table ++ "_flag")%string id (VInt 0)])).
Proof.
  intros Hready Habs.
  unfold FlagVersioningHelper.create_new_version.
  erewrite bind_returned by (apply execute_update_ready; assumption).
  erewrite bind_returned by (apply execute_update_ready; discriminate).
  erewrite bind_returned by (apply execute_query_ready; discriminate).
  norm_conn. rewrite clear_current_absent by assumption.
  replace (FlagVersioningHelper.select_max_version id (catalog c) (visible c))
    with (VInt 0)
    by (unfold FlagVersioningHelper.select_max_version;
        rewrite where_id_absent by assumption; reflexivity).
  erewrite bind_returned by (apply execute_query_ready; discriminate).
  norm_conn. rewrite (flag_select_absent c id Habs).
  unfold bind, lift, with_log. simpl. rewrite <- !app_assoc. reflexivity.
Qed.

(** C10.  Called with an id that has no row,
    [FlagVersioningHelper.create_new_version] raises no not-found
    exception.  It issues BEGIN and the UPDATE that clears the flag, reads 0
    as the maximal version, fetches [None] as the original row and fails with
    the [TypeError] of subscripting [None]; the transaction is left open,
    with nothing committed. *)
Theorem C10_flag_missing_entity_type_error
  (c : conn) (table id : string) (updates : dict) (new_uid : string) :
  txn c <> Failed ->
  absent_id (columns (catalog c)) id (visible c) ->
  FlagVersioningHelper.select_by_id_version id (VInt 0) (catalog c) (visible c) = None
  /\ FlagVersioningHelper.create_new_version table id updates new_uid c
     = (Raised (mk_exn TypeError "'NoneType' object is not subscriptable"),
        mk_conn (catalog c) (committed c) (InTxn (visible c))
                (log c ++ [SqlBegin;
                           UpdateClearCurrent (table ++ "_flag")%string id;
                           SelectMaxVersion (table ++ "_flag")%string id;
                           SelectByIdVersion (table ++ "_flag")%string id (VInt 0)])).
Proof.
  intros Hready Habs. split.
  - apply flag_select_absent. assumption.
  - apply flag_create_absent; assumption.
Qed.

Lemma C10_flag_missing_entity_type_error_witness :
  fst (FlagVersioningHelper.create_new_version "jobs" "job9" scenario_update "uid-2"
         (connect jobs_flag_schema [seed_job_flag "job1" "uid-1"]))
  = Raised (mk_exn TypeError "'NoneType' object is not subscriptable").
Proof.
  assert (H1 : txn (connect jobs_flag_schema [seed_job_flag "job1" "uid-1"]) <> Failed)
    by discriminate.
  assert (H2 : absent_id (columns jobs_flag_schema) "job9" [seed_job_flag "job1" "uid-1"]).
  { intros r [E|[]]. subst r. discriminate. }
  destruct (C10_flag_missing_entity_type_error
              (connect jobs_flag_schema [seed_job_flag "job1" "uid-1"])
              "jobs" "job9" scenario_update "uid-2" H1 H2) as [_ E].
  rewrite E. reflexivity.
Defined.

(** ** C3: one current row per entity under the Flag strategy *)

Lemma current_rows_app (cols : list string) (id : string) (a b : list row) :
  current_rows cols id (a ++ b) = current_rows cols id a ++ current_rows cols id b.
Proof.
  unfold current_rows, where_id. rewrite !filter_app. reflexivity.
Qed.

(** After the UPDATE, no stored row of the entity is marked current. *)
Lemma current_rows_clear_same (id : string) (rows : list row) :
  forallb (counter_row jobs_flag_schema) rows = true ->
  current_rows (columns jobs_flag_schema) id
    (FlagVersioningHelper.clear_current id jobs_flag_schema rows) = [].
Proof.
  induction rows as [|r rows IH]; intro Hwf; [reflexivity|].
  simpl in Hwf. apply andb_true_iff in Hwf. destruct Hwf as [Hr Hwf].
  specialize (IH Hwf). unfold current_rows, where_id in *.
  unfold FlagVersioningHelper.clear_current in *. simpl map.
  destruct (flag_row_shape r Hr) as [i [v [u [f [st [ra [ti [co [ct E]]]]]]]]].
  subst r. rewrite clear_current_row_shape. simpl filter at 2.
  unfold field at 1. simpl list_index. simpl nth. simpl sql_eq at 1.
  destruct (String.eqb i id) eqn:Ei; [|exact IH].
  simpl filter at 1. unfold field at 1. simpl list_index. simpl nth. simpl andb.
  destruct (sql_eq f (VBool true)) eqn:Ef; simpl; [exact IH|].
  rewrite Ef. exact IH.
Qed.

(** The UPDATE leaves the rows of the other entities as they are. *)
Lemma current_rows_clear_other (id id' : string) (rows : list row) :
  forallb (counter_row jobs_flag_schema) rows = true ->
  id' <> id ->
  current_rows (columns jobs_flag_schema) id'
    (FlagVersioningHelper.clear_current id jobs_flag_schema rows)
  = current_rows (columns jobs_flag_schema) id' rows.
Proof.
  intros Hwf Hne. induction rows as [|r rows IH]; [reflexivity|].
  simpl in Hwf. apply andb_true_iff in Hwf. destruct Hwf as [Hr Hwf].
  specialize (IH Hwf).
  change (r :: rows) with ([r] ++ rows).
  unfold FlagVersioningHelper.clear_current in *. rewrite map_app.
  rewrite !current_rows_app, IH. f_equal.
  destruct (flag_row_shape r Hr) as [i [v [u [f [st [ra [ti [co [ct E]]]]]]]]].
  subst r. simpl map. rewrite clear_current_row_shape.
  destruct (String.eqb i id) eqn:Ei; [|reflexivity].
  apply String.eqb_eq in Ei. subst i.
  unfold current_rows, where_id, field. simpl.
  apply String.eqb_neq in Hne. rewrite String.eqb_sym, Hne. reflexivity.
Qed.

Lemma exists_id_app (cols : list string) (id : string) (a b : list row) :
  exists_id cols id (a ++ b) <-> exists_id cols id a \/ exists_id cols id b.
Proof.
  unfold exists_id. split.
  - intros [r [Hr Hid]]. apply in_app_or in Hr. destruct Hr; [left|right]; eauto.
  - intros [[r [Hr Hid]]|[r [Hr Hid]]]; exists r; split; auto using in_or_app.
Qed.

Lemma clear_current_exists_id_inv (id id' : string) (rows : list row) :
  forallb (counter_row jobs_flag_schema) rows = true ->
  exists_id (columns jobs_flag_schema) id'
            (FlagVersioningHelper.clear_current id jobs_flag_schema rows) ->
  exists_id (columns jobs_flag_schema) id' rows.
Proof.
  rewrite forallb_forall. intros Hwf [r' [Hr' Hid]].
  apply clear_current_In in Hr'. destruct Hr' as [r [Hr E]]. subst r'.
  exists r. split; [assumption|].
  destruct (clear_current_row_frame id r (Hwf r Hr)) as [_ [Hf _]].
  rewrite <- Hf by discriminate. assumption.
Qed.

(** One call of the Flag helper, with what it preserves. *)
Lemma flag_step (c : conn) (table : string) (k : call) :
  flag_call_ready c (call_id k) (call_uid k) ->
  exists original v,
    let cols := columns jobs_flag_schema in
    let cleared := FlagVersioningHelper.clear_current (call_id k) jobs_flag_schema (visible c) in
    let new_row := flag_next_row (call_id k) v (call_uid k) (call_updates k) original in
    In original (visible c)
    /\ flag_create table k c
       = (Returned None,
          mk_conn jobs_flag_schema (cleared ++ [new_row]) Idle
                  (log c ++ [SqlBegin;
                             UpdateClearCurrent (table ++ "_flag")%string (call_id k);
                             SelectMaxVersion (table ++ "_flag")%string (call_id k);
                             SelectByIdVersion (table ++ "_flag")%string (call_id k) (VInt v);
                             InsertRow (table ++ "_flag")%string new_row;
                             SqlCommit]))
    /\ forallb (counter_row jobs_flag_schema) (cleared ++ [new_row]) = true
    /\ (forall id', exists_id cols id' (cleared ++ [new_row])
                    <-> exists_id cols id' (visible c))
    /\ (forall u', u' <> call_uid k -> fresh_uid cols u' (visible c) ->
                   fresh_uid cols u' (cleared ++ [new_row]))
    /\ current_rows cols (call_id k) (cleared ++ [new_row]) = [new_row]
    /\ (forall id', id' <> call_id k ->
                    current_rows cols id' (cleared ++ [new_row])
                    = current_rows cols id' (visible c)).
Proof.
  intro Hcall. pose proof Hcall as [Hcat [Hready [Hs [Hwf [Hex Hfresh]]]]].
  rewrite Hcat in Hwf, Hex, Hfresh.
  destruct (flag_create_run c table (call_id k) (call_updates k) (call_uid k) Hcall)
    as [original [v [Hin [Hid [Hv [Hmax Hrun]]]]]].
  exists original, v. intros cols cleared new_row.
  split; [assumption|]. split; [exact Hrun|].
  assert (Hnew_id : forall id', field cols new_row "id" = VStr id' <-> id' = call_id k).
  { intro id'. unfold new_row, flag_next_row, cols, field. simpl.
    split; intro H; congruence. }
  split; [|split; [|split; [|split]]].
  - rewrite forallb_app. apply andb_true_iff. split.
    + apply clear_current_wf. assumption.
    + reflexivity.
  - intro id'. rewrite exists_id_app. split.
    + intros [H|[r [[E|[]] Hr]]].
      * eapply clear_current_exists_id_inv; eassumption.
      * subst r. apply Hnew_id in Hr. subst id'. assumption.
    + intro H. left. apply clear_current_exists_id; assumption.
  - intros u' Hne Hf r Hr. apply in_app_or in Hr. destruct Hr as [Hr|[E|[]]].
    + apply (clear_current_fresh (call_id k) u' _ Hwf Hf). assumption.
    + subst r. unfold new_row, flag_next_row, cols, field. simpl. congruence.
  - rewrite current_rows_app. unfold cleared.
    rewrite current_rows_clear_same by assumption.
    unfold current_rows, where_id, new_row, flag_next_row, cols, field. simpl.
    rewrite String.eqb_refl. reflexivity.
  - intros id' Hne. rewrite current_rows_app. unfold cleared.
    rewrite current_rows_clear_other by assumption.
    unfold current_rows at 2. unfold where_id, new_row, flag_next_row, cols, field. simpl.
    apply String.eqb_neq in Hne. rewrite String.eqb_sym, Hne.
    simpl. apply app_nil_r.
Qed.

Lemma visible_idle (c : conn) : txn c = Idle -> visible c = committed c.
Proof. unfold visible. intro H. rewrite H. reflexivity. Qed.

Lemma flag_ready_of_ok (c : conn) (k : call) :
  flag_table_ok c ->
  exists_id (columns jobs_flag_schema) (call_id k) (committed c) ->
  fresh_uid (columns jobs_flag_schema) (call_uid k) (committed c) ->
  flag_call_ready c (call_id k) (call_uid k).
Proof.
  intros [Hcat [Hidle Hwf]] Hex Hfresh.
  split; [assumption|]. unfold scd_call_ready.
  rewrite Hcat, (visible_idle c Hidle), Hidle.
  split; [discriminate|]. split; [exact counter_schema_flag|]. auto.
Qed.

(** The invariant is kept by one call. *)
Lemma flag_step_invariant (c : conn) (table : string) (k : call) :
  flag_table_ok c ->
  one_current_per_id (columns jobs_flag_schema) (committed c) ->
  exists_id (columns jobs_flag_schema) (call_id k) (committed c) ->
  fresh_uid (columns jobs_flag_schema) (call_uid k) (committed c) ->
  exists c' new_row,
    flag_create table k c = (Returned None, c')
    /\ flag_table_ok c'
    /\ committed c'
       = FlagVersioningHelper.clear_current (call_id k) jobs_flag_schema (committed c)
         ++ [new_row]
    /\ field (columns jobs_flag_schema) new_row "id" = VStr (call_id k)
    /\ field (columns jobs_flag_schema) new_row "is_current" = VBool true
    /\ current_rows (columns jobs_flag_schema) (call_id k) (committed c') = [new_row]
    /\ (exists v,
          log c' = log c ++ [SqlBegin;
                             UpdateClearCurrent (table ++ "_flag")%string (call_id k);
                             SelectMaxVersion (table ++ "_flag")%string (call_id k);
                             SelectByIdVersion (table ++ "_flag")%string (call_id k) (VInt v);
                             InsertRow (table ++ "_flag")%string new_row;
                             SqlCommit])
    /\ one_current_per_id (columns jobs_flag_schema) (committed c')
    /\ (forall id', exists_id (columns jobs_flag_schema) id' (committed c')
                    <-> exists_id (columns jobs_flag_schema) id' (committed c))
    /\ (forall u', u' <> call_uid k ->
                   fresh_uid (columns jobs_flag_schema) u' (committed c) ->
                   fresh_uid (columns jobs_flag_schema) u' (committed c')).
Proof.
  intros Hok Hinv Hex Hfresh. pose proof Hok as [Hcat [Hidle Hwf]].
  destruct (flag_step c table k (flag_ready_of_ok c k Hok Hex Hfresh))
    as [original [v H]].
  rewrite (visible_idle c Hidle) in H. cbv zeta in H.
  destruct H as [Hin [Hrun [Hwf' [Hids [Hfr [Hcur Hother]]]]]].
  eexists. exists (flag_next_row (call_id k) v (call_uid k) (call_updates k) original).
  split; [exact Hrun|]. simpl committed. simpl log.
  split; [repeat split; assumption|].
  split; [reflexivity|].
  split; [reflexivity|].
  split; [reflexivity|].
  split; [assumption|].
  split; [exists v; reflexivity|].
  split; [|split; assumption].
  intros id' Hex'. destruct (string_dec id' (call_id k)) as [E|E].
  - subst id'. rewrite Hcur. reflexivity.
  - rewrite Hother by assumption. apply Hinv. apply Hids. assumption.
Qed.

Lemma calls_ready_tail (cols : list string) (rows rows' : list row) (k : call)
  (calls : list call) :
  calls_ready cols rows (k :: calls) ->
  (forall id', exists_id cols id' rows' <-> exists_id cols id' rows) ->
  (forall u', u' <> call_uid k -> fresh_uid cols u' rows -> fresh_uid cols u' rows') ->
  calls_ready cols rows' calls.
Proof.
  intros [H1 [H2 H3]] Hids Hfr. inversion H2 as [|? ? Hnotin Hnd]; subst.
  repeat split.
  - intros k' Hk'. apply Hids. apply H1. right. assumption.
  - assumption.
  - intros k' Hk'. apply Hfr.
    + intro E. apply Hnotin. rewrite <- E. apply in_map. assumption.
    + apply H3. right. assumption.
Qed.

(** The invariant is kept by any sequence of calls. *)
Lemma flag_sequence_invariant (table : string) (calls : list call) :
  forall c,
    flag_table_ok c ->
    one_current_per_id (columns jobs_flag_schema) (committed c) ->
    calls_ready (columns jobs_flag_schema) (committed c) calls ->
    exists c',
      for_each (flag_create table) calls c = (Returned tt, c')
      /\ flag_table_ok c'
      /\ one_current_per_id (columns jobs_flag_schema) (committed c')
      /\ (forall id', exists_id (columns jobs_flag_schema) id' (committed c')
                      <-> exists_id (columns jobs_flag_schema) id' (committed c))
      /\ (forall u', ~ In u' (map call_uid calls) ->
                     fresh_uid (columns jobs_flag_schema) u' (committed c) ->
                     fresh_uid (columns jobs_flag_schema) u' (committed c')).
Proof.
  induction calls as [|k calls IH]; intros c Hok Hinv Hcalls.
  - exists c. simpl. split; [reflexivity|]. split; [assumption|].
    split; [assumption|]. split; [intro; reflexivity | auto].
  - pose proof Hcalls as [H1 [H2 H3]].
    destruct (flag_step_invariant c table k Hok Hinv
                (H1 k (or_introl eq_refl)) (H3 k (or_introl eq_refl)))
      as [c1 [new_row [Hrun [Hok1 [_ [_ [_ [_ [_ [Hinv1 [Hids Hfr]]]]]]]]]]].
    destruct (IH c1 Hok1 Hinv1 (calls_ready_tail _ _ _ _ _ Hcalls Hids Hfr))
      as [c' [Hrun' [Hok' [Hinv' [Hids' Hfr']]]]].
    exists c'. simpl for_each. erewrite bind_returned by exact Hrun.
    split; [exact Hrun'|]. split; [assumption|]. split; [assumption|]. split.
    + intro id'. rewrite Hids', Hids. reflexivity.
    + intros u' Hnot Hf. apply Hfr'.
      * intro H. apply Hnot. simpl. auto.
      * apply Hfr; [|assumption]. intro E. apply Hnot. simpl. auto.
Qed.

Lemma calls_ready_prefix (cols : list string) (rows : list row) (done rest : list call) :
  calls_ready cols rows (done ++ rest) -> calls_ready cols rows done.
Proof.
  intros [H1 [H2 H3]]. repeat split.
  - intros k Hk. apply H1. apply in_or_app. auto.
  - rewrite map_app in H2. apply NoDup_app_remove_r in H2. assumption.
  - intros k Hk. apply H3. apply in_or_app. auto.
Qed.

(** C3.  Under the Flag strategy, start from a table in which every entity
    has exactly one row with [is_current = true], and issue any sequence of
    [create_new_version] calls for existing entities.  Every call of the
    sequence, run in the state the calls before it produced, returns
    normally after a single transaction (BEGIN ... COMMIT) in which the
    rows of the entity that were current are set to [is_current = false] and
    one row with [is_current = true] is inserted; and after it every entity
    again has exactly one row with [is_current = true]. *)
Theorem C3_flag_exactly_one_current
  (c : conn) (table : string) (calls done rest : list call) (k : call) :
  flag_table_ok c ->
  one_current_per_id (columns jobs_flag_schema) (committed c) ->
  calls_ready (columns jobs_flag_schema) (committed c) calls ->
  calls = done ++ k :: rest ->
  exists c1 c2 new_row,
    for_each (flag_create table) done c = (Returned tt, c1)
    /\ flag_create table k c1 = (Returned None, c2)
    /\ txn c2 = Idle
    /\ committed c2
       = FlagVersioningHelper.clear_current (call_id k) jobs_flag_schema (committed c1)
         ++ [new_row]
    /\ current_rows (columns jobs_flag_schema) (call_id k)
         (FlagVersioningHelper.clear_current (call_id k) jobs_flag_schema (committed c1))
       = []
    /\ field (columns jobs_flag_schema) new_row "id" = VStr (call_id k)
    /\ field (columns jobs_flag_schema) new_row "is_current" = VBool true
    /\ (exists v,
          log c2 = log c1 ++ [SqlBegin;
                              UpdateClearCurrent (table ++ "_flag")%string (call_id k);
                              SelectMaxVersion (table ++ "_flag")%string (call_id k);
                              SelectByIdVersion (table ++ "_flag")%string (call_id k) (VInt v);
                              InsertRow (table ++ "_flag")%string new_row;
                              SqlCommit])
    /\ one_current_per_id (columns jobs_flag_schema) (committed c2)
    /\ (forall id, exists_id (columns jobs_flag_schema) id (committed c2)
                   <-> exists_id (columns jobs_flag_schema) id (committed c)).
Proof.
  intros Hok Hinv Hcalls Hsplit. subst calls.
  destruct (flag_sequence_invariant table done c Hok Hinv
              (calls_ready_prefix _ _ _ _ Hcalls))
    as [c1 [Hrun1 [Hok1 [Hinv1 [Hids1 Hfr1]]]]].
  destruct Hcalls as [H1 [H2 H3]].
  assert (Hk : In k (done ++ k :: rest)) by (apply in_or_app; right; left; reflexivity).
  assert (Hex : exists_id (columns jobs_flag_schema) (call_id k) (committed c1))
    by (apply Hids1; auto).
  assert (Hfresh : fresh_uid (columns jobs_flag_schema) (call_uid k) (committed c1)).
  { apply Hfr1; [|auto]. rewrite map_app in H2. simpl in H2.
    apply NoDup_remove_2 in H2. intro H. apply H2. apply in_or_app. auto. }
  destruct (flag_step_invariant c1 table k Hok1 Hinv1 Hex Hfresh)
    as [c2 [new_row [Hrun2 [Hok2 [Hcom [Hid [Hcur [Hone [Hlog [Hinv2 [Hids2 _]]]]]]]]]]].
  exists c1, c2, new_row.
  destruct Hok1 as [_ [_ Hwf1]]. destruct Hok2 as [_ [Hidle2 _]].
  split; [assumption|]. split; [assumption|]. split; [assumption|].
  split; [assumption|].
  split; [apply current_rows_clear_same; assumption|].
  split; [assumption|]. split; [assumption|]. split; [assumption|].
  split; [assumption|].
  intro id'. rewrite Hids2, Hids1. reflexivity.
Qed.

Lemma jobs_flag_seeded_ok :
  flag_table_ok jobs_flag_seeded
  /\ one_current_per_id (columns jobs_flag_schema) (committed jobs_flag_seeded)
  /\ calls_ready (columns jobs_flag_schema) (committed jobs_flag_seeded) three_calls.
Proof.
  split; [repeat split|]. split.
  - intros id [r [[E|[E|[]]] Hid]]; subst r; vm_compute in Hid;
      inversion Hid; subst id; reflexivity.
  - split; [|split].
    + intros k [E|[E|[E|[]]]]; subst k.
      * exists (seed_job_flag "job1" "uid-1"). split; [left; reflexivity | reflexivity].
      * exists (seed_job_flag "job2" "uid-2").
        split; [right; left; reflexivity | reflexivity].
      * exists (seed_job_flag "job1" "uid-1"). split; [left; reflexivity | reflexivity].
    + repeat constructor; simpl; intuition discriminate.
    + intros k [E|[E|[E|[]]]] r [Er|[Er|[]]]; subst k r; discriminate.
Defined.

Lemma C3_flag_exactly_one_current_witness :
  exists c2,
    snd (for_each (flag_create "jobs") three_calls jobs_flag_seeded) = c2
    /\ one_current_per_id (columns jobs_flag_schema) (committed c2).
Proof.
  destruct jobs_flag_seeded_ok as [H1 [H2 H3]].
  destruct (C3_flag_exactly_one_current jobs_flag_seeded "jobs" three_calls
              [("job1", scenario_update, "uid-3"); ("job2", [("rate", VInt 120)], "uid-4")]
              [] ("job1", [("status", VStr "closed")], "uid-5") H1 H2 H3 eq_refl)
    as [c1 [c2 [new_row [R1 [R2 [_ [_ [_ [_ [_ [_ [Hinv _]]]]]]]]]]]].
  exists c2. split; [|exact Hinv].
  vm_compute in R1. inversion R1; subst c1.
  vm_compute in R2. inversion R2; subst c2.
  reflexivity.
Defined.

(** ** C6: existing rows keep their business fields *)











(** ** [TimestampVersioningHelper.create_new_version] *)

Lemma is_time_inv (v : value) : is_time v = true -> exists t, v = VTime t.
Proof. destruct v; try discriminate. eauto. Qed.

Lemma ts_row_inv (s : schema) (r : row) :
  ts_row s r = true ->
  List.length r = List.length (columns s)
  /\ (exists i, field (columns s) r "id" = VStr i)
  /\ (exists t, field (columns s) r "created_at" = VTime t).
Proof.
  unfold ts_row. rewrite !andb_true_iff, Nat.eqb_eq.
  intros [[H1 H2] H3]. auto using is_time_inv, is_str_inv.
Qed.

Lemma ts_row_shape (r : row) :
  ts_row jobs_ts_schema r = true ->
  exists i t u st ra ti co ct, r = [VStr i; VTime t; u; st; ra; ti; co; ct].
Proof.
  intro H. apply ts_row_inv in H. destruct H as [Hlen [[i Hi] [t Ht]]].
  do 9 (destruct r as [|? r]; try discriminate).
  unfold field in Hi, Ht. simpl in Hi, Ht. subst. eauto 10.
Qed.

(** [SELECT ... WHERE id = %s ORDER BY created_at DESC LIMIT 1]: a row of
    the entity with the latest timestamp. *)
Lemma select_latest_created_at (s : schema) (rows : list row) (id : string) :
  forallb (ts_row s) rows = true ->
  exists_id (columns s) id rows ->
  exists latest t,
    select_latest "created_at" id s rows = Some latest
    /\ In latest rows
    /\ field (columns s) latest "id" = VStr id
    /\ field (columns s) latest "created_at" = VTime t
    /\ (forall r m, In r rows -> field (columns s) r "id" = VStr id ->
                    field (columns s) r "created_at" = VTime m -> m <= t).
Proof.
  intros Hwf [r0 [Hr0 Hid0]]. rewrite forallb_forall in Hwf.
  unfold select_latest.
  destruct (first_desc_spec VTime (fun x y => eq_refl) VTime_inj
              (fun r => field (columns s) r "created_at")
              (where_id (columns s) id rows) None)
    as [b [n [H1 [H2 [H3 H4]]]]].
  - intros r Hr. apply where_id_In in Hr. destruct Hr as [Hr _].
    apply Hwf, ts_row_inv in Hr. tauto.
  - discriminate.
  - left. intro E. assert (In r0 (where_id (columns s) id rows))
      by (apply where_id_In; auto). rewrite E in H. contradiction.
  - destruct H2 as [H2|H2]; [discriminate|].
    apply where_id_In in H2. destruct H2 as [H2 H2'].
    exists b, n. repeat split; auto.
    intros r m Hr Hid Hv. apply (H4 r m); auto.
    right. apply where_id_In. auto.
Qed.

(** One call of [TimestampVersioningHelper.create_new_version] on an
    existing entity: the row that is derived, and the two ways the call can
    end. *)
Lemma ts_create_run_gen (c : conn) (table id : string) (updates : dict) (now : Z)
  (new_uid : string) :
  catalog c = jobs_ts_schema ->
  txn c <> Failed ->
  forallb (ts_row jobs_ts_schema) (visible c) = true ->
  exists_id (columns jobs_ts_schema) id (visible c) ->
  exists latest t,
    let new_row := ts_next_row id now new_uid updates latest in
    let issued := [SelectLatestByCreatedAt (table ++ "_ts")%string id;
                   InsertRow (table ++ "_ts")%string new_row] in
    select_latest "created_at" id jobs_ts_schema (visible c) = Some latest
    /\ In latest (visible c)
    /\ field (columns jobs_ts_schema) latest "id" = VStr id
    /\ field (columns jobs_ts_schema) latest "created_at" = VTime t
    /\ (forall r m, In r (visible c) ->
                    field (columns jobs_ts_schema) r "id" = VStr id ->
                    field (columns jobs_ts_schema) r "created_at" = VTime m -> m <= t)
    /\ TimestampVersioningHelper.create_new_version table id updates now new_uid c
       = if insert_ok jobs_ts_schema (visible c) new_row
         then (Returned None,
               mk_conn jobs_ts_schema (visible c ++ [new_row]) Idle
                       (log c ++ issued ++ [SqlCommit]))
         else (Raised unique_violation,
               mk_conn jobs_ts_schema (committed c) Failed (log c ++ issued)).
Proof.
  intros Hcat Hready Hwf Hex.
  destruct (select_latest_created_at jobs_ts_schema (visible c) id Hwf Hex)
    as [latest [t [Hsel [Hin [Hid [Ht Hmax]]]]]].
  exists latest, t. cbv zeta. repeat split; auto.
  rewrite forallb_forall in Hwf.
  destruct (ts_row_shape latest (Hwf _ Hin)) as [i' [t' [u' [st [ra [ti [co [ct E]]]]]]]].
  unfold TimestampVersioningHelper.create_new_version.
  erewrite bind_returned by (apply execute_query_ready; assumption).
  rewrite Hcat, Hsel, E. cbn [fetched].
  unfold bind, lift. cbn [py_tuple_get tuple_get nth_error].
  unfold execute_insert_into. norm_conn. rewrite Hcat. simpl andb. cbv iota.
  rewrite execute_insert_ready by discriminate.
  norm_conn. rewrite Hcat.
  unfold ts_next_row. cbn [nth].
  change (named_row jobs_ts_schema TimestampVersioningHelper.ts_columns
            [VStr id; VTime now; VStr new_uid; dict_get updates "status" st;
             dict_get updates "rate" ra; ti; co; ct])
    with [VStr id; VTime now; VStr new_uid; dict_get updates "status" st;
          dict_get updates "rate" ra; ti; co; ct].
  destruct (insert_ok jobs_ts_schema (visible c)
              [VStr id; VTime now; VStr new_uid; dict_get updates "status" st;
               dict_get updates "rate" ra; ti; co; ct]).
  - unfold execute_commit, conn_commit, ret, with_log. simpl.
    rewrite <- !app_assoc, Hcat. reflexivity.
  - unfold with_log. simpl. rewrite <- !app_assoc, Hcat. reflexivity.
Qed.

(** ** C5: the discriminators of an entity increase *)






Lemma discriminators_app (cols : list string) (col id : string) (a b : list row) :
  discriminators cols col id (a ++ b)
  = discriminators cols col id a ++ discriminators cols col id b.
Proof.
  unfold discriminators, where_id. rewrite filter_app, map_app. reflexivity.
Qed.

Lemma discriminators_In (cols : list string) (col id : string) (rows : list row)
  (y : value) :
  In y (discriminators cols col id rows) ->
  exists r, In r rows /\ field cols r "id" = VStr id /\ field cols r col = y.
Proof.
  unfold discriminators. intro H. apply in_map_iff in H. destruct H as [r [E Hr]].
  apply where_id_In in Hr. exists r. tauto.
Qed.


Lemma exists_or_absent (cols : list string) (id : string) (rows : list row) :
  exists_id cols id rows \/ absent_id cols id rows.
Proof.
  induction rows as [|r rows [[r' [Hr' Hid]]|IH]].
  - right. intros r [].
  - left. exists r'. simpl. auto.
  - destruct (value_eq_dec (field cols r "id") (VStr id)) as [E|E].
    + left. exists r. simpl. auto.
    + right. intros r' [E'|Hr']; [subst; assumption | auto].
Qed.

(** A sequence of calls that all return keeps what every call keeps. *)
Lemma for_each_invariant {A B} (f : A -> M B) (Inv : list A -> conn -> Prop) :
  (forall a rest c b c', Inv (a :: rest) c -> f a c = (Returned b, c') -> Inv rest c') ->
  forall calls c c',
    Inv calls c -> for_each f calls c = (Returned tt, c') -> Inv [] c'.
Proof.
  intros Hstep calls. induction calls as [|a calls IH]; intros c c' Hinv Hrun.
  - simpl in Hrun. unfold ret in Hrun. inversion Hrun. subst. assumption.
  - simpl in Hrun. unfold bind in Hrun.
    destruct (f a c) as [[b|e] c1] eqn:E; [|discriminate].
    apply (IH c1 c'); [|assumption]. eapply Hstep; eauto.
Qed.


Lemma clock_advances_ext (s1 s2 readings : list Z) :
  (forall t, In t s2 -> In t s1) ->
  clock_advances s1 readings -> clock_advances s2 readings.
Proof.
  revert s1 s2. induction readings as [|now rest IH]; intros s1 s2 Hsub H; [exact I|].
  simpl in *. destruct H as [H1 H2]. split.
  - intros t Ht. apply H1. auto.
  - apply (IH (now :: s1)); [|assumption].
    intros t [E|Ht]; [left; assumption | right; auto].
Qed.

Lemma stored_times_In (cols : list string) (rows : list row) (r : row) (t : Z) :
  In r rows -> field cols r "created_at" = VTime t -> In t (stored_times cols rows).
Proof.
  intros Hr Ht. unfold stored_times. apply in_flat_map. exists r.
  split; [assumption|]. rewrite Ht. left. reflexivity.
Qed.


Lemma latest_of_Some_inv (float : Type) (t : Django.table float) (i : string)
  (latest : Django.Job float) :
  Django.latest_of i t = Some latest ->
  In latest t /\ Django.id latest = i
  /\ (forall r, In r t -> Django.id r = i -> Django.version r <= Django.version latest).
Proof.
  intro H.
  destruct (filter (fun r => String.eqb (Django.id r) i) t) as [|x l] eqn:E.
  - unfold Django.latest_of in H. rewrite E in H. discriminate.
  - assert (Hx : In x (filter (fun r => String.eqb (Django.id r) i) t))
      by (rewrite E; left; reflexivity).
    apply filter_In in Hx. destruct Hx as [Hx Hi]. apply String.eqb_eq in Hi.
    destruct (latest_of_spec float t i (ex_intro _ x (conj Hx Hi)))
      as [l' [H1 [H2 [H3 H4]]]].
    rewrite H in H1. inversion H1. subst l'. auto.
Qed.








(** ** The bulk resolver *)

Lemma NoDup_map_key {A K} (key : A -> K) (l : list A) (x y : A) :
  NoDup (map key l) -> In x l -> In y l -> key x = key y -> x = y.
Proof.
  induction l as [|a l IH]; intros Hnd Hx Hy E; [contradiction|].
  simpl in Hnd. apply NoDup_cons_iff in Hnd. destruct Hnd as [Ha Hnd].
  destruct Hx as [Hx|Hx], Hy as [Hy|Hy]; subst.
  - reflexivity.
  - exfalso. apply Ha. rewrite E. apply in_map. assumption.
  - exfalso. apply Ha. rewrite <- E. apply in_map. assumption.
  - apply IH; assumption.
Qed.

Section LatestJoin.
Variable C : Z -> value.
Hypothesis C_desc : forall x y, desc_before (C x) (C y) = Z.ltb y x.
Hypothesis C_max : forall a b, sql_max2 (C a) (C b) = C (Z.max a b).
Hypothesis C_inj : forall x y, C x = C y -> x = y.
Hypothesis C_not_null : forall x, C x <> VNone.
Variable col : string.
Variable s : schema.
Variable rows : list row.
Hypothesis rows_typed :
  forall r, In r rows ->
            (exists i, field (columns s) r "id" = VStr i)
            /\ (exists n, field (columns s) r col = C n).
Hypothesis rows_unique : unique_discriminator (columns s) col rows.

Lemma select_latest_typed (id : string) :
  exists_id (columns s) id rows ->
  exists latest n,
    select_latest col id s rows = Some latest
    /\ In latest rows
    /\ field (columns s) latest "id" = VStr id
    /\ field (columns s) latest col = C n
    /\ (forall r m, In r rows -> field (columns s) r "id" = VStr id ->
                    field (columns s) r col = C m -> m <= n).
Proof.
  intros [r0 [Hr0 Hid0]]. unfold select_latest.
  destruct (first_desc_spec C C_desc C_inj (fun r => field (columns s) r col)
              (where_id (columns s) id rows) None)
    as [b [n [H1 [H2 [H3 H4]]]]].
  - intros r Hr. apply where_id_In in Hr. destruct Hr as [Hr _].
    apply rows_typed in Hr. tauto.
  - discriminate.
  - left. intro E. assert (In r0 (where_id (columns s) id rows))
      by (apply where_id_In; auto). rewrite E in H. contradiction.
  - destruct H2 as [H2|H2]; [discriminate|].
    apply where_id_In in H2. destruct H2 as [H2 H2'].
    exists b, n. repeat split; auto.
    intros r m Hr Hid Hv. apply (H4 r m); auto.
    right. apply where_id_In. auto.
Qed.

Lemma select_latest_Some_inv (id : string) (r : row) :
  select_latest col id s rows = Some r ->
  In r rows /\ field (columns s) r "id" = VStr id
  /\ exists n, field (columns s) r col = C n
               /\ (forall r' m, In r' rows -> field (columns s) r' "id" = VStr id ->
                                field (columns s) r' col = C m -> m <= n).
Proof.
  intro H. destruct (exists_or_absent (columns s) id rows) as [Hex|Habs].
  - destruct (select_latest_typed id Hex) as [l [n [H1 [H2 [H3 [H4 H5]]]]]].
    rewrite H in H1. inversion H1. subst l. eauto 10.
  - rewrite select_latest_absent in H by assumption. discriminate.
Qed.

(** A row whose discriminator is the largest of its entity is the one
    the single-row query returns. *)
Lemma select_latest_of_max (r : row) (id : string) (n : Z) :
  In r rows ->
  field (columns s) r "id" = VStr id ->
  field (columns s) r col = C n ->
  (forall r' m, In r' rows -> field (columns s) r' "id" = VStr id ->
                field (columns s) r' col = C m -> m <= n) ->
  select_latest col id s rows = Some r.
Proof.
  intros Hr Hid Hn Hmax.
  destruct (select_latest_typed id (ex_intro _ r (conj Hr Hid)))
    as [l [m [H1 [H2 [H3 [H4 H5]]]]]].
  rewrite H1. f_equal.
  assert (m = n).
  { specialize (Hmax l m H2 H3 H4). specialize (H5 r n Hr Hid Hn). lia. }
  subst m.
  apply (NoDup_map_key (fun r => (field (columns s) r "id", field (columns s) r col))
           rows l r rows_unique H2 Hr).
  congruence.
Qed.

Lemma group_max_In (g : value * value) :
  In g (group_max col (columns s) rows) <->
  exists r, In r rows
            /\ fst g = field (columns s) r "id"
            /\ snd g = sql_max (map (fun r' => field (columns s) r' col)
                                    (filter (fun r' =>
                                               if value_eq_dec (field (columns s) r' "id")
                                                               (fst g)
                                               then true else false) rows)).
Proof.
  unfold group_max. rewrite in_map_iff. split.
  - intros [gid [E Hg]]. apply nodup_In in Hg. apply in_map_iff in Hg.
    destruct Hg as [r [Er Hr]]. exists r. subst g gid. simpl. auto.
  - intros [r [Hr [E1 E2]]]. exists (fst g). split.
    + destruct g as [a b]. simpl in *. subst. reflexivity.
    + apply nodup_In. apply in_map_iff. exists r. auto.
Qed.

Lemma group_of_id (id : string) :
  filter (fun r' => if value_eq_dec (field (columns s) r' "id") (VStr id)
                    then true else false) rows
  = where_id (columns s) id rows.
Proof.
  unfold where_id. apply filter_ext. intro r.
  destruct (value_eq_dec (field (columns s) r "id") (VStr id)) as [E|E].
  - symmetry. apply sql_eq_str. assumption.
  - symmetry. apply not_true_is_false. intro H. apply sql_eq_str in H. contradiction.
Qed.

Lemma group_max_value (id : string) :
  exists_id (columns s) id rows ->
  exists n,
    sql_max (map (fun r' => field (columns s) r' col) (where_id (columns s) id rows))
    = C n
    /\ (exists r, In r rows /\ field (columns s) r "id" = VStr id
                  /\ field (columns s) r col = C n)
    /\ (forall r' m, In r' rows -> field (columns s) r' "id" = VStr id ->
                     field (columns s) r' col = C m -> m <= n).
Proof.
  intros [r0 [Hr0 Hid0]].
  destruct (sql_max_spec C C_max C_inj
              (map (fun r' => field (columns s) r' col) (where_id (columns s) id rows)))
    as [n [H1 [H2 H3]]].
  - intros v Hv. apply in_map_iff in Hv. destruct Hv as [r [E Hr]].
    apply where_id_In in Hr. destruct Hr as [Hr _].
    destruct (rows_typed r Hr) as [_ [m Hm]]. exists m. congruence.
  - intro E. apply map_eq_nil in E.
    assert (H : In r0 (where_id (columns s) id rows)) by (apply where_id_In; auto).
    rewrite E in H. contradiction.
  - exists n. split; [assumption|]. split.
    + apply in_map_iff in H2. destruct H2 as [r [E Hr]].
      apply where_id_In in Hr. exists r. tauto.
    + intros r' m Hr' Hid' Hm. apply H3. rewrite <- Hm.
      apply in_map_iff. exists r'. split; [reflexivity|]. apply where_id_In. auto.
Qed.

(** The join against the per-id maximum returns exactly the rows that the
    single-row query returns for some id. *)
Lemma latest_join_In (r : row) :
  In r (latest_join col s rows) <-> exists id, select_latest col id s rows = Some r.
Proof.
  unfold latest_join. rewrite in_flat_map. split.
  - intros [t1 [Ht1 Hr]]. apply in_map_iff in Hr. destruct Hr as [g [E Hg]].
    subst t1. apply filter_In in Hg. destruct Hg as [Hg Hp].
    apply andb_true_iff in Hp. destruct Hp as [Hp1 Hp2].
    apply sql_eq_true in Hp1, Hp2. destruct Hp1 as [Hp1 _]. destruct Hp2 as [Hp2 _].
    apply group_max_In in Hg. destruct Hg as [r' [Hr' [E1 E2]]].
    destruct (rows_typed r Ht1) as [[id Hid] _].
    rewrite <- Hp1, Hid, group_of_id in E2.
    destruct (group_max_value id (ex_intro _ r (conj Ht1 Hid)))
      as [n [Hn [_ Hmax]]].
    exists id. apply (select_latest_of_max r id n); auto. congruence.
  - intros [id H]. apply select_latest_Some_inv in H.
    destruct H as [Hr [Hid [n [Hn Hmax]]]].
    exists r. split; [assumption|].
    destruct (group_max_value id (ex_intro _ r (conj Hr Hid)))
      as [m [Hm [[r' [Hr' [Hid' Hm']]] Hmax']]].
    assert (m = n).
    { specialize (Hmax r' m Hr' Hid' Hm'). specialize (Hmax' r n Hr Hid Hn). lia. }
    subst m.
    apply in_map_iff. exists (VStr id, C n). split; [reflexivity|].
    apply filter_In. split.
    + apply group_max_In. exists r. simpl. rewrite group_of_id. auto.
    + simpl. rewrite Hid, Hn. apply andb_true_iff. split.
      * apply sql_eq_true. split; [reflexivity | discriminate].
      * apply sql_eq_true. split; [reflexivity | apply C_not_null].
Qed.
End LatestJoin.

Lemma fold_max_spec (l : list Z) :
  forall a,
    a <= fold_left Z.max l a
    /\ (forall x, In x l -> x <= fold_left Z.max l a)
    /\ (fold_left Z.max l a = a \/ In (fold_left Z.max l a) l).
Proof.
  induction l as [|y l IH]; intro a; simpl.
  - repeat split; auto; try lia; intros x [].
  - destruct (IH (Z.max a y)) as [H1 [H2 H3]]. repeat split.
    + lia.
    + intros x [E|Hx]; [subst; lia | auto].
    + destruct H3 as [H3|H3]; [|auto].
      destruct (Z.max_spec a y) as [[_ E]|[_ E]];
        [right; left; congruence | left; congruence].
Qed.

Section DjangoBulk.
Import Django.
Variable float : Type.
Variable t : table float.
Hypothesis t_unique : unique_id_version t.

(** The subquery of [latest_scd_queryset] for a row of the table: the
    largest version of its entity. *)
Lemma subq_spec (r : Job float) :
  In r t ->
  exists m,
    subq t r = Some m
    /\ (exists r', In r' t /\ id r' = id r /\ version r' = m)
    /\ (forall r', In r' t -> id r' = id r -> version r' <= m).
Proof.
  intro Hr. unfold subq.
  assert (Hin : forall x, In x (filter (fun r' => String.eqb (id r') (id r)) t)
                          <-> In x t /\ id x = id r).
  { intro x. rewrite filter_In, String.eqb_eq. reflexivity. }
  destruct (filter (fun r' => String.eqb (id r') (id r)) t) as [|x l] eqn:E.
  - exfalso. apply (proj2 (Hin r)); auto.
  - destruct (fold_max_spec (map version l) (version x)) as [H1 [H2 H3]].
    eexists. split; [reflexivity|]. split.
    + destruct H3 as [H3|H3].
      * exists x. rewrite H3. destruct (proj1 (Hin x) (or_introl eq_refl)). auto.
      * apply in_map_iff in H3. destruct H3 as [y [Ey Hy]].
        exists y. destruct (proj1 (Hin y) (or_intror Hy)). auto.
    + intros r' Hr' Hid. destruct (proj2 (Hin r') (conj Hr' Hid)) as [Ex|Hl].
      * subst. assumption.
      * apply H2. apply in_map. assumption.
Qed.

(** [latest_scd_queryset(model)] returns exactly the rows that
    [filter(id=id).order_by('-version').first()] returns for some id. *)
Lemma latest_scd_queryset_In (t0 : table float) (r : Job float) :
  In r (latest_scd_queryset t0 None t) <-> exists i, latest_of i t = Some r.
Proof.
  unfold latest_scd_queryset, objects_all. rewrite filter_In. split.
  - intros [Hr Hv]. destruct (subq_spec r Hr) as [m [Hm [[r' [Hr' [Hid' Hv']]] Hmax]]].
    rewrite Hm in Hv. apply Z.eqb_eq in Hv. subst m.
    exists (id r).
    destruct (latest_of_spec float t (id r) (ex_intro _ r (conj Hr eq_refl)))
      as [l [H1 [H2 [H3 H4]]]].
    rewrite H1. f_equal.
    apply (NoDup_map_key (fun r => (id r, version r)) t l r t_unique H2 Hr).
    specialize (Hmax l H2 H3). specialize (H4 r Hr eq_refl).
    f_equal; [assumption | lia].
  - intros [i H]. apply latest_of_Some_inv in H. destruct H as [Hr [Hid Hmax]].
    split; [assumption|].
    destruct (subq_spec r Hr) as [m [Hm [[r' [Hr' [Hid' Hv']]] Hmax']]].
    rewrite Hm. apply Z.eqb_eq.
    assert (Hid'' : id r' = i) by congruence.
    specialize (Hmax r' Hr' Hid''). specialize (Hmax' r Hr eq_refl). lia.
Qed.
End DjangoBulk.

(** ** C2: the bulk resolver returns the current rows that satisfy the
    predicate *)



(** ** C7: a conflict with a concurrent writer *)

Lemma visible_in_txn (s : schema) (com w : list row) (lg : list statement) :
  visible (mk_conn s com (InTxn w) lg) = w.
Proof. reflexivity. Qed.

Lemma attempts_app (a b : list statement) :
  attempts (a ++ b) = (attempts a + attempts b)%nat.
Proof. unfold attempts. rewrite filter_app, length_app. reflexivity. Qed.

(** The store refuses a row whose [(id, version)] is taken. *)
Lemma insert_ok_taken (s : schema) (rows : list row) (r other : row) :
  counter_schema s ->
  In other rows ->
  field (columns s) other "id" = field (columns s) r "id" ->
  field (columns s) other "version" = field (columns s) r "version" ->
  insert_ok s rows r = false.
Proof.
  intros [_ [_ [_ Hk]]] Hin Hid Hv.
  unfold insert_ok. rewrite Hk. apply andb_false_iff. right.
  simpl. apply andb_false_iff. right. apply andb_false_iff. left.
  unfold key_ok. apply andb_false_iff. right.
  apply negb_false_iff. apply existsb_exists. exists other. split; [assumption|].
  unfold key_of. simpl. rewrite Hid, Hv.
  rewrite !(proj2 (value_eqb_eq _ _) eq_refl). reflexivity.
Qed.

(** C7 (as amended).  The helpers have no retry and no conflict error.
    When a concurrent writer commits the next version of the entity between
    the read and the write of [SCDHelper.create_new_version], the INSERT
    violates the key [(id, version)] and the call raises the
    [IntegrityError] of the store at once, after a single read-derive-write
    attempt, leaving the transaction aborted.  [create_new_scd_version]
    does not detect the conflict: its table declares no such key, the call
    returns normally, and the table holds two rows with the same
    [(id, version)]. *)
Theorem C7_conflict_is_not_retried
  (c : conn) (table id : string) (updates : dict) (new_uid : string) (other : row)
  (float : Type) (pk_on_save : option string) (t : Django.table float) (i : string)
  (update_fn : Django.Job float -> Django.Job float) (u : string)
  (django_other : Django.Job float) :
  scd_call_ready c id new_uid ->
  keeps_identity updates ->
  advances_entity c id other ->
  django_call_ready t i update_fn u ->
  django_call_keeps (i, update_fn, u) ->
  django_advances_entity t i django_other u ->
  (fst (create_new_version_racing table id updates new_uid other c)
   = Raised unique_violation
   /\ exn_class unique_violation = IntegrityError
   /\ txn (snd (create_new_version_racing table id updates new_uid other c)) = Failed
   /\ attempts (log (snd (create_new_version_racing table id updates new_uid other c)))
      = (attempts (log c) + 1)%nat)
  /\ (exists new_version,
         create_new_scd_version_racing pk_on_save i update_fn django_other t
         = (Returned new_version, t ++ [django_other; new_version])
         /\ Django.id new_version = Django.id django_other
         /\ Django.version new_version = Django.version django_other).
Proof.
  intros [Hready [Hs [Hwf [Hex Hfresh]]]] [Hkid Hkv]
         [latest [v [Hsel [Hver [Hoid Hov]]]]]
         [Hnd [Hex' [Hu Hfresh']]] Hkeeps
         [dlatest [u' [Hdl [Hdid [Hdv [Hdu Hne]]]]]].
  split.
  - pose proof Hs as [Hci [Hcv [Hcu _]]].
    destruct (select_latest_version (catalog c) (visible c) id Hwf Hex)
      as [latest' [v' [Hsel' [Hin [Hid [Hver' Hmax]]]]]].
    rewrite Hsel in Hsel'. inversion Hsel'. subst latest'. clear Hsel'.
    assert (v' = v) by congruence. subst v'.
    assert (Hlen : List.length latest = List.length (columns (catalog c))).
    { rewrite forallb_forall in Hwf. apply Hwf, counter_row_inv in Hin. tauto. }
    destruct (derive_new_version_spec c table id updates new_uid latest v
                Hready Hcv Hcu Hsel Hlen Hver) as [new_data [Hd [Hl Hf]]].
    set (new_row := named_row (catalog c) (columns (catalog c)) new_data).
    assert (Hno : insert_ok (catalog c) (visible c ++ [other]) new_row = false).
    { apply (insert_ok_taken (catalog c) (visible c ++ [other]) new_row other Hs).
      - apply in_or_app. right. left. reflexivity.
      - unfold new_row. rewrite field_named_row, (Hf _ Hci) by assumption.
        unfold next_value. simpl String.eqb.
        apply dict_last_None in Hkid. rewrite Hkid. congruence.
      - unfold new_row. rewrite field_named_row, (Hf _ Hcv) by assumption.
        unfold next_value. simpl String.eqb.
        apply dict_last_None in Hkv. rewrite Hkv, Hver. assumption. }
    assert (Hrun : create_new_version_racing table id updates new_uid other c
                   = (Raised unique_violation,
                      mk_conn (catalog c) (committed c ++ [other]) Failed
                              (log c ++ [SelectLatestByVersion table id;
                                         SelectColumnNames table;
                                         InsertRow table new_row]))).
    { unfold create_new_version_racing.
      erewrite bind_returned by exact Hd.
      unfold bind at 1. unfold concurrent_insert at 1. simpl fst. simpl snd.
      cbn [catalog committed txn log].
      pose proof (insert_new_version_spec
                    (mk_conn (catalog c) (committed c ++ [other])
                             (InTxn (visible c ++ [other]))
                             (log c ++ [SelectLatestByVersion table id;
                                        SelectColumnNames table]))
                    table new_data) as Hi.
      simpl in Hi. fold new_row in Hi. rewrite !visible_in_txn, Hno in Hi.
      etransitivity; [apply Hi; [discriminate | exact Hl]|].
      rewrite <- app_assoc. reflexivity. }
    rewrite Hrun. simpl. split; [reflexivity|]. split; [reflexivity|].
    split; [reflexivity|]. rewrite attempts_app. reflexivity.
  - destruct (prepare_new_version_spec float t i update_fn Hnd Hex')
      as [latest' [H1 [H2 [H3 [H4 H5]]]]].
    rewrite Hdl in H1. inversion H1. subst latest'. clear H1.
    destruct (Hkeeps (Django.set_version (Django.version dlatest + 1)
                                         (Django.set_uid None dlatest)))
      as [Kid [Kv Ku]]. simpl in Kid, Kv, Ku.
    exists (update_fn (Django.set_version (Django.version dlatest + 1)
                                          (Django.set_uid None dlatest))).
    split; [|split; congruence].
    unfold create_new_scd_version_racing, Django.dbind. rewrite H5.
    rewrite (save_fresh float pk_on_save (t ++ [django_other]) _ u Ku).
    + rewrite <- app_assoc. reflexivity.
    + intros x Hx. apply in_app_or in Hx. destruct Hx as [Hx|[Hx|[]]].
      * apply Hfresh'. assumption.
      * subst x. rewrite Hdu. congruence.
Qed.

Lemma jobs_with_job1_ready : scd_call_ready jobs_with_job1 "job1" "uid-2".
Proof.
  split; [discriminate|]. split; [exact counter_schema_jobs|].
  split; [reflexivity|]. split.
  - exists job1_v1. split; [left|]; reflexivity.
  - intros r [E|[]]. subst r. discriminate.
Defined.

Lemma scenario_update_keeps_identity : keeps_identity scenario_update.
Proof. split; simpl; intros [E|[E|[]]]; discriminate. Defined.

Lemma django_job1_ready :
  django_call_ready [django_job1_v1] "job1" (django_scenario_update "job1_v2") "job1_v2".
Proof.
  split; [repeat constructor; simpl; tauto|]. split.
  - exists django_job1_v1. split; [left|]; reflexivity.
  - split.
    + intros latest _. reflexivity.
    + intros x [E|[]]. subst x. discriminate.
Defined.

Lemma C7_conflict_is_not_retried_witness :
  fst (create_new_version_racing "jobs" "job1" scenario_update "uid-2" job1_v2_other
         jobs_with_job1)
  = Raised unique_violation
  /\ exists new_version,
      create_new_scd_version_racing None "job1" (django_scenario_update "job1_v2")
        django_job1_v2_other [django_job1_v1]
      = (Returned new_version, [django_job1_v1; django_job1_v2_other; new_version])
      /\ Django.version new_version = 2.
Proof.
  destruct (C7_conflict_is_not_retried jobs_with_job1 "jobs" "job1" scenario_update
              "uid-2" job1_v2_other Z None [django_job1_v1] "job1"
              (django_scenario_update "job1_v2") "job1_v2" django_job1_v2_other)
    as [[H1 _] [new_version [H2 [_ H3]]]].
  - exact jobs_with_job1_ready.
  - exact scenario_update_keeps_identity.
  - exists job1_v1, 1. repeat split.
  - exact django_job1_ready.
  - intro j. repeat split.
  - exists django_job1_v1, "job1_v2_other". repeat split. discriminate.
  - split; [exact H1|]. exists new_version. split; [exact H2 | exact H3].
Defined.

(** C7 as stated fails: when another writer commits version 2 of [job1]
    between the read and the write, [SCDHelper.create_new_version] raises
    the [IntegrityError] of the store without a second attempt, although a
    second attempt on the resulting table would have succeeded. *)
Lemma C7_counterexample :
  let result := create_new_version_racing "jobs" "job1" scenario_update "uid-2"
                  job1_v2_other jobs_with_job1 in
  fst result = Raised unique_violation
  /\ attempts (log (snd result)) = 1%nat
  /\ ~ retried jobs_with_job1 result
  /\ fst (SCDHelper.create_new_version "jobs" "job1" scenario_update "uid-2"
            (connect jobs_schema (committed (snd result))))
     = Returned None.
Proof.
  cbv zeta. split; [reflexivity|]. split; [reflexivity|]. split; [|reflexivity].
  unfold retried. vm_compute. intro H. inversion H as [|? H1]. inversion H1.
Qed.

(** ** C8: the three strategies select the same current rows *)

Lemma dict_get_last (d : dict) (k : string) (default : value) :
  NoDup (dict_keys d) ->
  dict_get d k default = match dict_last d k with
                         | Some v => v
                         | None => default
                         end.
Proof.
  induction d as [|[k0 v0] d IH]; intro Hnd; [reflexivity|].
  simpl in Hnd. apply NoDup_cons_iff in Hnd. destruct Hnd as [Hk0 Hnd]. simpl.
  destruct (String.eqb k0 k) eqn:E.
  - apply String.eqb_eq in E. subst k0.
    apply dict_last_None in Hk0. rewrite Hk0. reflexivity.
  - rewrite (IH Hnd). destruct (dict_last d k); reflexivity.
Qed.

Lemma where_id_app (cols : list string) (id : string) (a b : list row) :
  where_id cols id (a ++ b) = where_id cols id a ++ where_id cols id b.
Proof. unfold where_id. apply filter_app. Qed.

(** A row of another entity, appended to the table, does not change what
    the single-row query returns. *)
Lemma select_latest_snoc_other (col : string) (s : schema) (rows : list row)
  (new_row : row) (id id' : string) :
  field (columns s) new_row "id" = VStr id -> id' <> id ->
  select_latest col id' s (rows ++ [new_row]) = select_latest col id' s rows.
Proof.
  intros Hid Hne. unfold select_latest. rewrite where_id_app.
  replace (where_id (columns s) id' [new_row]) with (@nil row);
    [rewrite app_nil_r; reflexivity|].
  unfold where_id. simpl. rewrite Hid. simpl.
  apply String.eqb_neq in Hne. rewrite String.eqb_sym, Hne. reflexivity.
Qed.

Section Snoc.
Variable C : Z -> value.
Hypothesis C_desc : forall x y, desc_before (C x) (C y) = Z.ltb y x.
Hypothesis C_inj : forall x y, C x = C y -> x = y.
Variable col : string.
Variable s : schema.
Variable rows : list row.
Variable new_row : row.
Variable id : string.
Variable n : Z.
Hypothesis rows_typed :
  forall r, In r rows ->
            (exists i, field (columns s) r "id" = VStr i)
            /\ (exists m, field (columns s) r col = C m).
Hypothesis rows_unique : unique_discriminator (columns s) col rows.
Hypothesis new_id : field (columns s) new_row "id" = VStr id.
Hypothesis new_col : field (columns s) new_row col = C n.
Hypothesis new_larger :
  forall r m, In r rows -> field (columns s) r "id" = VStr id ->
              field (columns s) r col = C m -> m < n.

Lemma snoc_typed :
  forall r, In r (rows ++ [new_row]) ->
            (exists i, field (columns s) r "id" = VStr i)
            /\ (exists m, field (columns s) r col = C m).
Proof.
  intros r Hr. apply in_app_or in Hr. destruct Hr as [Hr|[E|[]]]; [auto|].
  subst r. eauto.
Qed.

(** The new row has a discriminator that no row of the entity has. *)
Lemma snoc_unique : unique_discriminator (columns s) col (rows ++ [new_row]).
Proof.
  unfold unique_discriminator in *. rewrite map_app. simpl.
  apply NoDup_app; [assumption | repeat constructor; simpl; tauto |].
  intros key Hkey [E|[]]. subst key. apply in_map_iff in Hkey.
  destruct Hkey as [r [E Hr]]. inversion E as [[E1 E2]].
  rewrite new_id in E1. rewrite new_col in E2.
  specialize (new_larger r n Hr E1 E2). lia.
Qed.

(** The new row is the one the single-row query returns from now on. *)
Lemma select_latest_snoc_same :
  select_latest col id s (rows ++ [new_row]) = Some new_row.
Proof.
  apply (select_latest_of_max C C_desc C_inj col s (rows ++ [new_row])
           snoc_typed snoc_unique new_row id n).
  - apply in_or_app. right. left. reflexivity.
  - assumption.
  - assumption.
  - intros r' m Hr' Hid' Hm. apply in_app_or in Hr'.
    destruct Hr' as [Hr'|[E|[]]].
    + specialize (new_larger r' m Hr' Hid' Hm). lia.
    + subst r'. rewrite new_col in Hm. apply C_inj in Hm. lia.
Qed.
End Snoc.

Lemma counter_rows_typed (s : schema) (rows : list row) :
  forallb (counter_row s) rows = true ->
  forall r, In r rows ->
            (exists i, field (columns s) r "id" = VStr i)
            /\ (exists m, field (columns s) r "version" = VInt m).
Proof.
  intros Hwf r Hr. rewrite forallb_forall in Hwf.
  destruct (counter_row_inv _ _ (Hwf r Hr)) as [_ H]. exact H.
Qed.

Lemma ts_rows_typed (s : schema) (rows : list row) :
  forallb (ts_row s) rows = true ->
  forall r, In r rows ->
            (exists i, field (columns s) r "id" = VStr i)
            /\ (exists m, field (columns s) r "created_at" = VTime m).
Proof.
  intros Hwf r Hr. rewrite forallb_forall in Hwf.
  destruct (ts_row_inv _ _ (Hwf r Hr)) as [_ H]. exact H.
Qed.

Lemma status_rate_only_unnamed (updates : dict) (col : string) :
  status_rate_only updates ->
  In col (columns jobs_schema) -> col <> "status" -> col <> "rate" ->
  dict_last updates col = None.
Proof.
  intros [_ H] Hcol H1 H2. apply dict_last_None. intro Hk.
  destruct (H col Hk Hcol); contradiction.
Qed.

(** One call of [SCDHelper.create_new_version] that returns, seen from the
    single-row query. *)
Lemma scd_step_current (c c' : conn) (table : string) (k : ts_call) (b : option row) :
  jobs_table_ok c ->
  unique_discriminator (columns jobs_schema) "version" (committed c) ->
  status_rate_only (ts_call_updates k) ->
  scd_create table k c = (Returned b, c') ->
  exists latest new_row,
    select_latest "version" (ts_call_id k) jobs_schema (committed c) = Some latest
    /\ committed c' = committed c ++ [new_row]
    /\ jobs_table_ok c'
    /\ unique_discriminator (columns jobs_schema) "version" (committed c')
    /\ select_latest "version" (ts_call_id k) jobs_schema (committed c') = Some new_row
    /\ (forall id', id' <> ts_call_id k ->
                    select_latest "version" id' jobs_schema (committed c')
                    = select_latest "version" id' jobs_schema (committed c))
    /\ content (columns jobs_schema) new_row
       = updated_content (ts_call_id k) (ts_call_updates k)
                         (content (columns jobs_schema) latest).
Proof.
  intros [Hcat [Hidle Hwf]] Huniq Hupd Hrun.
  assert (Hready : txn c <> Failed) by (rewrite Hidle; discriminate).
  unfold scd_create in Hrun.
  destruct (exists_or_absent (columns jobs_schema) (ts_call_id k) (committed c))
    as [Hex|Habs].
  2:{ rewrite scd_create_absent in Hrun; [discriminate | assumption |].
      rewrite Hcat, (visible_idle c Hidle). assumption. }
  destruct (create_new_version_run c table (ts_call_id k) (ts_call_updates k)
              (ts_call_uid k) Hready) as [latest [v [new_row H]]].
  { rewrite Hcat. exact counter_schema_jobs. }
  { rewrite Hcat, (visible_idle c Hidle). assumption. }
  { rewrite Hcat, (visible_idle c Hidle). assumption. }
  rewrite Hcat, (visible_idle c Hidle) in H.
  destruct H as [Hsel [Hin [Hid [Hver [Hmax [Hlen [Hf Hgen]]]]]]].
  rewrite Hgen in Hrun. clear Hgen.
  destruct (insert_ok jobs_schema (committed c) new_row); [|discriminate].
  inversion Hrun. subst b c'. clear Hrun. simpl committed.
  assert (Hunnamed : forall col, In col (columns jobs_schema) ->
                                 col <> "status" -> col <> "rate" ->
                                 dict_last (ts_call_updates k) col = None)
    by (intros; apply status_rate_only_unnamed; assumption).
  assert (Fid : field (columns jobs_schema) new_row "id" = VStr (ts_call_id k)).
  { rewrite Hf by (simpl; auto). unfold next_value. simpl String.eqb.
    rewrite Hunnamed by (simpl; auto; discriminate). assumption. }
  assert (Fv : field (columns jobs_schema) new_row "version" = VInt (v + 1)).
  { rewrite Hf by (simpl; auto). unfold next_value. simpl String.eqb.
    rewrite Hunnamed by (simpl; auto; discriminate). rewrite Hver. reflexivity. }
  assert (Hlarger : forall r m, In r (committed c) ->
                                field (columns jobs_schema) r "id" = VStr (ts_call_id k) ->
                                field (columns jobs_schema) r "version" = VInt m ->
                                m < v + 1).
  { intros r m Hr Hrid Hrv. specialize (Hmax r m Hr Hrid Hrv). lia. }
  exists latest, new_row.
  split; [assumption|]. split; [reflexivity|]. split; [|split; [|split; [|split]]].
  - split; [reflexivity|]. split; [reflexivity|]. simpl committed.
    rewrite forallb_app. apply andb_true_iff. split; [assumption|].
    simpl. unfold counter_row. rewrite Hlen, Nat.eqb_refl, Fid, Fv. reflexivity.
  - apply (snoc_unique VInt "version" jobs_schema (committed c) new_row
             (ts_call_id k) (v + 1)); assumption.
  - exact (select_latest_snoc_same VInt (fun x y => eq_refl) VInt_inj "version"
             jobs_schema (committed c) new_row (ts_call_id k) (v + 1)
             (counter_rows_typed _ _ Hwf) Huniq Fid Fv Hlarger).
  - intros id' Hne. apply (select_latest_snoc_other _ _ _ _ (ts_call_id k)); assumption.
  - destruct Hupd as [Hnd _].
    unfold content, updated_content, content_columns. cbn [map nth].
    rewrite !Hf by (simpl; auto 10). unfold next_value.
    cbn [String.eqb Ascii.eqb Bool.eqb].
    rewrite !dict_get_last by assumption.
    rewrite (Hunnamed "id"), (Hunnamed "title"), (Hunnamed "company_id"),
      (Hunnamed "contractor_id") by (simpl; auto 10; discriminate).
    rewrite Hid. reflexivity.
Qed.

(** One call of [TimestampVersioningHelper.create_new_version] that
    returns, seen from the single-row query, when the clock reads later than
    every stored timestamp. *)
Lemma ts_step_current (c c' : conn) (table : string) (k : ts_call) (b : option row) :
  ts_table_ok c ->
  unique_discriminator (columns jobs_ts_schema) "created_at" (committed c) ->
  (forall t, In t (stored_times (columns jobs_ts_schema) (committed c)) ->
             t < ts_call_now k) ->
  ts_create table k c = (Returned b, c') ->
  exists latest new_row,
    select_latest "created_at" (ts_call_id k) jobs_ts_schema (committed c) = Some latest
    /\ committed c' = committed c ++ [new_row]
    /\ field (columns jobs_ts_schema) new_row "created_at" = VTime (ts_call_now k)
    /\ ts_table_ok c'
    /\ unique_discriminator (columns jobs_ts_schema) "created_at" (committed c')
    /\ select_latest "created_at" (ts_call_id k) jobs_ts_schema (committed c')
       = Some new_row
    /\ (forall id', id' <> ts_call_id k ->
                    select_latest "created_at" id' jobs_ts_schema (committed c')
                    = select_latest "created_at" id' jobs_ts_schema (committed c))
    /\ content (columns jobs_ts_schema) new_row
       = updated_content (ts_call_id k) (ts_call_updates k)
                         (content (columns jobs_ts_schema) latest).
Proof.
  intros [Hcat [Hidle Hwf]] Huniq Hnow Hrun.
  assert (Hready : txn c <> Failed) by (rewrite Hidle; discriminate).
  unfold ts_create in Hrun.
  destruct (exists_or_absent (columns jobs_ts_schema) (ts_call_id k) (committed c))
    as [Hex|Habs].
  2:{ rewrite ts_create_absent in Hrun; [discriminate | assumption |].
      rewrite Hcat, (visible_idle c Hidle). assumption. }
  rewrite <- (visible_idle c Hidle) in Hex, Hwf.
  destruct (ts_create_run_gen c table (ts_call_id k) (ts_call_updates k)
              (ts_call_now k) (ts_call_uid k) Hcat Hready Hwf Hex)
    as [latest [t [Hsel [Hin [Hid [Ht [Hmax Hgen]]]]]]].
  cbv zeta in Hgen. rewrite Hgen in Hrun. clear Hgen.
  destruct (insert_ok jobs_ts_schema _ _); [|discriminate].
  inversion Hrun. subst b c'. clear Hrun. simpl committed.
  rewrite (visible_idle c Hidle) in *.
  set (new_row := ts_next_row (ts_call_id k) (ts_call_now k) (ts_call_uid k)
                              (ts_call_updates k) latest).
  assert (Hlarger : forall r m, In r (committed c) ->
                                field (columns jobs_ts_schema) r "id" = VStr (ts_call_id k) ->
                                field (columns jobs_ts_schema) r "created_at" = VTime m ->
                                m < ts_call_now k).
  { intros r m Hr _ Hm. apply Hnow. eapply stored_times_In; eauto. }
  exists latest, new_row.
  split; [assumption|]. split; [reflexivity|]. split; [reflexivity|].
  split; [|split; [|split; [|split]]].
  - split; [reflexivity|]. split; [reflexivity|]. simpl committed.
    rewrite forallb_app. apply andb_true_iff. split; [assumption | reflexivity].
  - apply (snoc_unique VTime "created_at" jobs_ts_schema (committed c) new_row
             (ts_call_id k) (ts_call_now k)); auto.
  - exact (select_latest_snoc_same VTime (fun x y => eq_refl) VTime_inj "created_at"
             jobs_ts_schema (committed c) new_row (ts_call_id k) (ts_call_now k)
             (ts_rows_typed _ _ Hwf) Huniq eq_refl eq_refl Hlarger).
  - intros id' Hne.
    apply (select_latest_snoc_other _ _ _ _ (ts_call_id k)); [reflexivity | assumption].
  - reflexivity.
Qed.

Lemma where_id_clear_other (id id' : string) (rows : list row) :
  forallb (counter_row jobs_flag_schema) rows = true ->
  id' <> id ->
  where_id (columns jobs_flag_schema) id'
           (FlagVersioningHelper.clear_current id jobs_flag_schema rows)
  = where_id (columns jobs_flag_schema) id' rows.
Proof.
  intros Hwf Hne. induction rows as [|r rows IH]; [reflexivity|].
  simpl in Hwf. apply andb_true_iff in Hwf. destruct Hwf as [Hr Hwf].
  specialize (IH Hwf).
  change (r :: rows) with ([r] ++ rows).
  unfold FlagVersioningHelper.clear_current in *. rewrite map_app.
  rewrite !where_id_app, IH. f_equal.
  destruct (flag_row_shape r Hr) as [i [v [u [f [st [ra [ti [co [ct E]]]]]]]]].
  subst r. simpl map. rewrite clear_current_row_shape.
  destruct (String.eqb i id) eqn:Ei; [|reflexivity].
  apply String.eqb_eq in Ei. subst i.
  unfold where_id, field. simpl.
  apply String.eqb_neq in Hne. rewrite String.eqb_sym, Hne. reflexivity.
Qed.

Lemma clear_current_keys (id : string) (rows : list row) :
  forallb (counter_row jobs_flag_schema) rows = true ->
  map (fun r => (field (columns jobs_flag_schema) r "id",
                 field (columns jobs_flag_schema) r "version"))
      (FlagVersioningHelper.clear_current id jobs_flag_schema rows)
  = map (fun r => (field (columns jobs_flag_schema) r "id",
                   field (columns jobs_flag_schema) r "version")) rows.
Proof.
  intro Hwf. rewrite forallb_forall in Hwf.
  unfold FlagVersioningHelper.clear_current. rewrite map_map.
  apply map_ext_in. intros r Hr.
  destruct (clear_current_row_frame id r (Hwf r Hr)) as [_ [Hf _]].
  rewrite !Hf by discriminate. reflexivity.
Qed.

(** One call of [FlagVersioningHelper.create_new_version] that returns,
    seen from the single-row query and from the flag. *)
Lemma flag_step_current (c c' : conn) (table : string) (k : ts_call) (b : option row) :
  flag_table_ok c ->
  unique_discriminator (columns jobs_flag_schema) "version" (committed c) ->
  flag_current_is_latest (committed c) ->
  flag_create_k table k c = (Returned b, c') ->
  exists original new_row,
    select_latest "version" (ts_call_id k) jobs_flag_schema (committed c) = Some original
    /\ flag_table_ok c'
    /\ unique_discriminator (columns jobs_flag_schema) "version" (committed c')
    /\ flag_current_is_latest (committed c')
    /\ select_latest "version" (ts_call_id k) jobs_flag_schema (committed c')
       = Some new_row
    /\ (forall id', id' <> ts_call_id k ->
                    select_latest "version" id' jobs_flag_schema (committed c')
                    = select_latest "version" id' jobs_flag_schema (committed c))
    /\ content (columns jobs_flag_schema) new_row
       = updated_content (ts_call_id k) (ts_call_updates k)
                         (content (columns jobs_flag_schema) original).
Proof.
  intros [Hcat [Hidle Hwf]] Huniq Hcur Hrun.
  assert (Hready : txn c <> Failed) by (rewrite Hidle; discriminate).
  unfold flag_create_k in Hrun.
  destruct (exists_or_absent (columns jobs_flag_schema) (ts_call_id k) (committed c))
    as [Hex|Habs].
  2:{ rewrite flag_create_absent in Hrun; [discriminate | assumption |].
      rewrite Hcat, (visible_idle c Hidle). assumption. }
  rewrite <- (visible_idle c Hidle) in Hex, Hwf.
  destruct (flag_create_run_gen c table (ts_call_id k) (ts_call_updates k)
              (ts_call_uid k) Hcat Hready Hwf Hex)
    as [original [v [Hin [Hid [Hv [Hmax Hgen]]]]]].
  cbv zeta in Hgen. rewrite Hgen in Hrun. clear Hgen.
  destruct (insert_ok jobs_flag_schema _ _); [|discriminate].
  inversion Hrun. subst b c'. clear Hrun. simpl committed.
  rewrite (visible_idle c Hidle) in *.
  set (cleared := FlagVersioningHelper.clear_current (ts_call_id k) jobs_flag_schema
                    (committed c)).
  set (new_row := flag_next_row (ts_call_id k) v (ts_call_uid k) (ts_call_updates k)
                                original).
  pose proof (clear_current_wf (ts_call_id k) _ Hwf) as Hwf1. fold cleared in Hwf1.
  assert (Huniq1 : unique_discriminator (columns jobs_flag_schema) "version" cleared).
  { unfold unique_discriminator, cleared. rewrite clear_current_keys by assumption.
    exact Huniq. }
  assert (Hlarger : forall r m, In r cleared ->
                                field (columns jobs_flag_schema) r "id"
                                = VStr (ts_call_id k) ->
                                field (columns jobs_flag_schema) r "version" = VInt m ->
                                m < v + 1).
  { intros r' m Hr' Hid' Hm. apply clear_current_In in Hr'.
    destruct Hr' as [r [Hr E]]. subst r'. rewrite forallb_forall in Hwf.
    destruct (clear_current_row_frame (ts_call_id k) r (Hwf r Hr)) as [_ [Hf _]].
    rewrite Hf in Hid', Hm by discriminate.
    specialize (Hmax r m Hr Hid' Hm). lia. }
  assert (Hsame : select_latest "version" (ts_call_id k) jobs_flag_schema
                    (cleared ++ [new_row]) = Some new_row).
  { exact (select_latest_snoc_same VInt (fun x y => eq_refl) VInt_inj "version"
             jobs_flag_schema cleared new_row (ts_call_id k) (v + 1)
             (counter_rows_typed _ _ Hwf1) Huniq1 eq_refl eq_refl Hlarger). }
  assert (Hother : forall id', id' <> ts_call_id k ->
                               select_latest "version" id' jobs_flag_schema
                                 (cleared ++ [new_row])
                               = select_latest "version" id' jobs_flag_schema
                                   (committed c)).
  { intros id' Hne.
    rewrite (select_latest_snoc_other _ _ _ _ (ts_call_id k)) by (auto; reflexivity).
    unfold select_latest, cleared. rewrite where_id_clear_other by assumption.
    reflexivity. }
  exists original, new_row.
  split; [|split; [|split; [|split; [|split; [|split]]]]].
  - exact (select_latest_of_max VInt (fun x y => eq_refl) VInt_inj "version"
             jobs_flag_schema (committed c) (counter_rows_typed _ _ Hwf) Huniq
             original (ts_call_id k) v Hin Hid Hv Hmax).
  - split; [reflexivity|]. split; [reflexivity|]. simpl committed.
    rewrite forallb_app. apply andb_true_iff. split; [assumption | reflexivity].
  - apply (snoc_unique VInt "version" jobs_flag_schema cleared new_row
             (ts_call_id k) (v + 1)); auto.
  - intros id0 r. destruct (string_dec id0 (ts_call_id k)) as [E|E].
    + subst id0. rewrite Hsame, current_rows_app. unfold cleared.
      rewrite current_rows_clear_same by assumption.
      replace (current_rows (columns jobs_flag_schema) (ts_call_id k) [new_row])
        with [new_row]
        by (unfold current_rows, where_id, new_row, flag_next_row, field; simpl;
            rewrite String.eqb_refl; reflexivity).
      simpl. split; [intros [H|[]]; congruence | intro H; left; congruence].
    + rewrite (Hother id0 E), current_rows_app. unfold cleared.
      rewrite current_rows_clear_other by assumption.
      replace (current_rows (columns jobs_flag_schema) id0 [new_row]) with (@nil row).
      * rewrite app_nil_r. apply Hcur.
      * unfold current_rows, where_id, new_row, flag_next_row, field. simpl.
        apply String.eqb_neq in E. rewrite String.eqb_sym, E. reflexivity.
  - exact Hsame.
  - exact Hother.
  - reflexivity.
Qed.

Lemma stored_times_snoc (cols : list string) (rows : list row) (r : row) (t : Z) :
  field cols r "created_at" = VTime t ->
  stored_times cols (rows ++ [r]) = stored_times cols rows ++ [t].
Proof.
  intro H. unfold stored_times. rewrite flat_map_app. simpl. rewrite H. reflexivity.
Qed.

(** The correspondence of the three tables is kept by one logical call
    that returns under every strategy. *)
Lemma corresponding_step (cj ct cf cj' ct' cf' : conn) (table : string) (k : ts_call)
  (bj bt bf : option row) :
  corresponding cj ct cf ->
  status_rate_only (ts_call_updates k) ->
  (forall t, In t (stored_times (columns jobs_ts_schema) (committed ct)) ->
             t < ts_call_now k) ->
  scd_create table k cj = (Returned bj, cj') ->
  ts_create table k ct = (Returned bt, ct') ->
  flag_create_k table k cf = (Returned bf, cf') ->
  corresponding cj' ct' cf'
  /\ stored_times (columns jobs_ts_schema) (committed ct')
     = stored_times (columns jobs_ts_schema) (committed ct) ++ [ts_call_now k].
Proof.
  intros [Hj [Huj [Ht [Hut [Hf [Huf [Hcur Hsame]]]]]]] Hupd Hnow Rj Rt Rf.
  destruct (scd_step_current cj cj' table k bj Hj Huj Hupd Rj)
    as [lj [nj [Sj [Cj [Hj' [Huj' [Sj' [Oj Kj]]]]]]]].
  destruct (ts_step_current ct ct' table k bt Ht Hut Hnow Rt)
    as [lt [nt [St [Ct [Ft [Ht' [Hut' [St' [Ot Kt]]]]]]]]].
  destruct (flag_step_current cf cf' table k bf Hf Huf Hcur Rf)
    as [lf [nf [Sf [Hf' [Huf' [Hcur' [Sf' [Of Kf]]]]]]]].
  split.
  - repeat (split; [assumption|]).
    intro id0. destruct (string_dec id0 (ts_call_id k)) as [E|E].
    + subst id0. destruct (Hsame (ts_call_id k)) as [H1 H2].
      rewrite Sj, St in H1. rewrite Sj, Sf in H2. cbn [option_map] in H1, H2.
      assert (E1 : content (columns jobs_schema) lj = content (columns jobs_ts_schema) lt)
        by congruence.
      assert (E2 : content (columns jobs_schema) lj
                   = content (columns jobs_flag_schema) lf) by congruence.
      rewrite Sj', St', Sf'. cbn [option_map].
      rewrite Kj, Kt, Kf, <- E1, <- E2. auto.
    + rewrite (Oj id0 E), (Ot id0 E), (Of id0 E). apply Hsame.
  - rewrite Ct. apply stored_times_snoc. assumption.
Qed.

Lemma for_each_cons_inv {A B} (f : A -> M B) (a : A) (l : list A) (c c' : conn) :
  for_each f (a :: l) c = (Returned tt, c') ->
  exists b c1, f a c = (Returned b, c1) /\ for_each f l c1 = (Returned tt, c').
Proof.
  simpl. unfold bind. destruct (f a c) as [[b|e] c1]; [|discriminate].
  intro H. eauto.
Qed.

(** The correspondence is kept by any sequence of logical calls that all
    return, when the clock advances. *)
Lemma corresponding_run (table : string) (calls : list ts_call) :
  forall cj ct cf cj' ct' cf',
    corresponding cj ct cf ->
    (forall k, In k calls -> status_rate_only (ts_call_updates k)) ->
    clock_advances (stored_times (columns jobs_ts_schema) (committed ct))
                   (map ts_call_now calls) ->
    for_each (scd_create table) calls cj = (Returned tt, cj') ->
    for_each (ts_create table) calls ct = (Returned tt, ct') ->
    for_each (flag_create_k table) calls cf = (Returned tt, cf') ->
    corresponding cj' ct' cf'.
Proof.
  induction calls as [|k calls IH]; intros cj ct cf cj' ct' cf' Hc Hupd Hclock Rj Rt Rf.
  - simpl in Rj, Rt, Rf. unfold ret in *. inversion Rj. inversion Rt. inversion Rf.
    subst. assumption.
  - apply for_each_cons_inv in Rj, Rt, Rf.
    destruct Rj as [bj [cj1 [Rj Rj']]]. destruct Rt as [bt [ct1 [Rt Rt']]].
    destruct Rf as [bf [cf1 [Rf Rf']]].
    simpl in Hclock. destruct Hclock as [Hnow Hrest].
    destruct (corresponding_step cj ct cf cj1 ct1 cf1 table k bj bt bf Hc
                (Hupd k (or_introl eq_refl)) Hnow Rj Rt Rf) as [Hc1 Hst].
    apply (IH cj1 ct1 cf1 cj' ct' cf' Hc1); auto.
    + intros k' Hk'. apply Hupd. right. assumption.
    + eapply clock_advances_ext; [|exact Hrest].
      intros t Ht. rewrite Hst in Ht. apply in_app_or in Ht.
      destruct Ht as [Ht|[E|[]]]; [right; assumption | left; assumption].
Qed.

Lemma contents_of_latest (cols : list string) (result : list row)
  (sel : string -> option row) (x : list value) :
  (forall r, In r result <-> exists id, sel id = Some r) ->
  In x (map (content cols) result)
  <-> exists id, option_map (content cols) (sel id) = Some x.
Proof.
  intro H. rewrite in_map_iff. split.
  - intros [r [E Hr]]. apply H in Hr. destruct Hr as [id Hid].
    exists id. rewrite Hid. simpl. congruence.
  - intros [id Hid]. destruct (sel id) as [r|] eqn:E; [|discriminate].
    simpl in Hid. inversion Hid. exists r. split; [reflexivity|].
    apply H. eauto.
Qed.

(** [SELECT * FROM jobs_flag WHERE is_current = true] returns exactly the
    rows that the single-row query returns for some id. *)
Lemma select_current_In (rows : list row) (r : row) :
  forallb (counter_row jobs_flag_schema) rows = true ->
  flag_current_is_latest rows ->
  In r (FlagVersioningHelper.select_current jobs_flag_schema rows)
  <-> exists id, select_latest "version" id jobs_flag_schema rows = Some r.
Proof.
  intros Hwf Hcur. unfold FlagVersioningHelper.select_current. rewrite filter_In.
  split.
  - intros [Hr Hc]. destruct (counter_rows_typed _ _ Hwf r Hr) as [[i Hi] _].
    exists i. apply Hcur. unfold current_rows. apply filter_In. split; [|assumption].
    apply where_id_In. auto.
  - intros [id H]. apply Hcur in H. unfold current_rows in H.
    apply filter_In in H. destruct H as [H Hc]. apply where_id_In in H. tauto.
Qed.

(** On corresponding tables the three bulk queries return rows of the same
    contents. *)
Lemma corresponding_bulk (cj ct cf : conn) (table : string) (x : list value) :
  corresponding cj ct cf ->
  (In x (map (content (columns jobs_schema))
             (bulk_result (SCDHelper.get_latest_versions table cj)))
   <-> In x (map (content (columns jobs_ts_schema))
                 (bulk_result (TimestampVersioningHelper.get_latest_versions table ct))))
  /\ (In x (map (content (columns jobs_schema))
                (bulk_result (SCDHelper.get_latest_versions table cj)))
      <-> In x (map (content (columns jobs_flag_schema))
                    (bulk_result (FlagVersioningHelper.get_latest_versions table cf)))).
Proof.
  intros [[Hcj [Hij Hwj]] [Huj [[Hct [Hit Hwt]] [Hut [[Hcf [Hif Hwf]] [Huf [Hcur Hsame]]]]]]].
  unfold SCDHelper.get_latest_versions, TimestampVersioningHelper.get_latest_versions,
    FlagVersioningHelper.get_latest_versions, bulk_result.
  rewrite !execute_query_ready by (rewrite ?Hij, ?Hit, ?Hif; discriminate).
  simpl fst. rewrite Hcj, Hct, Hcf, !visible_idle by assumption.
  rewrite (contents_of_latest (columns jobs_schema) _
             (fun id => select_latest "version" id jobs_schema (committed cj)) x).
  2:{ intro r.
      apply (latest_join_In VInt (fun x y => eq_refl) (fun a b => eq_refl) VInt_inj
               (fun x => ltac:(discriminate)) "version" jobs_schema (committed cj)
               (counter_rows_typed _ _ Hwj) Huj). }
  rewrite (contents_of_latest (columns jobs_ts_schema) _
             (fun id => select_latest "created_at" id jobs_ts_schema (committed ct)) x).
  2:{ intro r.
      apply (latest_join_In VTime (fun x y => eq_refl) (fun a b => eq_refl) VTime_inj
               (fun x => ltac:(discriminate)) "created_at" jobs_ts_schema (committed ct)
               (ts_rows_typed _ _ Hwt) Hut). }
  rewrite (contents_of_latest (columns jobs_flag_schema) _
             (fun id => select_latest "version" id jobs_flag_schema (committed cf)) x).
  2:{ intro r. apply select_current_In; assumption. }
  split; split; intros [id H]; exists id; destruct (Hsame id) as [H1 H2]; congruence.
Qed.

(** C8 (as amended).  Let the tables of the three strategies hold
    corresponding histories, and issue the same sequence of logical calls
    to the three helpers, with partial updates that name no column other
    than [status] and [rate] (the two that the Timestamp and Flag helpers
    apply) and a clock that advances.  If the calls return, then for every
    predicate on contents the Counter max-version join, the Timestamp
    max-created_at join and the Flag [is_current = true] filter return rows
    of the same contents ([id] and business fields). *)
Theorem C8_strategies_select_same_current_rows
  (table : string) (calls : list ts_call) (p : list value -> bool)
  (cj ct cf cj' ct' cf' : conn) (x : list value) :
  corresponding cj ct cf ->
  (forall k, In k calls -> status_rate_only (ts_call_updates k)) ->
  clock_advances (stored_times (columns jobs_ts_schema) (committed ct))
                 (map ts_call_now calls) ->
  for_each (scd_create table) calls cj = (Returned tt, cj') ->
  for_each (ts_create table) calls ct = (Returned tt, ct') ->
  for_each (flag_create_k table) calls cf = (Returned tt, cf') ->
  (In x (contents_where p (columns jobs_schema)
           (bulk_result (SCDHelper.get_latest_versions table cj')))
   <-> In x (contents_where p (columns jobs_ts_schema)
               (bulk_result (TimestampVersioningHelper.get_latest_versions table ct'))))
  /\ (In x (contents_where p (columns jobs_schema)
              (bulk_result (SCDHelper.get_latest_versions table cj')))
      <-> In x (contents_where p (columns jobs_flag_schema)
                  (bulk_result (FlagVersioningHelper.get_latest_versions table cf')))).
Proof.
  intros Hc Hupd Hclock Rj Rt Rf.
  pose proof (corresponding_run table calls cj ct cf cj' ct' cf' Hc Hupd Hclock Rj Rt Rf)
    as Hc'.
  destruct (corresponding_bulk cj' ct' cf' table x Hc') as [H1 H2].
  unfold contents_where. rewrite !filter_In, H1, <- H2, H1. tauto.
Qed.

(** For a table given by its rows: splits on the ids of the rows. *)
Ltac split_on_id id :=
  unfold current_rows, select_latest, where_id,
    jobs_with_job1, jobs_ts_with_job1, jobs_flag_with_job1, connect;
  cbn [committed filter];
  repeat match goal with
         | |- context [field ?c ?r "id"] =>
             let v := eval vm_compute in (field c r "id") in
             change (field c r "id") with v
         end;
  cbn [sql_eq value_eqb];
  repeat match goal with
         | |- context [String.eqb ?a id] =>
             let E := fresh "E" in destruct (String.eqb a id) eqn:E
         end.

Lemma seeded_tables_correspond :
  corresponding jobs_with_job1 jobs_ts_with_job1 jobs_flag_with_job1.
Proof.
  split; [repeat split|]. split; [repeat constructor; simpl; tauto|].
  split; [repeat split|]. split; [repeat constructor; simpl; tauto|].
  split; [repeat split|]. split; [repeat constructor; simpl; tauto|].
  split.
  - intros id r. split_on_id id.
    + vm_compute. split; [intros [H|[]]; congruence | intro H; left; congruence].
    + vm_compute. split; [intros [] | discriminate].
  - intro id. split_on_id id; split; reflexivity.
Defined.

Lemma C8_strategies_select_same_current_rows_witness :
  In [VStr "job1"; VStr "updated"; VInt 150; VStr "Engineer"; VStr "comp1"; VStr "cont1"]
     (contents_where (fun _ => true) (columns jobs_flag_schema)
        (bulk_result
           (FlagVersioningHelper.get_latest_versions "jobs"
              (snd (for_each (flag_create_k "jobs") [scenario_call]
                             jobs_flag_with_job1))))).
Proof.
  destruct (C8_strategies_select_same_current_rows "jobs" [scenario_call]
              (fun _ => true)
              jobs_with_job1 jobs_ts_with_job1 jobs_flag_with_job1
              (snd (for_each (scd_create "jobs") [scenario_call] jobs_with_job1))
              (snd (for_each (ts_create "jobs") [scenario_call] jobs_ts_with_job1))
              (snd (for_each (flag_create_k "jobs") [scenario_call] jobs_flag_with_job1))
              [VStr "job1"; VStr "updated"; VInt 150; VStr "Engineer"; VStr "comp1";
               VStr "cont1"])
    as [_ H].
  - exact seeded_tables_correspond.
  - intros k [E|[]]. subst k. split.
    + repeat constructor; simpl; intuition discriminate.
    + intros k' [E|[E|[]]] _; subst k'; auto.
  - simpl. split; [|exact I]. intros t [E|[]]. subst t. unfold ts_call_now. simpl. lia.
  - vm_compute. reflexivity.
  - vm_compute. reflexivity.
  - vm_compute. reflexivity.
  - apply H. vm_compute. left. reflexivity.
Defined.

(** C8 as stated fails: the helpers do not keep the three tables in step.
    From corresponding tables with the one seeded row of [job1], the same
    logical call with the partial update [{'title': 'Manager'}] returns
    under every strategy; afterwards the current row of [job1] has the title
    [Manager] under the Counter strategy and [Engineer] under the Timestamp
    and Flag strategies, whose helpers apply [status] and [rate] only. *)
Lemma C8_counterexample :
  corresponding jobs_with_job1 jobs_ts_with_job1 jobs_flag_with_job1
  /\ map (content (columns jobs_schema))
         (bulk_result (SCDHelper.get_latest_versions "jobs"
                         (snd (scd_create "jobs" title_call jobs_with_job1))))
     = [[VStr "job1"; VStr "active"; VInt 100; VStr "Manager"; VStr "comp1"; VStr "cont1"]]
  /\ map (content (columns jobs_ts_schema))
         (bulk_result (TimestampVersioningHelper.get_latest_versions "jobs"
                         (snd (ts_create "jobs" title_call jobs_ts_with_job1))))
     = [[VStr "job1"; VStr "active"; VInt 100; VStr "Engineer"; VStr "comp1"; VStr "cont1"]]
  /\ map (content (columns jobs_flag_schema))
         (bulk_result (FlagVersioningHelper.get_latest_versions "jobs"
                         (snd (flag_create_k "jobs" title_call jobs_flag_with_job1))))
     = [[VStr "job1"; VStr "active"; VInt 100; VStr "Engineer"; VStr "comp1"; VStr "cont1"]]
  /\ fst (scd_create "jobs" title_call jobs_with_job1) = Returned None
  /\ fst (ts_create "jobs" title_call jobs_ts_with_job1) = Returned None
  /\ fst (flag_create_k "jobs" title_call jobs_flag_with_job1) = Returned None
  /\ ~ In [VStr "job1"; VStr "active"; VInt 100; VStr "Manager"; VStr "comp1";
           VStr "cont1"]
          (map (content (columns jobs_ts_schema))
               (bulk_result (TimestampVersioningHelper.get_latest_versions "jobs"
                               (snd (ts_create "jobs" title_call jobs_ts_with_job1))))).
Proof.
  split; [exact seeded_tables_correspond|].
  do 6 (split; [reflexivity|]).
  vm_compute. intros [H|[]]. discriminate.
Qed.

(** ** What a call leaves behind: the rules *)

Lemma triple_weaken {A} (P P' : conn -> Prop) (m : M A) (Q Q' : outcome A -> conn -> Prop) :
  triple P' m Q' ->
  (forall c, P c -> P' c) ->
  (forall o c, Q' o c -> Q o c) ->
  triple P m Q.
Proof. intros H HP HQ c Hc. apply HQ, H, HP, Hc. Qed.

Lemma step_bind {A B} (c0 : conn) (P : conn -> Prop) (m : M A) (k : A -> M B)
  (K : A -> list row -> Prop) (Q : outcome B -> conn -> Prop) :
  triple P m (step_post c0 K) ->
  (forall e c, abandoned c0 e c -> Q (Raised e) c) ->
  (forall a, triple (working c0 (K a)) (k a) Q) ->
  triple P (bind m k) Q.
Proof.
  intros Hm Hq Hk c HP. specialize (Hm c HP). unfold bind.
  destruct (m c) as [[a|e] c']; simpl in Hm.
  - apply Hk, Hm.
  - apply Hq, Hm.
Qed.

Lemma abandoned_failed (c0 c : conn) (e : exn) :
  catalog c = catalog c0 -> committed c = committed c0 -> txn c = Failed ->
  abandoned c0 e c.
Proof.
  intros H0 H1 H2. split; [assumption|]. split; [assumption|].
  split; [rewrite H2; discriminate|]. intros _. assumption.
Qed.

(** The first statement of a call. *)
Lemma first_query {A} (c0 : conn) (s : statement) (q : schema -> list row -> A) :
  triple (eq c0) (execute_query s q)
         (step_post c0 (fun a w => a = q (catalog c0) (visible c0) /\ w = visible c0)).
Proof.
  intros c <-. unfold execute_query.
  destruct (txn c0) eqn:E; simpl.
  - split; [reflexivity|]. split; [reflexivity|].
    exists (visible c0). repeat split; reflexivity.
  - split; [reflexivity|]. split; [reflexivity|].
    exists (visible c0). repeat split; reflexivity.
  - apply abandoned_failed; reflexivity.
Qed.

Lemma first_update (c0 : conn) (s : statement) (f : schema -> list row -> list row) :
  triple (eq c0) (execute_update s f)
         (step_post c0 (fun _ w => w = f (catalog c0) (visible c0))).
Proof.
  intros c <-. unfold execute_update.
  destruct (txn c0) eqn:E; simpl.
  - split; [reflexivity|]. split; [reflexivity|]. eexists. split; reflexivity.
  - split; [reflexivity|]. split; [reflexivity|]. eexists. split; reflexivity.
  - apply abandoned_failed; reflexivity.
Qed.

Lemma working_visible (c0 c : conn) (K : list row -> Prop) :
  working c0 K c -> exists w, txn c = InTxn w /\ visible c = w /\ K w.
Proof.
  intros [_ [_ [w [Hw HK]]]]. exists w. unfold visible. rewrite Hw. auto.
Qed.

Lemma next_query {A} (c0 : conn) (K : list row -> Prop) (s : statement)
  (q : schema -> list row -> A) :
  triple (working c0 K) (execute_query s q)
         (step_post c0 (fun a w => K w /\ a = q (catalog c0) w)).
Proof.
  intros c Hc. destruct (working_visible _ _ _ Hc) as [w [Hw [Hv HK]]].
  destruct Hc as [Hcat [Hcom _]].
  unfold execute_query. rewrite Hw. simpl.
  split; [assumption|]. split; [assumption|].
  exists w. rewrite Hv, Hcat. auto.
Qed.

Lemma next_update (c0 : conn) (K : list row -> Prop) (s : statement)
  (f : schema -> list row -> list row) :
  triple (working c0 K) (execute_update s f)
         (step_post c0 (fun _ w' => exists w, K w /\ w' = f (catalog c0) w)).
Proof.
  intros c Hc. destruct (working_visible _ _ _ Hc) as [w [Hw [Hv HK]]].
  destruct Hc as [Hcat [Hcom _]].
  unfold execute_update. rewrite Hw. simpl.
  split; [assumption|]. split; [assumption|].
  eexists. split; [reflexivity|]. exists w. rewrite Hv, Hcat. auto.
Qed.

Lemma next_lift {A} (c0 : conn) (K : list row -> Prop) (o : outcome A) :
  python_error o ->
  triple (working c0 K) (lift o) (step_post c0 (fun _ w => K w)).
Proof.
  intros Ho c Hc. unfold lift. simpl. destruct o as [a|e]; simpl.
  - exact Hc.
  - destruct (working_visible _ _ _ Hc) as [w [Hw _]].
    destruct Hc as [Hcat [Hcom _]].
    split; [assumption|]. split; [assumption|]. split; [rewrite Hw; discriminate|].
    intro E. exfalso. apply (Ho e eq_refl E).
Qed.

Lemma next_raise {A} (c0 : conn) (K : list row -> Prop) (e : exn)
  (Q : outcome A -> conn -> Prop) :
  exn_class e <> IntegrityError ->
  (forall c, abandoned c0 e c -> Q (Raised e) c) ->
  triple (working c0 K) (raise e) Q.
Proof.
  intros He HQ c Hc. unfold raise. simpl. apply HQ.
  destruct (working_visible _ _ _ Hc) as [w [Hw _]].
  destruct Hc as [Hcat [Hcom _]].
  split; [assumption|]. split; [assumption|]. split; [rewrite Hw; discriminate|].
  intro E. contradiction.
Qed.

Lemma next_insert_into (c0 : conn) (K : list row -> Prop) (table : string)
  (cols : list string) (vals : list value) :
  triple (working c0 K) (execute_insert_into table cols vals)
         (step_post c0 (fun _ w' => exists w r, K w /\ w' = w ++ [r])).
Proof.
  intros c Hc. destruct (working_visible _ _ _ Hc) as [w [Hw [Hv HK]]].
  destruct Hc as [Hcat [Hcom _]].
  unfold execute_insert_into, execute_insert. rewrite Hw.
  destruct (_ && _); simpl.
  - destruct (insert_ok _ _ _); simpl.
    + split; [assumption|]. split; [assumption|].
      eexists. split; [reflexivity|]. exists w. eexists. rewrite Hv. auto.
    + apply abandoned_failed; assumption || reflexivity.
  - apply abandoned_failed; assumption || reflexivity.
Qed.

Lemma insert_rows_app (s : schema) (new_rows : list row) :
  forall rows rows', insert_rows s rows new_rows = Some rows' -> rows' = rows ++ new_rows.
Proof.
  induction new_rows as [|r rest IH]; simpl; intros rows rows' H.
  - inversion H. rewrite app_nil_r. reflexivity.
  - destruct (insert_ok s rows r); [|discriminate].
    apply IH in H. rewrite H, <- app_assoc. reflexivity.
Qed.

Lemma next_insert_select (c0 : conn) (K : list row -> Prop) (table : string)
  (params : list value) (cols : list string)
  (q : schema -> list row -> list (list value)) :
  triple (working c0 K) (execute_insert_select table params cols q)
         (step_post c0 (fun _ w' =>
                          exists w, K w
                                    /\ w' = w ++ map (named_row (catalog c0) cols)
                                                     (q (catalog c0) w))).
Proof.
  intros c Hc. destruct (working_visible _ _ _ Hc) as [w [Hw [Hv HK]]].
  destruct Hc as [Hcat [Hcom _]].
  unfold execute_insert_select. rewrite Hw.
  destruct (_ && _); simpl.
  - destruct (insert_rows _ _ _) eqn:E; simpl.
    + split; [assumption|]. split; [assumption|].
      eexists. split; [reflexivity|]. exists w. split; [assumption|].
      apply insert_rows_app in E. rewrite E, Hv, Hcat. reflexivity.
    + apply abandoned_failed; assumption || reflexivity.
  - apply abandoned_failed; assumption || reflexivity.
Qed.

(** The end of a call: [self.conn.commit()] and the implicit [return
    None]. *)
Lemma last_commit {A} (c0 : conn) (K : list row -> Prop) (a : A) :
  triple (working c0 K) (conn_commit ;;; ret a)
         (call_post c0 (fun a' rows => a' = a /\ K rows)).
Proof.
  intros c Hc. destruct (working_visible _ _ _ Hc) as [w [Hw [Hv HK]]].
  destruct Hc as [Hcat [Hcom _]].
  unfold bind, conn_commit, execute_commit, ret. rewrite Hw. simpl.
  auto.
Qed.

Lemma last_commits {A} (c0 : conn) (K : list row -> Prop) (a : A) :
  triple (working c0 K) (execute_commit ;;; conn_commit ;;; ret a)
         (call_post c0 (fun a' rows => a' = a /\ K rows)).
Proof.
  intros c Hc. destruct (working_visible _ _ _ Hc) as [w [Hw [Hv HK]]].
  destruct Hc as [Hcat [Hcom _]].
  unfold bind, conn_commit, execute_commit, ret. rewrite Hw. simpl.
  auto.
Qed.

Lemma next_ret {A} (c0 : conn) (K : list row -> Prop) (a : A) :
  triple (working c0 K) (ret a) (step_post c0 (fun a' w => a' = a /\ K w)).
Proof.
  intros c Hc. unfold ret. simpl. destruct Hc as [Hcat [Hcom [w [Hw HK]]]].
  split; [assumption|]. split; [assumption|]. exists w. auto.
Qed.

Lemma working_weaken (c0 c : conn) (K K' : list row -> Prop) :
  (forall w, K w -> K' w) -> working c0 K c -> working c0 K' c.
Proof.
  intros HK [Hcat [Hcom [w [Hw Kw]]]].
  split; [assumption|]. split; [assumption|]. exists w. auto.
Qed.

Lemma step_post_weaken {A} (c0 c : conn) (K K' : A -> list row -> Prop) (o : outcome A) :
  (forall a w, K a w -> K' a w) -> step_post c0 K o c -> step_post c0 K' o c.
Proof.
  intros HK. destruct o as [a|e]; simpl; [|auto]. apply working_weaken, HK.
Qed.

Lemma call_post_weaken {A} (c0 c : conn) (K K' : A -> list row -> Prop) (o : outcome A) :
  (forall a w, K a w -> K' a w) -> call_post c0 K o c -> call_post c0 K' o c.
Proof.
  intros HK. destruct o as [a|e]; simpl; [|auto].
  intros [H1 [H2 H3]]. auto.
Qed.

Ltac hstep lem :=
  eapply step_bind; [apply lem | intros ? ? H; exact H | intro].

Lemma python_error_index (x : string) (l : list string) : python_error (py_index x l).
Proof. intros e. unfold py_index. destruct (list_index x l); intro H; inversion H. discriminate. Qed.

Lemma python_error_list_set (i : nat) (v : value) (l : list value) :
  python_error (py_list_set i v l).
Proof. intros e. unfold py_list_set. destruct (list_set i v l); intro H; inversion H. discriminate. Qed.

Lemma python_error_tuple_get (t : row) (i : nat) : python_error (py_tuple_get t i).
Proof. intros e. unfold py_tuple_get. destruct (tuple_get t i); intro H; inversion H. discriminate. Qed.

Lemma python_error_subscript (o : option row) (i : nat) : python_error (py_subscript o i).
Proof.
  destruct o as [t|]; simpl; [apply python_error_tuple_get|].
  intros e H. inversion H. discriminate.
Qed.

Lemma python_error_plus_one (x : value) : python_error (py_plus_one x).
Proof. intros e. unfold py_plus_one. destruct (py_add_one x); intro H; inversion H. discriminate. Qed.

Lemma python_error_apply_updates (cols : list string) (updates : dict) :
  forall data, python_error (SCDHelper.apply_updates cols updates data).
Proof.
  induction updates as [|[col v] rest IH]; simpl; intros data.
  - intros e H. discriminate.
  - destruct (list_mem col cols); [|apply IH].
    pose proof (python_error_index col cols) as Hi.
    destruct (py_index col cols) as [i|e'].
    + pose proof (python_error_list_set i v data) as Hs.
      destruct (py_list_set i v data) as [d|e']; [apply IH|].
      intros e H. inversion H. subst e'. apply (Hs e eq_refl).
    + intros e H. inversion H. subst e'. apply (Hi e eq_refl).
Qed.

(** ** The helpers commit one new row or nothing *)

Lemma derive_new_version_step (c0 : conn) (table id : string) (updates : dict)
  (new_uid : string) :
  triple (eq c0) (SCDHelper.derive_new_version table id updates new_uid)
         (step_post c0 (fun _ w => w = visible c0)).
Proof.
  unfold SCDHelper.derive_new_version.
  hstep (@first_query (option row)).
  destruct (fetched a) as [latest|].
  - hstep (@next_query (list string)).
    hstep (@next_lift nat); [apply python_error_index|].
    hstep (@next_lift value); [apply python_error_tuple_get|].
    hstep (@next_lift value); [apply python_error_plus_one|].
    hstep (@next_lift (list value)); [apply python_error_list_set|].
    hstep (@next_lift (list value)); [apply python_error_apply_updates|].
    hstep (@next_lift nat); [apply python_error_index|].
    hstep (@next_lift (list value)); [apply python_error_list_set|].
    eapply triple_weaken; [apply next_ret | intros ? H; exact H |].
    intros o c. apply step_post_weaken. tauto.
  - apply next_raise; [discriminate|]. intros c H. exact H.
Qed.

Lemma scd_create_triple (c0 : conn) (table id : string) (updates : dict)
  (new_uid : string) :
  triple (eq c0) (SCDHelper.create_new_version table id updates new_uid)
         (call_post c0 (fun a rows => a = None
                                      /\ exists new_row, rows = visible c0 ++ [new_row])).
Proof.
  unfold SCDHelper.create_new_version.
  hstep derive_new_version_step.
  unfold SCDHelper.insert_new_version.
  hstep next_insert_into.
  eapply triple_weaken; [apply last_commit | intros ? H; exact H |].
  intros o c. apply call_post_weaken.
  intros r w [-> [w' [new_row [-> ->]]]]. split; [reflexivity|]. exists new_row. reflexivity.
Qed.

Lemma ts_create_triple (c0 : conn) (table id : string) (updates : dict) (now : Z)
  (new_uid : string) :
  triple (eq c0) (TimestampVersioningHelper.create_new_version table id updates now new_uid)
         (call_post c0 (fun a rows => a = None
                                      /\ exists new_row, rows = visible c0 ++ [new_row])).
Proof.
  unfold TimestampVersioningHelper.create_new_version.
  hstep (@first_query (option row)).
  destruct (fetched a) as [latest|].
  - do 5 (hstep (@next_lift value); [apply python_error_tuple_get|]).
    hstep next_insert_into.
    eapply triple_weaken; [apply last_commit | intros ? H; exact H |].
    intros o c. apply call_post_weaken.
    intros r w [-> [w' [new_row [[_ ->] ->]]]]. split; [reflexivity|].
    exists new_row. reflexivity.
  - apply next_raise; [discriminate|]. intros c H. exact H.
Qed.

Lemma direct_create_triple (c0 : conn) (table id : string) (updates : dict)
  (new_uid : string) :
  triple (eq c0) (DirectSQLHelper.create_new_version table id updates new_uid)
         (call_post c0 (fun a rows => a = None /\ exists extra, rows = visible c0 ++ extra)).
Proof.
  unfold DirectSQLHelper.create_new_version.
  hstep (@first_query value).
  hstep (@next_lift value); [apply python_error_plus_one|].
  hstep next_insert_select.
  eapply triple_weaken; [apply last_commit | intros ? H; exact H |].
  intros o c. apply call_post_weaken.
  intros r w [-> [w' [[_ ->] ->]]]. split; [reflexivity|].
  eexists. reflexivity.
Qed.

Lemma flag_create_triple (c0 : conn) (table id : string) (updates : dict)
  (new_uid : string) :
  triple (eq c0) (FlagVersioningHelper.create_new_version table id updates new_uid)
         (call_post c0
            (fun a rows =>
               a = None
               /\ exists new_row,
                   rows = FlagVersioningHelper.clear_current id (catalog c0) (visible c0)
                          ++ [new_row])).
Proof.
  unfold FlagVersioningHelper.create_new_version.
  hstep first_update.
  hstep next_update.
  hstep (@next_query value).
  hstep (@next_query (option row)).
  hstep (@next_lift value); [apply python_error_plus_one|].
  do 5 (hstep (@next_lift value); [apply python_error_subscript|]).
  hstep next_insert_into.
  eapply triple_weaken; [apply last_commits | intros ? H; exact H |].
  intros o c. apply call_post_weaken.
  intros r w [-> [w' [new_row [[[[w1 [-> ->]] _] _] ->]]]]. split; [reflexivity|].
  exists new_row. reflexivity.
Qed.

(** X1. [SCDHelper.create_new_version] and
    [TimestampVersioningHelper.create_new_version], on any connection and
    with any arguments: a call that returns has returned [None], left the
    connection idle and committed the rows it saw followed by exactly one new
    row; a call that raises has committed nothing and has left the
    transaction open, aborted when the error is an [IntegrityError]. *)
Theorem counter_and_timestamp_create_commit_one_row_or_nothing
  (c0 : conn) (table id : string) (updates : dict) (now : Z) (new_uid : string) :
  (match SCDHelper.create_new_version table id updates new_uid c0 with
   | (Returned a, c) =>
       a = None /\ txn c = Idle /\ exists new_row, committed c = visible c0 ++ [new_row]
   | (Raised e, c) =>
       committed c = committed c0 /\ txn c <> Idle
       /\ (exn_class e = IntegrityError -> txn c = Failed)
   end)
  /\ (match TimestampVersioningHelper.create_new_version table id updates now new_uid c0 with
      | (Returned a, c) =>
          a = None /\ txn c = Idle /\ exists new_row, committed c = visible c0 ++ [new_row]
      | (Raised e, c) =>
          committed c = committed c0 /\ txn c <> Idle
          /\ (exn_class e = IntegrityError -> txn c = Failed)
      end).
Proof.
  split.
  - pose proof (scd_create_triple c0 table id updates new_uid c0 eq_refl) as H.
    destruct (SCDHelper.create_new_version table id updates new_uid c0) as [[a|e] c];
      simpl in H.
    + destruct H as [_ [H1 [H2 H3]]]. auto.
    + destruct H as [_ H]. exact H.
  - pose proof (ts_create_triple c0 table id updates now new_uid c0 eq_refl) as H.
    destruct (TimestampVersioningHelper.create_new_version table id updates now new_uid c0)
      as [[a|e] c]; simpl in H.
    + destruct H as [_ [H1 [H2 H3]]]. auto.
    + destruct H as [_ H]. exact H.
Qed.

(** X2. [FlagVersioningHelper.create_new_version], on any connection and
    with any arguments: a call that returns has committed the rows it saw,
    the flag of the current rows of the entity cleared, followed by exactly
    one new row; a call that raises has committed nothing - the flags it
    cleared are not stored - and has left the transaction open, aborted when
    the error is an [IntegrityError]. *)
Theorem flag_create_commits_both_writes_or_nothing
  (c0 : conn) (table id : string) (updates : dict) (new_uid : string) :
  match FlagVersioningHelper.create_new_version table id updates new_uid c0 with
  | (Returned a, c) =>
      a = None /\ txn c = Idle
      /\ exists new_row,
          committed c
          = FlagVersioningHelper.clear_current id (catalog c0) (visible c0) ++ [new_row]
  | (Raised e, c) =>
      committed c = committed c0 /\ txn c <> Idle
      /\ (exn_class e = IntegrityError -> txn c = Failed)
  end.
Proof.
  pose proof (flag_create_triple c0 table id updates new_uid c0 eq_refl) as H.
  destruct (FlagVersioningHelper.create_new_version table id updates new_uid c0)
    as [[a|e] c]; simpl in H.
  - destruct H as [_ [H1 [H2 H3]]]. auto.
  - destruct H as [_ H]. exact H.
Qed.

(** ** [DirectSQLHelper.create_new_version] *)

Lemma jobs_row_shape (r : row) :
  counter_row jobs_schema r = true ->
  exists i v u st ra ti co ct, r = [VStr i; VInt v; u; st; ra; ti; co; ct].
Proof.
  intro H. destruct (counter_row_inv _ _ H) as [Hlen [[i Hi] [n Hn]]].
  do 9 (destruct r as [|? r]; try discriminate Hlen).
  vm_compute in Hi, Hn. subst. repeat eexists.
Qed.

Lemma filter_unique_key {A K} (key : A -> K) (p : A -> bool) (l : list A) (x : A) :
  NoDup (map key l) -> In x l -> p x = true ->
  (forall y, In y l -> p y = true -> key y = key x) ->
  filter p l = [x].
Proof.
  induction l as [|a l IH]; simpl; intros Hnd Hin Hpx Hkey; [contradiction|].
  inversion Hnd as [|? ? Hna Hnd']. subst.
  destruct Hin as [->|Hin].
  - rewrite Hpx. f_equal.
    assert (Hnone : forall y, In y l -> p y = false).
    { intros y Hy. destruct (p y) eqn:E; [|reflexivity].
      exfalso. apply Hna. rewrite <- (Hkey y (or_intror Hy) E).
      apply in_map. assumption. }
    clear -Hnone. induction l as [|b l IH]; [reflexivity|]. simpl.
    rewrite (Hnone b (or_introl eq_refl)). apply IH. intros y Hy. apply Hnone. right.
    assumption.
  - destruct (p a) eqn:E.
    + exfalso. apply Hna. rewrite (Hkey a (or_introl eq_refl) E).
      apply in_map. assumption.
    + apply IH; auto.
Qed.

Lemma filter_filter_andb {A} (p q : A -> bool) (l : list A) :
  filter p (filter q l) = filter (fun x => q x && p x) l.
Proof.
  induction l as [|a l IH]; [reflexivity|]. simpl.
  destruct (q a); simpl; [destruct (p a)|]; rewrite IH; reflexivity.
Qed.

Lemma incl_jobs_columns :
  forallb (fun k => list_mem k (columns jobs_schema)) DirectSQLHelper.direct_columns = true.
Proof. reflexivity. Qed.

(** One call for an entity that exists. *)
Lemma direct_create_run (c : conn) (table id : string) (updates : dict) (new_uid : string) :
  jobs_ready c ->
  exists_id (columns jobs_schema) id (visible c) ->
  exists latest v,
    let new_row := direct_next_row v new_uid updates latest in
    select_latest "version" id jobs_schema (visible c) = Some latest
    /\ In latest (visible c)
    /\ field (columns jobs_schema) latest "id" = VStr id
    /\ field (columns jobs_schema) latest "version" = VInt v
    /\ (forall r m, In r (visible c) -> field (columns jobs_schema) r "id" = VStr id ->
                    field (columns jobs_schema) r "version" = VInt m -> m <= v)
    /\ DirectSQLHelper.create_new_version table id updates new_uid c
       = if insert_ok jobs_schema (visible c) new_row
         then (Returned None,
               mk_conn jobs_schema (visible c ++ [new_row]) Idle
                       (log c ++ direct_issued table id v new_uid updates))
         else (Raised unique_violation,
               mk_conn jobs_schema (committed c) Failed
                       (log c ++ [SelectMaxVersion table id;
                                  InsertRow table
                                    [VInt (v + 1); VStr new_uid;
                                     dict_get updates "status" VNone;
                                     dict_get updates "status" VNone;
                                     dict_get updates "rate" VNone;
                                     dict_get updates "rate" VNone;
                                     VStr id; VInt v]])).
Proof.
  intros [Hcat [Hready [Hwf Huniq]]] Hex.
  destruct (select_max_version_spec jobs_schema (visible c) id Hwf Hex)
    as [original [v [Hmax [Hsel [Hin [Hid [Hver Hle]]]]]]].
  exists original, v. cbv zeta.
  assert (Hlatest : select_latest "version" id jobs_schema (visible c) = Some original).
  { apply (select_latest_of_max VInt (fun x y => eq_refl) VInt_inj "version" jobs_schema
             (visible c) (counter_rows_typed _ _ Hwf) Huniq original id v); assumption. }
  split; [assumption|]. split; [assumption|]. split; [assumption|].
  split; [assumption|]. split; [assumption|].
  assert (Hfilter :
            filter (fun r => sql_eq (field (columns jobs_schema) r "version") (VInt v))
                   (where_id (columns jobs_schema) id (visible c)) = [original]).
  { unfold where_id. rewrite filter_filter_andb.
    apply (filter_unique_key
             (fun r => (field (columns jobs_schema) r "id",
                        field (columns jobs_schema) r "version"))); try assumption.
    - rewrite Hid, Hver. simpl. rewrite String.eqb_refl, Z.eqb_refl. reflexivity.
    - intros y Hy Hp. apply andb_true_iff in Hp. destruct Hp as [H1 H2].
      apply sql_eq_true in H1, H2. destruct H1 as [H1 _]. destruct H2 as [H2 _].
      rewrite H1, H2, Hid, Hver. reflexivity. }
  destruct (jobs_row_shape original) as [i [v' [u [st [ra [ti [co [ct Eo]]]]]]]].
  { rewrite forallb_forall in Hwf. apply Hwf. assumption. }
  assert (Ei : i = id) by (rewrite Eo in Hid; vm_compute in Hid; congruence).
  assert (Ev : v' = v) by (rewrite Eo in Hver; vm_compute in Hver; congruence).
  subst i v'.
  unfold DirectSQLHelper.create_new_version.
  unfold bind at 1. rewrite execute_query_ready by assumption.
  rewrite Hcat.
  change (DirectSQLHelper.select_max_version id jobs_schema (visible c))
    with (FlagVersioningHelper.select_max_version id jobs_schema (visible c)).
  rewrite Hmax.
  unfold bind at 1. unfold lift at 1. cbn [py_plus_one py_add_one].
  unfold bind at 1. unfold execute_insert_select.
  norm_conn. rewrite Hcat.
  unfold DirectSQLHelper.select_next_version. rewrite Hfilter.
  rewrite incl_jobs_columns. cbn [map forallb List.length Nat.eqb andb].
  rewrite Eo.
  match goal with
  | |- context [insert_rows ?s ?rows [?r]] =>
      change (insert_rows s rows [r])
        with (if insert_ok s rows r then Some (rows ++ [r]) else None)
  end.
  match goal with
  | |- context [named_row jobs_schema DirectSQLHelper.direct_columns ?vals] =>
      change (named_row jobs_schema DirectSQLHelper.direct_columns vals)
        with (direct_next_row v new_uid updates
                [VStr id; VInt v; u; st; ra; ti; co; ct])
  end.
  destruct (insert_ok jobs_schema (visible c) _) eqn:Eok.
  - unfold bind, conn_commit, execute_commit, ret, with_log. simpl.
    unfold direct_issued. rewrite ?Hcat, <- ?app_assoc. reflexivity.
  - unfold with_log. simpl. rewrite ?Hcat, <- ?app_assoc. reflexivity.
Qed.

Lemma direct_create_absent (c : conn) (table id : string) (updates : dict)
  (new_uid : string) :
  txn c <> Failed ->
  forallb (fun k => list_mem k (columns (catalog c))) DirectSQLHelper.direct_columns = true ->
  absent_id (columns (catalog c)) id (visible c) ->
  DirectSQLHelper.create_new_version table id updates new_uid c
  = (Returned None,
     mk_conn (catalog c) (visible c) Idle
             (log c ++ direct_issued table id 0 new_uid updates)).
Proof.
  intros Hready Hcols Habs.
  unfold DirectSQLHelper.create_new_version.
  unfold bind at 1. rewrite execute_query_ready by assumption.
  unfold DirectSQLHelper.select_max_version.
  rewrite (where_id_absent _ _ _ Habs). cbn [map sql_max fold_left coalesce].
  unfold bind at 1. unfold lift at 1. cbn [py_plus_one py_add_one].
  unfold bind at 1. unfold execute_insert_select.
  norm_conn. unfold DirectSQLHelper.select_next_version.
  rewrite (where_id_absent _ _ _ Habs). rewrite Hcols.
  cbn [filter map forallb andb insert_rows].
  unfold bind, conn_commit, execute_commit, ret, with_log. simpl.
  unfold direct_issued. rewrite <- ?app_assoc. reflexivity.
Qed.

(** X3. [DirectSQLHelper.create_new_version] for an entity that has no row:
    the call raises nothing, inserts nothing and commits; it returns [None]
    as after a successful update.  [SCDHelper.create_new_version] raises for
    the same arguments. *)
Theorem direct_create_missing_entity_is_silent
  (c : conn) (table id : string) (updates : dict) (new_uid : string) :
  txn c <> Failed ->
  forallb (fun k => list_mem k (columns (catalog c))) DirectSQLHelper.direct_columns = true ->
  absent_id (columns (catalog c)) id (visible c) ->
  DirectSQLHelper.create_new_version table id updates new_uid c
  = (Returned None,
     mk_conn (catalog c) (visible c) Idle
             (log c ++ direct_issued table id 0 new_uid updates))
  /\ fst (SCDHelper.create_new_version table id updates new_uid c)
     = Raised (mk_exn Exception ("No record found with id " ++ id)%string).
Proof.
  intros Hready Hcols Habs. split.
  - apply direct_create_absent; assumption.
  - rewrite scd_create_absent by assumption. reflexivity.
Qed.

Lemma direct_create_missing_entity_is_silent_witness :
  DirectSQLHelper.create_new_version "jobs" "job9" scenario_update "uid-2" jobs_with_job1
  = (Returned None,
     mk_conn jobs_schema [job1_v1] Idle
             [SelectMaxVersion "jobs" "job9";
              InsertRow "jobs" [VInt 1; VStr "uid-2"; VStr "updated"; VStr "updated";
                                VInt 150; VInt 150; VStr "job9"; VInt 0];
              SqlCommit])
  /\ fst (SCDHelper.create_new_version "jobs" "job9" scenario_update "uid-2" jobs_with_job1)
     = Raised (mk_exn Exception "No record found with id job9").
Proof.
  apply (direct_create_missing_entity_is_silent jobs_with_job1 "jobs" "job9"
           scenario_update "uid-2").
  - discriminate.
  - reflexivity.
  - intros r [E|[]]. subst r. discriminate.
Defined.

(** The current rows after a row with a larger version was appended for
    [id]: the new row, and the current rows of the other entities. *)
Lemma latest_join_snoc (s : schema) (rows : list row) (new_row : row) (id : string)
  (n : Z) :
  forallb (counter_row s) rows = true ->
  unique_discriminator (columns s) "version" rows ->
  field (columns s) new_row "id" = VStr id ->
  field (columns s) new_row "version" = VInt n ->
  (forall r m, In r rows -> field (columns s) r "id" = VStr id ->
               field (columns s) r "version" = VInt m -> m < n) ->
  forall r,
    In r (latest_join "version" s (rows ++ [new_row]))
    <-> r = new_row
        \/ exists id', id' <> id /\ select_latest "version" id' s rows = Some r.
Proof.
  intros Hwf Huniq Hid Hver Hlarger r.
  pose proof (counter_rows_typed _ _ Hwf) as Htyped.
  rewrite (latest_join_In VInt (fun x y => eq_refl) (fun a b => eq_refl) VInt_inj
             (fun x => ltac:(discriminate)) "version" s (rows ++ [new_row])
             (snoc_typed VInt "version" s rows new_row id n Htyped Hid Hver)
             (snoc_unique VInt "version" s rows new_row id n Huniq Hid Hver Hlarger)).
  pose proof (select_latest_snoc_same VInt (fun x y => eq_refl) VInt_inj "version" s rows
                new_row id n Htyped Huniq Hid Hver Hlarger) as Hsame.
  split.
  - intros [id' H]. destruct (string_dec id' id) as [->|Hne].
    + left. congruence.
    + right. exists id'. split; [assumption|].
      rewrite <- (select_latest_snoc_other "version" s rows new_row id id' Hid Hne).
      assumption.
  - intros [->|[id' [Hne H]]].
    + exists id. assumption.
    + exists id'.
      rewrite (select_latest_snoc_other "version" s rows new_row id id' Hid Hne).
      assumption.
Qed.

Lemma latest_versions_idle (s : schema) (rows : list row) (lg : list statement)
  (table : string) :
  bulk_result (DirectSQLHelper.get_latest_versions table (mk_conn s rows Idle lg))
  = latest_join "version" s rows
  /\ bulk_result (SCDHelper.get_latest_versions table (mk_conn s rows Idle lg))
     = latest_join "version" s rows.
Proof. split; reflexivity. Qed.

(** X4. [DirectSQLHelper.create_new_version] for an entity of a well-formed
    table [jobs], with a new uid: the call returns [None] and commits one
    row.  The row copies the latest row of the entity, with the version one
    larger and the new uid; [status] and [rate] come from the partial update
    when it gives them a value other than [None]; no other key of the partial
    update is read.  [get_latest_versions] then returns this row for the
    entity, and for every other entity the row it returned before. *)
Theorem direct_create_inserts_next_version
  (c : conn) (table id : string) (updates : dict) (new_uid : string) :
  jobs_ready c ->
  exists_id (columns jobs_schema) id (visible c) ->
  fresh_uid (columns jobs_schema) new_uid (visible c) ->
  exists latest v c',
    let new_row := direct_next_row v new_uid updates latest in
    select_latest "version" id jobs_schema (visible c) = Some latest
    /\ field (columns jobs_schema) latest "version" = VInt v
    /\ DirectSQLHelper.create_new_version table id updates new_uid c = (Returned None, c')
    /\ c' = mk_conn jobs_schema (visible c ++ [new_row]) Idle
                    (log c ++ direct_issued table id v new_uid updates)
    /\ field (columns jobs_schema) new_row "id" = VStr id
    /\ (forall r,
           In r (bulk_result (DirectSQLHelper.get_latest_versions table c'))
           <-> r = new_row
               \/ exists id', id' <> id
                              /\ select_latest "version" id' jobs_schema (visible c)
                                 = Some r).
Proof.
  intros Hjobs Hex Hfresh.
  destruct (direct_create_run c table id updates new_uid Hjobs Hex)
    as [latest [v [Hsel [Hin [Hid [Hver [Hmax Hrun]]]]]]].
  destruct Hjobs as [Hcat [Hready [Hwf Huniq]]].
  destruct (jobs_row_shape latest) as [i [v' [u [st [ra [ti [co [ct Eo]]]]]]]].
  { rewrite forallb_forall in Hwf. apply Hwf. assumption. }
  assert (Ei : i = id) by (rewrite Eo in Hid; vm_compute in Hid; congruence).
  assert (Fid : field (columns jobs_schema) (direct_next_row v new_uid updates latest) "id"
                = VStr id).
  { rewrite Eo, Ei. reflexivity. }
  assert (Hlarger : forall r m, In r (visible c) ->
                                field (columns jobs_schema) r "id" = VStr id ->
                                field (columns jobs_schema) r "version" = VInt m ->
                                m < v + 1).
  { intros r m Hr Hrid Hrv. specialize (Hmax r m Hr Hrid Hrv). lia. }
  rewrite (insert_ok_counter jobs_schema (visible c) _ id new_uid (v + 1)) in Hrun;
    try assumption; try reflexivity.
  2:{ exact counter_schema_jobs. }
  2:{ intros r' Hr' Hid' E. specialize (Hlarger r' (v + 1) Hr' Hid' E). lia. }
  eexists latest, v, _. cbv zeta.
  split; [assumption|]. split; [assumption|]. split; [exact Hrun|].
  split; [reflexivity|]. split; [assumption|].
  intro r. rewrite (proj1 (latest_versions_idle _ _ _ _)).
  apply (latest_join_snoc jobs_schema (visible c) _ id (v + 1)); try assumption.
  reflexivity.
Qed.

Lemma jobs_with_job1_jobs_ready : jobs_ready jobs_with_job1.
Proof.
  split; [reflexivity|]. split; [discriminate|]. split; [reflexivity|].
  unfold unique_discriminator. simpl. constructor; [intros []|constructor].
Qed.

Lemma jobs_with_job1_exists : exists_id (columns jobs_schema) "job1" (visible jobs_with_job1).
Proof. exists job1_v1. split; [left|]; reflexivity. Qed.

Lemma jobs_with_job1_fresh : fresh_uid (columns jobs_schema) "uid-2" (visible jobs_with_job1).
Proof. intros r [E|[]]. subst r. discriminate. Qed.

Lemma direct_create_inserts_next_version_witness :
  jobs_ready jobs_with_job1
  /\ snd (DirectSQLHelper.create_new_version "jobs" "job1"
            [("status", VNone); ("title", VStr "Manager"); ("rate", VInt 150)] "uid-2"
            jobs_with_job1)
     = mk_conn jobs_schema
         [job1_v1;
          [VStr "job1"; VInt 2; VStr "uid-2"; VStr "active"; VInt 150; VStr "Engineer";
           VStr "comp1"; VStr "cont1"]]
         Idle
         [SelectMaxVersion "jobs" "job1";
          InsertRow "jobs" [VInt 2; VStr "uid-2"; VNone; VNone; VInt 150; VInt 150;
                            VStr "job1"; VInt 1];
          SqlCommit].
Proof.
  split; [exact jobs_with_job1_jobs_ready|].
  destruct (direct_create_inserts_next_version jobs_with_job1 "jobs" "job1"
              [("status", VNone); ("title", VStr "Manager"); ("rate", VInt 150)] "uid-2"
              jobs_with_job1_jobs_ready jobs_with_job1_exists jobs_with_job1_fresh)
    as [latest [v [c' [Hsel [Hver [Hrun [Hc' _]]]]]]].
  rewrite Hrun. simpl snd. rewrite Hc'.
  vm_compute in Hsel. inversion Hsel. subst latest.
  vm_compute in Hver. inversion Hver. subst v.
  reflexivity.
Defined.

Lemma dict_last_In (d : dict) (k : string) (v : value) :
  dict_last d k = Some v -> In (k, v) d.
Proof.
  induction d as [|[k' v'] d IH]; simpl; [discriminate|].
  destruct (dict_last d k) as [w|] eqn:E.
  - intro H. inversion H. subst w. right. apply IH. reflexivity.
  - destruct (String.eqb k' k) eqn:Ek; [|discriminate].
    intro H. inversion H. subst v'. apply String.eqb_eq in Ek. subst k'. left. reflexivity.
Qed.

Lemma case_not_null_get (updates : dict) (k : string) (old : value) :
  NoDup (dict_keys updates) -> no_none updates ->
  DirectSQLHelper.case_not_null (dict_get updates k VNone) old
  = match dict_last updates k with
    | Some x => x
    | None => old
    end.
Proof.
  intros Hnd Hnn. rewrite dict_get_last by assumption.
  destruct (dict_last updates k) as [x|] eqn:E; [|reflexivity].
  destruct x; try reflexivity. exfalso. apply (Hnn k). apply dict_last_In. assumption.
Qed.

Lemma jobs_row_fields (r : row) :
  List.length r = 8%nat ->
  r = map (field (columns jobs_schema) r) (columns jobs_schema).
Proof.
  intro H. do 9 (destruct r as [|? r]; try discriminate H). reflexivity.
Qed.

(** X5. On a well-formed table [jobs], for an entity that exists, with a
    new uid and a partial update that names no column other than [status] and
    [rate] and holds no [None]: [DirectSQLHelper.create_new_version] and
    [SCDHelper.create_new_version] return [None] and commit the same rows. *)
Theorem direct_and_scd_create_commit_the_same_row
  (c : conn) (table id : string) (updates : dict) (new_uid : string) :
  jobs_ready c ->
  exists_id (columns jobs_schema) id (visible c) ->
  fresh_uid (columns jobs_schema) new_uid (visible c) ->
  status_rate_only updates ->
  no_none updates ->
  exists new_row cd cs,
    DirectSQLHelper.create_new_version table id updates new_uid c = (Returned None, cd)
    /\ SCDHelper.create_new_version table id updates new_uid c = (Returned None, cs)
    /\ committed cd = visible c ++ [new_row]
    /\ committed cs = visible c ++ [new_row]
    /\ txn cd = Idle /\ txn cs = Idle.
Proof.
  intros Hjobs Hex Hfresh Hupd Hnn.
  destruct (direct_create_run c table id updates new_uid Hjobs Hex)
    as [latest [v [Hsel [Hin [Hid [Hver [Hmax Hrun]]]]]]].
  destruct Hjobs as [Hcat [Hready [Hwf Huniq]]].
  destruct (create_new_version_run c table id updates new_uid Hready)
    as [latest' [v' [new_row [Hsel' [_ [_ [Hver' [_ [Hlen [Hf Hrun']]]]]]]]]].
  { rewrite Hcat. exact counter_schema_jobs. }
  { rewrite Hcat. assumption. }
  { rewrite Hcat. assumption. }
  rewrite Hcat in Hsel', Hver', Hlen, Hf, Hrun'.
  assert (El : latest' = latest) by congruence. subst latest'.
  assert (Ev : v' = v) by congruence. subst v'.
  destruct (jobs_row_shape latest) as [i [v' [u [st [ra [ti [co [ct Eo]]]]]]]].
  { rewrite forallb_forall in Hwf. apply Hwf. assumption. }
  assert (Ei : i = id) by (rewrite Eo in Hid; vm_compute in Hid; congruence).
  assert (Ev : v' = v) by (rewrite Eo in Hver; vm_compute in Hver; congruence).
  subst i v'.
  assert (Hunnamed : forall col, In col (columns jobs_schema) ->
                                 col <> "status" -> col <> "rate" ->
                                 dict_last updates col = None)
    by (intros; apply status_rate_only_unnamed; assumption).
  assert (Erow : new_row = direct_next_row v new_uid updates latest).
  { rewrite (jobs_row_fields new_row Hlen).
    rewrite (map_ext_in _ _ _ Hf).
    destruct Hupd as [Hnd _].
    unfold direct_next_row. rewrite !case_not_null_get by assumption.
    cbn [columns jobs_schema map]. unfold next_value.
    cbn [String.eqb Ascii.eqb Bool.eqb].
    rewrite (Hunnamed "id"), (Hunnamed "version"), (Hunnamed "title"),
      (Hunnamed "company_id"), (Hunnamed "contractor_id") by (simpl; auto 10; discriminate).
    rewrite Eo. reflexivity. }
  subst new_row.
  assert (Hok : insert_ok jobs_schema (visible c)
                  (direct_next_row v new_uid updates latest) = true).
  { apply (insert_ok_counter jobs_schema (visible c) _ id new_uid (v + 1));
      try assumption; try reflexivity; try exact counter_schema_jobs;
      try (rewrite Eo; reflexivity).
    intros r' Hr' Hid' E. specialize (Hmax r' (v + 1) Hr' Hid' E). lia. }
  rewrite Hok in Hrun, Hrun'.
  eexists _, _, _. split; [exact Hrun|]. split; [exact Hrun'|].
  repeat split; reflexivity.
Qed.

Lemma direct_and_scd_create_commit_the_same_row_witness :
  status_rate_only scenario_update
  /\ no_none scenario_update
  /\ committed (snd (DirectSQLHelper.create_new_version "jobs" "job1" scenario_update
                       "uid-2" jobs_with_job1))
     = committed (snd (SCDHelper.create_new_version "jobs" "job1" scenario_update
                         "uid-2" jobs_with_job1)).
Proof.
  assert (H1 : status_rate_only scenario_update).
  { split.
    - simpl. constructor; [intros [E|[]]; discriminate|]. constructor; [intros []|constructor].
    - intros k [E|[E|[]]] _; subst k; auto. }
  assert (H2 : no_none scenario_update).
  { intros k [E|[E|[]]]; discriminate. }
  split; [exact H1|]. split; [exact H2|].
  destruct (direct_and_scd_create_commit_the_same_row jobs_with_job1 "jobs" "job1"
              scenario_update "uid-2" jobs_with_job1_jobs_ready jobs_with_job1_exists
              jobs_with_job1_fresh H1 H2)
    as [new_row [cd [cs [Hd [Hs [Hcd [Hcs _]]]]]]].
  rewrite Hd, Hs. simpl snd. rewrite Hcd, Hcs. reflexivity.
Defined.

(** X6. [SCDHelper.create_new_version] followed by
    [SCDHelper.get_latest_versions], on a table versioned by a counter with
    one row per [(id, version)]: the query returns the row the call inserted
    as the row of the entity, and for every other entity the row that was
    the latest before the call. *)
Theorem scd_create_then_latest_versions
  (c : conn) (table id : string) (updates : dict) (new_uid : string) :
  scd_call_ready c id new_uid ->
  keeps_identity updates ->
  unique_discriminator (columns (catalog c)) "version" (visible c) ->
  exists new_row c' result,
    SCDHelper.create_new_version table id updates new_uid c = (Returned None, c')
    /\ committed c' = visible c ++ [new_row]
    /\ field (columns (catalog c)) new_row "uid" = VStr new_uid
    /\ SCDHelper.get_latest_versions table c'
       = (Returned result, with_log c' (SelectLatestJoin table) (InTxn (committed c')))
    /\ (forall r,
           In r result
           <-> r = new_row
               \/ exists id', id' <> id
                              /\ select_latest "version" id' (catalog c) (visible c)
                                 = Some r).
Proof.
  intros Hcall [Hkid Hkv] Huniq.
  pose proof Hcall as [Hready [Hs [Hwf [Hex Hfresh]]]].
  pose proof Hs as [Hci [Hcv [Hcu _]]].
  destruct (create_new_version_run c table id updates new_uid Hready Hs Hwf Hex)
    as [latest [v [new_row [Hsel [Hin [Hid [Hver [Hmax [Hlen [Hf Hrun]]]]]]]]]].
  assert (Fu : field (columns (catalog c)) new_row "uid" = VStr new_uid)
    by (rewrite (Hf _ Hcu); reflexivity).
  assert (Fv : field (columns (catalog c)) new_row "version" = VInt (v + 1)).
  { rewrite (Hf _ Hcv). unfold next_value. simpl String.eqb.
    apply dict_last_None in Hkv. rewrite Hkv, Hver. reflexivity. }
  assert (Fi : field (columns (catalog c)) new_row "id" = VStr id).
  { rewrite (Hf _ Hci). unfold next_value. simpl String.eqb.
    apply dict_last_None in Hkid. rewrite Hkid. assumption. }
  assert (Hlarger : forall r m, In r (visible c) ->
                                field (columns (catalog c)) r "id" = VStr id ->
                                field (columns (catalog c)) r "version" = VInt m ->
                                m < v + 1).
  { intros r m Hr Hrid Hrv. specialize (Hmax r m Hr Hrid Hrv). lia. }
  rewrite (insert_ok_counter (catalog c) (visible c) new_row id new_uid (v + 1)) in Hrun;
    auto.
  2:{ intros r' Hr' Hid' E. specialize (Hlarger r' (v + 1) Hr' Hid' E). lia. }
  eexists new_row, _, _. split; [exact Hrun|]. split; [reflexivity|].
  split; [assumption|]. split; [reflexivity|].
  intro r. apply (latest_join_snoc (catalog c) (visible c) new_row id (v + 1)); assumption.
Qed.

Lemma scd_create_then_latest_versions_witness :
  scd_call_ready jobs_with_job1 "job1" "uid-2"
  /\ exists new_row,
      committed (snd (SCDHelper.create_new_version "jobs" "job1" scenario_update "uid-2"
                        jobs_with_job1))
      = [job1_v1; new_row]
      /\ In new_row
            (bulk_result
               (SCDHelper.get_latest_versions "jobs"
                  (snd (SCDHelper.create_new_version "jobs" "job1" scenario_update "uid-2"
                          jobs_with_job1)))).
Proof.
  split; [exact jobs_with_job1_ready|].
  destruct (scd_create_then_latest_versions jobs_with_job1 "jobs" "job1" scenario_update
              "uid-2" jobs_with_job1_ready scenario_update_keeps_identity)
    as [new_row [c' [result [Hrun [Hcom [_ [Hq Hin]]]]]]].
  - destruct jobs_with_job1_jobs_ready as [_ [_ [_ H]]]. exact H.
  - rewrite Hrun. simpl snd. exists new_row. split; [exact Hcom|].
    rewrite Hq. simpl. apply Hin. left. reflexivity.
Defined.

(** ** An aborted transaction refuses every call *)

Lemma refused_every_call (c : conn) (table id : string) (updates : dict) (now : Z)
  (new_uid : string) :
  txn c = Failed ->
  refused c (SCDHelper.create_new_version table id updates new_uid c)
  /\ refused c (SCDHelper.get_latest_versions table c)
  /\ refused c (DirectSQLHelper.create_new_version table id updates new_uid c)
  /\ refused c (DirectSQLHelper.get_latest_versions table c)
  /\ refused c (TimestampVersioningHelper.create_new_version table id updates now new_uid c)
  /\ refused c (TimestampVersioningHelper.get_latest_versions table c)
  /\ refused c (FlagVersioningHelper.create_new_version table id updates new_uid c)
  /\ refused c (FlagVersioningHelper.get_latest_versions table c).
Proof.
  intro H.
  repeat split;
    unfold SCDHelper.create_new_version, SCDHelper.derive_new_version,
      SCDHelper.get_latest_versions, DirectSQLHelper.create_new_version,
      DirectSQLHelper.get_latest_versions, TimestampVersioningHelper.create_new_version,
      TimestampVersioningHelper.get_latest_versions,
      FlagVersioningHelper.create_new_version, FlagVersioningHelper.get_latest_versions,
      bind, execute_query, execute_update;
    rewrite H; reflexivity.
Qed.

Lemma integrity_error_aborts {A} (c0 : conn) (m : M A) (K : A -> list row -> Prop)
  (e : exn) (c' : conn) :
  triple (eq c0) m (call_post c0 K) ->
  m c0 = (Raised e, c') ->
  exn_class e = IntegrityError ->
  committed c' = committed c0 /\ txn c' = Failed.
Proof.
  intros Ht Hrun He. specialize (Ht c0 eq_refl). rewrite Hrun in Ht. simpl in Ht.
  destruct Ht as [_ [Hcom [_ Hfail]]]. auto.
Qed.

(** X7. A call of [create_new_version] that raises [IntegrityError] - a
    uid, an [(id, version)] or an [(id, created_at)] that is taken - leaves
    the transaction of the connection aborted, and no helper rolls it back:
    nothing was committed, and every later call of a helper on this
    connection raises [InFailedSqlTransaction] and changes nothing. *)
Theorem aborted_transaction_refuses_every_call
  (c c' : conn) (e : exn) (table id : string) (updates : dict) (now : Z) (new_uid : string)
  (table' id' : string) (updates' : dict) (now' : Z) (new_uid' : string) :
  SCDHelper.create_new_version table id updates new_uid c = (Raised e, c')
  \/ DirectSQLHelper.create_new_version table id updates new_uid c = (Raised e, c')
  \/ TimestampVersioningHelper.create_new_version table id updates now new_uid c
     = (Raised e, c')
  \/ FlagVersioningHelper.create_new_version table id updates new_uid c = (Raised e, c') ->
  exn_class e = IntegrityError ->
  committed c' = committed c
  /\ refused c' (SCDHelper.create_new_version table' id' updates' new_uid' c')
  /\ refused c' (SCDHelper.get_latest_versions table' c')
  /\ refused c' (DirectSQLHelper.create_new_version table' id' updates' new_uid' c')
  /\ refused c' (DirectSQLHelper.get_latest_versions table' c')
  /\ refused c' (TimestampVersioningHelper.create_new_version table' id' updates' now'
                   new_uid' c')
  /\ refused c' (TimestampVersioningHelper.get_latest_versions table' c')
  /\ refused c' (FlagVersioningHelper.create_new_version table' id' updates' new_uid' c')
  /\ refused c' (FlagVersioningHelper.get_latest_versions table' c').
Proof.
  intros Hrun He.
  assert (H : committed c' = committed c /\ txn c' = Failed).
  { destruct Hrun as [Hrun|[Hrun|[Hrun|Hrun]]].
    - exact (integrity_error_aborts c _ _ e c' (scd_create_triple c table id updates new_uid)
               Hrun He).
    - exact (integrity_error_aborts c _ _ e c'
               (direct_create_triple c table id updates new_uid) Hrun He).
    - exact (integrity_error_aborts c _ _ e c'
               (ts_create_triple c table id updates now new_uid) Hrun He).
    - exact (integrity_error_aborts c _ _ e c'
               (flag_create_triple c table id updates new_uid) Hrun He). }
  destruct H as [Hcom Hfail]. split; [assumption|].
  apply refused_every_call. assumption.
Qed.

Lemma aborted_transaction_refuses_every_call_witness :
  SCDHelper.create_new_version "jobs" "job1" scenario_update "uid-1" jobs_with_job1
  = (Raised unique_violation, jobs_after_duplicate_uid)
  /\ fst (SCDHelper.get_latest_versions "jobs" jobs_after_duplicate_uid)
     = Raised in_failed_transaction
  /\ fst (SCDHelper.create_new_version "jobs" "job1" scenario_update "uid-2"
            jobs_after_duplicate_uid)
     = Raised in_failed_transaction.
Proof.
  assert (H : SCDHelper.create_new_version "jobs" "job1" scenario_update "uid-1"
                jobs_with_job1
              = (Raised unique_violation, jobs_after_duplicate_uid)) by reflexivity.
  split; [exact H|].
  destruct (aborted_transaction_refuses_every_call jobs_with_job1 jobs_after_duplicate_uid
              unique_violation "jobs" "job1" scenario_update 0 "uid-1"
              "jobs" "job1" scenario_update 0 "uid-2" (or_introl H) eq_refl)
    as [_ [[H1 _] [[H2 _] _]]].
  split; assumption.
Defined.

(** ** The Timestamp strategy and the clock *)

Lemma insert_ok_keyed (s : schema) (col : string) (rows : list row) (r : row)
  (i u : string) (d : value) :
  unique_keys s = [["uid"]; ["id"; col]] ->
  List.length r = List.length (columns s) ->
  field (columns s) r "uid" = VStr u ->
  field (columns s) r "id" = VStr i ->
  field (columns s) r col = d -> d <> VNone ->
  fresh_uid (columns s) u rows ->
  (forall r', In r' rows -> field (columns s) r' "id" = VStr i ->
              field (columns s) r' col <> d) ->
  insert_ok s rows r = true.
Proof.
  intros Hk Hlen Hu Hi Hv Hd Hfresh Hnew.
  unfold insert_ok. rewrite Hlen, Nat.eqb_refl, Hk. simpl.
  unfold key_ok, key_of. simpl. rewrite Hu, Hi, Hv. simpl.
  assert (E1 : existsb (fun r' => value_eqb (field (columns s) r' "uid") (VStr u) && true)
                       rows = false).
  { apply not_true_is_false. intro H. apply existsb_exists in H.
    destruct H as [r' [Hr' E]]. rewrite andb_true_r in E.
    apply value_eqb_eq in E. exact (Hfresh r' Hr' E). }
  assert (E2 : existsb (fun r' => value_eqb (field (columns s) r' "id") (VStr i)
                                  && (value_eqb (field (columns s) r' col) d && true))
                       rows = false).
  { apply not_true_is_false. intro H. apply existsb_exists in H.
    destruct H as [r' [Hr' E]]. rewrite andb_true_r in E.
    apply andb_true_iff in E. destruct E as [Ea Eb].
    apply value_eqb_eq in Ea, Eb. exact (Hnew r' Hr' Ea Eb). }
  rewrite E1, E2. destruct d; try reflexivity. contradiction.
Qed.

Lemma insert_ok_keyed_taken (s : schema) (col : string) (rows : list row)
  (r other : row) :
  unique_keys s = [["uid"]; ["id"; col]] ->
  In other rows ->
  field (columns s) other "id" = field (columns s) r "id" ->
  field (columns s) other col = field (columns s) r col ->
  insert_ok s rows r = false.
Proof.
  intros Hk Hin Hid Hv.
  unfold insert_ok. rewrite Hk. apply andb_false_iff. right.
  simpl. apply andb_false_iff. right. apply andb_false_iff. left.
  unfold key_ok. apply andb_false_iff. right.
  apply negb_false_iff. apply existsb_exists. exists other. split; [assumption|].
  unfold key_of. simpl. rewrite Hid, Hv.
  rewrite !(proj2 (value_eqb_eq _ _) eq_refl). reflexivity.
Qed.

Lemma unique_snoc (cols : list string) (col : string) (rows : list row) (new_row : row) :
  unique_discriminator cols col rows ->
  (forall r, In r rows ->
             (field cols r "id", field cols r col)
             <> (field cols new_row "id", field cols new_row col)) ->
  unique_discriminator cols col (rows ++ [new_row]).
Proof.
  unfold unique_discriminator. intros Hnd Hnew.
  rewrite map_app. simpl.
  induction rows as [|a rows IH]; simpl.
  - constructor; [intros []|constructor].
  - inversion Hnd as [|? ? Hna Hnd']. subst. constructor.
    + rewrite in_app_iff. intros [H|[H|[]]].
      * contradiction.
      * apply (Hnew a (or_introl eq_refl)). symmetry. assumption.
    + apply IH; [assumption|]. intros r Hr. apply Hnew. right. assumption.
Qed.

(** X8. [TimestampVersioningHelper.create_new_version] for an entity of a
    well-formed table [jobs_ts], with a new uid.  When the clock reads a
    timestamp that a row of the entity already has, the INSERT violates the
    key [(id, created_at)]: the call raises [IntegrityError] and stores
    nothing.  Otherwise the call stores the new row, and
    [get_latest_versions] returns this row exactly when the clock reading is
    later than the latest timestamp of the entity; with an earlier reading
    the query goes on returning the row that was the latest before. *)
Theorem ts_new_row_is_current_iff_clock_is_later
  (c : conn) (table id : string) (updates : dict) (now : Z) (new_uid : string) :
  ts_ready c ->
  exists_id (columns jobs_ts_schema) id (visible c) ->
  fresh_uid (columns jobs_ts_schema) new_uid (visible c) ->
  exists latest t,
    let new_row := ts_next_row id now new_uid updates latest in
    select_latest "created_at" id jobs_ts_schema (visible c) = Some latest
    /\ field (columns jobs_ts_schema) latest "created_at" = VTime t
    /\ ((exists r, In r (visible c)
                   /\ field (columns jobs_ts_schema) r "id" = VStr id
                   /\ field (columns jobs_ts_schema) r "created_at" = VTime now) ->
        TimestampVersioningHelper.create_new_version table id updates now new_uid c
        = (Raised unique_violation,
           mk_conn jobs_ts_schema (committed c) Failed
                   (log c ++ [SelectLatestByCreatedAt (table ++ "_ts")%string id;
                              InsertRow (table ++ "_ts")%string new_row])))
    /\ ((forall r, In r (visible c) ->
                   field (columns jobs_ts_schema) r "id" = VStr id ->
                   field (columns jobs_ts_schema) r "created_at" <> VTime now) ->
        exists c',
          TimestampVersioningHelper.create_new_version table id updates now new_uid c
          = (Returned None, c')
          /\ txn c' = Idle
          /\ committed c' = visible c ++ [new_row]
          /\ (In new_row
                 (bulk_result (TimestampVersioningHelper.get_latest_versions table c'))
              <-> t < now)
          /\ (now < t ->
              In latest
                 (bulk_result (TimestampVersioningHelper.get_latest_versions table c')))).
Proof.
  intros [Hcat [Hready [Hwf Huniq]]] Hex Hfresh.
  destruct (ts_create_run_gen c table id updates now new_uid Hcat Hready Hwf Hex)
    as [latest [t [Hsel [Hin [Hid [Ht [Hmax Hrun]]]]]]].
  cbv zeta in Hrun.
  exists latest, t. cbv zeta.
  set (new_row := ts_next_row id now new_uid updates latest) in *.
  pose proof (ts_rows_typed _ _ Hwf) as Htyped.
  assert (Fid : field (columns jobs_ts_schema) new_row "id" = VStr id) by reflexivity.
  assert (Ft : field (columns jobs_ts_schema) new_row "created_at" = VTime now)
    by reflexivity.
  split; [assumption|]. split; [assumption|]. split.
  - intros [r [Hr [Hrid Hrt]]].
    assert (Hok : insert_ok jobs_ts_schema (visible c) new_row = false).
    { apply (insert_ok_keyed_taken jobs_ts_schema "created_at" (visible c) new_row r);
        [reflexivity | assumption | rewrite Hrid; reflexivity | rewrite Hrt; reflexivity]. }
    rewrite Hok in Hrun. exact Hrun.
  - intro Hnew.
    assert (Hok : insert_ok jobs_ts_schema (visible c) new_row = true).
    { apply (insert_ok_keyed jobs_ts_schema "created_at" (visible c) new_row id new_uid
               (VTime now)); try reflexivity; try assumption. discriminate. }
    rewrite Hok in Hrun.
    eexists. split; [exact Hrun|]. split; [reflexivity|]. split; [reflexivity|].
    change (bulk_result (TimestampVersioningHelper.get_latest_versions table _))
      with (latest_join "created_at" jobs_ts_schema (visible c ++ [new_row])).
    assert (Htyped' : forall r, In r (visible c ++ [new_row]) ->
                                (exists i, field (columns jobs_ts_schema) r "id" = VStr i)
                                /\ exists m, field (columns jobs_ts_schema) r "created_at"
                                             = VTime m).
    { apply (snoc_typed VTime "created_at" jobs_ts_schema (visible c) new_row id now);
        assumption. }
    assert (Huniq' : unique_discriminator (columns jobs_ts_schema) "created_at"
                       (visible c ++ [new_row])).
    { apply unique_snoc; [assumption|].
      intros r Hr E. rewrite Fid, Ft in E. inversion E as [[E1 E2]].
      exact (Hnew r Hr E1 E2). }
    pose proof (latest_join_In VTime (fun x y => eq_refl) (fun a b => eq_refl) VTime_inj
                  (fun x => ltac:(discriminate)) "created_at" jobs_ts_schema
                  (visible c ++ [new_row]) Htyped' Huniq') as Hjoin.
    assert (Hne : t <> now).
    { intro E. subst t. exact (Hnew latest Hin Hid Ht). }
    split; [split|].
    + intro H. apply Hjoin in H. destruct H as [id' H].
      destruct (select_latest_Some_inv VTime (fun x y => eq_refl) VTime_inj "created_at"
                  jobs_ts_schema (visible c ++ [new_row]) Htyped' id' new_row H)
        as [_ [Hid' [n [Hn Hle]]]].
      assert (E : id' = id) by congruence. subst id'.
      assert (En : n = now) by (rewrite Ft in Hn; congruence). subst n.
      assert (t <= now).
      { apply (Hle latest t); [apply in_or_app; left; assumption | assumption..]. }
      lia.
    + intro Hlt. apply Hjoin. exists id.
      apply (select_latest_snoc_same VTime (fun x y => eq_refl) VTime_inj "created_at"
               jobs_ts_schema (visible c) new_row id now Htyped Huniq Fid Ft).
      intros r m Hr Hrid Hrm. specialize (Hmax r m Hr Hrid Hrm). lia.
    + intro Hlt. apply Hjoin. exists id.
      apply (select_latest_of_max VTime (fun x y => eq_refl) VTime_inj "created_at"
               jobs_ts_schema (visible c ++ [new_row]) Htyped' Huniq' latest id t);
        try assumption.
      * apply in_or_app. left. assumption.
      * intros r' m Hr' Hrid' Hrm'. apply in_app_or in Hr'.
        destruct Hr' as [Hr'|[<-|[]]].
        -- apply (Hmax r' m); assumption.
        -- rewrite Ft in Hrm'. inversion Hrm'. lia.
Qed.

Lemma jobs_ts_with_job1_ready : ts_ready jobs_ts_with_job1.
Proof.
  split; [reflexivity|]. split; [discriminate|]. split; [reflexivity|].
  unfold unique_discriminator. simpl. constructor; [intros []|constructor].
Qed.

Lemma ts_new_row_is_current_iff_clock_is_later_witness :
  ts_ready jobs_ts_with_job1
  /\ fst (TimestampVersioningHelper.create_new_version "jobs" "job1" scenario_update 1000
            "uid-2" jobs_ts_with_job1)
     = Raised unique_violation.
Proof.
  split; [exact jobs_ts_with_job1_ready|].
  destruct (ts_new_row_is_current_iff_clock_is_later jobs_ts_with_job1 "jobs" "job1"
              scenario_update 1000 "uid-2" jobs_ts_with_job1_ready)
    as [latest [t [_ [_ [Hdup _]]]]].
  - exists (seed_job_ts "job1" 1000 "uid-1"). split; [left|]; reflexivity.
  - intros r [E|[]]. subst r. discriminate.
  - rewrite Hdup; [reflexivity|].
    exists (seed_job_ts "job1" 1000 "uid-1"). split; [left; reflexivity|].
    split; reflexivity.
Defined.

(** ** The Flag strategy: what the bulk query returns after a call *)

Lemma select_current_current_rows (rows : list row) (r : row) (i : string) :
  field (columns jobs_flag_schema) r "id" = VStr i ->
  In r (FlagVersioningHelper.select_current jobs_flag_schema rows)
  <-> In r (current_rows (columns jobs_flag_schema) i rows).
Proof.
  intro Hi. unfold FlagVersioningHelper.select_current, current_rows.
  rewrite !filter_In, where_id_In. tauto.
Qed.

(** X9. [FlagVersioningHelper.create_new_version] followed by
    [FlagVersioningHelper.get_latest_versions], on a well-formed table
    [jobs_flag]: the query returns the row the call inserted, and the rows of
    the other entities that it returned before; no other row of the entity
    itself is returned any more. *)
Theorem flag_create_then_latest_versions
  (c : conn) (table id : string) (updates : dict) (new_uid : string) :
  flag_call_ready c id new_uid ->
  exists new_row c',
    FlagVersioningHelper.create_new_version table id updates new_uid c = (Returned None, c')
    /\ txn c' = Idle
    /\ field (columns jobs_flag_schema) new_row "id" = VStr id
    /\ field (columns jobs_flag_schema) new_row "uid" = VStr new_uid
    /\ (forall r,
           In r (bulk_result (FlagVersioningHelper.get_latest_versions table c'))
           <-> r = new_row
               \/ (In r (FlagVersioningHelper.select_current jobs_flag_schema (visible c))
                   /\ field (columns jobs_flag_schema) r "id" <> VStr id)).
Proof.
  intro Hcall.
  destruct (flag_create_run c table id updates new_uid Hcall)
    as [original [v [Hin [Hid [Hver [Hmax Hrun]]]]]].
  destruct Hcall as [Hcat [Hready [_ [Hwf [Hex Hfresh]]]]].
  rewrite Hcat in Hwf.
  set (new_row := flag_next_row id v new_uid updates original) in *.
  set (cleared := FlagVersioningHelper.clear_current id jobs_flag_schema (visible c)) in *.
  eexists new_row, _. split; [exact Hrun|]. split; [reflexivity|].
  split; [reflexivity|]. split; [reflexivity|].
  intro r.
  change (bulk_result (FlagVersioningHelper.get_latest_versions table _))
    with (FlagVersioningHelper.select_current jobs_flag_schema (cleared ++ [new_row])).
  unfold FlagVersioningHelper.select_current at 1. rewrite filter_app, in_app_iff.
  change (filter _ [new_row]) with [new_row].
  fold (FlagVersioningHelper.select_current jobs_flag_schema cleared).
  pose proof (clear_current_wf id (visible c) Hwf) as Hwf'. fold cleared in Hwf'.
  split.
  - intros [H|[<-|[]]]; [|left; reflexivity]. right.
    assert (Hr : In r cleared).
    { unfold FlagVersioningHelper.select_current in H. apply filter_In in H. tauto. }
    rewrite forallb_forall in Hwf'.
    destruct (counter_row_inv _ _ (Hwf' r Hr)) as [_ [[i Hi] _]].
    apply (select_current_current_rows cleared r i Hi) in H.
    destruct (string_dec i id) as [->|Hne].
    + unfold cleared in H. rewrite current_rows_clear_same in H by assumption.
      destruct H.
    + unfold cleared in H. rewrite current_rows_clear_other in H by assumption.
      split.
      * apply (select_current_current_rows (visible c) r i Hi). assumption.
      * rewrite Hi. congruence.
  - intros [->|[H Hne]]; [right; left; reflexivity|]. left.
    assert (Hr : In r (visible c)).
    { unfold FlagVersioningHelper.select_current in H. apply filter_In in H. tauto. }
    rewrite forallb_forall in Hwf.
    destruct (counter_row_inv _ _ (Hwf r Hr)) as [_ [[i Hi] _]].
    apply (select_current_current_rows cleared r i Hi).
    assert (Hne' : i <> id) by (intro E; subst i; contradiction).
    unfold cleared. rewrite current_rows_clear_other.
    + apply (select_current_current_rows (visible c) r i Hi). assumption.
    + apply forallb_forall. assumption.
    + assumption.
Qed.

Lemma jobs_flag_with_job1_call_ready : flag_call_ready jobs_flag_with_job1 "job1" "uid-2".
Proof.
  split; [reflexivity|]. split; [discriminate|]. split; [exact counter_schema_flag|].
  split; [reflexivity|]. split.
  - exists (seed_job_flag "job1" "uid-1"). split; [left|]; reflexivity.
  - intros r [E|[]]. subst r. discriminate.
Qed.

Lemma flag_create_then_latest_versions_witness :
  flag_call_ready jobs_flag_with_job1 "job1" "uid-2"
  /\ exists new_row,
      field (columns jobs_flag_schema) new_row "uid" = VStr "uid-2"
      /\ In new_row
            (bulk_result
               (FlagVersioningHelper.get_latest_versions "jobs"
                  (snd (FlagVersioningHelper.create_new_version "jobs" "job1"
                          scenario_update "uid-2" jobs_flag_with_job1)))).
Proof.
  split; [exact jobs_flag_with_job1_call_ready|].
  destruct (flag_create_then_latest_versions jobs_flag_with_job1 "jobs" "job1"
              scenario_update "uid-2" jobs_flag_with_job1_call_ready)
    as [new_row [c' [Hrun [_ [_ [Hu Hin]]]]]].
  exists new_row. split; [exact Hu|].
  rewrite Hrun. simpl snd. apply Hin. left. reflexivity.
Defined.

(** ** [latest_scd_queryset] with a base queryset *)

Lemma latest_condition (float : Type) (t : Django.table float) (r : Django.Job float) :
  unique_id_version t ->
  In r t ->
  (match Django.subq t r with
   | Some max_version => Z.eqb (Django.version r) max_version
   | None => false
   end = true
   <-> exists i, Django.latest_of i t = Some r).
Proof.
  intros Hu Hr.
  rewrite <- (latest_scd_queryset_In float t Hu t r).
  unfold Django.latest_scd_queryset, Django.objects_all. rewrite filter_In. tauto.
Qed.

(** X10. [latest_scd_queryset(model, base_queryset)], on a table with one
    row per [(id, version)].  With a base queryset that yields rows when the
    function is called, the result holds the rows of the base queryset that
    are the latest version of their entity.  A base queryset that is empty
    at that time counts as false in [base_queryset or model.objects.all()]:
    the result is then the latest version of every entity of the table, as
    if no base queryset had been given. *)
Theorem latest_scd_queryset_with_base
  (float : Type) (t0 t : Django.table float) (base : Django.queryset float) :
  unique_id_version t ->
  queryset_of_model base ->
  (base t0 <> [] ->
   forall r, In r (Django.latest_scd_queryset t0 (Some base) t)
             <-> In r (base t) /\ exists i, Django.latest_of i t = Some r)
  /\ (base t0 = [] ->
      Django.latest_scd_queryset t0 (Some base) t = Django.latest_scd_queryset t0 None t
      /\ forall r, In r (Django.latest_scd_queryset t0 (Some base) t)
                   <-> exists i, Django.latest_of i t = Some r).
Proof.
  intros Hu Hbase. split.
  - intros Hne r. unfold Django.latest_scd_queryset.
    destruct (base t0) as [|x l] eqn:E; [contradiction|].
    rewrite filter_In. split.
    + intros [Hr Hc]. split; [assumption|].
      apply (latest_condition float t r Hu (Hbase t r Hr)). assumption.
    + intros [Hr Hl]. split; [assumption|].
      apply (latest_condition float t r Hu (Hbase t r Hr)). assumption.
  - intro Hempty.
    assert (E : Django.latest_scd_queryset t0 (Some base) t
                = Django.latest_scd_queryset t0 None t).
    { unfold Django.latest_scd_queryset. rewrite Hempty. reflexivity. }
    split; [assumption|]. intro r. rewrite E.
    apply latest_scd_queryset_In. assumption.
Qed.

Lemma test_jobs_unique : unique_id_version test_jobs.
Proof.
  unfold unique_id_version. simpl.
  repeat constructor; simpl; intuition discriminate.
Qed.

Lemma latest_scd_queryset_with_base_witness :
  jobs_of_company "comp9" test_jobs = []
  /\ Django.latest_scd_queryset test_jobs (Some (jobs_of_company "comp9")) test_jobs
     = Django.latest_scd_queryset test_jobs None test_jobs.
Proof.
  assert (H : jobs_of_company "comp9" test_jobs = []) by reflexivity.
  split; [exact H|].
  apply (latest_scd_queryset_with_base Z test_jobs test_jobs (jobs_of_company "comp9")
           test_jobs_unique).
  - intros t r Hr. unfold jobs_of_company, Django.qs_filter, Django.objects_all in Hr.
    apply filter_In in Hr. tauto.
  - exact H.
Defined.

Lemma NoDup_map_filter {A K K' : Type} (key : A -> K) (f : A -> K') (p : A -> bool)
  (l : list A) :
  NoDup (map key l) ->
  (forall x y, In x l -> In y l -> p x = true -> p y = true -> f x = f y -> x = y) ->
  NoDup (map f (filter p l)).
Proof.
  induction l as [|a l IH]; simpl; intros Hnd Hinj; [constructor|].
  inversion Hnd as [|? ? Hna Hnd']. subst.
  assert (Hrest : NoDup (map f (filter p l))).
  { apply IH; [assumption|]. intros x y Hx Hy. apply Hinj; right; assumption. }
  destruct (p a) eqn:Ea; [|assumption].
  simpl. constructor; [|assumption].
  intro Hin. apply in_map_iff in Hin. destruct Hin as [b [Hfb Hb]].
  apply filter_In in Hb. destruct Hb as [Hb Hpb].
  assert (E : b = a).
  { apply Hinj; auto. }
  subst b. apply Hna. apply in_map. assumption.
Qed.

(** X11. [find_active_jobs_by_contractor], on a table with one row per
    [(id, version)]: the result holds the jobs whose latest version is
    active and belongs to the contractor, each once; a job whose latest
    version does not match is not returned, whatever its earlier versions
    say. *)
Theorem find_active_jobs_by_contractor_current_rows
  (float : Type) (t : Django.table float) (contractor : string) :
  unique_id_version t ->
  (forall r, In r (find_active_jobs_by_contractor t contractor t)
             <-> (exists i, Django.latest_of i t = Some r)
                 /\ Django.status r = "active"
                 /\ Django.contractor_id r = contractor)
  /\ (forall i current,
         Django.latest_of i t = Some current ->
         Django.status current <> "active" \/ Django.contractor_id current <> contractor ->
         forall r, In r (find_active_jobs_by_contractor t contractor t) ->
                   Django.id r <> i)
  /\ NoDup (map Django.id (find_active_jobs_by_contractor t contractor t)).
Proof.
  intro Hu.
  assert (Hq : forall r, In r (find_active_jobs_by_contractor t contractor t)
                         <-> (exists i, Django.latest_of i t = Some r)
                             /\ Django.status r = "active"
                             /\ Django.contractor_id r = contractor).
  { intro r. unfold find_active_jobs_by_contractor, Django.qs_filter.
    rewrite filter_In, (latest_scd_queryset_In float t Hu t r),
      andb_true_iff, !String.eqb_eq. tauto. }
  split; [exact Hq|]. split.
  - intros i current Hcur Hno r Hr Hid.
    apply Hq in Hr. destruct Hr as [[i' Hi'] [Hs Hc]].
    destruct (latest_of_Some_inv float t i' r Hi') as [_ [Hid' _]].
    assert (E : i' = i) by congruence. rewrite E, Hcur in Hi'.
    inversion Hi'. subst current. tauto.
  - unfold find_active_jobs_by_contractor, Django.qs_filter,
      Django.latest_scd_queryset, Django.objects_all.
    rewrite filter_filter_andb.
    apply (NoDup_map_filter (fun r => (Django.id r, Django.version r))); [exact Hu|].
    intros x y Hx Hy Hpx Hpy Hid.
    apply andb_true_iff in Hpx, Hpy. destruct Hpx as [Hlx _]. destruct Hpy as [Hly _].
    apply (latest_condition float t x Hu Hx) in Hlx.
    apply (latest_condition float t y Hu Hy) in Hly.
    destruct Hlx as [i Hi]. destruct Hly as [j Hj].
    destruct (latest_of_Some_inv float t i x Hi) as [_ [Hidx _]].
    destruct (latest_of_Some_inv float t j y Hj) as [_ [Hidy _]].
    assert (E : i = j) by congruence. rewrite E in Hi. congruence.
Qed.

Lemma find_active_jobs_by_contractor_current_rows_witness :
  find_active_jobs_by_contractor test_jobs "cont1" test_jobs
  = [Django.mk_Job (Some "job1_v2") "job1" 2 "active" 100 EmptyString "comp1" "cont1"]
  /\ NoDup (map Django.id (find_active_jobs_by_contractor test_jobs "cont1" test_jobs)).
Proof.
  split; [reflexivity|].
  apply (find_active_jobs_by_contractor_current_rows Z test_jobs "cont1" test_jobs_unique).
Defined.

(** ** [create_new_scd_version] and the primary key *)



(** ** [create_new_scd_version] followed by [latest_scd_queryset] *)

Lemma latest_of_snoc_other (float : Type) (t : Django.table float)
  (new : Django.Job float) (i : string) :
  Django.id new <> i ->
  Django.latest_of i (t ++ [new]) = Django.latest_of i t.
Proof.
  intro Hne. unfold Django.latest_of. rewrite filter_app. simpl.
  apply String.eqb_neq in Hne. rewrite Hne, app_nil_r. reflexivity.
Qed.

Lemma latest_of_unique (float : Type) (t : Django.table float) (i : string)
  (r : Django.Job float) :
  unique_id_version t ->
  In r t -> Django.id r = i ->
  (forall x, In x t -> Django.id x = i -> Django.version x <= Django.version r) ->
  Django.latest_of i t = Some r.
Proof.
  intros Hu Hr Hid Hmax.
  destruct (latest_of_spec float t i (ex_intro _ r (conj Hr Hid)))
    as [l [H1 [H2 [H3 H4]]]].
  rewrite H1. f_equal.
  apply (NoDup_map_key (fun r => (Django.id r, Django.version r)) t l r Hu H2 Hr).
  specialize (Hmax l H2 H3). specialize (H4 r Hr Hid).
  f_equal; [congruence | lia].
Qed.

Lemma unique_id_version_snoc (float : Type) (t : Django.table float)
  (new : Django.Job float) :
  unique_id_version t ->
  (forall x, In x t -> Django.id x = Django.id new ->
             Django.version x < Django.version new) ->
  unique_id_version (t ++ [new]).
Proof.
  unfold unique_id_version. intros Hu Hnew. rewrite map_app. simpl.
  induction t as [|a t IH]; simpl.
  - constructor; [intros []|constructor].
  - inversion Hu as [|? ? Hna Hu']. subst. constructor.
    + rewrite in_app_iff. intros [H|[H|[]]]; [contradiction|].
      inversion H as [[H1 H2]].
      specialize (Hnew a (or_introl eq_refl) (eq_sym H1)). lia.
    + apply IH; [assumption|]. intros x Hx. apply Hnew. right. assumption.
Qed.

(** X13. [create_new_scd_version] followed by [latest_scd_queryset], on a
    table with one row per [(id, version)] and with an [update_fn] that
    leaves [id] and [version] alone and assigns a new primary key: the
    instance the call returned is the row the queryset yields for the entity,
    and for every other entity the queryset yields the row it yielded
    before.  [find_active_jobs_by_company] follows: the entity is found
    through its new version alone - not at all when the new version is not
    active or belongs to another company - and the other entities are found
    as before. *)
Theorem django_create_then_latest
  (float : Type) (pk_on_save : option string) (t : Django.table float) (i : string)
  (update_fn : Django.Job float -> Django.Job float) (u : string) :
  unique_id_version t ->
  django_call_ready t i update_fn u ->
  django_call_keeps (i, update_fn, u) ->
  exists new_version,
    Django.create_new_scd_version pk_on_save i update_fn t
    = (Returned new_version, t ++ [new_version])
    /\ Django.id new_version = i
    /\ Django.uid new_version = Some u
    /\ (forall r,
           In r (Django.latest_scd_queryset (t ++ [new_version]) None (t ++ [new_version]))
           <-> r = new_version
               \/ (Django.id r <> i /\ In r (Django.latest_scd_queryset t None t)))
    /\ (forall company r,
           In r (Django.find_active_jobs_by_company (t ++ [new_version]) company
                   (t ++ [new_version]))
           <-> (r = new_version /\ Django.status new_version = "active"
                /\ Django.company_id new_version = company)
               \/ (Django.id r <> i
                   /\ In r (Django.find_active_jobs_by_company t company t))).
Proof.
  intros Hu [Hnd [Hex [Huid Hfresh]]] Hkeeps.
  destruct (prepare_new_version_spec float t i update_fn Hnd Hex)
    as [latest [Hlatest [Hin [Hid [Hmax Hprep]]]]].
  set (new_version := update_fn (Django.set_version (Django.version latest + 1)
                                                    (Django.set_uid None latest))) in *.
  destruct (Hkeeps (Django.set_version (Django.version latest + 1)
                                       (Django.set_uid None latest)))
    as [Kid [Kver Kuid]].
  simpl in Kid, Kver, Kuid. fold new_version in Kid, Kver, Kuid.
  assert (Hrun : Django.create_new_scd_version pk_on_save i update_fn t
                 = (Returned new_version, t ++ [new_version])).
  { unfold Django.create_new_scd_version, Django.dbind. rewrite Hprep.
    rewrite (save_fresh float pk_on_save t new_version u Kuid Hfresh). reflexivity. }
  assert (Hnid : Django.id new_version = i) by congruence.
  assert (Hlarger : forall x, In x t -> Django.id x = Django.id new_version ->
                              Django.version x < Django.version new_version).
  { intros x Hx Hxid. rewrite Kver. rewrite Hnid in Hxid.
    specialize (Hmax x Hx Hxid). lia. }
  pose proof (unique_id_version_snoc float t new_version Hu Hlarger) as Hu'.
  assert (Hsame : Django.latest_of i (t ++ [new_version]) = Some new_version).
  { apply latest_of_unique; try assumption.
    - apply in_or_app. right. left. reflexivity.
    - intros x Hx Hxid. apply in_app_or in Hx. destruct Hx as [Hx|[<-|[]]]; [|lia].
      rewrite <- Hnid in Hxid. specialize (Hlarger x Hx Hxid). lia. }
  assert (Hlatest' : forall r,
             In r (Django.latest_scd_queryset (t ++ [new_version]) None
                     (t ++ [new_version]))
             <-> r = new_version
                 \/ (Django.id r <> i /\ In r (Django.latest_scd_queryset t None t))).
  { intro r.
    rewrite (latest_scd_queryset_In float (t ++ [new_version]) Hu' (t ++ [new_version]) r).
    rewrite (latest_scd_queryset_In float t Hu t r).
    split.
    - intros [i' H]. destruct (string_dec i' i) as [->|Hne].
      + left. congruence.
      + right. rewrite latest_of_snoc_other in H by congruence.
        destruct (latest_of_Some_inv float t i' r H) as [_ [Hrid _]].
        split; [congruence|]. exists i'. assumption.
    - intros [->|[Hne [i' H]]].
      + exists i. assumption.
      + exists i'. destruct (latest_of_Some_inv float t i' r H) as [_ [Hrid _]].
        rewrite latest_of_snoc_other by congruence. assumption. }
  exists new_version. split; [exact Hrun|]. split; [assumption|]. split; [assumption|].
  split; [exact Hlatest'|].
  intros company r. unfold Django.find_active_jobs_by_company, Django.qs_filter.
  rewrite !filter_In, Hlatest', andb_true_iff, !String.eqb_eq.
  split.
  - intros [[->|[Hne Hr]] [Hs Hc]]; [left; auto | right; auto].
  - intros [[-> [Hs Hc]]|[Hne [Hr Hp]]]; [auto | tauto].
Qed.

Lemma django_create_then_latest_witness :
  django_call_ready [django_job1_v1] "job1" (django_scenario_update "job1_v2") "job1_v2"
  /\ exists new_version,
      Django.create_new_scd_version None "job1" (django_scenario_update "job1_v2")
        [django_job1_v1]
      = (Returned new_version, [django_job1_v1; new_version])
      /\ In new_version
            (Django.latest_scd_queryset [django_job1_v1; new_version] None
               [django_job1_v1; new_version]).
Proof.
  split; [exact django_job1_ready|].
  destruct (django_create_then_latest Z None [django_job1_v1] "job1"
              (django_scenario_update "job1_v2") "job1_v2")
    as [new_version [Hrun [_ [_ [Hin _]]]]].
  - unfold unique_id_version. simpl. constructor; [intros []|constructor].
  - exact django_job1_ready.
  - intro j. repeat split.
  - exists new_version. split; [exact Hrun|]. apply Hin. left. reflexivity.
Defined.

(** ** The queries on timelogs and payment line items *)

Section LatestRows.
Variable model : Type.
Variable id_of : model -> string.
Variable version_of : model -> Z.

Lemma repos_subq_spec (t : list model) (r : model) :
  In r t ->
  exists m,
    Repos.subq id_of version_of t r = Some m
    /\ (exists r', In r' t /\ id_of r' = id_of r /\ version_of r' = m)
    /\ (forall r', In r' t -> id_of r' = id_of r -> version_of r' <= m).
Proof.
  intro Hr. unfold Repos.subq.
  assert (Hin : forall x, In x (filter (fun r' => String.eqb (id_of r') (id_of r)) t)
                          <-> In x t /\ id_of x = id_of r).
  { intro x. rewrite filter_In, String.eqb_eq. reflexivity. }
  destruct (filter (fun r' => String.eqb (id_of r') (id_of r)) t) as [|x l] eqn:E.
  - exfalso. apply (proj2 (Hin r)); auto.
  - destruct (fold_max_spec (map version_of l) (version_of x)) as [H1 [H2 H3]].
    eexists. split; [reflexivity|]. split.
    + destruct H3 as [H3|H3].
      * exists x. rewrite H3. destruct (proj1 (Hin x) (or_introl eq_refl)). auto.
      * apply in_map_iff in H3. destruct H3 as [y [Ey Hy]].
        exists y. destruct (proj1 (Hin y) (or_intror Hy)). auto.
    + intros r' Hr' Hid. destruct (proj2 (Hin r') (conj Hr' Hid)) as [Ex|Hl].
      * subst. assumption.
      * apply H2. apply in_map. assumption.
Qed.

Lemma repos_latest_is_latest (t : list model) (r : model) :
  In r (Repos.latest_scd_queryset id_of version_of t)
  <-> is_latest id_of version_of t r.
Proof.
  unfold Repos.latest_scd_queryset, is_latest. rewrite filter_In. split.
  - intros [Hr Hv]. split; [assumption|].
    destruct (repos_subq_spec t r Hr) as [m [Hm [_ Hmax]]].
    rewrite Hm in Hv. apply Z.eqb_eq in Hv. rewrite Hv. assumption.
  - intros [Hr Hmax]. split; [assumption|].
    destruct (repos_subq_spec t r Hr) as [m [Hm [[r' [Hr' [Hid' Hv']]] Hmax']]].
    rewrite Hm. apply Z.eqb_eq.
    specialize (Hmax r' Hr' Hid'). specialize (Hmax' r Hr eq_refl). lia.
Qed.

End LatestRows.

Lemma joined_In {A : Type} (pk : A -> option string) (key : string) (target : list A)
  (x : A) :
  In x (Repos.joined pk key target) <-> In x target /\ pk x = Some key.
Proof.
  unfold Repos.joined. rewrite filter_In.
  split; intros [H1 H2]; (split; [assumption|]).
  - destruct (pk x) as [u|]; simpl in H2; [|discriminate].
    apply String.eqb_eq in H2. congruence.
  - rewrite H2. simpl. apply String.eqb_refl.
Qed.

Lemma joined_snoc_other {A : Type} (pk : A -> option string) (key : string)
  (target : list A) (x : A) :
  pk x <> Some key ->
  Repos.joined pk key (target ++ [x]) = Repos.joined pk key target.
Proof.
  intro Hne. unfold Repos.joined. rewrite filter_app. simpl.
  destruct (Django.pk_eqb (pk x) (Some key)) eqn:E; [|apply app_nil_r].
  exfalso. apply Hne. destruct (pk x) as [u|]; simpl in E; [|discriminate].
  apply String.eqb_eq in E. congruence.
Qed.

Lemma flat_map_ext_in {A B : Type} (f g : A -> list B) (l : list A) :
  (forall x, In x l -> f x = g x) -> flat_map f l = flat_map g l.
Proof.
  induction l as [|a l IH]; simpl; intro H; [reflexivity|].
  rewrite (H a (or_introl eq_refl)), IH; [reflexivity|].
  intros x Hx. apply H. right. assumption.
Qed.

Lemma find_timelogs_In (float : Type) (db : Repos.database float) (contractor : string)
  (from_dt to_dt : Z) (r : Repos.Timelog float) :
  In r (Repos.find_timelogs_by_contractor_and_period contractor from_dt to_dt db)
  <-> is_latest Repos.tl_id Repos.tl_version (Repos.timelogs db) r
      /\ (exists job, In job (Repos.jobs db)
                      /\ Django.uid job = Some (Repos.tl_job_uid r)
                      /\ Django.contractor_id job = contractor)
      /\ from_dt <= Repos.tl_time_start r /\ Repos.tl_time_end r <= to_dt.
Proof.
  unfold Repos.find_timelogs_by_contractor_and_period.
  rewrite in_flat_map. split.
  - intros [tl [Htl H]]. apply in_flat_map in H. destruct H as [job [Hjob H]].
    destruct (_ && _) eqn:E in H; [|destruct H].
    destruct H as [<-|[]].
    apply repos_latest_is_latest in Htl. apply joined_In in Hjob.
    apply andb_true_iff in E. destruct E as [E E3].
    apply andb_true_iff in E. destruct E as [E1 E2].
    apply String.eqb_eq in E1. apply Z.leb_le in E2, E3.
    split; [assumption|]. split; [|split; assumption].
    exists job. tauto.
  - intros [Hl [[job [Hjob [Hu Hc]]] [H1 H2]]].
    exists r. split; [apply repos_latest_is_latest; assumption|].
    apply in_flat_map. exists job. split; [apply joined_In; auto|].
    apply String.eqb_eq in Hc. apply Z.leb_le in H1, H2.
    rewrite Hc, H1, H2. left. reflexivity.
Qed.

(** X14. [find_timelogs_by_contractor_and_period]: a timelog is returned
    when it is the latest version of its entity, lies in the period, and
    the job version it refers to belongs to the contractor.  The job is
    looked up by the uid the timelog stores, so a new version of a job,
    created by [create_new_scd_version] under a uid that no timelog refers
    to, changes nothing in the result, whatever [update_fn] changes in the
    job. *)
Theorem find_timelogs_follows_the_referenced_job_version
  (float : Type) (db : Repos.database float) (contractor : string) (from_dt to_dt : Z)
  (pk_on_save : option string) (i : string)
  (update_fn : Django.Job float -> Django.Job float) (u : string) :
  django_call_ready (Repos.jobs db) i update_fn u ->
  (forall tl, In tl (Repos.timelogs db) -> Repos.tl_job_uid tl <> u) ->
  (forall r,
      In r (Repos.find_timelogs_by_contractor_and_period contractor from_dt to_dt db)
      <-> is_latest Repos.tl_id Repos.tl_version (Repos.timelogs db) r
          /\ (exists job, In job (Repos.jobs db)
                          /\ Django.uid job = Some (Repos.tl_job_uid r)
                          /\ Django.contractor_id job = contractor)
          /\ from_dt <= Repos.tl_time_start r /\ Repos.tl_time_end r <= to_dt)
  /\ exists new_version,
      Django.create_new_scd_version pk_on_save i update_fn (Repos.jobs db)
      = (Returned new_version, Repos.jobs db ++ [new_version])
      /\ Repos.find_timelogs_by_contractor_and_period contractor from_dt to_dt
           (Repos.with_jobs db (Repos.jobs db ++ [new_version]))
         = Repos.find_timelogs_by_contractor_and_period contractor from_dt to_dt db.
Proof.
  intros [Hnd [Hex [Huid Hfresh]]] Href.
  split; [intro r; apply find_timelogs_In|].
  destruct (prepare_new_version_spec float (Repos.jobs db) i update_fn Hnd Hex)
    as [latest [Hlatest [_ [_ [_ Hprep]]]]].
  specialize (Huid latest Hlatest). unfold next_instance in Huid.
  change (Django.version (Django.set_uid None latest)) with (Django.version latest)
    in Huid.
  eexists. split.
  - unfold Django.create_new_scd_version, Django.dbind. rewrite Hprep.
    rewrite (save_fresh float pk_on_save (Repos.jobs db) _ u Huid Hfresh). reflexivity.
  - unfold Repos.find_timelogs_by_contractor_and_period. simpl.
    apply flat_map_ext_in. intros tl Htl.
    rewrite joined_snoc_other; [reflexivity|].
    rewrite Huid. intro E. inversion E as [E'].
    apply (Href tl); [|congruence].
    unfold Repos.latest_scd_queryset in Htl. apply filter_In in Htl. tauto.
Qed.

Lemma test_jobs_call_ready :
  django_call_ready (Repos.jobs test_database) "job1"
    (django_move_contractor "job1_v3" "cont9") "job1_v3".
Proof.
  split; [|split; [|split]].
  - simpl. repeat constructor; simpl; intuition discriminate.
  - eexists. split; [left; reflexivity | reflexivity].
  - intros latest _. reflexivity.
  - intros x [E|[E|[E|[]]]]; subst x; discriminate.
Qed.

Lemma find_timelogs_follows_the_referenced_job_version_witness :
  Repos.find_timelogs_by_contractor_and_period "cont1" 0 (24 * hour) test_database
  = [Repos.mk_Timelog (Some "tl1_v2") "tl1" 2 1 (8 * hour) (9 * hour) "work" "job1_v2"]
  /\ exists new_version,
      Django.create_new_scd_version None "job1" (django_move_contractor "job1_v3" "cont9")
        (Repos.jobs test_database)
      = (Returned new_version, Repos.jobs test_database ++ [new_version])
      /\ Django.contractor_id new_version = "cont9"
      /\ Repos.find_timelogs_by_contractor_and_period "cont1" 0 (24 * hour)
           (Repos.with_jobs test_database (Repos.jobs test_database ++ [new_version]))
         = Repos.find_timelogs_by_contractor_and_period "cont1" 0 (24 * hour)
             test_database.
Proof.
  split; [reflexivity|].
  destruct (find_timelogs_follows_the_referenced_job_version Z test_database "cont1" 0
              (24 * hour) None "job1" (django_move_contractor "job1_v3" "cont9")
              "job1_v3" test_jobs_call_ready)
    as [_ [new_version [Hrun Hsame]]].
  - intros tl [E|[E|[E|[]]]]; subst tl; discriminate.
  - exists new_version. split; [exact Hrun|]. split; [|exact Hsame].
    assert (E : snd (Django.create_new_scd_version None "job1"
                       (django_move_contractor "job1_v3" "cont9")
                       (Repos.jobs test_database))
                = Repos.jobs test_database ++ [new_version]) by (rewrite Hrun; reflexivity).
    vm_compute in E. inversion E. reflexivity.
Defined.

Lemma find_line_items_In (float : Type) (db : Repos.database float) (contractor : string)
  (from_dt to_dt : Z) (r : Repos.PaymentLineItem float) :
  In r (Repos.find_line_items_by_contractor_and_period contractor from_dt to_dt db)
  <-> is_latest Repos.pli_id Repos.pli_version (Repos.payment_line_items db) r
      /\ (exists job, In job (Repos.jobs db)
                      /\ Django.uid job = Some (Repos.pli_job_uid r)
                      /\ Django.contractor_id job = contractor)
      /\ (exists tl, In tl (Repos.timelogs db)
                     /\ Repos.tl_uid tl = Some (Repos.pli_timelog_uid r)
                     /\ from_dt <= Repos.tl_time_start tl
                     /\ Repos.tl_time_end tl <= to_dt).
Proof.
  unfold Repos.find_line_items_by_contractor_and_period.
  rewrite in_flat_map. split.
  - intros [pli [Hpli H]]. apply in_flat_map in H. destruct H as [job [Hjob H]].
    apply in_flat_map in H. destruct H as [tl [Htl H]].
    destruct (_ && _) eqn:E in H; [|destruct H].
    destruct H as [<-|[]].
    apply repos_latest_is_latest in Hpli. apply joined_In in Hjob, Htl.
    apply andb_true_iff in E. destruct E as [E E3].
    apply andb_true_iff in E. destruct E as [E1 E2].
    apply String.eqb_eq in E1. apply Z.leb_le in E2, E3.
    split; [assumption|]. split.
    + exists job. tauto.
    + exists tl. tauto.
  - intros [Hl [[job [Hjob [Hu Hc]]] [tl [Htl [Htu [H1 H2]]]]]].
    exists r. split; [apply repos_latest_is_latest; assumption|].
    apply in_flat_map. exists job. split; [apply joined_In; auto|].
    apply in_flat_map. exists tl. split; [apply joined_In; auto|].
    apply String.eqb_eq in Hc. apply Z.leb_le in H1, H2.
    rewrite Hc, H1, H2. left. reflexivity.
Qed.

(** X15. [find_line_items_by_contractor_and_period]: a payment line item is
    returned when it is the latest version of its entity, the job version it
    refers to belongs to the contractor, and the timelog version it refers
    to lies in the period.  The timelog is looked up by the uid the line
    item stores: a newer version of the timelog, stored under a uid that no
    line item refers to, changes nothing in the result, even when it lies
    outside the period. *)
Theorem find_line_items_follows_the_referenced_versions
  (float : Type) (db : Repos.database float) (contractor : string) (from_dt to_dt : Z)
  (new_timelog : Repos.Timelog float) :
  (forall pli, In pli (Repos.payment_line_items db) ->
               Repos.tl_uid new_timelog <> Some (Repos.pli_timelog_uid pli)) ->
  (forall r,
      In r (Repos.find_line_items_by_contractor_and_period contractor from_dt to_dt db)
      <-> is_latest Repos.pli_id Repos.pli_version (Repos.payment_line_items db) r
          /\ (exists job, In job (Repos.jobs db)
                          /\ Django.uid job = Some (Repos.pli_job_uid r)
                          /\ Django.contractor_id job = contractor)
          /\ (exists tl, In tl (Repos.timelogs db)
                         /\ Repos.tl_uid tl = Some (Repos.pli_timelog_uid r)
                         /\ from_dt <= Repos.tl_time_start tl
                         /\ Repos.tl_time_end tl <= to_dt))
  /\ Repos.find_line_items_by_contractor_and_period contractor from_dt to_dt
       (Repos.mk_database (Repos.jobs db) (Repos.timelogs db ++ [new_timelog])
                          (Repos.payment_line_items db))
     = Repos.find_line_items_by_contractor_and_period contractor from_dt to_dt db.
Proof.
  intro Href. split; [intro r; apply find_line_items_In|].
  unfold Repos.find_line_items_by_contractor_and_period. simpl.
  apply flat_map_ext_in. intros pli Hpli.
  apply flat_map_ext_in. intros job _.
  rewrite joined_snoc_other; [reflexivity|].
  apply Href. unfold Repos.latest_scd_queryset in Hpli. apply filter_In in Hpli. tauto.
Qed.

Lemma find_line_items_follows_the_referenced_versions_witness :
  Repos.find_line_items_by_contractor_and_period "cont1" 0 (24 * hour) test_database
  = [Repos.mk_PaymentLineItem (Some "pli1_v2") "pli1" 2 "job1_v2" "tl1_v2" 120 "paid"]
  /\ Repos.find_line_items_by_contractor_and_period "cont1" 0 (24 * hour)
       (Repos.mk_database (Repos.jobs test_database)
                          (Repos.timelogs test_database ++ [tl1_v3_moved])
                          (Repos.payment_line_items test_database))
     = Repos.find_line_items_by_contractor_and_period "cont1" 0 (24 * hour) test_database.
Proof.
  split; [reflexivity|].
  apply (find_line_items_follows_the_referenced_versions Z test_database "cont1" 0
           (24 * hour) tl1_v3_moved).
  intros pli [E|[E|[]]]; subst pli; discriminate.
Defined.

(** ** [seed_data] *)

Lemma job_id_inj (i j : nat) : job_id i = job_id j -> i = j.
Proof.
  unfold job_id. intro H. simpl in H. inversion H as [H'].
  apply Unsigned.to_uint_inj.
  assert (E : NilEmpty.uint_of_string (NilEmpty.string_of_uint (Nat.to_uint i))
              = NilEmpty.uint_of_string (NilEmpty.string_of_uint (Nat.to_uint j)))
    by (rewrite H'; reflexivity).
  rewrite !NilEmpty.usu in E. congruence.
Qed.

Lemma uuid_of_nat_inj (i j : nat) : uuid_of_nat i = uuid_of_nat j -> i = j.
Proof.
  unfold uuid_of_nat. intro H. simpl in H. inversion H as [H'].
  apply Unsigned.to_uint_inj.
  assert (E : NilEmpty.uint_of_string (NilEmpty.string_of_uint (Nat.to_uint i))
              = NilEmpty.uint_of_string (NilEmpty.string_of_uint (Nat.to_uint j)))
    by (rewrite H'; reflexivity).
  rewrite !NilEmpty.usu in E. congruence.
Qed.

Lemma VStr_inj (a b : string) : VStr a = VStr b -> a = b.
Proof. intro H. inversion H. reflexivity. Qed.

Lemma seeded_S (count : nat) (uuid : nat -> string) (now : nat -> Z) :
  seeded (S count) uuid now
  = mk_tables
      (t_jobs (seeded count uuid now)
       ++ [seed_job (job_id count) (uuid (3 * count)%nat)])
      (t_jobs_ts (seeded count uuid now)
       ++ [seed_job_ts (job_id count) (now count) (uuid (3 * count + 1)%nat)])
      (t_jobs_flag (seeded count uuid now)
       ++ [seed_job_flag (job_id count) (uuid (3 * count + 2)%nat)]).
Proof.
  unfold seeded. rewrite seq_S, !map_app. reflexivity.
Qed.

Lemma seed_iteration_ok (n : nat) (uuid : nat -> string) (now : nat -> Z) (i : nat) :
  uuids_distinct n uuid -> (3 * i + 2 < n)%nat ->
  seed_iteration uuid now i (seeded i uuid now) = Returned (seeded (S i) uuid now).
Proof.
  intros Hu Hi. unfold seed_iteration.
  assert (H1 : insert_ok jobs_schema (t_jobs (seeded i uuid now))
                 (seed_job (job_id i) (uuid (3 * i)%nat)) = true).
  { apply (insert_ok_counter jobs_schema _ _ (job_id i) (uuid (3 * i)%nat) 1);
      try reflexivity; try exact counter_schema_jobs.
    - intros r Hr E. simpl in Hr. apply in_map_iff in Hr. destruct Hr as [j [<- Hj]].
      apply in_seq in Hj. apply VStr_inj in E.
      apply Hu in E; lia.
    - intros r Hr E _. simpl in Hr. apply in_map_iff in Hr. destruct Hr as [j [<- Hj]].
      apply in_seq in Hj.
      change (VStr (job_id j) = VStr (job_id i)) in E.
      apply VStr_inj, job_id_inj in E. lia. }
  assert (H2 : insert_ok jobs_ts_schema (t_jobs_ts (seeded i uuid now))
                 (seed_job_ts (job_id i) (now i) (uuid (3 * i + 1)%nat)) = true).
  { apply (insert_ok_keyed jobs_ts_schema "created_at" _ _ (job_id i)
             (uuid (3 * i + 1)%nat) (VTime (now i))); try reflexivity; try discriminate.
    - intros r Hr E. simpl in Hr. apply in_map_iff in Hr. destruct Hr as [j [<- Hj]].
      apply in_seq in Hj. apply VStr_inj in E.
      apply Hu in E; lia.
    - intros r Hr E _. simpl in Hr. apply in_map_iff in Hr. destruct Hr as [j [<- Hj]].
      apply in_seq in Hj.
      change (VStr (job_id j) = VStr (job_id i)) in E.
      apply VStr_inj, job_id_inj in E. lia. }
  assert (H3 : insert_ok jobs_flag_schema (t_jobs_flag (seeded i uuid now))
                 (seed_job_flag (job_id i) (uuid (3 * i + 2)%nat)) = true).
  { apply (insert_ok_counter jobs_flag_schema _ _ (job_id i) (uuid (3 * i + 2)%nat) 1);
      try reflexivity; try exact counter_schema_flag.
    - intros r Hr E. simpl in Hr. apply in_map_iff in Hr. destruct Hr as [j [<- Hj]].
      apply in_seq in Hj. apply VStr_inj in E.
      apply Hu in E; lia.
    - intros r Hr E _. simpl in Hr. apply in_map_iff in Hr. destruct Hr as [j [<- Hj]].
      apply in_seq in Hj.
      change (VStr (job_id j) = VStr (job_id i)) in E.
      apply VStr_inj, job_id_inj in E. lia. }
  rewrite H1, H2, H3, seeded_S. reflexivity.
Qed.

Lemma seed_loop_ok (n : nat) (uuid : nat -> string) (now : nat -> Z) (len : nat) :
  uuids_distinct n uuid ->
  forall start, (3 * (start + len) <= n)%nat ->
    seed_loop uuid now (seq start len) (seeded start uuid now)
    = Returned (seeded (start + len) uuid now).
Proof.
  intro Hu. induction len as [|len IH]; intros start Hn; simpl.
  - rewrite Nat.add_0_r. reflexivity.
  - rewrite (seed_iteration_ok n) by (assumption || lia).
    rewrite IH by lia. f_equal. f_equal. lia.
Qed.

(** X16. [seed_data(count)]: when the calls of [uuid.uuid4()] return
    distinct uids, the function returns, and the three tables hold one row
    per job [job0] ... [job<count-1>], in this order, whatever they held
    before. *)
Theorem seed_data_replaces_the_tables
  (count : nat) (uuid : nat -> string) (now : nat -> Z) (stored : benchmark_tables) :
  uuids_distinct (3 * count) uuid ->
  seed_data count uuid now stored = (Returned tt, seeded count uuid now)
  /\ List.length (t_jobs (seeded count uuid now)) = count
  /\ List.length (t_jobs_ts (seeded count uuid now)) = count
  /\ List.length (t_jobs_flag (seeded count uuid now)) = count
  /\ (forall i, (i < count)%nat ->
                exists_id (columns jobs_schema) (job_id i) (t_jobs (seeded count uuid now))
                /\ exists_id (columns jobs_ts_schema) (job_id i)
                             (t_jobs_ts (seeded count uuid now))
                /\ exists_id (columns jobs_flag_schema) (job_id i)
                             (t_jobs_flag (seeded count uuid now))).
Proof.
  intro Hu. split.
  - unfold seed_data.
    change (mk_tables [] [] []) with (seeded 0 uuid now).
    rewrite (seed_loop_ok (3 * count) uuid now count Hu 0) by lia. reflexivity.
  - unfold seeded. simpl. rewrite !length_map, !length_seq.
    repeat split; try reflexivity.
    + exists (seed_job (job_id i) (uuid (3 * i)%nat)). split; [|reflexivity].
      apply in_map_iff. exists i. split; [reflexivity|]. apply in_seq. lia.
    + exists (seed_job_ts (job_id i) (now i) (uuid (3 * i + 1)%nat)). split; [|reflexivity].
      apply in_map_iff. exists i. split; [reflexivity|]. apply in_seq. lia.
    + exists (seed_job_flag (job_id i) (uuid (3 * i + 2)%nat)). split; [|reflexivity].
      apply in_map_iff. exists i. split; [reflexivity|]. apply in_seq. lia.
Qed.

Lemma uuid_of_nat_distinct (n : nat) : uuids_distinct n uuid_of_nat.
Proof. intros a b _ _. apply uuid_of_nat_inj. Qed.

Lemma seed_data_replaces_the_tables_witness :
  seed_data 2 uuid_of_nat (fun i => 1000 + Z.of_nat i)
            (mk_tables [seed_job "old" "uid-0"] [] [])
  = (Returned tt,
     mk_tables
       [seed_job "job0" "uuid-0"; seed_job "job1" "uuid-3"]
       [seed_job_ts "job0" 1000 "uuid-1"; seed_job_ts "job1" 1001 "uuid-4"]
       [seed_job_flag "job0" "uuid-2"; seed_job_flag "job1" "uuid-5"]).
Proof.
  apply (seed_data_replaces_the_tables 2 uuid_of_nat (fun i => 1000 + Z.of_nat i)
           (mk_tables [seed_job "old" "uid-0"] [] [])).
  apply uuid_of_nat_distinct.
Defined.

Lemma seed_iteration_returned (uuid : nat -> string) (now : nat -> Z) (i : nat)
  (w' : benchmark_tables) :
  seed_iteration uuid now i (seeded i uuid now) = Returned w' ->
  w' = seeded (S i) uuid now
  /\ insert_ok jobs_schema (t_jobs (seeded i uuid now))
       (seed_job (job_id i) (uuid (3 * i)%nat)) = true
  /\ insert_ok jobs_ts_schema (t_jobs_ts (seeded i uuid now))
       (seed_job_ts (job_id i) (now i) (uuid (3 * i + 1)%nat)) = true
  /\ insert_ok jobs_flag_schema (t_jobs_flag (seeded i uuid now))
       (seed_job_flag (job_id i) (uuid (3 * i + 2)%nat)) = true.
Proof.
  unfold seed_iteration.
  destruct (insert_ok jobs_schema _ _); [|discriminate].
  destruct (insert_ok jobs_ts_schema _ _); [|discriminate].
  destruct (insert_ok jobs_flag_schema _ _); [|discriminate].
  intro H. inversion H. rewrite seeded_S. auto.
Qed.

Lemma seed_iteration_raised (uuid : nat -> string) (now : nat -> Z) (i : nat)
  (w : benchmark_tables) (e : exn) :
  seed_iteration uuid now i w = Raised e -> e = unique_violation.
Proof.
  unfold seed_iteration.
  destruct (insert_ok jobs_schema _ _); [|intro H; inversion H; reflexivity].
  destruct (insert_ok jobs_ts_schema _ _); [|intro H; inversion H; reflexivity].
  destruct (insert_ok jobs_flag_schema _ _); [discriminate|].
  intro H; inversion H; reflexivity.
Qed.

Lemma seed_loop_raised (uuid : nat -> string) (now : nat -> Z) (indices : list nat) :
  forall w e, seed_loop uuid now indices w = Raised e -> e = unique_violation.
Proof.
  induction indices as [|i rest IH]; simpl; intros w e H; [discriminate|].
  destruct (seed_iteration uuid now i w) as [w'|e'] eqn:E.
  - apply (IH w'). assumption.
  - inversion H. subst e'. apply (seed_iteration_raised _ _ _ _ _ E).
Qed.

Lemma insert_ok_uid_fresh (s : schema) (keys : list (list string)) (rows : list row)
  (r r' : row) :
  unique_keys s = ["uid"] :: keys ->
  insert_ok s rows r = true ->
  In r' rows ->
  field (columns s) r' "uid" <> field (columns s) r "uid".
Proof.
  intros Hk Hok Hr' E. unfold insert_ok in Hok. rewrite Hk in Hok.
  apply andb_true_iff in Hok. destruct Hok as [_ Hok]. simpl in Hok.
  apply andb_true_iff in Hok. destruct Hok as [Hok _].
  unfold key_ok in Hok. apply andb_true_iff in Hok. destruct Hok as [_ Hok].
  apply negb_true_iff in Hok.
  assert (Hex : existsb (fun r'0 => values_eqb (key_of (columns s) ["uid"] r'0)
                                               (key_of (columns s) ["uid"] r)) rows = true).
  { apply existsb_exists. exists r'. split; [assumption|].
    unfold key_of. simpl. rewrite E, (proj2 (value_eqb_eq _ _) eq_refl). reflexivity. }
  congruence.
Qed.

(** When the loop returns, the tables are the seeded ones, and no two
    rows of a table were given the same uid. *)
Lemma seed_loop_returned (uuid : nat -> string) (now : nat -> Z) (len : nat) :
  forall start w,
    seed_loop uuid now (seq start len) (seeded start uuid now) = Returned w ->
    w = seeded (start + len) uuid now
    /\ forall i j k, (i < j)%nat -> (start <= j)%nat -> (j < start + len)%nat ->
                     (k < 3)%nat ->
                     uuid (3 * i + k)%nat <> uuid (3 * j + k)%nat.
Proof.
  induction len as [|len IH]; intros start w H; simpl in H.
  - inversion H. rewrite Nat.add_0_r. split; [reflexivity|]. intros. lia.
  - destruct (seed_iteration uuid now start (seeded start uuid now)) as [w'|e] eqn:E;
      [|discriminate].
    apply seed_iteration_returned in E. destruct E as [-> [H1 [H2 H3]]].
    apply IH in H. destruct H as [-> Hrest].
    split; [f_equal; lia|].
    intros i j k Hij Hs Hj Hk.
    destruct (Nat.eq_dec j start) as [->|Hne].
    + assert (Hi : In i (seq 0 start)) by (apply in_seq; lia).
      destruct k as [|[|[|k]]]; [| | |lia]; intro Eu.
      * apply (insert_ok_uid_fresh jobs_schema _ _ _
                 (seed_job (job_id i) (uuid (3 * i)%nat)) eq_refl H1).
        -- simpl. apply in_map_iff. exists i. auto.
        -- change (VStr (uuid (3 * i)%nat) = VStr (uuid (3 * start)%nat)).
           rewrite !Nat.add_0_r in Eu. congruence.
      * apply (insert_ok_uid_fresh jobs_ts_schema _ _ _
                 (seed_job_ts (job_id i) (now i) (uuid (3 * i + 1)%nat)) eq_refl H2).
        -- simpl. apply in_map_iff. exists i. auto.
        -- change (VStr (uuid (3 * i + 1)%nat) = VStr (uuid (3 * start + 1)%nat)).
           congruence.
      * apply (insert_ok_uid_fresh jobs_flag_schema _ _ _
                 (seed_job_flag (job_id i) (uuid (3 * i + 2)%nat)) eq_refl H3).
        -- simpl. apply in_map_iff. exists i. auto.
        -- change (VStr (uuid (3 * i + 2)%nat) = VStr (uuid (3 * start + 2)%nat)).
           congruence.
    + apply Hrest; lia.
Qed.

(** X17. [seed_data(count)] when [uuid.uuid4()] returns, for two rows of
    the same table, the same uid: the INSERT of the second row violates the
    key [uid], the function raises [IntegrityError], and the stored tables
    are what they were - not even emptied. *)
Theorem seed_data_with_repeated_uid_changes_nothing
  (count : nat) (uuid : nat -> string) (now : nat -> Z) (stored : benchmark_tables)
  (i j k : nat) :
  (i < j)%nat -> (j < count)%nat -> (k < 3)%nat ->
  uuid (3 * i + k)%nat = uuid (3 * j + k)%nat ->
  seed_data count uuid now stored = (Raised unique_violation, stored)
  /\ exn_class unique_violation = IntegrityError.
Proof.
  intros Hij Hj Hk Hu. split; [|reflexivity].
  unfold seed_data. change (mk_tables [] [] []) with (seeded 0 uuid now).
  destruct (seed_loop uuid now (seq 0 count) (seeded 0 uuid now)) as [w|e] eqn:E.
  - exfalso. apply seed_loop_returned in E. destruct E as [_ E].
    apply (E i j k); try assumption; lia.
  - apply seed_loop_raised in E. subst e. reflexivity.
Qed.

Lemma seed_data_with_repeated_uid_changes_nothing_witness :
  seed_data 2 (fun _ => "uuid-0") (fun i => 1000 + Z.of_nat i)
            (mk_tables [seed_job "old" "uid-0"] [] [])
  = (Raised unique_violation, mk_tables [seed_job "old" "uid-0"] [] []).
Proof.
  apply (seed_data_with_repeated_uid_changes_nothing 2 (fun _ => "uuid-0")
           (fun i => 1000 + Z.of_nat i) (mk_tables [seed_job "old" "uid-0"] [] [])
           0 1 0); try lia.
  reflexivity.
Defined.

(** ** The seeded tables *)

Lemma NoDup_map_inj {A B : Type} (f : A -> B) (l : list A) :
  (forall x y, f x = f y -> x = y) -> NoDup l -> NoDup (map f l).
Proof.
  intros Hinj Hnd. induction Hnd as [|a l Hna Hnd IH]; simpl; constructor.
  - intro H. apply in_map_iff in H. destruct H as [b [Hb Hin]].
    apply Hinj in Hb. subst b. contradiction.
  - assumption.
Qed.

Lemma job_index_dec (count : nat) (id : string) :
  (exists i, (i < count)%nat /\ job_id i = id)
  \/ (forall i, (i < count)%nat -> job_id i <> id).
Proof.
  induction count as [|n IH].
  - right. intros i Hi. lia.
  - destruct IH as [[i [Hi E]]|Hno].
    + left. exists i. split; [lia | assumption].
    + destruct (string_dec (job_id n) id) as [E|E].
      * left. exists n. split; [lia | assumption].
      * right. intros i Hi. destruct (Nat.eq_dec i n) as [->|Hne]; [assumption|].
        apply Hno. lia.
Qed.

Lemma filter_job_id_known (count i : nat) :
  (i < count)%nat ->
  filter (fun j => String.eqb (job_id j) (job_id i)) (seq 0 count) = [i].
Proof.
  intro Hi. apply (filter_unique_key (fun x : nat => x)).
  - rewrite map_id. apply seq_NoDup.
  - apply in_seq. lia.
  - apply String.eqb_refl.
  - intros y _ Hy. apply String.eqb_eq in Hy. apply job_id_inj. assumption.
Qed.

Lemma filter_job_id_unknown (count : nat) (id : string) :
  (forall i, (i < count)%nat -> job_id i <> id) ->
  filter (fun j => String.eqb (job_id j) id) (seq 0 count) = [].
Proof.
  intro Hno.
  assert (H : forall l, (forall j, In j l -> (j < count)%nat) ->
                        filter (fun j => String.eqb (job_id j) id) l = []).
  { induction l as [|a l IH]; intro Hl; [reflexivity|]. cbn [filter].
    destruct (String.eqb (job_id a) id) eqn:E.
    - apply String.eqb_eq in E. exfalso. apply (Hno a); [apply Hl; left; reflexivity|].
      assumption.
    - apply IH. intros j Hj. apply Hl. right. assumption. }
  apply H. intros j Hj. apply in_seq in Hj. lia.
Qed.

Section SeededRows.
Variable cols : list string.
Variable f : nat -> row.
Hypothesis f_id : forall i, field cols (f i) "id" = VStr (job_id i).

Lemma where_id_seeded (id : string) (l : list nat) :
  where_id cols id (map f l) = map f (filter (fun j => String.eqb (job_id j) id) l).
Proof.
  unfold where_id. induction l as [|a l IH]; [reflexivity|]. cbn [map filter].
  rewrite f_id. cbn [sql_eq value_eqb].
  destruct (String.eqb (job_id a) id); cbn [map]; rewrite IH; reflexivity.
Qed.

Lemma where_id_seeded_known (count i : nat) :
  (i < count)%nat -> where_id cols (job_id i) (map f (seq 0 count)) = [f i].
Proof.
  intro Hi. rewrite where_id_seeded, filter_job_id_known by assumption. reflexivity.
Qed.

Lemma where_id_seeded_unknown (count : nat) (id : string) :
  (forall i, (i < count)%nat -> job_id i <> id) ->
  where_id cols id (map f (seq 0 count)) = [].
Proof.
  intro Hno. rewrite where_id_seeded, filter_job_id_unknown by assumption. reflexivity.
Qed.

Lemma seeded_unique (col : string) (count : nat) :
  unique_discriminator cols col (map f (seq 0 count)).
Proof.
  unfold unique_discriminator. rewrite map_map.
  apply NoDup_map_inj; [|apply seq_NoDup].
  intros x y H. rewrite !f_id in H. apply (f_equal fst) in H. cbn [fst] in H.
  apply VStr_inj, job_id_inj in H. assumption.
Qed.

End SeededRows.

Lemma select_latest_seeded (s : schema) (col : string) (f : nat -> row) (count : nat)
  (id : string) :
  (forall i, field (columns s) (f i) "id" = VStr (job_id i)) ->
  select_latest col id s (map f (seq 0 count))
  = match filter (fun j => String.eqb (job_id j) id) (seq 0 count) with
    | [i] => Some (f i)
    | _ => None
    end
  /\ ((exists i, (i < count)%nat /\ id = job_id i
                 /\ select_latest col id s (map f (seq 0 count)) = Some (f i))
      \/ ((forall i, (i < count)%nat -> job_id i <> id)
          /\ select_latest col id s (map f (seq 0 count)) = None)).
Proof.
  intro Hid. unfold select_latest.
  destruct (job_index_dec count id) as [[i [Hi <-]]|Hno].
  - rewrite (where_id_seeded_known _ f Hid count i Hi), filter_job_id_known by assumption.
    split; [reflexivity|]. left. exists i. auto.
  - rewrite (where_id_seeded_unknown _ f Hid count id Hno), filter_job_id_unknown
      by assumption.
    split; [reflexivity|]. right. auto.
Qed.

Lemma seeded_latest_rows (C : Z -> value) (s : schema) (col : string) (f : nat -> row)
  (count : nat) (r : row) :
  (forall x y : Z, desc_before (C x) (C y) = (y <? x)) ->
  (forall a b : Z, sql_max2 (C a) (C b) = C (Z.max a b)) ->
  (forall x y : Z, C x = C y -> x = y) ->
  (forall x : Z, C x <> VNone) ->
  (forall i, field (columns s) (f i) "id" = VStr (job_id i)) ->
  (forall i, exists n, field (columns s) (f i) col = C n) ->
  In r (latest_join col s (map f (seq 0 count))) <-> In r (map f (seq 0 count)).
Proof.
  intros H1 H2 H3 H4 Hid Hcol.
  rewrite (latest_join_In C H1 H2 H3 H4 col s (map f (seq 0 count))).
  - split.
    + intros [id H].
      destruct (select_latest_seeded s col f count id Hid) as [_ [[i [Hi [_ E]]]|[_ E]]];
        rewrite E in H; [|discriminate].
      inversion H. apply in_map. apply in_seq. lia.
    + intro H. apply in_map_iff in H. destruct H as [i [<- Hi]]. apply in_seq in Hi.
      exists (job_id i).
      destruct (select_latest_seeded s col f count (job_id i) Hid)
        as [_ [[j [Hj [Ej E]]]|[Hno _]]].
      * apply job_id_inj in Ej. subst j. assumption.
      * exfalso. apply (Hno i); [lia | reflexivity].
  - intros r' Hr'. apply in_map_iff in Hr'. destruct Hr' as [i [<- _]].
    split; [exists (job_id i); apply Hid | apply Hcol].
  - apply seeded_unique. assumption.
Qed.

Lemma forallb_map_seq (p : row -> bool) (f : nat -> row) (count : nat) :
  (forall i, p (f i) = true) -> forallb p (map f (seq 0 count)) = true.
Proof.
  intro H. apply forallb_forall. intros r Hr.
  apply in_map_iff in Hr. destruct Hr as [i [<- _]]. apply H.
Qed.

Lemma seed_data_returned (count : nat) (uuid : nat -> string) (now : nat -> Z)
  (stored tables : benchmark_tables) :
  seed_data count uuid now stored = (Returned tt, tables) ->
  tables = seeded count uuid now.
Proof.
  unfold seed_data. change (mk_tables [] [] []) with (seeded 0 uuid now).
  destruct (seed_loop uuid now (seq 0 count) (seeded 0 uuid now)) as [w|e] eqn:E;
    [|discriminate].
  intro H. inversion H. subst w.
  apply seed_loop_returned in E. destruct E as [E _]. exact E.
Qed.

(** X18. The tables [seed_data] leaves when it returns: each is well formed
    with one row per key, every entity has exactly one row marked current in
    [jobs_flag], and the three tables hold corresponding histories - they
    agree on the content of the current row of every entity.  Every row is
    the latest version of its entity: the [get_latest_versions] of each
    strategy returns all the rows of its table. *)
Theorem seed_data_leaves_corresponding_tables
  (count : nat) (uuid : nat -> string) (now : nat -> Z)
  (stored tables : benchmark_tables) (table : string) :
  seed_data count uuid now stored = (Returned tt, tables) ->
  corresponding (connect jobs_schema (t_jobs tables))
                (connect jobs_ts_schema (t_jobs_ts tables))
                (connect jobs_flag_schema (t_jobs_flag tables))
  /\ one_current_per_id (columns jobs_flag_schema) (t_jobs_flag tables)
  /\ (forall r,
         In r (bulk_result (SCDHelper.get_latest_versions table
                              (connect jobs_schema (t_jobs tables))))
         <-> In r (t_jobs tables))
  /\ (forall r,
         In r (bulk_result (TimestampVersioningHelper.get_latest_versions table
                              (connect jobs_ts_schema (t_jobs_ts tables))))
         <-> In r (t_jobs_ts tables))
  /\ (forall r,
         In r (bulk_result (FlagVersioningHelper.get_latest_versions table
                              (connect jobs_flag_schema (t_jobs_flag tables))))
         <-> In r (t_jobs_flag tables)).
Proof.
  intro Hrun. apply seed_data_returned in Hrun. subst tables.
  set (fj := fun i => seed_job (job_id i) (uuid (3 * i)%nat)).
  set (ft := fun i => seed_job_ts (job_id i) (now i) (uuid (3 * i + 1)%nat)).
  set (ff := fun i => seed_job_flag (job_id i) (uuid (3 * i + 2)%nat)).
  change (t_jobs (seeded count uuid now)) with (map fj (seq 0 count)).
  change (t_jobs_ts (seeded count uuid now)) with (map ft (seq 0 count)).
  change (t_jobs_flag (seeded count uuid now)) with (map ff (seq 0 count)).
  assert (Hfj : forall i, field (columns jobs_schema) (fj i) "id" = VStr (job_id i))
    by reflexivity.
  assert (Hft : forall i, field (columns jobs_ts_schema) (ft i) "id" = VStr (job_id i))
    by reflexivity.
  assert (Hff : forall i, field (columns jobs_flag_schema) (ff i) "id" = VStr (job_id i))
    by reflexivity.
  assert (Hcur : forall id,
             current_rows (columns jobs_flag_schema) id (map ff (seq 0 count))
             = where_id (columns jobs_flag_schema) id (map ff (seq 0 count))).
  { intro id. unfold current_rows. rewrite (where_id_seeded _ ff Hff).
    induction (filter (fun j => String.eqb (job_id j) id) (seq 0 count)) as [|a l IH];
      [reflexivity|].
    cbn [map filter].
    change (sql_eq (field (columns jobs_flag_schema) (ff a) "is_current") (VBool true))
      with true.
    cbv iota.
    rewrite IH. reflexivity. }
  split; [|split; [|split; [|split]]].
  - split; [|split; [|split; [|split; [|split; [|split; [|split]]]]]].
    + split; [reflexivity|]. split; [reflexivity|].
      apply forallb_map_seq. reflexivity.
    + apply seeded_unique. assumption.
    + split; [reflexivity|]. split; [reflexivity|].
      apply forallb_map_seq. reflexivity.
    + apply seeded_unique. assumption.
    + split; [reflexivity|]. split; [reflexivity|].
      apply forallb_map_seq. reflexivity.
    + apply seeded_unique. assumption.
    + intros id r. simpl committed. rewrite Hcur.
      destruct (select_latest_seeded jobs_flag_schema "version" ff count id Hff)
        as [_ [[i [Hi [-> E]]]|[Hno E]]]; rewrite E.
      * rewrite (where_id_seeded_known _ ff Hff count i Hi). simpl.
        split; [intros [->|[]]; reflexivity | intro H; inversion H; auto].
      * rewrite (where_id_seeded_unknown _ ff Hff count id Hno). simpl.
        split; [intros [] | discriminate].
    + intro id. simpl committed.
      destruct (select_latest_seeded jobs_schema "version" fj count id Hfj)
        as [_ [[i [Hi [-> E]]]|[Hno E]]]; rewrite E.
      * destruct (select_latest_seeded jobs_ts_schema "created_at" ft count (job_id i) Hft)
          as [_ [[j [Hj [Ej Et]]]|[Hno' _]]];
          [|exfalso; apply (Hno' i); [assumption | reflexivity]].
        apply job_id_inj in Ej. subst j. rewrite Et.
        destruct (select_latest_seeded jobs_flag_schema "version" ff count (job_id i) Hff)
          as [_ [[j [Hj' [Ej Ef]]]|[Hno' _]]];
          [|exfalso; apply (Hno' i); [assumption | reflexivity]].
        apply job_id_inj in Ej. subst j. rewrite Ef.
        split; reflexivity.
      * destruct (select_latest_seeded jobs_ts_schema "created_at" ft count id Hft)
          as [_ [[j [Hj [Ej Et]]]|[_ Et]]];
          [exfalso; apply (Hno j); [assumption | congruence]|].
        rewrite Et.
        destruct (select_latest_seeded jobs_flag_schema "version" ff count id Hff)
          as [_ [[j [Hj [Ej Ef]]]|[_ Ef]]];
          [exfalso; apply (Hno j); [assumption | congruence]|].
        rewrite Ef. split; reflexivity.
  - intros id [r [Hr Hid]]. rewrite Hcur.
    destruct (job_index_dec count id) as [[i [Hi <-]]|Hno].
    + rewrite (where_id_seeded_known _ ff Hff count i Hi). reflexivity.
    + exfalso.
      assert (Hin : In r (where_id (columns jobs_flag_schema) id (map ff (seq 0 count))))
        by (apply where_id_In; split; assumption).
      rewrite (where_id_seeded_unknown _ ff Hff count id Hno) in Hin. destruct Hin.
  - intro r.
    change (bulk_result _) with (latest_join "version" jobs_schema (map fj (seq 0 count))).
    apply (seeded_latest_rows VInt); try reflexivity; try assumption.
    + exact VInt_inj.
    + discriminate.
    + intro i. exists 1. reflexivity.
  - intro r.
    change (bulk_result _)
      with (latest_join "created_at" jobs_ts_schema (map ft (seq 0 count))).
    apply (seeded_latest_rows VTime); try reflexivity; try assumption.
    + exact VTime_inj.
    + discriminate.
    + intro i. exists (now i). reflexivity.
  - intro r.
    change (bulk_result _)
      with (FlagVersioningHelper.select_current jobs_flag_schema (map ff (seq 0 count))).
    unfold FlagVersioningHelper.select_current. rewrite filter_In.
    split; [tauto|]. intro H. split; [assumption|].
    apply in_map_iff in H. destruct H as [i [<- _]]. reflexivity.
Qed.

Lemma seed_data_leaves_corresponding_tables_witness :
  exists tables,
    seed_data 2 uuid_of_nat (fun i => 1000 + Z.of_nat i) (mk_tables [] [] [])
    = (Returned tt, tables)
    /\ one_current_per_id (columns jobs_flag_schema) (t_jobs_flag tables)
    /\ corresponding (connect jobs_schema (t_jobs tables))
                     (connect jobs_ts_schema (t_jobs_ts tables))
                     (connect jobs_flag_schema (t_jobs_flag tables)).
Proof.
  eexists. split; [reflexivity|].
  destruct (seed_data_leaves_corresponding_tables 2 uuid_of_nat
              (fun i => 1000 + Z.of_nat i) (mk_tables [] [] []) _ "jobs" eq_refl)
    as [H1 [H2 _]].
  split; assumption.
Defined.

(** ** [generate_scd_helper.generate] *)

Lemma path_eqb_eq (p q : Generator.path) : Generator.path_eqb p q = true <-> p = q.
Proof.
  unfold Generator.path_eqb. destruct (list_eq_dec string_dec p q); split; congruence.
Qed.

Lemma path_eqb_refl (p : Generator.path) : Generator.path_eqb p p = true.
Proof. apply path_eqb_eq. reflexivity. Qed.

Lemma lookup_removed (p q : Generator.path) (fs : list (Generator.path * string)) :
  q <> p ->
  Generator.lookup q (filter (fun f => negb (Generator.path_eqb (fst f) p)) fs)
  = Generator.lookup q fs.
Proof.
  intro Hne. induction fs as [|[r content] fs IH]; [reflexivity|]. simpl.
  destruct (Generator.path_eqb r p) eqn:E; simpl.
  - apply path_eqb_eq in E. subst r.
    destruct (Generator.path_eqb p q) eqn:E'; [|assumption].
    apply path_eqb_eq in E'. congruence.
  - rewrite IH. reflexivity.
Qed.

Lemma output_file_of_cases (target : string) (out : Generator.path) :
  Generator.output_file_of target = Some out ->
  (target = "django" /\ out = ["python"; "django_example"; "scd"; "scd_helpers.py"])
  \/ (target = "gorm" /\ out = ["Go"; "scd"; "scd_helpers.go"]).
Proof.
  unfold Generator.output_file_of.
  destruct (String.eqb target "django") eqn:E1.
  - apply String.eqb_eq in E1. intro H. inversion H. left. auto.
  - destruct (String.eqb target "gorm") eqn:E2; [|discriminate].
    apply String.eqb_eq in E2. intro H. inversion H. right. auto.
Qed.

Lemma is_dir_after_makedirs (w : Generator.world) (name : string) (d : Generator.path) :
  Generator.is_dir d (Generator.mk_world (Generator.dirs w ++ [[name]])
                                         (Generator.files w) (Generator.stdout w))
  = Generator.is_dir d w || Generator.path_eqb d [name].
Proof.
  unfold Generator.is_dir. destruct d as [|x d]; [reflexivity|]. simpl.
  rewrite existsb_app. simpl. rewrite orb_false_r. reflexivity.
Qed.

(** The world after [os.makedirs('scd', exist_ok=True)], when no file is
    in the way. *)
Lemma makedirs_scd (w : Generator.world) :
  Generator.is_file ["scd"] w = false ->
  exists w1,
    Generator.makedirs "scd" w = (inl tt, w1)
    /\ Generator.files w1 = Generator.files w
    /\ Generator.stdout w1 = Generator.stdout w
    /\ (forall d, Generator.is_dir d w1
                  = Generator.is_dir d w || Generator.path_eqb d ["scd"]).
Proof.
  intro Hf. unfold Generator.makedirs. rewrite Hf.
  destruct (Generator.is_dir ["scd"] w) eqn:Hd.
  - exists w. repeat split; try reflexivity. intro d.
    destruct (Generator.path_eqb d ["scd"]) eqn:E; [|rewrite orb_false_r; reflexivity].
    apply path_eqb_eq in E. subst d. rewrite Hd. reflexivity.
  - eexists. split; [reflexivity|]. repeat split; try reflexivity.
    intro d. apply is_dir_after_makedirs.
Qed.

(** X19. [generate(target)] for a target it supports, in a working
    directory that holds the template and the directory of the output file:
    the function returns; the output file - [python/django_example/scd/
    scd_helpers.py] for [django], [Go/scd/scd_helpers.go] for [gorm] - then
    holds the rendered template, every other file is what it was, the
    directory [scd] exists, and one line was printed. *)
Theorem generate_writes_the_rendered_template
  (render : string -> string -> Generator.result string)
  (target source text : string) (out : Generator.path) (w : Generator.world) :
  Generator.output_file_of target = Some out ->
  Generator.lookup ["scd_helper_template.jinja"] (Generator.files w) = Some source ->
  render source target = inl text ->
  Generator.is_file ["scd"] w = false ->
  Generator.is_dir out w = false ->
  Generator.is_dir (Generator.dirname out) w = true ->
  exists w',
    Generator.generate render target w = (inl tt, w')
    /\ Generator.lookup out (Generator.files w') = Some text
    /\ (forall q, q <> out ->
                  Generator.lookup q (Generator.files w')
                  = Generator.lookup q (Generator.files w))
    /\ (forall d, Generator.is_dir d w' = Generator.is_dir d w || Generator.path_eqb d ["scd"])
    /\ Generator.stdout w'
       = Generator.stdout w
         ++ [("Generated " ++ Generator.show_path out ++ " for " ++ target)%string].
Proof.
  intros Hout Htpl Hrender Hscd Hnotdir Hparent.
  destruct (makedirs_scd w Hscd) as [w1 [Hmk [Hfiles [Hstdout Hdirs]]]].
  assert (Hne : Generator.path_eqb out ["scd"] = false).
  { destruct (output_file_of_cases target out Hout) as [[_ ->]|[_ ->]]; reflexivity. }
  assert (Hne' : Generator.path_eqb (Generator.dirname out) ["scd"] = false).
  { destruct (output_file_of_cases target out Hout) as [[_ ->]|[_ ->]]; reflexivity. }
  assert (Hchoice :
            (if String.eqb target "django"
             then Generator.gret ["python"; "django_example"; "scd"; "scd_helpers.py"]
             else if String.eqb target "gorm"
                  then Generator.gret ["Go"; "scd"; "scd_helpers.go"]
                  else Generator.gbind
                         (Generator.print "Unknown target. Supported: django, gorm")
                         (fun _ => Generator.sys_exit 1))
            = Generator.gret out).
  { destruct (output_file_of_cases target out Hout) as [[-> ->]|[-> ->]]; reflexivity. }
  unfold Generator.generate. rewrite Hchoice.
  unfold Generator.gbind at 1. unfold Generator.get_template. rewrite Htpl.
  unfold Generator.gbind at 1. rewrite Hrender.
  unfold Generator.gbind at 1. rewrite Hmk.
  unfold Generator.gbind at 1. unfold Generator.gret.
  unfold Generator.gbind, Generator.write_file.
  rewrite !Hdirs, Hnotdir, Hparent, Hne. simpl.
  eexists. split; [reflexivity|]. simpl.
  rewrite path_eqb_refl, Hfiles, Hstdout.
  split; [reflexivity|]. split; [|split; [|reflexivity]].
  - intros q Hq. destruct (Generator.path_eqb out q) eqn:E.
    + apply path_eqb_eq in E. congruence.
    + apply lookup_removed. assumption.
  - intro d. unfold Generator.is_dir. simpl. apply Hdirs.
Qed.

Lemma generate_writes_the_rendered_template_witness :
  exists w',
    Generator.generate render_example "django" repo_world = (inl tt, w')
    /\ Generator.lookup ["python"; "django_example"; "scd"; "scd_helpers.py"]
                        (Generator.files w')
       = Some "django helpers".
Proof.
  destruct (generate_writes_the_rendered_template render_example "django"
              "{{ target }} helpers" "django helpers"
              ["python"; "django_example"; "scd"; "scd_helpers.py"] repo_world
              eq_refl eq_refl eq_refl eq_refl eq_refl eq_refl)
    as [w' [Hrun [Hfile _]]].
  exists w'. split; assumption.
Defined.

(** X20. The ways [generate(target)] and the script fail.  The target is
    checked last: without the template the call raises [TemplateNotFound]
    whatever the target; with an unknown target it has rendered the template
    and created the directory [scd] before it prints the message and exits
    with status 1.  [os.makedirs('scd')] is not the directory the output
    goes to: for a supported target whose output directory is missing, the
    call raises [FileNotFoundError].  In none of these cases is a file
    written or changed.  The script exits with status 1 and touches nothing
    unless it is given exactly one argument. *)
Theorem generate_failures_write_no_file
  (render : string -> string -> Generator.result string)
  (target source text : string) (w : Generator.world) :
  (Generator.lookup ["scd_helper_template.jinja"] (Generator.files w) = None ->
   Generator.generate render target w
   = (inr (Generator.TemplateNotFound "scd_helper_template.jinja"), w))
  /\ (Generator.lookup ["scd_helper_template.jinja"] (Generator.files w) = Some source ->
      render source target = inl text ->
      Generator.is_file ["scd"] w = false ->
      (Generator.output_file_of target = None ->
       exists w',
         Generator.generate render target w = (inr (Generator.SystemExit 1), w')
         /\ Generator.files w' = Generator.files w
         /\ Generator.is_dir ["scd"] w' = true
         /\ Generator.stdout w'
            = Generator.stdout w ++ ["Unknown target. Supported: django, gorm"])
      /\ (forall out,
             Generator.output_file_of target = Some out ->
             Generator.is_dir out w = false ->
             Generator.is_dir (Generator.dirname out) w = false ->
             exists w',
               Generator.generate render target w
               = (inr (Generator.FileNotFoundError out), w')
               /\ Generator.files w' = Generator.files w
               /\ Generator.is_dir ["scd"] w' = true
               /\ Generator.stdout w' = Generator.stdout w))
  /\ (forall argv,
         List.length argv <> 2%nat ->
         Generator.main render argv w
         = (inr (Generator.SystemExit 1),
            Generator.mk_world (Generator.dirs w) (Generator.files w)
              (Generator.stdout w ++ ["Usage: python generate_scd_helper.py <target>";
                                      "Targets: django, gorm"])))
  /\ (forall script, Generator.main render [script; target] w
                     = Generator.generate render target w).
Proof.
  split; [|split; [|split]].
  - intro Htpl. unfold Generator.generate, Generator.gbind, Generator.get_template.
    rewrite Htpl. reflexivity.
  - intros Htpl Hrender Hscd.
    destruct (makedirs_scd w Hscd) as [w1 [Hmk [Hfiles [Hstdout Hdirs]]]].
    split.
    + intro Hout. unfold Generator.output_file_of in Hout.
      destruct (String.eqb target "django") eqn:E1; [discriminate|].
      destruct (String.eqb target "gorm") eqn:E2; [discriminate|].
      unfold Generator.generate. rewrite E1, E2.
      unfold Generator.gbind at 1. unfold Generator.get_template. rewrite Htpl.
      unfold Generator.gbind at 1. rewrite Hrender.
      unfold Generator.gbind at 1. rewrite Hmk.
      unfold Generator.gbind, Generator.print, Generator.sys_exit, Generator.graise.
      eexists. split; [reflexivity|]. simpl.
      split; [assumption|]. split; [|rewrite Hstdout; reflexivity].
      change (Generator.is_dir ["scd"] w1 = true).
      rewrite Hdirs, path_eqb_refl, orb_true_r. reflexivity.
    + intros out Hout Hnotdir Hparent.
      assert (Hne : Generator.path_eqb out ["scd"] = false).
      { destruct (output_file_of_cases target out Hout) as [[_ ->]|[_ ->]]; reflexivity. }
      assert (Hne' : Generator.path_eqb (Generator.dirname out) ["scd"] = false).
      { destruct (output_file_of_cases target out Hout) as [[_ ->]|[_ ->]]; reflexivity. }
      assert (Hchoice :
                (if String.eqb target "django"
                 then Generator.gret ["python"; "django_example"; "scd"; "scd_helpers.py"]
                 else if String.eqb target "gorm"
                      then Generator.gret ["Go"; "scd"; "scd_helpers.go"]
                      else Generator.gbind
                             (Generator.print "Unknown target. Supported: django, gorm")
                             (fun _ => Generator.sys_exit 1))
                = Generator.gret out).
      { destruct (output_file_of_cases target out Hout) as [[-> ->]|[-> ->]]; reflexivity. }
      unfold Generator.generate. rewrite Hchoice.
      unfold Generator.gbind at 1. unfold Generator.get_template. rewrite Htpl.
      unfold Generator.gbind at 1. rewrite Hrender.
      unfold Generator.gbind at 1. rewrite Hmk.
      unfold Generator.gbind at 1. unfold Generator.gret.
      unfold Generator.gbind, Generator.write_file.
      rewrite !Hdirs, Hnotdir, Hparent, Hne, Hne'. simpl.
      eexists. split; [reflexivity|].
      split; [assumption|]. split; [|assumption].
      change (Generator.is_dir ["scd"] w1 = true).
      rewrite Hdirs, path_eqb_refl, orb_true_r. reflexivity.
  - intros argv Hlen. unfold Generator.main.
    apply Nat.eqb_neq in Hlen. rewrite Hlen.
    unfold Generator.gbind, Generator.print, Generator.sys_exit, Generator.graise. simpl.
    rewrite <- app_assoc. reflexivity.
  - intro script. reflexivity.
Qed.

Lemma generate_failures_write_no_file_witness :
  Generator.generate render_example "rails" repo_world
  = (inr (Generator.SystemExit 1),
     Generator.mk_world
       [["python"]; ["python"; "django_example"]; ["python"; "django_example"; "scd"];
        ["scd"]]
       [(["scd_helper_template.jinja"], "{{ target }} helpers")]
       ["Unknown target. Supported: django, gorm"])
  /\ exists w',
      Generator.generate render_example "gorm" repo_world
      = (inr (Generator.FileNotFoundError ["Go"; "scd"; "scd_helpers.go"]), w')
      /\ Generator.files w' = Generator.files repo_world.
Proof.
  split; [reflexivity|].
  destruct (generate_failures_write_no_file render_example "gorm" "{{ target }} helpers"
              "gorm helpers" repo_world) as [_ [H _]].
  destruct (H eq_refl eq_refl eq_refl) as [_ Hmissing].
  destruct (Hmissing ["Go"; "scd"; "scd_helpers.go"] eq_refl eq_refl eq_refl)
    as [w' [Hrun [Hfiles _]]].
  exists w'. split; assumption.
Defined.

(** ** Sequences of calls on [jobs] through both helpers *)

Lemma where_id_single (cols : list string) (id : string) (r : row) :
  field cols r "id" = VStr id -> where_id cols id [r] = [r].
Proof.
  intro H. unfold where_id. simpl. rewrite H. simpl. rewrite String.eqb_refl. reflexivity.
Qed.

Lemma where_id_single_other (cols : list string) (id id' : string) (r : row) :
  field cols r "id" = VStr id -> id' <> id -> where_id cols id' [r] = [].
Proof.
  intros H Hne. unfold where_id. simpl. rewrite H. simpl.
  apply String.eqb_neq in Hne. rewrite String.eqb_sym, Hne. reflexivity.
Qed.

(** The table after a row with the next version of [id] was appended. *)
Lemma append_next_version (rows : list row) (new_row : row) (id : string) (v : Z) :
  forallb (counter_row jobs_schema) rows = true ->
  unique_discriminator (columns jobs_schema) "version" rows ->
  counts_from_one (columns jobs_schema) rows ->
  List.length new_row = 8%nat ->
  field (columns jobs_schema) new_row "id" = VStr id ->
  field (columns jobs_schema) new_row "version" = VInt (v + 1) ->
  (exists latest, In latest rows
                  /\ field (columns jobs_schema) latest "id" = VStr id
                  /\ field (columns jobs_schema) latest "version" = VInt v) ->
  (forall r m, In r rows -> field (columns jobs_schema) r "id" = VStr id ->
               field (columns jobs_schema) r "version" = VInt m -> m <= v) ->
  forallb (counter_row jobs_schema) (rows ++ [new_row]) = true
  /\ unique_discriminator (columns jobs_schema) "version" (rows ++ [new_row])
  /\ counts_from_one (columns jobs_schema) (rows ++ [new_row]).
Proof.
  intros Hwf Huniq Hcount Hlen Hid Hver [latest [Hin [Hlid Hlver]]] Hmax.
  split; [|split].
  - rewrite forallb_app. apply andb_true_iff. split; [assumption|].
    simpl. unfold counter_row. rewrite Hlen, Hid, Hver. reflexivity.
  - apply (snoc_unique VInt "version" jobs_schema rows new_row id (v + 1));
      try assumption.
    intros r m Hr Hrid Hrv. specialize (Hmax r m Hr Hrid Hrv). lia.
  - intro id'. rewrite discriminators_app, where_id_app, length_app.
    destruct (string_dec id' id) as [->|Hne].
    + unfold discriminators at 2. rewrite (where_id_single _ _ _ Hid). cbn [map].
      rewrite Hver. cbn [List.length]. rewrite Nat.add_1_r, seq_S, map_app.
      rewrite <- Hcount. f_equal. cbn [map]. f_equal. f_equal.
      (* the largest version is the number of rows of the entity *)
      pose proof (Hcount id) as Hc.
      assert (Hl : In (VInt v) (discriminators (columns jobs_schema) "version" id rows)).
      { unfold discriminators. apply in_map_iff. exists latest. split; [assumption|].
        apply where_id_In. auto. }
      rewrite Hc in Hl. apply in_map_iff in Hl. destruct Hl as [n [En Hn]].
      apply in_seq in Hn. inversion En as [En'].
      set (len := List.length (where_id (columns jobs_schema) id rows)) in *.
      assert (Hlast : In (VInt (Z.of_nat len))
                         (discriminators (columns jobs_schema) "version" id rows)).
      { rewrite Hc. apply in_map_iff. exists len. split; [reflexivity|].
        apply in_seq. lia. }
      apply discriminators_In in Hlast. destruct Hlast as [r [Hr [Hrid Hrv]]].
      specialize (Hmax r (Z.of_nat len) Hr Hrid Hrv). lia.
    + unfold discriminators at 2. rewrite (where_id_single_other _ id id' _ Hid Hne).
      cbn [map List.length]. rewrite app_nil_r, Nat.add_0_r. apply Hcount.
Qed.

Lemma scd_step_counts (c c' : conn) (table : string) (k : call) (b : option row) :
  jobs_table_ok c ->
  unique_discriminator (columns jobs_schema) "version" (committed c) ->
  counts_from_one (columns jobs_schema) (committed c) ->
  keeps_identity (call_updates k) ->
  SCDHelper.create_new_version table (call_id k) (call_updates k) (call_uid k) c
  = (Returned b, c') ->
  jobs_table_ok c'
  /\ unique_discriminator (columns jobs_schema) "version" (committed c')
  /\ counts_from_one (columns jobs_schema) (committed c')
  /\ exists new_row, committed c' = committed c ++ [new_row].
Proof.
  intros [Hcat [Hidle Hwf]] Huniq Hcount [Hkid Hkv] Hrun.
  assert (Hready : txn c <> Failed) by (rewrite Hidle; discriminate).
  destruct (exists_or_absent (columns jobs_schema) (call_id k) (committed c)) as [Hex|Habs].
  2:{ rewrite scd_create_absent in Hrun; [discriminate | assumption |].
      rewrite Hcat, (visible_idle c Hidle). assumption. }
  destruct (create_new_version_run c table (call_id k) (call_updates k) (call_uid k) Hready)
    as [latest [v [new_row H]]].
  { rewrite Hcat. exact counter_schema_jobs. }
  { rewrite Hcat, (visible_idle c Hidle). assumption. }
  { rewrite Hcat, (visible_idle c Hidle). assumption. }
  rewrite Hcat, (visible_idle c Hidle) in H.
  destruct H as [Hsel [Hin [Hid [Hver [Hmax [Hlen [Hf Hgen]]]]]]].
  rewrite Hgen in Hrun. clear Hgen.
  destruct (insert_ok jobs_schema (committed c) new_row); [|discriminate].
  inversion Hrun. subst b c'. clear Hrun. simpl committed.
  assert (Fid : field (columns jobs_schema) new_row "id" = VStr (call_id k)).
  { rewrite Hf by (simpl; auto). unfold next_value. simpl String.eqb.
    apply dict_last_None in Hkid. rewrite Hkid. assumption. }
  assert (Fv : field (columns jobs_schema) new_row "version" = VInt (v + 1)).
  { rewrite Hf by (simpl; auto). unfold next_value. simpl String.eqb.
    apply dict_last_None in Hkv. rewrite Hkv, Hver. reflexivity. }
  destruct (append_next_version (committed c) new_row (call_id k) v)
    as [H1 [H2 H3]]; try assumption.
  { exists latest. auto. }
  split; [|split; [|split]]; try assumption.
  - split; [reflexivity|]. split; [reflexivity|]. assumption.
  - exists new_row. reflexivity.
Qed.

Lemma direct_step_counts (c c' : conn) (table : string) (k : call) (b : option row) :
  jobs_table_ok c ->
  unique_discriminator (columns jobs_schema) "version" (committed c) ->
  counts_from_one (columns jobs_schema) (committed c) ->
  DirectSQLHelper.create_new_version table (call_id k) (call_updates k) (call_uid k) c
  = (Returned b, c') ->
  jobs_table_ok c'
  /\ unique_discriminator (columns jobs_schema) "version" (committed c')
  /\ counts_from_one (columns jobs_schema) (committed c')
  /\ (committed c' = committed c \/ exists new_row, committed c' = committed c ++ [new_row]).
Proof.
  intros [Hcat [Hidle Hwf]] Huniq Hcount Hrun.
  assert (Hready : txn c <> Failed) by (rewrite Hidle; discriminate).
  pose proof (visible_idle c Hidle) as Hvis.
  destruct (exists_or_absent (columns jobs_schema) (call_id k) (committed c)) as [Hex|Habs].
  - destruct (direct_create_run c table (call_id k) (call_updates k) (call_uid k))
      as [latest [v [Hsel [Hin [Hid [Hver [Hmax Hgen]]]]]]].
    { split; [assumption|]. split; [assumption|]. rewrite Hvis. auto. }
    { rewrite Hvis. assumption. }
    rewrite Hvis in *. rewrite Hgen in Hrun. clear Hgen.
    destruct (insert_ok jobs_schema (committed c) _); [|discriminate].
    inversion Hrun. subst b c'. clear Hrun. simpl committed.
    destruct (jobs_row_shape latest) as [i [v' [u [st [ra [ti [co [ct Eo]]]]]]]].
    { rewrite forallb_forall in Hwf. apply Hwf. assumption. }
    assert (Ei : i = call_id k).
    { rewrite Eo in Hid. change (VStr i = VStr (call_id k)) in Hid.
      apply VStr_inj. assumption. }
    assert (Fid : field (columns jobs_schema)
                    (direct_next_row v (call_uid k) (call_updates k) latest) "id"
                  = VStr (call_id k)) by (rewrite Eo, Ei; reflexivity).
    destruct (append_next_version (committed c)
                (direct_next_row v (call_uid k) (call_updates k) latest) (call_id k) v
                Hwf Huniq Hcount eq_refl Fid eq_refl
                (ex_intro _ latest (conj Hin (conj Hid Hver))) Hmax)
      as [H1 [H2 H3]].
    split; [|split; [|split]]; try assumption.
    + split; [reflexivity|]. split; [reflexivity|]. assumption.
    + right. eexists. reflexivity.
  - rewrite direct_create_absent in Hrun; try assumption.
    + inversion Hrun. subst b c'. simpl committed. rewrite Hvis.
      split; [|split; [|split]]; try assumption.
      * split; [assumption|]. split; [reflexivity|]. assumption.
      * left. reflexivity.
    + rewrite Hcat. reflexivity.
    + rewrite Hcat, Hvis. assumption.
Qed.

(** X21. Any sequence of calls of [SCDHelper.create_new_version] and
    [DirectSQLHelper.create_new_version] on the same table [jobs], each of
    which returns: when the versions of every entity count up from 1 in a
    well-formed table with one row per [(id, version)], they still do
    afterwards - no version is skipped or used twice - and the rows that
    were stored are still there, in place, followed by at most one new row
    per call.  The partial updates given to [SCDHelper] must not name [id]
    or [version]; those given to [DirectSQLHelper] are free. *)
Theorem versions_count_up_under_both_helpers
  (table : string) (calls : list jobs_call) (c c' : conn) :
  jobs_table_ok c ->
  unique_discriminator (columns jobs_schema) "version" (committed c) ->
  counts_from_one (columns jobs_schema) (committed c) ->
  scd_calls_keep_identity calls ->
  for_each (run_jobs_call table) calls c = (Returned tt, c') ->
  jobs_table_ok c'
  /\ unique_discriminator (columns jobs_schema) "version" (committed c')
  /\ counts_from_one (columns jobs_schema) (committed c')
  /\ exists extra,
      committed c' = committed c ++ extra
      /\ (List.length extra <= List.length calls)%nat.
Proof.
  intros Hok Huniq Hcount Hkeep Hrun.
  set (Inv := fun (rest : list jobs_call) (x : conn) =>
                jobs_table_ok x
                /\ unique_discriminator (columns jobs_schema) "version" (committed x)
                /\ counts_from_one (columns jobs_schema) (committed x)
                /\ scd_calls_keep_identity rest
                /\ exists extra,
                    committed x = committed c ++ extra
                    /\ (List.length extra + List.length rest <= List.length calls)%nat).
  assert (H : Inv [] c').
  { apply (for_each_invariant (run_jobs_call table) Inv) with (calls := calls) (c := c);
      [| |exact Hrun].
    - intros a rest x b x' [H1 [H2 [H3 [H4 [extra [H5 H6]]]]]] Hstep.
      assert (H4' : scd_calls_keep_identity rest).
      { intros k Hk. apply H4. right. assumption. }
      destruct a as [k|k]; simpl in Hstep.
      + destruct (scd_step_counts x x' table k b H1 H2 H3
                    (H4 k (or_introl eq_refl)) Hstep) as [G1 [G2 [G3 [new_row G4]]]].
        split; [assumption|]. split; [assumption|]. split; [assumption|].
        split; [assumption|].
        exists (extra ++ [new_row]). rewrite G4, H5, <- app_assoc.
        split; [reflexivity|]. rewrite length_app. simpl in *. lia.
      + destruct (direct_step_counts x x' table k b H1 H2 H3 Hstep)
          as [G1 [G2 [G3 [G4|[new_row G4]]]]].
        * split; [assumption|]. split; [assumption|]. split; [assumption|].
          split; [assumption|].
          exists extra. rewrite G4, H5. split; [reflexivity|]. simpl in *. lia.
        * split; [assumption|]. split; [assumption|]. split; [assumption|].
          split; [assumption|].
          exists (extra ++ [new_row]). rewrite G4, H5, <- app_assoc.
          split; [reflexivity|]. rewrite length_app. simpl in *. lia.
    - split; [assumption|]. split; [assumption|]. split; [assumption|].
      split; [assumption|]. exists []. rewrite app_nil_r. split; [reflexivity|].
      simpl. lia. }
  destruct H as [H1 [H2 [H3 [_ [extra [H5 H6]]]]]].
  split; [assumption|]. split; [assumption|]. split; [assumption|].
  exists extra. split; [assumption|]. simpl in H6. lia.
Qed.

Lemma jobs_with_job1_counts :
  counts_from_one (columns jobs_schema) (committed jobs_with_job1).
Proof.
  intro id. unfold discriminators, where_id, jobs_with_job1, connect.
  cbn [committed filter].
  change (field (columns jobs_schema) job1_v1 "id") with (VStr "job1").
  cbn [sql_eq value_eqb].
  destruct (String.eqb "job1" id); reflexivity.
Qed.

Lemma versions_count_up_under_both_helpers_witness :
  fst (for_each (run_jobs_call "jobs") mixed_calls jobs_with_job1) = Returned tt
  /\ discriminators (columns jobs_schema) "version" "job1"
       (committed (snd (for_each (run_jobs_call "jobs") mixed_calls jobs_with_job1)))
     = [VInt 1; VInt 2; VInt 3; VInt 4]
  /\ counts_from_one (columns jobs_schema)
       (committed (snd (for_each (run_jobs_call "jobs") mixed_calls jobs_with_job1))).
Proof.
  split; [vm_compute; reflexivity|]. split; [vm_compute; reflexivity|].
  apply (versions_count_up_under_both_helpers "jobs" mixed_calls jobs_with_job1).
  - split; [reflexivity|]. split; reflexivity.
  - destruct jobs_with_job1_jobs_ready as [_ [_ [_ H]]]. exact H.
  - exact jobs_with_job1_counts.
  - intros k [E|[E|[E|[E|[]]]]]; inversion E; subst k; split; simpl;
      intuition discriminate.
  - vm_compute. reflexivity.
Defined.

(** ** [benchmark_scd.seed_data] and the queries of the benchmark *)

Lemma append_cancel (p a b : string) : (p ++ a = p ++ b)%string -> a = b.
Proof.
  induction p as [|ch p IH]; simpl; intro H; [assumption|].
  inversion H. apply IH. assumption.
Qed.

Lemma numbered_inj (p : string) (i j : nat) :
  BenchmarkScd.numbered p i = BenchmarkScd.numbered p j -> i = j.
Proof.
  unfold BenchmarkScd.numbered. intro H. apply append_cancel in H.
  apply Unsigned.to_uint_inj.
  assert (E : NilEmpty.uint_of_string (NilEmpty.string_of_uint (Nat.to_uint i))
              = NilEmpty.uint_of_string (NilEmpty.string_of_uint (Nat.to_uint j)))
    by (rewrite H; reflexivity).
  rewrite !NilEmpty.usu in E. congruence.
Qed.

Lemma filter_all {A : Type} (p : A -> bool) (l : list A) :
  (forall x, In x l -> p x = true) -> filter p l = l.
Proof.
  induction l as [|a l IH]; intro H; [reflexivity|]. simpl.
  rewrite (H a (or_introl eq_refl)), IH; [reflexivity|].
  intros x Hx. apply H. right. assumption.
Qed.

Lemma flat_map_singletons {A : Type} (f : A -> list A) (l : list A) :
  (forall x, In x l -> f x = [x]) -> flat_map f l = l.
Proof.
  induction l as [|a l IH]; intro H; [reflexivity|]. simpl.
  rewrite (H a (or_introl eq_refl)), IH; [reflexivity|].
  intros x Hx. apply H. right. assumption.
Qed.

Section Numbered.
Variable A : Type.
Variable pk : A -> option string.
Variable prefix : string.
Variable f : nat -> A.
Hypothesis f_pk : forall i, pk (f i) = Some (BenchmarkScd.numbered prefix i).

Lemma has_pk_numbered (l : list nat) (i : nat) :
  BenchmarkScd.has_pk pk (BenchmarkScd.numbered prefix i) (map f l) = true <-> In i l.
Proof.
  unfold BenchmarkScd.has_pk. rewrite existsb_exists. split.
  - intros [x [Hx E]]. apply in_map_iff in Hx. destruct Hx as [j [<- Hj]].
    rewrite f_pk in E. simpl in E. apply String.eqb_eq, numbered_inj in E. congruence.
  - intro Hi. exists (f i). split; [apply in_map; assumption|].
    rewrite f_pk. simpl. apply String.eqb_refl.
Qed.

Lemma pks_ok_numbered (len : nat) :
  forall start,
    BenchmarkScd.pks_ok pk (map f (seq 0 start)) (map f (seq start len)) = true.
Proof.
  induction len as [|len IH]; intro start; [reflexivity|].
  cbn [seq map BenchmarkScd.pks_ok]. rewrite f_pk.
  apply andb_true_iff. split.
  - apply negb_true_iff, not_true_is_false. intro H.
    apply has_pk_numbered, in_seq in H. lia.
  - replace (map f (seq 0 start) ++ [f start]) with (map f (seq 0 (S start)))
      by (rewrite seq_S, map_app; reflexivity).
    apply IH.
Qed.

Lemma pks_ok_numbered_empty (n : nat) :
  BenchmarkScd.pks_ok pk [] (map f (seq 0 n)) = true.
Proof. exact (pks_ok_numbered n 0). Qed.

Lemma joined_numbered (n i : nat) :
  (i < n)%nat ->
  Repos.joined pk (BenchmarkScd.numbered prefix i) (map f (seq 0 n)) = [f i].
Proof.
  intro Hi. unfold Repos.joined.
  assert (H : forall l, NoDup l ->
                        filter (fun x => Django.pk_eqb (pk x)
                                           (Some (BenchmarkScd.numbered prefix i)))
                               (map f l)
                        = if in_dec Nat.eq_dec i l then [f i] else []).
  { induction l as [|a l IH]; intro Hnd; [reflexivity|].
    inversion Hnd as [|? ? Hna Hnd']. subst. cbn [map filter]. rewrite f_pk.
    cbn [Django.pk_eqb]. rewrite (IH Hnd').
    destruct (String.eqb (BenchmarkScd.numbered prefix a) (BenchmarkScd.numbered prefix i))
      eqn:E.
    - apply String.eqb_eq, numbered_inj in E. subst a.
      destruct (in_dec Nat.eq_dec i l); [contradiction|].
      destruct (in_dec Nat.eq_dec i (i :: l)) as [_|Hn]; [reflexivity|].
      exfalso. apply Hn. left. reflexivity.
    - assert (Hne : a <> i).
      { intro Ea. subst a. rewrite String.eqb_refl in E. discriminate. }
      destruct (in_dec Nat.eq_dec i l) as [Hin|Hnin];
        destruct (in_dec Nat.eq_dec i (a :: l)) as [Hin'|Hnin']; try reflexivity.
      + exfalso. apply Hnin'. right. assumption.
      + exfalso. destruct Hin' as [Ea|Hin']; [congruence | contradiction]. }
  rewrite (H (seq 0 n) (seq_NoDup n 0)).
  destruct (in_dec Nat.eq_dec i (seq 0 n)) as [_|Hn]; [reflexivity|].
  exfalso. apply Hn. apply in_seq. lia.
Qed.

Lemma by_uid_numbered (n i : nat) :
  (i < n)%nat ->
  BenchmarkScd.by_uid pk (map f (seq 0 n)) (BenchmarkScd.numbered prefix i) = Some (f i).
Proof.
  intro Hi.
  assert (H : forall l,
             BenchmarkScd.by_uid pk (map f l) (BenchmarkScd.numbered prefix i)
             = if in_dec Nat.eq_dec i l then Some (f i) else None).
  { induction l as [|a l IH]; [reflexivity|].
    cbn [map BenchmarkScd.by_uid]. rewrite IH, f_pk. cbn [Django.pk_eqb].
    destruct (in_dec Nat.eq_dec i l) as [Hin|Hnin].
    - destruct (in_dec Nat.eq_dec i (a :: l)) as [_|Hn]; [reflexivity|].
      exfalso. apply Hn. right. assumption.
    - destruct (String.eqb (BenchmarkScd.numbered prefix a)
                           (BenchmarkScd.numbered prefix i)) eqn:E.
      + apply String.eqb_eq, numbered_inj in E. subst a.
        destruct (in_dec Nat.eq_dec i (i :: l)) as [_|Hn]; [reflexivity|].
        exfalso. apply Hn. left. reflexivity.
      + destruct (in_dec Nat.eq_dec i (a :: l)) as [[Ea|Hin]|_]; try reflexivity.
        * subst a. rewrite String.eqb_refl in E. discriminate.
        * contradiction. }
  rewrite H. destruct (in_dec Nat.eq_dec i (seq 0 n)) as [_|Hn]; [reflexivity|].
  exfalso. apply Hn. apply in_seq. lia.
Qed.

End Numbered.

Lemma collect_ok {A B : Type} (g : A -> BenchmarkScd.DB B) (h : A -> B) (xs : list A)
  (db : BenchmarkScd.database) :
  (forall x, In x xs -> g x db = (inl (h x), db)) ->
  BenchmarkScd.collect g xs db = (inl (map h xs), db).
Proof.
  induction xs as [|x xs IH]; intro H; [reflexivity|].
  cbn [BenchmarkScd.collect map]. unfold BenchmarkScd.sbind at 1.
  rewrite (H x (or_introl eq_refl)).
  unfold BenchmarkScd.sbind at 1. rewrite IH; [reflexivity|].
  intros y Hy. apply H. right. assumption.
Qed.

Lemma deletes_empty_the_tables (db : BenchmarkScd.database) :
  BenchmarkScd.sbind BenchmarkScd.delete_all_jobs
    (fun _ => BenchmarkScd.sbind BenchmarkScd.delete_all_timelogs
                (fun _ => BenchmarkScd.delete_all_payment_line_items)) db
  = (inl tt, Repos.mk_database [] [] []).
Proof. reflexivity. Qed.

Lemma seeded_jobs_of_company (n : nat) :
  jobs_of_company "comp1" (map BenchmarkScd.seeded_job (seq 0 n))
  = map BenchmarkScd.seeded_job (seq 0 n).
Proof.
  unfold jobs_of_company, Django.qs_filter, Django.objects_all.
  apply filter_all. intros x Hx. apply in_map_iff in Hx. destruct Hx as [i [<- _]].
  reflexivity.
Qed.

Lemma seeded_timelogs_of_company (n : nat) (now : Z) :
  flat_map (fun tl =>
              flat_map (fun job => if String.eqb (Django.company_id job) "comp1"
                                   then [tl] else [])
                       (Repos.joined (@Django.uid Z) (Repos.tl_job_uid tl)
                                     (map BenchmarkScd.seeded_job (seq 0 n))))
           (map (BenchmarkScd.seeded_timelog now) (seq 0 n))
  = map (BenchmarkScd.seeded_timelog now) (seq 0 n).
Proof.
  apply flat_map_singletons. intros x Hx. apply in_map_iff in Hx.
  destruct Hx as [i [<- Hi]]. apply in_seq in Hi.
  change (Repos.tl_job_uid (BenchmarkScd.seeded_timelog now i))
    with (BenchmarkScd.numbered "job-uid-" i).
  rewrite (joined_numbered _ (@Django.uid Z) "job-uid-" BenchmarkScd.seeded_job
             (fun _ => eq_refl) n i) by lia.
  reflexivity.
Qed.

Lemma seed_data_run (n : nat) (now : Z) (db : BenchmarkScd.database) :
  BenchmarkScd.seed_data n now db = (inl tt, BenchmarkScd.seeded n now).
Proof.
  unfold BenchmarkScd.seed_data.
  unfold BenchmarkScd.sbind at 1. unfold BenchmarkScd.delete_all_jobs at 1.
  unfold BenchmarkScd.sbind at 1. unfold BenchmarkScd.delete_all_timelogs at 1.
  unfold BenchmarkScd.sbind at 1. unfold BenchmarkScd.delete_all_payment_line_items at 1.
  cbn [Repos.jobs Repos.timelogs Repos.payment_line_items].
  fold BenchmarkScd.seeded_job.
  change (map (fun i => BenchmarkScd.seeded_job i) (seq 0 n))
    with (map BenchmarkScd.seeded_job (seq 0 n)).
  (* the jobs *)
  unfold BenchmarkScd.sbind at 1. unfold BenchmarkScd.bulk_create_jobs at 1.
  cbn [Repos.jobs Repos.timelogs Repos.payment_line_items].
  rewrite (pks_ok_numbered_empty _ (@Django.uid Z) "job-uid-" BenchmarkScd.seeded_job
             (fun _ => eq_refl) n).
  cbn [app].
  unfold BenchmarkScd.sbind at 1.
  cbn [Repos.jobs Repos.timelogs Repos.payment_line_items].
  rewrite seeded_jobs_of_company.
  (* the timelogs *)
  unfold BenchmarkScd.sbind at 1.
  rewrite (collect_ok _ (BenchmarkScd.seeded_timelog now)).
  2:{ intros i Hi. apply in_seq in Hi.
      unfold BenchmarkScd.sbind, BenchmarkScd.subscript.
      rewrite (by_uid_numbered _ (@Django.uid Z) "job-uid-" BenchmarkScd.seeded_job
                 (fun _ => eq_refl) n i) by lia.
      reflexivity. }
  unfold BenchmarkScd.sbind at 1. unfold BenchmarkScd.bulk_create_timelogs at 1.
  cbn [Repos.jobs Repos.timelogs Repos.payment_line_items].
  rewrite (pks_ok_numbered_empty _ Repos.tl_uid "tl-uid-" (BenchmarkScd.seeded_timelog now)
             (fun _ => eq_refl) n).
  assert (Hfk : forallb (fun tl => BenchmarkScd.has_pk (@Django.uid Z) (Repos.tl_job_uid tl)
                                     (map BenchmarkScd.seeded_job (seq 0 n)))
                        (map (BenchmarkScd.seeded_timelog now) (seq 0 n)) = true).
  { apply forallb_forall. intros x Hx. apply in_map_iff in Hx.
    destruct Hx as [i [<- Hi]].
    apply (has_pk_numbered _ (@Django.uid Z) "job-uid-" BenchmarkScd.seeded_job
             (fun _ => eq_refl)). assumption. }
  rewrite Hfk. cbn [andb app].
  unfold BenchmarkScd.sbind at 1.
  cbn [Repos.jobs Repos.timelogs Repos.payment_line_items].
  rewrite seeded_timelogs_of_company.
  (* the payment line items *)
  unfold BenchmarkScd.sbind at 1.
  rewrite (collect_ok _ BenchmarkScd.seeded_payment_line_item).
  2:{ intros i Hi. apply in_seq in Hi.
      unfold BenchmarkScd.sbind, BenchmarkScd.subscript.
      rewrite (by_uid_numbered _ (@Django.uid Z) "job-uid-" BenchmarkScd.seeded_job
                 (fun _ => eq_refl) n i) by lia.
      cbn [BenchmarkScd.sret BenchmarkScd.fk_to Django.uid BenchmarkScd.seeded_job].
      rewrite (by_uid_numbered _ Repos.tl_uid "tl-uid-" (BenchmarkScd.seeded_timelog now)
                 (fun _ => eq_refl) n i) by lia.
      reflexivity. }
  unfold BenchmarkScd.bulk_create_payment_line_items.
  cbn [Repos.jobs Repos.timelogs Repos.payment_line_items].
  rewrite (pks_ok_numbered_empty _ Repos.pli_uid "pli-uid-"
             BenchmarkScd.seeded_payment_line_item (fun _ => eq_refl) n).
  assert (Hfk2 : forallb
                   (fun pli =>
                      BenchmarkScd.has_pk (@Django.uid Z) (Repos.pli_job_uid pli)
                        (map BenchmarkScd.seeded_job (seq 0 n))
                      && BenchmarkScd.has_pk Repos.tl_uid (Repos.pli_timelog_uid pli)
                           (map (BenchmarkScd.seeded_timelog now) (seq 0 n)))
                   (map BenchmarkScd.seeded_payment_line_item (seq 0 n)) = true).
  { apply forallb_forall. intros x Hx. apply in_map_iff in Hx.
    destruct Hx as [i [<- Hi]]. apply andb_true_iff. split.
    - apply (has_pk_numbered _ (@Django.uid Z) "job-uid-" BenchmarkScd.seeded_job
               (fun _ => eq_refl)). assumption.
    - apply (has_pk_numbered _ Repos.tl_uid "tl-uid-" (BenchmarkScd.seeded_timelog now)
               (fun _ => eq_refl)). assumption. }
  rewrite Hfk2. reflexivity.
Qed.

Lemma seeded_jobs_latest (n : nat) (t0 : Django.table Z) :
  Django.latest_scd_queryset t0 None (map BenchmarkScd.seeded_job (seq 0 n))
  = map BenchmarkScd.seeded_job (seq 0 n).
Proof.
  unfold Django.latest_scd_queryset, Django.objects_all.
  apply filter_all. intros r Hr.
  assert (Hv : forall x, In x (map BenchmarkScd.seeded_job (seq 0 n)) ->
                         Django.version x = 1).
  { intros x Hx. apply in_map_iff in Hx. destruct Hx as [i [<- _]]. reflexivity. }
  destruct (subq_spec Z _ r Hr) as [m [Hm [[r' [Hr' [_ Hv']]] _]]].
  rewrite Hm, <- Hv', (Hv r Hr), (Hv r' Hr'). reflexivity.
Qed.

Lemma seeded_rows_latest {model : Type} (id_of : model -> string)
  (version_of : model -> Z) (t : list model) :
  (forall x, In x t -> version_of x = 1) ->
  Repos.latest_scd_queryset id_of version_of t = t.
Proof.
  intro Hv. unfold Repos.latest_scd_queryset. apply filter_all. intros r Hr.
  destruct (repos_subq_spec model id_of version_of t r Hr)
    as [m [Hm [[r' [Hr' [_ Hv']]] _]]].
  rewrite Hm, <- Hv', (Hv r Hr), (Hv r' Hr'). reflexivity.
Qed.

(** X22. [seed_data(n)] of [benchmark_scd.py] and the four queries the
    benchmark times: the function returns whatever the tables held, and
    leaves [n] jobs, [n] timelogs and [n] payment line items.  Every stored
    row is then a result: [find_active_jobs_by_company("comp1")] and
    [find_active_jobs_by_contractor("cont1")] return all the jobs, and, for
    a period that covers the two hours before the clock reading of the
    seeding, [find_timelogs_by_contractor_and_period] and
    [find_line_items_by_contractor_and_period] return all the timelogs and
    all the line items. *)
Theorem benchmark_seeds_rows_that_every_query_returns
  (n : nat) (now from_dt to_dt : Z) (db : BenchmarkScd.database) :
  from_dt <= now - BenchmarkScd.hours 2 ->
  now - BenchmarkScd.hours 1 <= to_dt ->
  exists seeded,
    BenchmarkScd.seed_data n now db = (inl tt, seeded)
    /\ List.length (Repos.jobs seeded) = n
    /\ List.length (Repos.timelogs seeded) = n
    /\ List.length (Repos.payment_line_items seeded) = n
    /\ Django.find_active_jobs_by_company (Repos.jobs seeded) "comp1" (Repos.jobs seeded)
       = Repos.jobs seeded
    /\ find_active_jobs_by_contractor (Repos.jobs seeded) "cont1" (Repos.jobs seeded)
       = Repos.jobs seeded
    /\ Repos.find_timelogs_by_contractor_and_period "cont1" from_dt to_dt seeded
       = Repos.timelogs seeded
    /\ Repos.find_line_items_by_contractor_and_period "cont1" from_dt to_dt seeded
       = Repos.payment_line_items seeded.
Proof.
  intros Hfrom Hto.
  exists (BenchmarkScd.seeded n now). split; [apply seed_data_run|].
  unfold BenchmarkScd.seeded.
  cbn [Repos.jobs Repos.timelogs Repos.payment_line_items].
  rewrite !length_map, !length_seq.
  split; [reflexivity|]. split; [reflexivity|]. split; [reflexivity|].
  apply Z.leb_le in Hfrom, Hto.
  split; [|split; [|split]].
  - unfold Django.find_active_jobs_by_company, Django.qs_filter.
    rewrite seeded_jobs_latest. apply filter_all.
    intros x Hx. apply in_map_iff in Hx. destruct Hx as [i [<- _]]. reflexivity.
  - unfold find_active_jobs_by_contractor, Django.qs_filter.
    rewrite seeded_jobs_latest. apply filter_all.
    intros x Hx. apply in_map_iff in Hx. destruct Hx as [i [<- _]]. reflexivity.
  - unfold Repos.find_timelogs_by_contractor_and_period.
    cbn [Repos.jobs Repos.timelogs Repos.payment_line_items].
    rewrite seeded_rows_latest.
    2:{ intros x Hx. apply in_map_iff in Hx. destruct Hx as [i [<- _]]. reflexivity. }
    apply flat_map_singletons. intros x Hx. apply in_map_iff in Hx.
    destruct Hx as [i [<- Hi]]. apply in_seq in Hi.
    change (Repos.tl_job_uid (BenchmarkScd.seeded_timelog now i))
      with (BenchmarkScd.numbered "job-uid-" i).
    rewrite (joined_numbered _ (@Django.uid Z) "job-uid-" BenchmarkScd.seeded_job
               (fun _ => eq_refl) n i) by lia.
    cbn [flat_map].
    change (Repos.tl_time_start (BenchmarkScd.seeded_timelog now i))
      with (now - BenchmarkScd.hours 2).
    change (Repos.tl_time_end (BenchmarkScd.seeded_timelog now i))
      with (now - BenchmarkScd.hours 1).
    rewrite Hfrom, Hto. reflexivity.
  - unfold Repos.find_line_items_by_contractor_and_period.
    cbn [Repos.jobs Repos.timelogs Repos.payment_line_items].
    rewrite seeded_rows_latest.
    2:{ intros x Hx. apply in_map_iff in Hx. destruct Hx as [i [<- _]]. reflexivity. }
    apply flat_map_singletons. intros x Hx. apply in_map_iff in Hx.
    destruct Hx as [i [<- Hi]]. apply in_seq in Hi.
    change (Repos.pli_job_uid (BenchmarkScd.seeded_payment_line_item i))
      with (BenchmarkScd.numbered "job-uid-" i).
    change (Repos.pli_timelog_uid (BenchmarkScd.seeded_payment_line_item i))
      with (BenchmarkScd.numbered "tl-uid-" i).
    rewrite (joined_numbered _ (@Django.uid Z) "job-uid-" BenchmarkScd.seeded_job
               (fun _ => eq_refl) n i) by lia.
    rewrite (joined_numbered _ Repos.tl_uid "tl-uid-" (BenchmarkScd.seeded_timelog now)
               (fun _ => eq_refl) n i) by lia.
    cbn [flat_map].
    change (Repos.tl_time_start (BenchmarkScd.seeded_timelog now i))
      with (now - BenchmarkScd.hours 2).
    change (Repos.tl_time_end (BenchmarkScd.seeded_timelog now i))
      with (now - BenchmarkScd.hours 1).
    rewrite Hfrom, Hto. reflexivity.
Qed.

Lemma benchmark_seeds_rows_that_every_query_returns_witness :
  exists seeded,
    BenchmarkScd.seed_data 2 (BenchmarkScd.hours 10) test_database = (inl tt, seeded)
    /\ List.length
         (Repos.find_line_items_by_contractor_and_period "cont1" (BenchmarkScd.hours 0)
            (BenchmarkScd.hours 24) seeded)
       = 2%nat.
Proof.
  destruct (benchmark_seeds_rows_that_every_query_returns 2 (BenchmarkScd.hours 10)
              (BenchmarkScd.hours 0) (BenchmarkScd.hours 24) test_database)
    as [seeded [Hrun [_ [_ [Hlen [_ [_ [_ Hpli]]]]]]]].
  - vm_compute. discriminate.
  - vm_compute. discriminate.
  - exists seeded. split; [exact Hrun|]. rewrite Hpli. exact Hlen.
Defined.
